(* ===== verification/_CoqProject ===== *)
-Q . S2P
Prelude.v
Errors.v
Bytes.v
StdMap.v
Heap.v
Buffer.v
Xpod.v
NestedMap.v
Convert.v
Decimal.v
DoubleText.v
Utf8.v
Serialization.v
Json.v
CircularBuffer.v
ItemRegistry.v
InterprocessMap.v
StableReferenceBuffer.v
MessageManager.v
MessageLog.v
Manager.v
SharedPtr.v
Singleton.v
ThreadSafe.v
Pointer.v
Handover.v
SharedArray.v
Random.v
Path.v
Wide.v
SharedMemory.v
Windows.v
Typing.v
Io.v
Thread.v
Logging.v
Platform.v
MacPlatform.v
WindowsPlatform.v
