(* ===== verification/Prelude.v ===== *)
(** * Cbeam: a verification library

    Cbeam is a header-only C++ library (include/cbeam/): containers, their
    binary and JSON serialization, text conversions, memory that several
    processes share, and message passing between threads.  This development
    translates its code into executable definitions and proves what makes each
    part correct.

    ** The parts and how they interact

    The bottom layer is the language: [Prelude] (integers of 32 and 64 bits,
    shared tactics and lemmas), [Errors] (error/*.hpp: the exception classes;
    the monads [outcome] and [M W], in which every fallible or stateful function
    is written: a value, a thrown exception, or undefined behaviour, with state
    that survives a throw), [Bytes] (object representations), [StdMap]
    ([std::map] as a list in key order, with its order as the class [KeyOrder]),
    [Heap] ([malloc], [realloc], [free]; the allocator is the class
    [Allocator]), [SharedPtr] (the counts of [std::shared_ptr]).

    Values.  [Xpod] (container/xpod.hpp, find.hpp) is the variant; [NestedMap]
    (container/nested_map.hpp) the recursive map over it; [Buffer]
    (container/buffer.hpp) the byte buffer that all serializers append to,
    through the interface [Stream]; [CircularBuffer], [ItemRegistry]
    (lifecycle/item_registry.hpp) and [SharedArray] (container/shared_array.hpp)
    stand alone.

    Representations.  [Serialization] (serialization/*.hpp) has the class
    [Traits] with its laws [TraitsLaws]: encoding appends, decoding inverts it
    and consumes its input; instances for integers, [bool], [double], strings,
    maps, nested maps and variants discharge them.  [Typing] adds that decoding
    any bytes yields values of the type.  [Json] (json/*.hpp) writes through the
    same streams.  [Convert], [Decimal] (the text of a [double]),
    [DoubleText] (reading it), [Wide]
    (convert/*.hpp) and [Utf8] (encoding/utf8.hpp) are the text conversions.

    Shared state.  [SharedMemory] (concurrency/named_recursive_mutex.hpp,
    memory/interprocess_shared_memory.hpp) builds the mutex and the segment from
    POSIX calls, the class [Posix], and [Windows] builds them, with the error
    messages of platform/windows_config.hpp, from calls of Windows, the class
    [Win32].  [InterprocessMap]
    (container/stable_interprocess_container.hpp, stable_interprocess_map.hpp)
    keeps a serialized map in a segment of fixed capacity and offers the interface
    [SharedMap], against which [StableReferenceBuffer]
    (container/stable_reference_buffer.hpp) counts the users of a memory block;
    [SharedMapUpdates] is what the counts need besides: an entry that is there can
    be changed and erased, while a new one may find no room; [Pointer] (memory/pointer.hpp) sits on
    top of that, and [Handover] composes them: memory passed on by its address
    inside a [delay_deallocation] scope.  [Singleton] (lifecycle/singleton.hpp) and [ThreadSafe]
    (container/thread_safe_*.hpp, lifecycle/scoped_set.hpp) share objects within
    a process.  [MessageManager] (concurrency/message_manager.hpp,
    threaded_object.hpp) is a step relation over one queue, its handler threads,
    senders and waiters; [MessageLog] adds the calls of the message logger, and
    [Manager] the maps from message ids to queues and handlers, and shows that
    each of its queues is such a one.

    Surroundings.  [Path] (filesystem/path.hpp) with the class [FileSystem];
    [Random] (random/generators.hpp) with the class [Generator]; [Io]
    (filesystem/io.hpp) has file streams with their buffers over the class
    [Files], and draws temporary names with [Random]; [Thread]
    (concurrency/thread.hpp, the time points of convert/string.hpp) has thread
    names, ids and time stamps; [Logging] (logging/log_manager.hpp,
    detail/logging_impl.hpp, filesystem/stdout_redirector.hpp) writes lines
    through the same files, as calls and as a step relation of threads that
    append at once; [Platform] (platform/*.hpp) asks the system for its folders,
    the binary, the clock and the build.  These are the branches for Linux;
    [MacPlatform] and [WindowsPlatform] have those of platform/*.hpp and
    concurrency/thread.hpp for macOS and Windows.

    Definitions keep the source's names; a class's methods carry a prefix
    ([cb_], [srb_], [im_], [ts_], [tm_], [te_], ...) where several classes have
    the same one.  A class's fields are a record; a method is a function in [M]
    over that record and what it shares with others.

    ** What is shown

    - Memory: after every run of operations that return, in which the allocator,
      while scopes are open, reuses no address that one of them found and moves no
      block, use counts are exact and blocks live, nothing leaks, an append is seen
      by its own instance only ([StableReferenceBuffer], where examples show what
      happens otherwise); in such runs pointers keep their memory
      ([Pointer]); a block that appears in a scope outlives its owners until the
      scope ends, and can be found again by its address ([Handover]); buffers are
      all or nothing and copy deeply ([Buffer]); shared arrays are freed with
      their last pointer ([SharedArray]).
    - Messages: none is handled twice, none is lost while no handler is destroyed,
      [wait_until_empty] is right, no wakeup is lost, at rest all are handled if no
      handler was stopped, a FIFO handler keeps the order, and the threads' own
      steps end ([MessageManager]); a logger hears of each
      message from both sides ([MessageLog]); ids do not interact
      ([Manager]).
    - Lifetimes and sharing: singletons whose constructors and destructors use no
      singletons live exactly as long as they are referred to, one per name;
      thread-safe containers refine [std::map], and withstand code of their
      elements that uses the guarded operations; the constructor of a shared
      segment leaks nothing whatever call fails, of POSIX ([SharedMemory]; the
      attribute object of a mutex may be left) or of Windows ([Windows]; an
      abandoned mutex stays owned, and a wait that fails is not noticed);
      the shared map's operations are atomic on its bytes.
    - Representations: round trips of nested maps in binary and JSON, of numbers,
      escapes and wide strings; termination of decoding on every input; error
      behaviour on invalid input; the type invariant of every nested map that can
      be built; which texts count as UTF-8; the listing a map prints as; how
      close the six digits of a printed [double] are, and that reading and
      printing keeps them; that a time stamp reads back.
    - Files and logs: what is written is read in a run in which no call of the
      system fails, temporary names are free when drawn and the loop for one ends
      ([Io]); on a working system a log holds its start line, the messages and its
      end line, as far as the locale can convert them, and what several threads
      append is not mixed ([Logging]);
      the path of the binary is read as a whole, however long ([Platform],
      [WindowsPlatform], [MacPlatform]); folders are returned only if they exist,
      and what the calls of Windows leave behind is stated exactly.
    - Abstract views: the ring buffer is the list of its last elements, [merge]
      and assignment are the right-biased union and the copy, the registry is a
      set of distinct numbers as long as only held ones are given back, a
      normalized path is its resolved names.

    Where the code does not do what it means to, an [Example] evaluates it on a
    concrete input; the theorem beside it states what holds.

    ** Bounds and fuel

    Loops over untrusted bytes take fuel ([insert_entries],
    [nested_deserialize_with]); every element occupies a byte, so the length of the
    input is enough, and a theorem says that no loop runs out: neither more fuel
    nor another answer for a loop without fuel changes the result.  Printing
    numbers has fuel for one digit per bit, enough in any base.  The loop for a
    temporary name has the number of draws as fuel, and ends when one of them is
    free; the buffer for the path of the binary can double 54 times from 1024
    bytes before its size leaves the range of [std::size_t]; on Windows 23 rounds
    from 1024 units are given, of which six are enough for the longest path of
    32767 units; the loops over the
    clock take fuel as an argument.  [std::size_t] wraps at
    2^64 wherever the code computes with it, [int] counts must stay below 2^31
    in the theorems on reference counts, stated there.

    ** Interfaces to code outside the library

    The allocator, POSIX ([Posix], [Threads], [Stdio]), Windows ([Win32],
    [WindowsShell]), macOS ([MacOS]), [std::filesystem] and its files ([FileSystem], [Files]), random engines ([Generator]), what the log
    asks for ([LogSystem]) and what is known of the platform ([Platform]) are
    classes of operations with laws that state their documented behaviour; each
    has an instance by concrete functions, on which the witnesses run.  The laws of
    [Files] count the calls that fail, so that a theorem can speak of a run in
    which none did.  User code (handlers, comparisons, constructors, destructors,
    updaters) is an argument.

    ** Not modelled

    The id of the process (concurrency/process.hpp), a call of the system;
    version.hpp, compiler_compatibility.hpp and the configuration headers: no
    logic.  logging/logger.hpp does not compile.  Paths and files ([Path], [Io],
    [Logging]) are those of POSIX.  Interleavings inside a critical section are not steps: the mutex
    excludes them. *)

From Stdlib Require Export Ascii String Sorted.
From stdpp Require Export prelude list list_numbers gmap strings.

(** [std::string], byte buffers and shared memory regions are sequences of
    bytes; a byte is an [ascii], which carries the range 0..255 in its type. *)
Abbreviation byte := ascii.
Abbreviation bytes := (list ascii).

Declare Scope cbeam_scope.
Delimit Scope cbeam_scope with cbeam.

(** A string literal of the source as a [std::string]. *)
Abbreviation str s := (list_ascii_of_string s%string).

(** ** Machine integers (LP64: [std::size_t] has 64 bits, [int] 32). *)

Open Scope Z_scope.

Definition size_bits : Z := 64.
Definition size_max : Z := 2 ^ size_bits - 1.
Definition size_t (z : Z) : Z := z mod 2 ^ size_bits.
Definition is_size_t (z : Z) : Prop := 0 <= z <= size_max.
Definition is_int (z : Z) : Prop := - 2 ^ 31 <= z < 2 ^ 31.
Definition is_long_long (z : Z) : Prop := - 2 ^ 63 <= z < 2 ^ 63.

#[export] Instance is_size_t_dec z : Decision (is_size_t z).
Proof. unfold is_size_t. apply _. Defined.
#[export] Instance is_int_dec z : Decision (is_int z).
Proof. unfold is_int. apply _. Defined.
#[export] Instance is_long_long_dec z : Decision (is_long_long z).
Proof. unfold is_long_long. apply _. Defined.

Lemma size_t_id z : is_size_t z -> size_t z = z.
Proof. intros H. apply Z.mod_small. unfold is_size_t, size_max in H. lia. Qed.

Lemma size_t_range z : is_size_t (size_t z).
Proof.
  unfold is_size_t, size_t, size_max, size_bits.
  pose proof (Z.mod_pos_bound z (2 ^ 64) ltac:(lia)). lia.
Qed.

Create HintDb cbeam.
Create Rewrite HintDb cbeam.
#[export] Hint Resolve size_t_id size_t_range : cbeam.

(** ** Tactics of the development *)

(** Split conjunctions and existentials of the hypotheses. *)
Ltac break_hyps :=
  repeat match goal with
  | H : _ /\ _ |- _ => destruct H
  | H : exists _, _ |- _ => destruct H
  end.

(** Case analysis on the innermost [match] of a hypothesis or of the goal,
    remembering the scrutinee. *)
Ltac case_match_in H :=
  match type of H with
  | context [match ?x with _ => _ end] =>
      lazymatch x with
      | context [match _ with _ => _ end] => fail
      | _ => let E := fresh "E" in destruct x eqn:E
      end
  end.

(** ** Lists *)

Section lists.
Context {A : Type}.

Lemma take_app_exact (l k : list A) n : length l = n -> take n (l ++ k) = l.
Proof. intros <-. apply take_app_length. Qed.

Lemma drop_app_exact (l k : list A) n : length l = n -> drop n (l ++ k) = k.
Proof. intros <-. apply drop_app_length. Qed.
Lemma take_S_app (l k : list A) x n : length l = n -> take (S n) (l ++ x :: k) = l ++ [x].
Proof.
  intros <-. rewrite cons_middle, app_assoc. apply take_app_exact.
  rewrite length_app. simpl. lia.
Qed.

Lemma drop_S_app (l k : list A) x n : length l = n -> drop (S n) (l ++ x :: k) = k.
Proof.
  intros <-. rewrite cons_middle, app_assoc. apply drop_app_exact.
  rewrite length_app. simpl. lia.
Qed.
End lists.
