(* ===== verification/Errors.v ===== *)
(** * Errors: the exception classes of [cbeam::error] and the effect monads

    Models [error/*.hpp]: each class with its direct bases, which handler
    catches which exception, and which text [what()] returns through a
    reference of a given static type.  The two monads of the development live
    here too: [outcome] (a value, a thrown exception, or undefined behaviour)
    and [M W] (the same with a state that survives a throw, as in C++). *)

From S2P Require Import Prelude.

(** ** The class hierarchy *)

Inductive eclass : Type :=
| base_error                (* cbeam::error::base_error *)
| runtime_error             (* cbeam::error::runtime_error *)
| logic_error               (* cbeam::error::logic_error *)
| out_of_range              (* cbeam::error::out_of_range *)
| overflow_error            (* cbeam::error::overflow_error *)
| bad_alloc                 (* cbeam::error::bad_alloc *)
| system_error              (* cbeam::error::system_error *)
| std_exception
| std_runtime_error
| std_logic_error
| std_out_of_range
| std_overflow_error
| std_bad_alloc
| std_system_error
| std_bad_function_call
| std_length_error.

#[export] Instance eclass_eq_dec : EqDecision eclass.
Proof. solve_decision. Defined.

(** A class declaration of [error/*.hpp]: the direct bases, the text the
    constructor hands to the standard base given its message, and the class
    whose [what()] the override forwards to ([None]: no override). *)
Record class_decl : Type := ClassDecl {
  decl_bases : list eclass;
  decl_text : string -> string;
  decl_what : option eclass;
}.

(** [base_error] has no base; its [what()] is not virtual. *)
Definition base_error_class : class_decl := ClassDecl [] (fun _ => "cbeam::error::base_error"%string) None.

Definition runtime_error_class : class_decl :=
  ClassDecl [base_error; std_runtime_error] (fun what_arg => what_arg) (Some std_runtime_error).

Definition logic_error_class : class_decl :=
  ClassDecl [base_error; std_logic_error] (fun what_arg => what_arg) (Some std_logic_error).

Definition out_of_range_class : class_decl :=
  ClassDecl [base_error; std_out_of_range] (fun what_arg => what_arg) (Some std_out_of_range).

Definition overflow_error_class : class_decl :=
  ClassDecl [base_error; std_overflow_error] (fun what_arg => what_arg) (Some std_overflow_error).

(** The constructor takes no message. *)
Definition bad_alloc_class : class_decl :=
  ClassDecl [base_error; std_bad_alloc] (fun _ => "std::bad_alloc"%string) None.

(** The message of [errno] follows the message given ([std::system_error]
    joins them with a colon). *)
Definition system_error_class (errno_text : string) : class_decl :=
  ClassDecl [base_error; std_system_error]
    (fun message => (message ++ ": " ++ errno_text)%string) (Some std_system_error).

(** The direct base classes: those of [error/*.hpp] and of the standard
    library's [<stdexcept>], [<new>] and [<system_error>]. *)
Definition bases (c : eclass) : list eclass :=
  match c with
  | base_error => decl_bases base_error_class
  | runtime_error => decl_bases runtime_error_class
  | logic_error => decl_bases logic_error_class
  | out_of_range => decl_bases out_of_range_class
  | overflow_error => decl_bases overflow_error_class
  | bad_alloc => decl_bases bad_alloc_class
  | system_error => decl_bases (system_error_class "")
  | std_exception => []
  | std_runtime_error | std_logic_error
  | std_bad_alloc | std_bad_function_call => [std_exception]
  | std_out_of_range | std_length_error => [std_logic_error]
  | std_overflow_error | std_system_error => [std_runtime_error]
  end.

(** [derives n h c]: [h] is [c] or one of its bases, up to [n] levels up; the
    hierarchy has four levels. *)
Fixpoint derives (n : nat) (h c : eclass) : bool :=
  bool_decide (h = c) ||
  match n with
  | O => false
  | S n => existsb (derives n h) (bases c)
  end.

(** A thrown object: its dynamic class and its text. *)
Record exn : Type := Exn { exn_class : eclass; exn_text : string }.

(** [catch (const h&)]. *)
Definition catches (h : eclass) (e : exn) : bool := derives 3 h (exn_class e).

Definition is_cbeam (c : eclass) : bool := derives 3 base_error c.
Definition is_std (c : eclass) : bool := derives 3 std_exception c.

(** The declaration behind a class, for the classes of [error/*.hpp]. *)
Definition decl_of (c : eclass) : option class_decl :=
  match c with
  | base_error => Some base_error_class
  | runtime_error => Some runtime_error_class
  | logic_error => Some logic_error_class
  | out_of_range => Some out_of_range_class
  | overflow_error => Some overflow_error_class
  | bad_alloc => Some bad_alloc_class
  | system_error => Some (system_error_class "")
  | _ => None
  end.

(** [e.what()] through a reference of static type [h].  [base_error::what] is
    not virtual, so a [base_error&] gives the fixed text.
    [std::exception::what] is virtual: the override of a class of
    [error/*.hpp] forwards to its standard base, which holds the text.
    [None]: no [what] is found, or both bases offer one (an ambiguous call). *)
Definition what (h : eclass) (e : exn) : option string :=
  if bool_decide (h = base_error) then Some (decl_text base_error_class "")
  else if negb (is_std h) then None
  else match decl_of h with
  | Some d => match decl_what d with Some _ => Some (exn_text e) | None => None end
  | None => Some (exn_text e)
  end.

(** ** The error monad *)

Inductive outcome (A : Type) : Type :=
| Ok (a : A)
| Throw (e : exn)
| UB.
Arguments Ok {A} a.
Arguments Throw {A} e.
Arguments UB {A}.

#[export] Instance outcome_ret : MRet outcome := fun A => Ok.
#[export] Instance outcome_bind : MBind outcome := fun A B f m =>
  match m with Ok a => f a | Throw e => Throw e | UB => UB end.
#[export] Instance outcome_fmap : FMap outcome := fun A B f m =>
  match m with Ok a => Ok (f a) | Throw e => Throw e | UB => UB end.

#[export] Instance exn_eq_dec : EqDecision exn.
Proof. solve_decision. Defined.
#[export] Instance outcome_eq_dec `{EqDecision A} : EqDecision (outcome A).
Proof. solve_decision. Defined.

Abbreviation throw c text := (Throw (Exn c text)).

Lemma outcome_bind_Ok {A B} (f : A -> outcome B) (m : outcome A) b :
  (a ← m; f a) = Ok b <-> exists a, m = Ok a /\ f a = Ok b.
Proof. destruct m; simpl; naive_solver. Qed.

Lemma outcome_bind_assoc {A B C} (m : outcome A) (f : A -> outcome B) (g : B -> outcome C) :
  (b ← (a ← m; f a); g b) = (a ← m; b ← f a; g b).
Proof. by destruct m. Qed.

(** Turn a successful [bind] of the hypotheses into its parts. *)
Ltac inv_ok :=
  unfold mret, outcome_ret in *;
  repeat match goal with
  | H : (_ ≫= _) = Ok _ |- _ => apply outcome_bind_Ok in H as (? & ? & ?)
  | H : Throw _ = Ok _ |- _ => discriminate H
  | H : UB = Ok _ |- _ => discriminate H
  | H : Ok _ = Ok _ |- _ => simplify_eq/=
  end.

(** ** State and exceptions

    A throw keeps the state changes made before it: C++ does not roll back. *)

Definition M (W A : Type) : Type := W -> outcome A * W.

#[export] Instance M_ret {W} : MRet (M W) := fun A a w => (Ok a, w).
#[export] Instance M_bind {W} : MBind (M W) := fun A B f m w =>
  match m w with
  | (Ok a, w') => f a w'
  | (Throw e, w') => (Throw e, w')
  | (UB, w') => (UB, w')
  end.

Definition get {W} : M W W := fun w => (Ok w, w).
Definition put {W} (w : W) : M W unit := fun _ => (Ok tt, w).
Definition modify {W} (f : W -> W) : M W unit := fun w => (Ok tt, f w).
Definition raise {W A} (c : eclass) (text : string) : M W A :=
  fun w => (throw c text, w).
Definition undefined {W A} : M W A := fun w => (UB, w).

(** [try { m } catch (const h&) { k }], and [catch (...)]. *)
Definition try_catch {W A} (m : M W A) (h : eclass) (k : exn -> M W A) : M W A := fun w =>
  match m w with
  | (Throw e, w') => if catches h e then k e w' else (Throw e, w')
  | r => r
  end.
Definition try_all {W A} (m : M W A) (k : M W A) : M W A := fun w =>
  match m w with
  | (Throw _, w') => k w'
  | r => r
  end.

(** A guard's destructor, which runs however its scope is left, and the
    destructors that a throw out of a constructor's body runs; one that throws
    calls [std::terminate]. *)
Definition on_exit {W A} (cleanup : M W unit) (body : M W A) : M W A := fun w =>
  match body w with
  | (UB, w') => (UB, w')
  | (r, w') => match cleanup w' with (Ok _, w'') => (r, w'') | (_, w'') => (UB, w'') end
  end.
Definition on_throw {W A} (cleanup : M W unit) (body : M W A) : M W A := fun w =>
  match body w with
  | (Throw e, w') => match cleanup w' with (Ok _, w'') => (Throw e, w'') | (_, w'') => (UB, w'') end
  | r => r
  end.

Lemma M_bind_Ok {W A B} (m : M W A) (f : A -> M W B) w b w'' :
  (a ← m; f a) w = (Ok b, w'') <->
  exists a w', m w = (Ok a, w') /\ f a w' = (Ok b, w'').
Proof.
  unfold mbind, M_bind. split.
  - destruct (m w) as [[a| |] w'] eqn:E; naive_solver.
  - intros (a & w' & -> & ?). done.
Qed.

Lemma M_bind_step {W A B} (m : M W A) (f : A -> M W B) w a w' :
  m w = (Ok a, w') -> (x ← m; f x) w = f a w'.
Proof. unfold mbind, M_bind. by intros ->. Qed.

Lemma M_bind_assoc {W A B C} (m : M W A) (f : A -> M W B) (g : B -> M W C) w :
  (b ← (a ← m; f a); g b) w = (a ← m; b ← f a; g b) w.
Proof. unfold mbind, M_bind. by destruct (m w) as [[| |] ?]. Qed.

(** Run the first command of a sequence, given what it returns. *)
Ltac step_with H := rewrite (M_bind_step _ _ _ _ _ H).

(** ** Weakest preconditions *)

(** The call returns; [P] holds of its answer and of the state. *)
Definition returns {W A} (m : M W A) (P : A -> W -> Prop) (w : W) : Prop :=
  exists a w', m w = (Ok a, w') /\ P a w'.

Definition wp {W A} (m : M W A) (Q : outcome A -> W -> Prop) (w : W) : Prop := let '(r, w') := m w in Q r w'.

Lemma wp_call {W A B} (m : M W A) (f : A -> M W B) P Q w :
  returns m P w -> (forall a w', P a w' -> wp (f a) Q w') -> wp (a ← m; f a) Q w.
Proof. intros (a & w' & E & HP) HQ. unfold wp. rewrite (M_bind_step _ _ _ _ _ E). by apply HQ. Qed.

Lemma wp_bind {W A B} (m : M W A) (f : A -> M W B) Q w :
  wp m (fun r w' => match r with Ok a => wp (f a) Q w' | Throw e => Q (Throw e) w' | UB => Q UB w' end) w ->
  wp (a ← m; f a) Q w.
Proof. unfold wp, mbind, M_bind. by destruct (m w) as [[] ?]. Qed.

Lemma wp_mono {W A} (m : M W A) (P Q : outcome A -> W -> Prop) w :
  wp m P w -> (forall r w', P r w' -> Q r w') -> wp m Q w.
Proof. unfold wp. destruct (m w). auto. Qed.

Lemma wp_raise {W A} c msg (Q : outcome A -> W -> Prop) w : Q (throw c msg) w -> wp (raise c msg) Q w.
Proof. done. Qed.

Lemma wp_ret {W A} (a : A) (Q : outcome A -> W -> Prop) w : Q (Ok a) w -> wp (mret a) Q w.
Proof. done. Qed.

Lemma wp_on_exit {W A} (cleanup : M W unit) (body : M W A) (Q : outcome A -> W -> Prop) w :
  wp body (fun r w' => match r with
    | UB => Q UB w'
    | _ => wp cleanup (fun c w'' => match c with Ok _ => Q r w'' | _ => Q UB w'' end) w'
    end) w ->
  wp (on_exit cleanup body) Q w.
Proof. unfold wp, on_exit. destruct (body w) as [[a|e|] w']; [| |done]; by destruct (cleanup w') as [[] ?]. Qed.

Lemma wp_on_throw {W A} (cleanup : M W unit) (body : M W A) (Q : outcome A -> W -> Prop) w :
  wp body (fun r w' => match r with
    | Throw e => wp cleanup (fun c w'' => match c with Ok _ => Q (Throw e) w'' | _ => Q UB w'' end) w'
    | _ => Q r w'
    end) w ->
  wp (on_throw cleanup body) Q w.
Proof. unfold wp, on_throw. destruct (body w) as [[a|e|] w']; [done| |done]; by destruct (cleanup w') as [[] ?]. Qed.

Lemma returns_wp {W A} (m : M W A) (P : A -> W -> Prop) (Q : outcome A -> W -> Prop) w :
  returns m P w -> (forall a w', P a w' -> Q (Ok a) w') -> wp m Q w.
Proof. intros (a & w' & E & HP) HQ. unfold wp. rewrite E. auto. Qed.

Lemma returns_bind {W A B} (m : M W A) (f : A -> M W B) P Q w :
  returns m P w -> (forall a w', P a w' -> returns (f a) Q w') -> returns (a ← m; f a) Q w.
Proof. intros (a & w' & E & HP) HQ. destruct (HQ a w' HP) as (b & w'' & E' & HQ'). exists b, w''. by step_with E. Qed.

Lemma returns_step {W A B} (m : M W A) (f : A -> M W B) Q w a w' :
  m w = (Ok a, w') -> returns (f a) Q w' -> returns (x ← m; f x) Q w.
Proof. intros E HQ. unfold returns. by rewrite (M_bind_step _ _ _ _ _ E). Qed.

(** The equation of the call itself, for a postcondition that speaks of it. *)
Lemma returns_call {W A} (m : M W A) (P : A -> W -> Prop) w :
  returns m P w -> returns m (fun a w' => m w = (Ok a, w') /\ P a w') w.
Proof. intros (a & w' & E & HP). by exists a, w'. Qed.

Lemma returns_and {W A} (m : M W A) (P Q : A -> W -> Prop) w :
  returns m P w -> returns m Q w -> returns m (fun a w' => P a w' /\ Q a w') w.
Proof. intros (a & w' & E & HP) (b & w2 & E2 & HQ). rewrite E in E2. simplify_eq. by exists b, w2. Qed.

Lemma returns_mono {W A} (m : M W A) (P Q : A -> W -> Prop) w :
  returns m P w -> (forall a w', P a w' -> Q a w') -> returns m Q w.
Proof. intros (a & w' & E & HP) HQ. exists a, w'. auto. Qed.

Lemma returns_ret {W A} (a : A) (Q : A -> W -> Prop) w : Q a w -> returns (mret a) Q w.
Proof. intros HQ. by exists a, w. Qed.

(** A call whose result is known. *)
Lemma returns_known {W A} (m : M W A) w a w' : m w = (Ok a, w') -> returns m (fun b w'' => b = a /\ w'' = w') w.
Proof. intros E. by exists a, w'. Qed.

(** ** What a handler sees *)

Lemma derives_refl n c : derives n c c = true.
Proof. destruct n; simpl; by rewrite bool_decide_eq_true_2. Qed.

(** The hierarchy the class comments promise: an exception of a class of
    [cbeam::error] below [base_error] is caught by [catch (const base_error&)],
    by [catch (const std::exception&)] and by the standard class it shadows,
    whose [what()] gives the text; a [base_error&] always gives the fixed text;
    and no purely standard exception is caught by [base_error]. *)
Theorem cbeam_errors_caught e h :
  h ∈ bases (exn_class e) -> h <> base_error -> is_cbeam (exn_class e) = true ->
  catches base_error e = true /\ catches std_exception e = true /\ catches h e = true /\
  what h e = Some (exn_text e) /\ what std_exception e = Some (exn_text e) /\
  what base_error e = Some "cbeam::error::base_error"%string /\
  catches base_error (Exn h (exn_text e)) = false.
Proof.
  destruct e as [[] t]; unfold catches, is_cbeam; simpl;
    intros Hb Hn Hc; try discriminate Hc;
    repeat (apply elem_of_cons in Hb as [->|Hb]; [try done; vm_compute; auto 8|]);
    by apply elem_of_nil in Hb.
Qed.

Lemma cbeam_errors_caught_witness :
  std_out_of_range ∈ bases out_of_range /\ catches std_exception (Exn out_of_range "x") = true.
Proof.
  split; [vm_compute; by right; left|].
  apply (cbeam_errors_caught (Exn out_of_range "x") std_out_of_range);
    [vm_compute; by right; left|done|reflexivity].
Defined.
