(* ===== verification/Bytes.v ===== *)
(** * Bytes: the object representation of integers

    [memcpy] of an integer into a buffer and back, as
    [serialization/traits.hpp] does it with [sizeof(val)] bytes: little-endian,
    two's complement, on the LP64 platforms the library targets. *)

From S2P Require Import Prelude Errors.

(** The value of a byte, 0..255, and the byte of a value. *)
Definition byte_val (b : byte) : Z := Z.of_N (N_of_ascii b).
Definition byte_of (z : Z) : byte := ascii_of_N (Z.to_N (z mod 256)).

(** [n] bytes of [z], least significant first. *)
Fixpoint le_encode (n : nat) (z : Z) : bytes :=
  match n with
  | O => []
  | S n => byte_of z :: le_encode n (Z.shiftr z 8)
  end.

Fixpoint le_decode (bs : bytes) : Z :=
  match bs with
  | [] => 0
  | b :: bs => byte_val b + 256 * le_decode bs
  end.

(** Two's complement: the signed value of [n] bytes. *)
Definition le_decode_signed (bs : bytes) : Z :=
  let z := le_decode bs in
  let w := 8 * Z.of_nat (length bs) in
  if bool_decide (z < 2 ^ (w - 1)) then z else z - 2 ^ w.

Lemma byte_val_range b : 0 <= byte_val b < 256.
Proof. unfold byte_val. pose proof (N_ascii_bounded b). lia. Qed.

Lemma byte_val_of z : byte_val (byte_of z) = z mod 256.
Proof.
  unfold byte_val, byte_of. pose proof (Z.mod_pos_bound z 256 ltac:(lia)).
  rewrite N_ascii_embedding; lia.
Qed.

Lemma byte_val_of_small z : 0 <= z < 256 -> byte_val (byte_of z) = z.
Proof. intros Hz. rewrite byte_val_of. by apply Z.mod_small. Qed.

Lemma byte_of_val b : byte_of (byte_val b) = b.
Proof.
  unfold byte_of. rewrite Z.mod_small by apply byte_val_range.
  unfold byte_val. rewrite N2Z.id. apply ascii_N_embedding.
Qed.

Lemma byte_val_inj b c : byte_val b = byte_val c -> b = c.
Proof. intros H. by rewrite <- (byte_of_val b), H, byte_of_val. Qed.

Lemma length_le_encode n z : length (le_encode n z) = n.
Proof. revert z. induction n as [|n IH]; intros z; simpl; [done|by rewrite IH]. Qed.

Lemma le_decode_range bs : 0 <= le_decode bs < 2 ^ (8 * Z.of_nat (length bs)).
Proof.
  induction bs as [|b bs IH]; simpl; [done|].
  pose proof (byte_val_range b).
  replace (8 * Z.of_nat (S (length bs))) with (8 + 8 * Z.of_nat (length bs)) by lia.
  rewrite Z.pow_add_r by lia. change (2 ^ 8) with 256. lia.
Qed.

Lemma le_decode_encode_mod n z : le_decode (le_encode n z) = z mod 2 ^ (8 * Z.of_nat n).
Proof.
  revert z. induction n as [|n IH]; intros z; simpl; [by rewrite Z.mod_1_r|].
  rewrite IH, byte_val_of, Z.shiftr_div_pow2 by lia. change (2 ^ 8) with 256.
  replace (8 * Z.of_nat (S n)) with (8 + 8 * Z.of_nat n) by lia.
  rewrite Z.pow_add_r by lia. change (2 ^ 8) with 256.
  rewrite Z.rem_mul_r by lia. lia.
Qed.

Lemma le_decode_encode n z :
  0 <= z < 2 ^ (8 * Z.of_nat n) -> le_decode (le_encode n z) = z.
Proof. intros H. rewrite le_decode_encode_mod. by apply Z.mod_small. Qed.

Lemma le_encode_decode bs : le_encode (length bs) (le_decode bs) = bs.
Proof.
  induction bs as [|b bs IH]; simpl; [done|]. pose proof (byte_val_range b).
  rewrite Z.shiftr_div_pow2 by lia. change (2 ^ 8) with 256.
  replace ((byte_val b + 256 * le_decode bs) / 256) with (le_decode bs)
    by (apply Z.div_unique with (byte_val b); lia).
  rewrite IH. f_equal. rewrite <- (byte_of_val b) at 2.
  unfold byte_of. rewrite Z.mul_comm, Z_mod_plus_full. done.
Qed.

Lemma le_encode_wrap n z : le_encode n (z mod 2 ^ (8 * Z.of_nat n)) = le_encode n z.
Proof.
  rewrite <- le_decode_encode_mod.
  rewrite <- (length_le_encode n z) at 1. apply le_encode_decode.
Qed.

Lemma le_decode_signed_encode n z :
  (0 < n)%nat -> - 2 ^ (8 * Z.of_nat n - 1) <= z < 2 ^ (8 * Z.of_nat n - 1) ->
  le_decode_signed (le_encode n z) = z.
Proof.
  intros Hn Hz. unfold le_decode_signed.
  rewrite length_le_encode, le_decode_encode_mod.
  set (w := 8 * Z.of_nat n) in *.
  assert (2 ^ w = 2 * 2 ^ (w - 1)) as Hw.
  { replace w with (1 + (w - 1)) at 1 by lia. rewrite Z.pow_add_r by lia. lia. }
  pose proof (Z.pow_pos_nonneg 2 (w - 1) ltac:(lia) ltac:(lia)).
  destruct (decide (0 <= z)).
  - rewrite Z.mod_small by lia. rewrite bool_decide_eq_true_2 by lia. done.
  - rewrite <- (Z.mod_unique_pos z (2 ^ w) (-1) (z + 2 ^ w)) by lia.
    rewrite bool_decide_eq_false_2 by lia. lia.
Qed.

(** Read [n] bytes at the position: running off the end of the block is
    undefined behaviour. *)
Definition read_bytes (n : nat) (it : bytes) : outcome (bytes * bytes) :=
  if bool_decide (n <= length it)%nat then Ok (take n it, drop n it) else UB.

Lemma read_bytes_app n l rest : length l = n -> read_bytes n (l ++ rest) = Ok (l, rest).
Proof.
  intros H. unfold read_bytes. rewrite bool_decide_eq_true_2
    by (rewrite length_app; lia).
  by rewrite take_app_exact, drop_app_exact.
Qed.

Lemma read_bytes_Ok n it l rest :
  read_bytes n it = Ok (l, rest) -> it = l ++ rest /\ length l = n.
Proof.
  unfold read_bytes. case_bool_decide; intros ?; inv_ok.
  rewrite take_drop, length_take. split; [done|lia].
Qed.

#[export] Hint Resolve length_le_encode byte_val_range : cbeam.
#[export] Hint Rewrite length_le_encode le_encode_decode : cbeam.

(** A size in front of an encoding stays folded. *)
#[global] Arguments le_encode : simpl never.
