(* ===== verification/StdMap.v ===== *)
(** * StdMap: [std::map]

    The ordered map of the standard library, as far as the source uses it: an
    association list kept strictly increasing in the keys, which is the order
    [begin()..end()] iterates in (serialization and printing depend on it).
    [KeyOrder] is [std::less] of a key type; the instances are the key types
    the library and its tests use. *)

From S2P Require Import Prelude Errors Bytes.

(** ** [std::less] *)

Class KeyOrder (K : Type) := key_ltb : K -> K -> bool.

Class KeyOrderLaws (K : Type) `{KeyOrder K} := {
  key_ltb_irrefl a : key_ltb a a = false;
  key_ltb_trans a b c : key_ltb a b = true -> key_ltb b c = true -> key_ltb a c = true;
  key_ltb_total a b : key_ltb a b = false -> key_ltb b a = false -> a = b;
}.

Lemma key_ltb_asym {K} `{KeyOrderLaws K} a b : key_ltb a b = true -> key_ltb b a = false.
Proof.
  intros Hab. destruct (key_ltb b a) eqn:Hba; [|done].
  by rewrite <- (key_ltb_irrefl a), (key_ltb_trans a b a).
Qed.

#[export] Hint Rewrite @key_ltb_irrefl using typeclasses eauto : cbeam.

(** [int], [long long], [std::size_t] and addresses. *)
#[export] Instance Z_order : KeyOrder Z := Z.ltb.
#[export] Instance Z_order_laws : KeyOrderLaws Z.
Proof. split; unfold key_ltb, Z_order; intros; lia. Qed.

#[export] Instance bool_order : KeyOrder bool := fun a b => negb a && b.
#[export] Instance bool_order_laws : KeyOrderLaws bool.
Proof. split; unfold key_ltb, bool_order; intros; by repeat match goal with b : bool |- _ => destruct b end. Qed.

(** [std::string]: lexicographic in the unsigned byte values. *)
Fixpoint bytes_ltb (s t : bytes) : bool :=
  match s, t with
  | _, [] => false
  | [], _ :: _ => true
  | a :: s, b :: t =>
      (byte_val a <? byte_val b) || ((byte_val a =? byte_val b) && bytes_ltb s t)
  end.
#[export] Instance bytes_order : KeyOrder bytes := bytes_ltb.
#[export] Instance bytes_order_laws : KeyOrderLaws bytes.
Proof.
  split; unfold key_ltb, bytes_order.
  - induction a as [|x a IH]; simpl; [done|]. rewrite IH. lia.
  - induction a as [|x a IH]; intros [|y b] [|z c]; simpl; try done.
    intros Hab Hbc. specialize (IH b c).
    destruct (bytes_ltb a b), (bytes_ltb b c), (bytes_ltb a c); intuition lia.
  - induction a as [|x a IH]; intros [|y b]; simpl; try done.
    intros H1 H2.
    apply orb_false_iff in H1 as [H1 H1'], H2 as [H2 H2'].
    assert (byte_val x = byte_val y) as Hxy by lia.
    rewrite Hxy, Z.eqb_refl in *. f_equal; [by apply byte_val_inj|by apply IH].
Qed.

(** ** The map *)

Section stdmap.
Context {K V : Type} `{KeyOrder K}.
Implicit Types (k : K) (v : V) (m : list (K * V)).

(** [find(k)]; two keys are the same when neither is less. *)
Fixpoint map_find k m : option V :=
  match m with
  | [] => None
  | (k', v') :: m =>
      if key_ltb k' k then map_find k m
      else if key_ltb k k' then None else Some v'
  end.

(** [m[k] = v]. *)
Fixpoint map_assign k v m : list (K * V) :=
  match m with
  | [] => [(k, v)]
  | (k', v') :: m =>
      if key_ltb k' k then (k', v') :: map_assign k v m
      else if key_ltb k k' then (k, v) :: (k', v') :: m
      else (k', v) :: m
  end.

(** [insert({k, v})]: an existing element is kept; the flag says whether the
    insertion took place. *)
Definition map_insert k v m : list (K * V) * bool :=
  match map_find k m with
  | Some _ => (m, false)
  | None => (map_assign k v m, true)
  end.

(** [erase(k)], with the number of elements removed. *)
Fixpoint map_erase k m : list (K * V) * Z :=
  match m with
  | [] => ([], 0)
  | (k', v') :: m =>
      if key_ltb k' k then let '(m', n) := map_erase k m in ((k', v') :: m', n)
      else if key_ltb k k' then ((k', v') :: m, 0) else (m, 1)
  end.

Definition map_count k m : Z := if map_find k m is Some _ then 1 else 0.
Definition map_size m : Z := Z.of_nat (length m).

(** [at(k)]. *)
Definition map_at k m : outcome V :=
  match map_find k m with
  | Some v => Ok v
  | None => throw std_out_of_range "map::at"%string
  end.

(** The invariant: strictly increasing keys. *)
Definition map_wf m : Prop :=
  StronglySorted (fun x y => key_ltb x.1 y.1 = true) m.
End stdmap.

Section stdmap_laws.
Context {K V : Type} `{KeyOrderLaws K}.
Implicit Types (k : K) (v : V) (m : list (K * V)).

(** The two tests of an entry decide how its key compares with [k]. *)
Ltac key_cases k' k :=
  let E1 := fresh "Hlt" in let E2 := fresh "Hgt" in
  destruct (key_ltb k' k) eqn:E1;
  [ pose proof (key_ltb_asym k' k E1)
  | destruct (key_ltb k k') eqn:E2;
    [|assert (k' = k) as -> by (by apply key_ltb_total); clear E1 E2] ].

Lemma map_wf_nil : map_wf ([] : list (K * V)).
Proof. constructor. Qed.

Lemma map_wf_cons_inv x m : map_wf (x :: m) -> map_wf m.
Proof. intros Hm. by apply StronglySorted_inv in Hm as [? _]. Qed.

Lemma map_find_below k m :
  Forall (fun y => key_ltb k y.1 = true) m -> map_find k m = None.
Proof.
  destruct 1 as [|[k' v'] m Hk _]; simpl in *; [done|].
  by rewrite (key_ltb_asym _ _ Hk), Hk.
Qed.

Lemma map_assign_keys (P : K -> Prop) k v m :
  P k -> Forall (fun y => P y.1) m -> Forall (fun y => P y.1) (map_assign k v m).
Proof.
  intros Hk. induction 1 as [|[k' v'] m Hk' Hm IH]; simpl; [by repeat constructor|].
  repeat case_match; repeat constructor; auto.
Qed.

Lemma map_assign_Forall (P : K * V -> Prop) k v m :
  P (k, v) -> (forall k' v', key_ltb k' k = false -> key_ltb k k' = false -> P (k', v') -> P (k', v)) ->
  Forall P m -> Forall P (map_assign k v m).
Proof.
  intros Hk Hsame. induction 1 as [|[k' v'] m Hk' Hm IH]; simpl; [by constructor|].
  destruct (key_ltb k' k) eqn:?; [by constructor|].
  destruct (key_ltb k k') eqn:?; constructor; eauto.
Qed.

Lemma map_assign_wf k v m : map_wf m -> map_wf (map_assign k v m).
Proof.
  unfold map_wf. induction 1 as [|[k' v'] m Hm IH Hall]; simpl; [by repeat constructor|].
  key_cases k' k.
  - constructor; [done|]. by apply (map_assign_keys (fun y => key_ltb k' y = true)).
  - constructor; [by constructor|]. constructor; [done|].
    eapply Forall_impl; [exact Hall|]. simpl. intros y Hy. by eapply key_ltb_trans.
  - by constructor.
Qed.

Lemma map_find_assign_eq k v m : map_find k (map_assign k v m) = Some v.
Proof.
  induction m as [|[k' v'] m IH]; simpl; [by rewrite key_ltb_irrefl|].
  key_cases k' k; simpl; rewrite ?Hlt, ?key_ltb_irrefl; done.
Qed.

Lemma map_find_assign_ne k k0 v m :
  map_wf m -> k <> k0 -> map_find k0 (map_assign k v m) = map_find k0 m.
Proof.
  intros Hm Hne. induction Hm as [|[k' v'] m Hm IH Hall]; simpl.
  - destruct (key_ltb k k0) eqn:?; [done|]. destruct (key_ltb k0 k) eqn:?; [done|].
    destruct Hne. by apply key_ltb_total.
  - key_cases k' k; simpl.
    + by rewrite IH.
    + destruct (key_ltb k k0) eqn:E1; [done|]. destruct (key_ltb k0 k) eqn:E2.
      * rewrite (key_ltb_asym k0 k') by (by eapply key_ltb_trans).
        by rewrite (key_ltb_trans k0 k k').
      * destruct Hne. by apply key_ltb_total.
    + destruct (key_ltb k k0) eqn:E1; [done|]. destruct (key_ltb k0 k) eqn:E2; [done|].
      destruct Hne. by apply key_ltb_total.
Qed.

Lemma map_erase_keys (P : K * V -> Prop) k m :
  Forall P m -> Forall P (map_erase k m).1.
Proof.
  induction 1 as [|[k' v'] m Hk Hm IH]; simpl; [done|].
  destruct (map_erase k m) as [m' n]. simpl in *.
  repeat case_match; simpl; try constructor; auto.
Qed.

Lemma map_erase_wf k m : map_wf m -> map_wf (map_erase k m).1.
Proof.
  induction 1 as [|[k' v'] m Hm IH Hall]; simpl; [constructor|].
  pose proof (map_erase_keys _ k m Hall) as He.
  destruct (map_erase k m) as [m' n]. simpl in *.
  key_cases k' k; simpl; [by constructor|by constructor|done].
Qed.

Lemma map_find_erase_eq k m : map_wf m -> map_find k (map_erase k m).1 = None.
Proof.
  induction 1 as [|[k' v'] m Hm IH Hall]; simpl; [done|].
  destruct (map_erase k m) as [m' n]. simpl in *.
  key_cases k' k; simpl; rewrite ?Hlt, ?Hgt; try done. by apply map_find_below.
Qed.

Lemma map_find_erase_ne k k0 m :
  map_wf m -> k <> k0 -> map_find k0 (map_erase k m).1 = map_find k0 m.
Proof.
  intros Hm Hne. induction Hm as [|[k' v'] m Hm IH Hall]; simpl; [done|].
  destruct (map_erase k m) as [m' n]. simpl in *.
  key_cases k' k; simpl; rewrite ?IH; try done.
  destruct (key_ltb k k0) eqn:E1; [done|]. destruct (key_ltb k0 k) eqn:E2.
  - apply map_find_below. eapply Forall_impl; [exact Hall|].
    intros y Hy. by eapply key_ltb_trans.
  - destruct Hne. by apply key_ltb_total.
Qed.

Lemma map_erase_count k m : map_wf m -> (map_erase k m).2 = map_count k m.
Proof.
  unfold map_count. induction 1 as [|[k' v'] m Hm IH Hall]; simpl; [done|].
  destruct (map_erase k m) as [m' n]. simpl in *. key_cases k' k; done.
Qed.

(** A well-formed map is determined by its lookups. *)
Lemma stdmap_ext m1 m2 :
  map_wf m1 -> map_wf m2 -> (forall k, map_find k m1 = map_find k m2) -> m1 = m2.
Proof.
  intros Hm1. revert m2. induction Hm1 as [|[k1 v1] m1 Hm1 IH Hall1];
    intros m2 Hm2 Hext; destruct Hm2 as [|[k2 v2] m2 Hm2 Hall2]; simpl in *.
  - done.
  - specialize (Hext k2). simpl in Hext. by rewrite key_ltb_irrefl in Hext.
  - specialize (Hext k1). simpl in Hext. by rewrite key_ltb_irrefl in Hext.
  - key_cases k1 k2.
    + specialize (Hext k1). rewrite key_ltb_irrefl, (key_ltb_asym _ _ Hlt), Hlt in Hext. done.
    + specialize (Hext k2). rewrite key_ltb_irrefl, (key_ltb_asym _ _ Hgt), Hgt in Hext. done.
    + pose proof (Hext k2) as Hv. rewrite key_ltb_irrefl in Hv. simplify_eq. f_equal.
      apply IH; [done|]. intros k. specialize (Hext k). destruct (key_ltb k2 k) eqn:?; [done|].
      rewrite !map_find_below; [done|..];
        (eapply Forall_impl; [eassumption|]; simpl; intros y Hy;
         destruct (key_ltb k k2) eqn:?; [by eapply key_ltb_trans|];
         by rewrite <- (key_ltb_total k2 k)).
Qed.

(** Assigning a key above all others appends: this is what rebuilding a map
    in iteration order does. *)
Lemma map_assign_last k v m :
  Forall (fun y => key_ltb y.1 k = true) m -> map_assign k v m = m ++ [(k, v)].
Proof.
  induction 1 as [|[k' v'] m Hk Hm IH]; simpl in *; [done|]. by rewrite Hk, IH.
Qed.

Lemma map_find_last k m :
  Forall (fun y => key_ltb y.1 k = true) m -> map_find k m = None.
Proof. induction 1 as [|[k' v'] m Hk Hm IH]; simpl in *; [done|]. by rewrite Hk. Qed.

Lemma map_insert_last k v m :
  Forall (fun y => key_ltb y.1 k = true) m -> map_insert k v m = (m ++ [(k, v)], true).
Proof. intros Hm. unfold map_insert. by rewrite map_find_last, map_assign_last. Qed.

Lemma map_find_Some_elem k v m : map_wf m -> map_find k m = Some v <-> (k, v) ∈ m.
Proof.
  induction 1 as [|[k' v'] m Hm IH Hall]; simpl; [split; [done|by intros ?%elem_of_nil]|].
  rewrite elem_of_cons. rewrite Forall_forall in Hall. key_cases k' k.
  - rewrite IH. split; [by right|]. intros [?|?]; [|done]. simplify_eq. congruence.
  - split; [done|]. intros [?|Hin]; [simplify_eq; congruence|].
    apply Hall in Hin. simpl in Hin. congruence.
  - split; [intros ?; simplify_eq; by left|]. intros [?|Hin]; [by simplify_eq|].
    apply Hall in Hin. simpl in Hin. by rewrite key_ltb_irrefl in Hin.
Qed.

Lemma map_assign_length k v m :
  map_wf m ->
  length (map_assign k v m) = (length m + if map_find k m is Some _ then 0 else 1)%nat.
Proof.
  induction 1 as [|[k' v'] m Hm IH Hall]; simpl; [done|].
  key_cases k' k; simpl; [rewrite IH; lia|lia|lia].
Qed.

Lemma map_wf_NoDup m : map_wf m -> NoDup (map fst m).
Proof.
  induction 1 as [|[k v] m Hm IH Hall]; simpl; [constructor|]. constructor; [|done].
  intros Hin. apply list_elem_of_fmap in Hin as ([k' v'] & -> & Hin). rewrite Forall_forall in Hall.
  apply Hall in Hin. simpl in Hin. by rewrite key_ltb_irrefl in Hin.
Qed.

Lemma map_find_key k m : map_wf m -> k ∈ map fst m <-> is_Some (map_find k m).
Proof.
  intros Hm. split.
  - intros ([k' v] & -> & Hin)%list_elem_of_fmap. exists v. by apply map_find_Some_elem.
  - intros [v Hv]. apply map_find_Some_elem in Hv; [|done].
    apply list_elem_of_fmap. by exists (k, v).
Qed.

(** The entries, up to order. *)
Lemma map_erase_absent k m : map_wf m -> map_find k m = None -> (map_erase k m).1 = m.
Proof.
  intros Hm Hk. apply stdmap_ext; [by apply map_erase_wf|done|]. intros k0.
  destruct (key_ltb k k0) eqn:E1; [|destruct (key_ltb k0 k) eqn:E2].
  - apply map_find_erase_ne; [done|]. intros ->. by rewrite key_ltb_irrefl in E1.
  - apply map_find_erase_ne; [done|]. intros ->. by rewrite key_ltb_irrefl in E2.
  - rewrite <- (key_ltb_total k k0) by done. by rewrite Hk, map_find_erase_eq.
Qed.

Lemma map_assign_same k v m : map_wf m -> map_find k m = Some v -> map_assign k v m = m.
Proof.
  intros Hm Hk. apply stdmap_ext; [by apply map_assign_wf|done|]. intros k0.
  destruct (key_ltb k k0) eqn:E1; [|destruct (key_ltb k0 k) eqn:E2].
  - apply map_find_assign_ne; [done|]. intros ->. by rewrite key_ltb_irrefl in E1.
  - apply map_find_assign_ne; [done|]. intros ->. by rewrite key_ltb_irrefl in E2.
  - rewrite <- (key_ltb_total k k0) by done. by rewrite Hk, map_find_assign_eq.
Qed.

Lemma map_erase_cons k k' v' m :
  map_wf ((k', v') :: m) ->
  (map_erase k ((k', v') :: m)).1 = if key_ltb k' k then (k', v') :: (map_erase k m).1
                                    else if key_ltb k k' then (k', v') :: m else m.
Proof. intros _. simpl. destruct (map_erase k m). by repeat case_match. Qed.

Lemma map_assign_perm k v m : map_wf m -> map_assign k v m ≡ₚ (k, v) :: (map_erase k m).1.
Proof.
  induction 1 as [|[k' v'] m Hm IH Hall]; [done|]. rewrite map_erase_cons by by constructor. simpl.
  key_cases k' k; [rewrite IH; constructor|done|done].
Qed.

Lemma map_erase_perm k v m : map_wf m -> map_find k m = Some v -> m ≡ₚ (k, v) :: (map_erase k m).1.
Proof. intros Hm Hk. by rewrite <- map_assign_perm, map_assign_same. Qed.

Lemma map_assign_twice k v v' m : map_wf m -> map_assign k v (map_assign k v' m) = map_assign k v m.
Proof.
  intros Hm. apply stdmap_ext; [auto using map_assign_wf..|]. intros k0.
  destruct (key_ltb k k0) eqn:E1; [|destruct (key_ltb k0 k) eqn:E2].
  - rewrite !map_find_assign_ne; auto using map_assign_wf; intros ->; by rewrite key_ltb_irrefl in E1.
  - rewrite !map_find_assign_ne; auto using map_assign_wf; intros ->; by rewrite key_ltb_irrefl in E2.
  - rewrite <- (key_ltb_total k k0) by done. by rewrite !map_find_assign_eq.
Qed.
End stdmap_laws.

#[export] Hint Resolve map_wf_nil map_assign_wf map_erase_wf : cbeam.
