(* ===== verification/Heap.v ===== *)
(** * Heap: [malloc], [realloc], [free] and [memcpy]

    The C heap as the containers use it: live blocks by base address.  Which
    address the allocator picks, whether [realloc] moves a block and when
    memory runs out is the allocator's choice: the class [Allocator] leaves it
    open, and [AllocatorLaws] states what the C standard promises.  Two
    concrete allocators show the laws can hold: [moving] always moves a block
    on [realloc], [staying] never does; both reuse freed addresses. *)

From S2P Require Import Prelude Errors Bytes.

Abbreviation addr := Z.
Definition nullptr : addr := 0.
Abbreviation heap := (gmap Z (list ascii)).

Class Allocator := {
  malloc_at : heap -> Z -> option addr;
  realloc_at : heap -> addr -> Z -> option addr;
  (** The indeterminate contents of fresh memory. *)
  fresh_bytes : heap -> Z -> bytes;
}.

Definition is_fresh (h : heap) (a : addr) : Prop :=
  nullptr < a <= size_max /\ h !! a = None.

Class AllocatorLaws `{Allocator} := {
  malloc_at_fresh h n a : malloc_at h n = Some a -> is_fresh h a;
  realloc_at_fresh h p n a : realloc_at h p n = Some a -> a = p \/ is_fresh h a;
  length_fresh_bytes h n : length (fresh_bytes h n) = Z.to_nat n;
}.

Section heap.
Context `{Allocator}.

Definition malloc (n : Z) (h : heap) : option (addr * heap) :=
  match malloc_at h n with
  | Some a => Some (a, <[a := fresh_bytes h n]> h)
  | None => None
  end.

(** [realloc(p, n)]: a null [p] is [malloc]; a dangling [p], and size 0 for a
    live block (C23), are undefined; the common prefix is kept. *)
Definition realloc (p : addr) (n : Z) (h : heap) : outcome (option (addr * heap)) :=
  if bool_decide (p = nullptr) then Ok (malloc n h)
  else match h !! p with
  | None => UB
  | Some blk =>
      if bool_decide (n = 0) then UB
      else match realloc_at h p n with
      | None => Ok None
      | Some a =>
          let blk' := take (Z.to_nat n) (blk ++ drop (length blk) (fresh_bytes h n)) in
          Ok (Some (a, <[a := blk']> (delete p h)))
      end
  end.

Definition free (p : addr) (h : heap) : outcome heap :=
  if bool_decide (p = nullptr) then Ok h
  else match h !! p with
  | None => UB
  | Some _ => Ok (delete p h)
  end.

(** [memcpy(p + off, data, data.size())]. *)
Definition memcpy_to (p : addr) (off : Z) (data : bytes) (h : heap) : outcome heap :=
  match data with
  | [] => Ok h
  | _ =>
      match h !! p with
      | Some blk =>
          let o := Z.to_nat off in
          if bool_decide (o + length data <= length blk)%nat
          then Ok (<[p := take o blk ++ data ++ drop (o + length data) blk]> h)
          else UB
      | None => UB
      end
  end.

(** The [n] bytes at [p]. *)
Definition load (p : addr) (n : Z) (h : heap) : outcome bytes :=
  if bool_decide (n = 0) then Ok []
  else match h !! p with
  | Some blk => if bool_decide (n <= Z.of_nat (length blk)) then Ok (take (Z.to_nat n) blk) else UB
  | None => UB
  end.
End heap.

Section heap_laws.
Context `{AllocatorLaws}.

Lemma malloc_Some n h a h' :
  malloc n h = Some (a, h') ->
  is_fresh h a /\ exists blk, length blk = Z.to_nat n /\ h' = <[a := blk]> h.
Proof.
  unfold malloc. destruct (malloc_at h n) eqn:E; [|done]. intros ?; simplify_eq.
  split; [by eapply malloc_at_fresh|]. eexists. split; [apply length_fresh_bytes|done].
Qed.

Lemma realloc_null n h : realloc nullptr n h = Ok (malloc n h).
Proof. unfold realloc. by rewrite bool_decide_eq_true_2. Qed.

(** [realloc] of a live block to a positive size is defined. *)
Lemma realloc_live p n h blk :
  p <> nullptr -> h !! p = Some blk -> 0 < n -> exists r, realloc p n h = Ok r.
Proof.
  intros Hp Hblk Hn. unfold realloc.
  rewrite bool_decide_eq_false_2, Hblk, bool_decide_eq_false_2 by (done || lia).
  case_match; eauto.
Qed.

(** What [realloc] of a live block to a larger size gives: the old bytes
    followed by fresh ones, at the old or at a fresh address. *)
Lemma realloc_grow p n h blk a h' :
  p <> nullptr -> h !! p = Some blk -> Z.of_nat (length blk) <= n ->
  realloc p n h = Ok (Some (a, h')) ->
  (a = p \/ is_fresh h a) /\
  exists tail, length tail = (Z.to_nat n - length blk)%nat /\
               h' = <[a := blk ++ tail]> (delete p h).
Proof.
  intros Hp Hblk Hn. unfold realloc. rewrite bool_decide_eq_false_2, Hblk by done.
  case_bool_decide; [done|]. destruct (realloc_at h p n) eqn:E; [|done].
  intros ?; simplify_eq. split; [by eapply realloc_at_fresh|].
  exists (drop (length blk) (fresh_bytes h n)).
  rewrite length_drop, length_fresh_bytes. split; [done|]. f_equal.
  apply take_ge. rewrite length_app, length_drop, length_fresh_bytes. lia.
Qed.

Lemma memcpy_to_end p blk tail data h :
  h !! p = Some (blk ++ tail) -> length tail = length data ->
  memcpy_to p (Z.of_nat (length blk)) data h = Ok (<[p := blk ++ data]> h).
Proof.
  intros Hp Hl. destruct data as [|d data]; simpl.
  { apply nil_length_inv in Hl as ->. rewrite app_nil_r in *. by rewrite insert_id. }
  rewrite Hp, Nat2Z.id, bool_decide_eq_true_2 by (rewrite length_app, Hl; simpl; lia).
  rewrite take_app_exact by done.
  rewrite drop_ge by (rewrite length_app, Hl; simpl; lia).
  by rewrite app_nil_r.
Qed.
Lemma memcpy_to_start p blk data h :
  h !! p = Some blk -> (length data <= length blk)%nat ->
  memcpy_to p 0 data h = Ok (<[p := data ++ drop (length data) blk]> h).
Proof.
  intros Hp Hl. destruct data as [|d data]; simpl.
  { rewrite drop_0. by rewrite insert_id. }
  simpl in Hl. by rewrite Hp, bool_decide_eq_true_2 by lia.
Qed.

Lemma load_all p blk h : h !! p = Some blk -> load p (Z.of_nat (length blk)) h = Ok blk.
Proof.
  intros Hp. unfold load. case_bool_decide.
  - destruct blk; [done|simpl in *; lia].
  - by rewrite Hp, bool_decide_eq_true_2, Nat2Z.id, firstn_all by lia.
Qed.
End heap_laws.

(** ** Concrete allocators *)

(** The least address above [n] that is free among the first [fuel]. *)
Fixpoint first_free (fuel : nat) (a : addr) (h : heap) : option addr :=
  match fuel with
  | O => None
  | S fuel => if h !! a is Some _ then first_free fuel (a + 1) h else Some a
  end.

Lemma first_free_fresh fuel a h b :
  first_free fuel a h = Some b -> a <= b < a + Z.of_nat fuel /\ h !! b = None.
Proof.
  revert a. induction fuel as [|fuel IH]; intros a; simpl; [done|].
  destruct (h !! a) eqn:E.
  - intros [? ?]%IH. split; [lia|done].
  - intros ?; simplify_eq. split; [lia|done].
Qed.

Definition zeroes (n : Z) : bytes := replicate (Z.to_nat n) Ascii.zero.

Definition moving : Allocator := {|
  malloc_at h _ := first_free 1000 16 h;
  realloc_at h _ _ := first_free 1000 16 h;
  fresh_bytes _ n := zeroes n |}.

Definition staying : Allocator := {|
  malloc_at h _ := first_free 1000 16 h;
  realloc_at _ p _ := Some p;
  fresh_bytes _ n := zeroes n |}.

Lemma first_free_is_fresh h a : first_free 1000 16 h = Some a -> is_fresh h a.
Proof.
  intros [? ?]%first_free_fresh. split; [|done]. unfold nullptr, size_max, size_bits. lia.
Qed.

#[export] Instance moving_laws : AllocatorLaws (H := moving).
Proof.
  split.
  - intros h n a. apply first_free_is_fresh.
  - intros h p n a Ha. right. by apply first_free_is_fresh.
  - intros h n. apply length_replicate.
Qed.

#[export] Instance staying_laws : AllocatorLaws (H := staying).
Proof.
  split.
  - intros h n a. apply first_free_is_fresh.
  - intros h p n a [= <-]. by left.
  - intros h n. apply length_replicate.
Qed.
