(* ===== verification/Buffer.v ===== *)
(** * Buffer: [container/buffer.hpp]

    A growable byte buffer on [malloc]/[realloc]/[free].  A method runs in
    [M (heap * buf)]: the heap and the fields of [*this], which both keep the
    changes made before a throw.  The file also states the interface
    [Stream] the serializers write through, and shows that a buffer is one. *)

From S2P Require Import Prelude Errors Bytes Heap.

(** ** The fields *)

Record buf : Type := Buf { _size : Z; _buffer : addr }.
#[export] Instance buf_eq_dec : EqDecision buf.
Proof. solve_decision. Defined.

Definition buf_default : buf := Buf 0 nullptr.

Abbreviation BM := (M (heap * buf)).

Section buffer.
Context `{Allocator}.

(** [buffer(size, size_of_type)]; the product wraps as [std::size_t]. *)
Definition buffer_new (size size_of_type : Z) : BM unit := fun '(h, _) =>
  let sz := size_t (size * size_of_type) in
  match malloc sz h with
  | Some (a, h') => (Ok tt, (h', Buf sz a))
  | None => (throw std_bad_alloc "std::bad_alloc", (h, Buf sz nullptr))
  end.

(** [reset()], also the destructor. *)
Definition buffer_reset : BM unit := fun '(h, b) =>
  match free (_buffer b) h with
  | Ok h' => (Ok tt, (h', buf_default))
  | Throw e => (Throw e, (h, b))
  | UB => (UB, (h, b))
  end.

(** The two steps shared by every growing method: [realloc], which leaves
    the object alone on failure, and [memcpy] into the new block. *)
Definition buffer_realloc (n : Z) : BM unit := fun '(h, b) =>
  match realloc (_buffer b) n h with
  | Ok (Some (a, h')) => (Ok tt, (h', Buf (_size b) a))
  | Ok None => (throw std_bad_alloc "std::bad_alloc", (h, b))
  | Throw e => (Throw e, (h, b))
  | UB => (UB, (h, b))
  end.

Definition buffer_memcpy (off : Z) (data : bytes) : BM unit := fun '(h, b) =>
  match memcpy_to (_buffer b) off data h with
  | Ok h' => (Ok tt, (h', b))
  | Throw e => (Throw e, (h, b))
  | UB => (UB, (h, b))
  end.

Definition set_size (n : Z) : BM unit :=
  modify (fun '(h, b) => (h, Buf n (_buffer b))).

(** [buffer(address, length_of_buffer)], given the bytes at [address]. *)
Definition buffer_from (data : bytes) : BM unit :=
  let len := Z.of_nat (length data) in
  _ ← modify (fun '(h, _) => (h, buf_default));
  _ ← buffer_realloc len;
  _ ← set_size len;
  buffer_memcpy 0 data.

(** [append(buffer_to_append, length_of_buffer)]. *)
Definition buffer_append (data : bytes) : BM unit :=
  let len := Z.of_nat (length data) in
  '(_, b) ← get;
  _ ← buffer_realloc (size_t (_size b + len));
  _ ← buffer_memcpy (_size b) data;
  set_size (size_t (_size b + len)).

(** [append(_buffer + off, len)], with bytes of the buffer itself: [memcpy] reads
    them through the old address. *)
Definition buffer_append_own (off len : Z) : BM unit :=
  '(_, b) ← get;
  _ ← buffer_realloc (size_t (_size b + len));
  '(h, _) ← get;
  match load (_buffer b) (off + len) h with
  | Ok data => _ ← buffer_memcpy (_size b) (drop (Z.to_nat off) data); set_size (size_t (_size b + len))
  | _ => undefined
  end.

(** [*this = other], for [this != &other]; self-assignment does nothing. *)
Definition buffer_assign (self : bool) (other : buf) : BM unit :=
  if self then mret tt
  else if bool_decide (_buffer other = nullptr) then
    raise runtime_error "cbeam::container::buffer copy assignment operator has been passed a default constructed (therefore invalid) instance"
  else
    _ ← buffer_realloc (_size other);
    '(h, _) ← get;
    match load (_buffer other) (_size other) h with
    | Ok data => _ ← buffer_memcpy 0 data; set_size (_size other)
    | _ => undefined
    end.

(** [buffer(const buffer& other)]: assign to default-initialised fields. *)
Definition buffer_copy (other : buf) : BM unit :=
  _ ← modify (fun '(h, _) => (h, buf_default));
  buffer_assign false other.
End buffer.

(** [get()] and [size()]. *)
Definition buffer_get (b : buf) : addr := _buffer b.
Definition buffer_size (b : buf) : Z := _size b.

(** [swap(other)]. *)
Definition buffer_swap (a b : buf) : buf * buf :=
  (Buf (_size b) (_buffer b), Buf (_size a) (_buffer a)).

(** [convert::to_string(const container::buffer&)]: a [std::string] from an address
    and a size. *)
Definition buffer_to_string (b : buf) (h : heap) : outcome bytes :=
  if bool_decide (_buffer b = nullptr) then
    if bool_decide (_size b = 0) then Ok []
    else throw std_logic_error "basic_string: construction from null is not valid"
  else load (_buffer b) (_size b) h.

(** ** The invariant and the contents *)

Definition buf_wf (h : heap) (b : buf) : Prop :=
  h !! nullptr = None /\ is_size_t (_size b) /\
  (b = buf_default \/
   _buffer b <> nullptr /\
   exists blk, h !! _buffer b = Some blk /\ Z.of_nat (length blk) = _size b).

Definition buf_contents (h : heap) (b : buf) : bytes := default [] (h !! _buffer b).

(** Every block but those of [ps] is as before. *)
Definition same_except (ps : list addr) (h h' : heap) : Prop :=
  forall p, p ∉ ps -> is_Some (h !! p) -> h' !! p = h !! p.

Section buffer_laws.
Context `{AllocatorLaws}.
Implicit Types (h : heap) (b : buf).

Lemma buf_wf_contents_length h b : buf_wf h b -> Z.of_nat (length (buf_contents h b)) = _size b.
Proof.
  intros (Hnull & _ & [->|(? & blk & Hb & ?)]); unfold buf_contents.
  - simpl. by rewrite Hnull.
  - by rewrite Hb.
Qed.

(** Of a well-formed buffer it is the contents. *)
Lemma buffer_to_string_contents h b : buf_wf h b -> buffer_to_string b h = Ok (buf_contents h b).
Proof.
  intros Hwf. pose proof (buf_wf_contents_length h b Hwf) as Hl. destruct Hwf as (Hnull & _ & [->|(Hb & blk & Hblk & Hlen)]).
  - unfold buffer_to_string, buf_contents. simpl. by rewrite Hnull.
  - unfold buffer_to_string, load, buf_contents in *. rewrite Hblk in *. rewrite bool_decide_eq_false_2 by done. simpl in *.
    rewrite <- Hlen. case_bool_decide; [by destruct blk|]. by rewrite bool_decide_eq_true_2, Nat2Z.id, firstn_all by lia.
Qed.

Lemma buf_contents_insert h b blk : buf_contents (<[_buffer b := blk]> h) b = blk.
Proof. unfold buf_contents. by rewrite lookup_insert_eq. Qed.

(** Growing a well-formed buffer to [n] bytes: either nothing changes, or
    the old contents are followed by [n - size] fresh bytes. *)
Lemma buffer_realloc_spec h b n o h' b' :
  buf_wf h b -> _size b <= n <= size_max -> 0 < n ->
  buffer_realloc n (h, b) = (o, (h', b')) ->
  (o = throw std_bad_alloc "std::bad_alloc" /\ h' = h /\ b' = b) \/
  (o = Ok tt /\ _size b' = _size b /\
   (_buffer b' = _buffer b \/ is_fresh h (_buffer b')) /\ _buffer b' <> nullptr /\
   exists tail, Z.of_nat (length tail) = n - _size b /\
     h' = <[_buffer b' := buf_contents h b ++ tail]> (delete (_buffer b) h)).
Proof.
  intros Hwf Hn Hpos. pose proof (buf_wf_contents_length h b Hwf) as Hlen.
  destruct Hwf as (Hnull & Hsz & [->|(Hb & blk & Hblk & Hbl)]); unfold buffer_realloc.
  - simpl in Hlen. change (_buffer buf_default) with nullptr. rewrite realloc_null.
    destruct (malloc n h) as [[a h1]|] eqn:Em; intros ?; simplify_eq; [|by left].
    right. apply malloc_Some in Em as (Hf & blk & Hbl & ->). simpl.
    split; [done|]. split; [done|]. split; [by right|].
    destruct Hf. split; [unfold nullptr in *; lia|]. exists blk.
    split; [lia|]. unfold buf_contents. simpl. by rewrite Hnull, delete_id by done.
  - destruct (realloc_live (_buffer b) n h blk) as [r Er]; [done..|]. rewrite Er.
    destruct r as [[a h1]|]; intros ?; simplify_eq; [|by left]. right. simpl.
    eapply realloc_grow in Er as (Ha & tail & Htl & ->); [|done..|lia].
    split; [done|]. split; [done|]. split; [done|]. split.
    { destruct Ha as [->|[? _]]; [done|unfold nullptr in *; lia]. }
    exists tail. unfold buf_contents. rewrite Hblk. simpl. split; [lia|done].
Qed.

Lemma fresh_not_null h a : is_fresh h a -> a <> nullptr.
Proof. intros [? _]. unfold nullptr in *. lia. Qed.

Lemma same_except_moved h (a old : addr) blk :
  a = old \/ is_fresh h a -> same_except [old] h (<[a := blk]> (delete old h)).
Proof.
  intros Ha p Hp [x Hx]. apply not_elem_of_cons in Hp as [Hp _].
  rewrite lookup_insert_ne, lookup_delete_ne; [done|done|].
  destruct Ha as [->|[_ Ha]]; [done|]. intros ->. congruence.
Qed.

(** The result of growing a buffer by [data] is well-formed. *)
Lemma buf_wf_grown h a old data :
  h !! nullptr = None -> a <> nullptr -> is_size_t (Z.of_nat (length data)) ->
  buf_wf (<[a := data]> (delete old h)) (Buf (Z.of_nat (length data)) a).
Proof.
  intros Hnull Ha Hl. split; [|split; [done|right; split; [done|]]].
  - rewrite lookup_insert_ne by done. destruct (decide (old = nullptr)) as [->|?];
      [apply lookup_delete_eq|by rewrite lookup_delete_ne].
  - exists data. simpl. by rewrite lookup_insert_eq.
Qed.

Lemma buffer_append_cases h b data o h' b' :
  buf_wf h b ->
  0 < _size b + Z.of_nat (length data) <= size_max ->
  buffer_append data (h, b) = (o, (h', b')) ->
  (o = throw std_bad_alloc "std::bad_alloc" /\ h' = h /\ b' = b) \/
  (o = Ok tt /\ buf_wf h' b' /\ buf_contents h' b' = buf_contents h b ++ data /\
   _size b' = _size b + Z.of_nat (length data) /\
   (_buffer b' = _buffer b \/ is_fresh h (_buffer b')) /\ _buffer b' <> nullptr /\
   h' = <[_buffer b' := buf_contents h b ++ data]> (delete (_buffer b) h)).
Proof.
  intros Hwf Hn. pose proof (buf_wf_contents_length h b Hwf) as Hlen.
  assert (size_t (_size b + Z.of_nat (length data)) = _size b + Z.of_nat (length data))
    as Hsz by (apply size_t_id; unfold is_size_t; lia).
  unfold buffer_append, get, mbind, M_bind at 1. simpl. rewrite Hsz.
  unfold M_bind at 1.
  destruct (buffer_realloc _ (h, b)) as [o1 [h1 b1]] eqn:Er.
  eapply buffer_realloc_spec in Er
    as [(-> & -> & ->)|(-> & Hs1 & Hb1 & Hnn & tail & Htl & ->)]; [..|done|lia|lia];
    [intros ?; simplify_eq; by left|].
  simpl. unfold M_bind, buffer_memcpy. rewrite <- Hlen at 1.
  rewrite (memcpy_to_end _ _ tail) by (rewrite ?lookup_insert_eq; done || lia).
  rewrite insert_insert_eq. unfold set_size, modify. intros ?; simplify_eq. right. simpl.
  rewrite (buf_contents_insert _ (Buf _ (_buffer b1))).
  replace (_size b + Z.of_nat (length data)) with (Z.of_nat (length (buf_contents h b ++ data)))
    by (rewrite length_app; lia).
  split; [done|]. split; [apply buf_wf_grown|done]; [apply Hwf|done|].
  rewrite length_app. unfold is_size_t. lia.
Qed.

(** C18. [append] is all or nothing: on success the contents are the old
    contents followed by the appended bytes, the size grows by exactly their
    number and no other block changes; when the allocator fails,
    [std::bad_alloc] is thrown and buffer and heap are untouched. *)
Theorem buffer_append_spec h b data o h' b' :
  buf_wf h b -> 0 < _size b + Z.of_nat (length data) <= size_max ->
  buffer_append data (h, b) = (o, (h', b')) ->
  (o = Ok tt /\ buf_wf h' b' /\ buf_contents h' b' = buf_contents h b ++ data /\
   _size b' = _size b + Z.of_nat (length data) /\ same_except [_buffer b] h h') \/
  (o = throw std_bad_alloc "std::bad_alloc" /\ h' = h /\ b' = b).
Proof.
  intros Hwf Hn Ha. eapply buffer_append_cases in Ha
    as [?|(-> & Hwf' & Hc & Hs & Hb & _ & ->)]; [by right|..|done|done].
  left. do 4 (split; [done|]). by apply same_except_moved.
Qed.

(** Copying a well-formed non-empty buffer is deep: the same bytes at a
    block of its own, the source and every other block unchanged. *)
Lemma buffer_copy_cases h b o h' b' b0 :
  buf_wf h b -> _buffer b <> nullptr -> 0 < _size b ->
  buffer_copy b (h, b0) = (o, (h', b')) ->
  (o = throw std_bad_alloc "std::bad_alloc" /\ h' = h /\ b' = buf_default) \/
  (o = Ok tt /\ b' = Buf (_size b) (_buffer b') /\ is_fresh h (_buffer b') /\
   h' = <[_buffer b' := buf_contents h b]> h).
Proof.
  intros Hwf Hb Hpos. pose proof (buf_wf_contents_length h b Hwf) as Hlen.
  destruct Hwf as (Hnull & Hsz & [->|(_ & blk & Hblk & Hbl)]); [done|].
  unfold buffer_copy, modify, mbind, M_bind at 1, buffer_assign.
  rewrite bool_decide_eq_false_2 by done.
  unfold mbind, M_bind at 1. destruct (buffer_realloc _ _) as [o1 [h1 b1]] eqn:Er.
  eapply buffer_realloc_spec in Er
    as [(-> & -> & ->)|(-> & Hs1 & [Hb1|Hb1] & Hnn & tail & Htl & ->)];
    [..|split; [done|split; [done|by left]]|simpl; unfold is_size_t in Hsz; lia|done];
    [intros ?; simplify_eq; by left|done|].
  unfold buf_contents at 1. simpl. rewrite Hnull. simpl.
  rewrite (delete_id h nullptr) by done.
  assert (_buffer b1 <> _buffer b) as Hne by (intros Heq; rewrite Heq in Hb1; destruct Hb1; congruence).
  unfold M_bind at 1, get, load. rewrite bool_decide_eq_false_2 by lia.
  rewrite lookup_insert_ne, Hblk, bool_decide_eq_true_2 by (done || lia).
  rewrite take_ge by lia. unfold M_bind, buffer_memcpy.
  rewrite (memcpy_to_end (_buffer b1) [] tail blk)
    by (rewrite ?lookup_insert_eq; simpl in *; done || lia).
  rewrite insert_insert_eq. unfold set_size, modify. intros ?; simplify_eq. right. simpl.
  unfold buf_contents. by rewrite Hblk.
Qed.

(** Deep copy: after [buffer copy(b)] both buffers are well-formed and
    hold the same bytes at different addresses, so appending to the copy
    leaves the source's bytes as they were. *)
Theorem buffer_copy_deep h b h1 b1 b0 data o h2 b2 :
  buf_wf h b -> _buffer b <> nullptr -> 0 < _size b ->
  buffer_copy b (h, b0) = (Ok tt, (h1, b1)) ->
  _size b + Z.of_nat (length data) <= size_max ->
  buffer_append data (h1, b1) = (o, (h2, b2)) ->
  buf_contents h1 b1 = buf_contents h b /\ _buffer b1 <> _buffer b /\
  buf_wf h2 b2 /\ buf_wf h2 b /\ buf_contents h2 b = buf_contents h b.
Proof.
  intros Hwf Hb Hpos Hc Hn Ha. pose proof (buf_wf_contents_length h b Hwf) as Hlen.
  eapply buffer_copy_cases in Hc as [(? & _)|(_ & Hb1 & Hf & ->)]; [done|..|done|done|done].
  assert (_buffer b1 <> _buffer b) as Hne.
  { intros Heq. destruct Hwf as (_ & _ & [->|(_ & ? & ? & _)]); [done|].
    rewrite Heq in Hf. destruct Hf. congruence. }
  assert (buf_wf (<[_buffer b1 := buf_contents h b]> h) b1) as Hwf1.
  { split; [|split; [rewrite Hb1; apply Hwf|right]].
    - rewrite lookup_insert_ne by (by eapply fresh_not_null). apply Hwf.
    - split; [by eapply fresh_not_null|]. eexists. rewrite lookup_insert_eq.
      split; [done|]. by rewrite Hb1. }
  assert (is_Some (h !! _buffer b)) as Hlive.
  { destruct Hwf as (_ & _ & [->|(_ & blk & ? & _)]); [done|by exists blk]. }
  assert (buf_wf h2 b2 /\ h2 !! _buffer b = h !! _buffer b) as (Hwf2 & Hs).
  { eapply buffer_append_cases in Ha
      as [(-> & -> & ->)|(-> & Hwf2 & _ & _ & Hm & _ & ->)]; [..|done|rewrite Hb1; simpl; lia].
    - split; [done|]. by rewrite lookup_insert_ne.
    - split; [done|]. rewrite (same_except_moved _ _ _ _ Hm).
      + by rewrite lookup_insert_ne.
      + apply not_elem_of_cons. split; [done|apply not_elem_of_nil].
      + by rewrite lookup_insert_ne. }
  rewrite buf_contents_insert. do 3 (split; [done|]).
  unfold buf_contents, buf_wf. rewrite Hs. split; [|done].
  split; [apply Hwf2|apply Hwf].
Qed.
End buffer_laws.

(** ** The interface the serializers write through

    [container::buffer&] with its virtual [append]: what a serializer relies on
    is that an [append] which returns has extended the contents by exactly the
    bytes given, as long as the size stays a [std::size_t].  Appending nothing to
    an empty stream is left out: it would ask [realloc] for zero bytes. *)

Class Stream (S : Type) := {
  stream_append : bytes -> M S unit;
  stream_contents : S -> bytes;
  stream_wf : S -> Prop;
}.

(** A result that is no undefined behaviour, and [P] if it is no exception. *)
Definition returns {W A} (r : outcome A * W) (P : W -> Prop) : Prop :=
  match r with
  | (Ok _, w) => P w
  | (Throw _, _) => True
  | (UB, _) => False
  end.

Class StreamLaws (S : Type) `{Stream S} :=
  stream_append_ok d (s : S) :
    stream_wf s ->
    Z.of_nat (length (stream_contents s)) + Z.of_nat (length d) <= size_max ->
    d <> [] \/ stream_contents s <> [] ->
    returns (stream_append d s) (fun s' => stream_wf s' /\ stream_contents s' = stream_contents s ++ d).

(** [appends m d]: [m] is defined, and whenever it returns, it has appended
    exactly [d]; [appends_after m d]: so it is on a non-empty stream. *)
Definition appends {S A} `{Stream S} (m : M S A) (d : bytes) : Prop :=
  forall s, stream_wf s ->
    Z.of_nat (length (stream_contents s)) + Z.of_nat (length d) <= size_max ->
    returns (m s) (fun s' => stream_wf s' /\ stream_contents s' = stream_contents s ++ d).

Definition appends_after {S A} `{Stream S} (m : M S A) (d : bytes) : Prop :=
  forall s, stream_wf s -> stream_contents s <> [] ->
    Z.of_nat (length (stream_contents s)) + Z.of_nat (length d) <= size_max ->
    returns (m s) (fun s' => stream_wf s' /\ stream_contents s' = stream_contents s ++ d).

Section appends.
Context {S : Type} `{StreamLaws S}.

Lemma appends_append d : d <> [] -> appends (stream_append d) d.
Proof. intros Hd s Hs Hl. apply stream_append_ok; auto. Qed.

Lemma after_append d : appends_after (stream_append d) d.
Proof. intros s Hs Hne Hl. apply stream_append_ok; auto. Qed.

Lemma after_ret {A} (a : A) : appends_after (mret a) [].
Proof. intros s Hs _ _. simpl. by rewrite app_nil_r. Qed.

Lemma appends_weaken {A} (m : M S A) d : appends m d -> appends_after m d.
Proof. intros Hm s Hs _ Hl. by apply Hm. Qed.

Lemma returns_seq {A B} (m1 : M S A) (m2 : A -> M S B) (s : S) (P Q : S -> Prop) :
  returns (m1 s) P -> (forall a s', P s' -> returns (m2 a s') Q) ->
  returns ((a ← m1; m2 a) s) Q.
Proof. unfold mbind, M_bind. destruct (m1 s) as [[a|e|] s1]; simpl; auto. Qed.

Lemma appends_seq {A} (m1 : M S unit) (m2 : M S A) d1 d2 :
  d1 <> [] -> appends m1 d1 -> appends_after m2 d2 -> appends (_ ← m1; m2) (d1 ++ d2).
Proof.
  intros Hd H1 H2 s Hs Hl. rewrite length_app in Hl. eapply returns_seq; [apply H1; [done|lia]|].
  intros _ s1 [Hs1 Hc1]. rewrite app_assoc, <- Hc1. apply H2; [done|..].
  - rewrite Hc1. intros [_ ?]%app_nil. done.
  - rewrite Hc1, length_app. lia.
Qed.

Lemma after_seq {A} (m1 : M S unit) (m2 : M S A) d1 d2 :
  appends_after m1 d1 -> appends_after m2 d2 -> appends_after (_ ← m1; m2) (d1 ++ d2).
Proof.
  intros H1 H2 s Hs Hne Hl. rewrite length_app in Hl. eapply returns_seq; [apply H1; [done|done|lia]|].
  intros _ s1 [Hs1 Hc1]. rewrite app_assoc, <- Hc1. apply H2; [done|..].
  - rewrite Hc1. intros [? _]%app_nil. done.
  - rewrite Hc1, length_app. lia.
Qed.
End appends.

#[export] Hint Resolve appends_append after_append after_ret appends_seq after_seq : cbeam.

#[export] Instance buffer_stream `{Allocator} : Stream (heap * buf) := {|
  stream_append := buffer_append;
  stream_contents '(h, b) := buf_contents h b;
  stream_wf '(h, b) := buf_wf h b /\ (b = buf_default \/ 0 < _size b) |}.

#[export] Instance buffer_stream_laws `{AllocatorLaws} : StreamLaws (heap * buf).
Proof.
  intros d [h b] [Hwf _] Hl Hne. simpl in *.
  pose proof (buf_wf_contents_length h b Hwf) as Hlen.
  assert (0 < _size b + Z.of_nat (length d)).
  { destruct d; [destruct Hne as [|Hne]; [done|]; destruct (buf_contents h b); [done|]|]; simpl in *; lia. }
  destruct (buffer_append d (h, b)) as [o [h' b']] eqn:Ha.
  eapply buffer_append_cases in Ha as [(-> & _)|(-> & ? & ? & ? & _)]; [done| |done|lia].
  simpl. split; [split; [done|right; lia]|done].
Qed.

(** ** Appending bytes of the buffer itself *)

Definition own_bytes (A : Allocator) : outcome unit * option bytes :=
  match @buffer_append A (str "abc") (∅, buf_default) with
  | (Ok _, w) => let '(o, (h, b)) := @buffer_append_own A 1 2 w in (o, h !! buffer_get b)
  | (o, _) => (o, None)
  end.

(** It works as long as [realloc] leaves the block where it is ... *)
Example append_own_bytes_in_place : own_bytes staying = (Ok tt, Some (str "abcbc")).
Proof. vm_compute. reflexivity. Qed.

(** ... and reads freed memory when the block moves. *)
Example append_own_bytes_moved : (own_bytes moving).1 = UB.
Proof. vm_compute. reflexivity. Qed.

(** ** Witnesses *)

Definition buffer_start : heap * buf := (∅, buf_default).

Lemma buffer_start_wf : buf_wf ∅ buf_default.
Proof. split; [done|]. split; [vm_compute; split; congruence|by left]. Defined.

(** A buffer of two bytes, built by [append] on the [moving] allocator. *)
Definition two_bytes : heap * buf :=
  (@buffer_append moving (str "ab") buffer_start).2.

Lemma two_bytes_wf : buf_wf two_bytes.1 two_bytes.2.
Proof.
  split; [vm_compute; done|]. split; [vm_compute; split; congruence|]. right.
  split; [vm_compute; congruence|]. exists (str "ab"). split; vm_compute; reflexivity.
Defined.

Lemma buffer_append_spec_witness :
  exists h b, @buffer_append moving (str "xyz") two_bytes = (Ok tt, (h, b)) /\
              buf_contents h b = str "abxyz".
Proof.
  destruct (@buffer_append moving (str "xyz") two_bytes) as [o [h b]] eqn:E.
  destruct (buffer_append_spec (H := moving) two_bytes.1 two_bytes.2 (str "xyz") o h b)
    as [(-> & _ & Hc & _)|(-> & _)].
  - exact two_bytes_wf.
  - vm_compute. split; congruence.
  - exact E.
  - exists h, b. split; [done|]. exact Hc.
  - vm_compute in E. discriminate E.
Defined.

Lemma buffer_copy_deep_witness :
  exists h1 b1 h2 b2,
    @buffer_copy moving two_bytes.2 (two_bytes.1, buf_default) = (Ok tt, (h1, b1)) /\
    @buffer_append moving (str "!") (h1, b1) = (Ok tt, (h2, b2)) /\
    buf_contents h2 two_bytes.2 = str "ab".
Proof.
  destruct (@buffer_copy moving two_bytes.2 (two_bytes.1, buf_default)) as [o1 [h1 b1]] eqn:E1.
  destruct (@buffer_append moving (str "!") (h1, b1)) as [o2 [h2 b2]] eqn:E2.
  assert (o1 = Ok tt) as -> by (vm_compute in E1; congruence).
  assert (o2 = Ok tt) as ->.
  { vm_compute in E1. injection E1 as <- <-. vm_compute in E2. congruence. }
  destruct (buffer_copy_deep (H := moving) two_bytes.1 two_bytes.2 h1 b1 buf_default (str "!") (Ok tt) h2 b2)
    as (_ & _ & _ & _ & Hc);
    [exact two_bytes_wf|vm_compute; congruence|vm_compute; reflexivity|exact E1
    |vm_compute; congruence|exact E2|].
  exists h1, b1, h2, b2. split; [done|]. split; [exact E2|]. exact Hc.
Defined.
