(* ===== verification/Xpod.v ===== *)
(** * Xpod: [container/xpod.hpp] and [container/find.hpp]

    The variant [xpod::type], its type indices, and the generic accessors for
    variants and for maps keyed by a variant. *)

From S2P Require Import Prelude Errors Bytes StdMap.

(** A [double] by its object representation. *)
Record double : Type := Double { double_bits : Z }.
#[export] Instance double_eq_dec : EqDecision double.
Proof. solve_decision. Defined.

(** [memory::pointer] as a value: equality and order of [pointer] look at the
    address only. *)
Record pointer : Type := Pointer { pointer_addr : Z }.
#[export] Instance pointer_eq_dec : EqDecision pointer.
Proof. solve_decision. Defined.

(** [std::variant<long long, double, bool, memory::pointer, std::string>]. *)
Inductive xpod : Type :=
| XInteger (z : Z)
| XNumber (d : double)
| XBoolean (b : bool)
| XPointer (p : pointer)
| XString (s : bytes).
#[export] Instance xpod_eq_dec : EqDecision xpod.
Proof. solve_decision. Defined.

Module type_index.
Definition integer : Z := 0.
Definition number : Z := 1.
Definition boolean : Z := 2.
Definition pointer : Z := 3.
Definition string : Z := 4.
End type_index.

(** [val.index()]. *)
Definition xpod_index (v : xpod) : Z :=
  match v with
  | XInteger _ => type_index.integer
  | XNumber _ => type_index.number
  | XBoolean _ => type_index.boolean
  | XPointer _ => type_index.pointer
  | XString _ => type_index.string
  end.

(** ** Alternatives of a variant

    [Alternative V T] says that [T] is one of the alternatives of the variant
    [V]: [std::get_if<T>], the converting constructor, and [T{}]. *)
Class Alternative (V T : Type) := {
  get_if : V -> option T;
  in_place : T -> V;
  value_init : T;
  get_if_in_place t : get_if (in_place t) = Some t;
  get_if_Some v t : get_if v = Some t -> v = in_place t;
}.

#[export] Program Instance xpod_integer : Alternative xpod Z :=
  {| get_if v := match v with XInteger z => Some z | _ => None end;
     in_place := XInteger; value_init := 0 |}.
Solve Obligations with (try (intros []); intros; by simplify_eq/=).
#[export] Program Instance xpod_number : Alternative xpod double :=
  {| get_if v := match v with XNumber d => Some d | _ => None end;
     in_place := XNumber; value_init := Double 0 |}.
Solve Obligations with (try (intros []); intros; by simplify_eq/=).
#[export] Program Instance xpod_boolean : Alternative xpod bool :=
  {| get_if v := match v with XBoolean b => Some b | _ => None end;
     in_place := XBoolean; value_init := false |}.
Solve Obligations with (try (intros []); intros; by simplify_eq/=).
#[export] Program Instance xpod_pointer : Alternative xpod pointer :=
  {| get_if v := match v with XPointer p => Some p | _ => None end;
     in_place := XPointer; value_init := Pointer 0 |}.
Solve Obligations with (try (intros []); intros; by simplify_eq/=).
#[export] Program Instance xpod_string : Alternative xpod bytes :=
  {| get_if v := match v with XString s => Some s | _ => None end;
     in_place := XString; value_init := [] |}.
Solve Obligations with (try (intros []); intros; by simplify_eq/=).

(** ** [find.hpp] *)

Section find.
Context {V T : Type} `{Alternative V T}.

(** [get_value_or_default<T>(value)]; the overload by index selects the
    same alternative. *)
Definition get_value_or_default (value : V) : T :=
  match get_if value with
  | Some t => t
  | None => value_init
  end.

(** [key_exists(t, key)] probes with the variant holding [key]. *)
Definition key_exists {A} `{KeyOrder V} (t : list (V * A)) (key : T) : bool :=
  if map_find (in_place key) t is Some _ then true else false.
End find.
