(* ===== verification/NestedMap.v ===== *)
(** * NestedMap: [container/nested_map.hpp]

    The recursive map: a table of values and a table of sub-tables.  Copy
    assignment clears the target and merges the source into it, which rebuilds
    every level; [merge] overwrites entries key by key. *)

From S2P Require Import Prelude Errors Bytes StdMap Xpod.

Inductive nested_map (K V : Type) : Type := NestedMap {
  data : list (K * V);
  sub_tables : list (K * nested_map K V);
}.
Arguments NestedMap {K V} data sub_tables.
Arguments data {K V} n.
Arguments sub_tables {K V} n.

(** Induction that reaches the sub-tables. *)
Lemma nested_map_rec_all {K V} (P : nested_map K V -> Prop) :
  (forall d s, Forall (fun x => P x.2) s -> P (NestedMap d s)) -> forall t, P t.
Proof.
  intros IH. fix go 1. intros [d s]. apply IH.
  induction s as [|[k t] s IHs]; constructor; [apply go|exact IHs].
Defined.

Section nested_map.
Context {K V : Type} `{KeyOrder K}.
Implicit Types (t other : nested_map K V).

Definition nested_empty : nested_map K V := NestedMap [] [].

(** The loops [for (it : src) dst[it.first] = f(it.second)]. *)
Definition assign_all {A B} (f : A -> B) (src : list (K * A)) (dst : list (K * B)) : list (K * B) :=
  fold_left (fun m x => map_assign x.1 (f x.2) m) src dst.

(** [nested_map(std::initializer_list)]. *)
Definition nested_init (init : list (K * V)) : nested_map K V :=
  NestedMap (assign_all id init []) [].

(** [clear()]. *)
Definition nested_clear (t : nested_map K V) : nested_map K V := NestedMap [] [].

(** What [*this = other] leaves in [*this] when [other] is another object:
    [clear(); merge(other)], where [merge] assigns the sub-tables. *)
Fixpoint nested_assign (other : nested_map K V) : nested_map K V :=
  match other with
  | NestedMap d s =>
      NestedMap (assign_all id d [])
                (assign_all id (map (fun x => (x.1, nested_assign x.2)) s) [])
  end.

(** [merge(other)]. *)
Definition nested_merge (t other : nested_map K V) : nested_map K V :=
  NestedMap (assign_all id (data other) (data t))
            (assign_all nested_assign (sub_tables other) (sub_tables t)).

(** The right-hand side of an assignment: an object of its own, or the
    sub-table of [*this] reached by a path of keys (empty: [*this]). *)
Inductive operand : Type :=
| Other (t : nested_map K V)
| Within (path : list K).

(** [operator=]: the test [this == &other] only excludes [*this] itself; a
    proper sub-table dies in [clear()] before [merge] reads it. *)
Definition nested_operator_assign (t : nested_map K V) (src : operand) : outcome (nested_map K V) :=
  match src with
  | Other other => Ok (nested_merge (nested_clear t) other)
  | Within [] => Ok t
  | Within (_ :: _) => UB
  end.

(** The sub-table reached by a path. *)
Fixpoint sub_table_at (t : nested_map K V) (path : list K) : option (nested_map K V) :=
  match path with
  | [] => Some t
  | k :: path => match map_find k (sub_tables t) with Some s => sub_table_at s path | None => None end
  end.

(** [merge] of any operand.  Merging [*this] assigns each entry to itself.  A
    sub-table of [*this] lies within [sub_tables[k]]; when it has a sub-table
    called [k] itself, [sub_tables[k] = it.second] assigns to [sub_tables[k]] a
    sub-table of its own. *)
Definition nested_merge_operand (t : nested_map K V) (src : operand) : outcome (nested_map K V) :=
  match src with
  | Other other => Ok (nested_merge t other)
  | Within [] => Ok t
  | Within (k :: path) =>
      match sub_table_at t (k :: path) with
      | Some other => if map_find k (sub_tables other) is Some _ then UB else Ok (nested_merge t other)
      | None => UB
      end
  end.

(** [operator==]. *)
Fixpoint nested_eqb (eqk : K -> K -> bool) (eqv : V -> V -> bool) (t1 t2 : nested_map K V) : bool :=
  match t1, t2 with
  | NestedMap d1 s1, NestedMap d2 s2 =>
      (fix eq_data d1 d2 :=
         match d1, d2 with
         | [], [] => true
         | (k1, v1) :: d1, (k2, v2) :: d2 => eqk k1 k2 && eqv v1 v2 && eq_data d1 d2
         | _, _ => false
         end) d1 d2 &&
      (fix eq_subs s1 s2 :=
         match s1, s2 with
         | [], [] => true
         | (k1, t1) :: s1, (k2, t2) :: s2 => eqk k1 k2 && nested_eqb eqk eqv t1 t2 && eq_subs s1 s2
         | _, _ => false
         end) s1 s2
  end.

(** [get_mapped_value_or_default<Value>(key)]. *)
Definition get_mapped_value_or_default (dflt : V) t (key : K) : V :=
  match map_find key (data t) with
  | None => dflt
  | Some v => v
  end.

(** [get_mapped_value_or_default<T>(key)] for an alternative [T] of [Value],
    selected by type or by index. *)
Definition get_mapped_alternative_or_default {T} `{Alternative V T} t (key : K) : T :=
  match map_find key (data t) with
  | None => value_init
  | Some v => get_value_or_default v
  end.

Definition error_text (error_msg dflt : string) : string :=
  if bool_decide (error_msg = ""%string) then dflt else error_msg.

(** [get_mapped_value_or_throw<Value>(key, error_msg)]. *)
Definition get_mapped_value_or_throw t (key : K) (error_msg : string) : outcome V :=
  match map_find key (data t) with
  | Some v => Ok v
  | None => throw runtime_error (error_text error_msg "get_mapped_value_or_throw: missing value")
  end.

(** [get_mapped_value_or_throw<T>(key, error_msg)] for an alternative. *)
Definition get_mapped_alternative_or_throw {T} `{Alternative V T}
    t (key : K) (error_msg : string) : outcome T :=
  match map_find key (data t) with
  | Some v =>
      match get_if v with
      | Some x => Ok x
      | None => throw runtime_error (error_text error_msg "get_mapped_value_or_throw: wrong type of value")
      end
  | None => throw runtime_error (error_text error_msg "get_mapped_value_or_throw: missing value")
  end.

(** ** The invariant: the maps of every level are ordered. *)
Inductive nested_wf : nested_map K V -> Prop :=
| nested_wf_intro d s :
    map_wf d -> map_wf s -> Forall (fun x => nested_wf x.2) s -> nested_wf (NestedMap d s).
End nested_map.
Arguments operand : clear implicits.

Section nested_map_laws.
Context {K V : Type} `{KeyOrderLaws K}.
Implicit Types (t other : nested_map K V).

Lemma assign_all_wf {A B} (f : A -> B) (src : list (K * A)) (dst : list (K * B)) :
  map_wf dst -> map_wf (assign_all f src dst).
Proof.
  unfold assign_all. revert dst. induction src as [|[k a] src IH]; intros dst Hd; simpl;
    auto with cbeam.
Qed.

(** The loop is a right-biased union: later entries win. *)
Lemma assign_all_find {A B} (f : A -> B) (src : list (K * A)) (dst : list (K * B)) k :
  map_wf src -> map_wf dst ->
  map_find k (assign_all f src dst) =
    match map_find k src with Some a => Some (f a) | None => map_find k dst end.
Proof.
  unfold assign_all. intros Hs. revert dst.
  induction Hs as [|[k' a] src Hs IH Hall]; intros dst Hd; simpl; [done|].
  rewrite IH by auto with cbeam.
  destruct (key_ltb k' k) eqn:E1; [|destruct (key_ltb k k') eqn:E2].
  - destruct (map_find k src); [done|]. rewrite map_find_assign_ne; [done..|].
    intros ->. by rewrite key_ltb_irrefl in E1.
  - rewrite map_find_below, map_find_assign_ne; [done|done|..].
    + intros ->. by rewrite key_ltb_irrefl in E2.
    + eapply Forall_impl; [exact Hall|]. intros y Hy. by eapply key_ltb_trans.
  - assert (k' = k) as -> by (by apply key_ltb_total).
    rewrite map_find_below by done. apply map_find_assign_eq.
Qed.

(** Rebuilding an ordered map in iteration order gives the map. *)
Lemma assign_all_rebuild {A B} (f : A -> B) (src : list (K * A)) :
  map_wf src -> assign_all f src [] = map (fun x => (x.1, f x.2)) src.
Proof.
  intros Hs. enough (forall dst : list (K * B),
    Forall (fun y => Forall (fun x => key_ltb y.1 x.1 = true) src) dst ->
    assign_all f src dst = dst ++ map (fun x => (x.1, f x.2)) src) as Hgen
    by (by rewrite Hgen).
  induction Hs as [|[k a] src Hs IH Hall]; intros dst Hd; simpl; [by rewrite app_nil_r|].
  rewrite map_assign_last.
  - change (assign_all f src (dst ++ [(k, f a)]) = dst ++ (k, f a) :: map (fun x => (x.1, f x.2)) src).
    rewrite IH; [by rewrite <- app_assoc|].
    apply Forall_app. split; [|by repeat constructor].
    eapply Forall_impl; [exact Hd|]. intros y Hy. by apply Forall_inv_tail in Hy.
  - eapply Forall_impl; [exact Hd|]. intros y Hy. by apply Forall_inv in Hy.
Qed.

Lemma map_wf_keys {A B} (f : A -> B) (m : list (K * A)) :
  map_wf m -> map_wf (map (fun x => (x.1, f x.2)) m).
Proof.
  induction 1 as [|[k a] m Hm IH Hall]; simpl; constructor; [done|].
  by apply Forall_map.
Qed.

Lemma nested_assign_id t : nested_wf t -> nested_assign t = t.
Proof.
  induction t as [d s IH] using nested_map_rec_all. intros Hwf.
  inversion Hwf as [? ? Hd Hs Hall]; subst. simpl.
  rewrite (assign_all_rebuild id d), assign_all_rebuild by auto using map_wf_keys.
  rewrite map_map. f_equal.
  - rewrite <- (map_id d) at 2. apply map_ext. by intros [].
  - rewrite <- (map_id s) at 2. apply map_ext_Forall.
    rewrite Forall_forall in IH, Hall |- *. intros [k t] Hin.
    specialize (IH _ Hin). simpl in *. by rewrite IH by (by apply (Hall _ Hin)).
Qed.

(** [nested_eqb] decides equality when the key and value tests do. *)
Lemma nested_eqb_eq (eqk : K -> K -> bool) (eqv : V -> V -> bool) :
  (forall a b, eqk a b = true <-> a = b) -> (forall a b, eqv a b = true <-> a = b) ->
  forall t1 t2, nested_eqb eqk eqv t1 t2 = true <-> t1 = t2.
Proof.
  intros Hk Hv. induction t1 as [d1 s1 IH] using nested_map_rec_all. intros [d2 s2].
  simpl. rewrite andb_true_iff.
  transitivity (d1 = d2 /\ s1 = s2); [|split; [by intros [-> ->]|by intros [=]]].
  apply Morphisms_Prop.and_iff_morphism.
  - clear IH s1 s2. revert d2. induction d1 as [|[k1 v1] d1 IHd]; intros [|[k2 v2] d2];
      [done..|]. rewrite !andb_true_iff, Hk, Hv, IHd. naive_solver.
  - revert s2. induction IH as [|[k1 t1] s1 Ht IH IHs]; intros [|[k2 t2] s2]; [done..|].
    rewrite !andb_true_iff, Hk, IHs. simpl in Ht. rewrite Ht. naive_solver.
Qed.

Lemma nested_wf_inv t :
  nested_wf t -> map_wf (data t) /\ map_wf (sub_tables t) /\
  Forall (fun x => nested_wf x.2) (sub_tables t).
Proof. by destruct 1. Qed.

Lemma assign_all_Forall {A B} (P : B -> Prop) (f : A -> B) (src : list (K * A)) dst :
  Forall (fun x => P (f x.2)) src -> Forall (fun x => P x.2) dst ->
  Forall (fun x => P x.2) (assign_all f src dst).
Proof.
  intros Hs. unfold assign_all. revert dst.
  induction Hs as [|[k a] src Ha Hs IH]; intros dst Hd; simpl in *; [done|].
  apply IH. clear IH. induction Hd as [|[k' b] dst Hb Hd IH]; simpl; [by repeat constructor|].
  repeat case_match; repeat constructor; auto.
Qed.
End nested_map_laws.

(** ** Properties *)

Section nested_map_properties.
Context {K V : Type} `{KeyOrderLaws K}.
Implicit Types (t other : nested_map K V).

(** Copy assignment copies: whatever the target held, assigning another
    object leaves exactly that object in the target, and [operator==] says
    so; assigning the object itself changes nothing. *)
Theorem nested_operator_assign_copies t other eqk eqv :
  nested_wf other ->
  (forall a b, eqk a b = true <-> a = b) -> (forall a b, eqv a b = true <-> a = b) ->
  nested_operator_assign t (Other other) = Ok other /\
  nested_operator_assign t (Within []) = Ok t /\
  nested_eqb eqk eqv (nested_merge (nested_clear t) other) other = true.
Proof.
  intros Hwf Hk Hv. enough (nested_merge (nested_clear t) other = other) as Hm.
  { unfold nested_operator_assign. rewrite Hm. split; [done|]. split; [done|].
    by apply (nested_eqb_eq eqk eqv Hk Hv). }
  rewrite <- (nested_assign_id other Hwf) at 2.
  destruct other as [d s]. unfold nested_merge. simpl. f_equal.
  apply nested_wf_inv in Hwf as (_ & Hs & _). simpl in Hs.
  rewrite !assign_all_rebuild by auto using map_wf_keys.
  rewrite map_map. by apply map_ext.
Qed.

(** C21. [merge] is the right-biased union of both tables: a key of [other]
    takes [other]'s value or its whole sub-table (sub-tables of the same key
    are replaced, not merged), every other key keeps its entry, and the
    result is ordered at every level. *)
Theorem nested_merge_right_biased t other k :
  nested_wf t -> nested_wf other ->
  nested_wf (nested_merge t other) /\
  map_find k (data (nested_merge t other)) =
    match map_find k (data other) with Some v => Some v | None => map_find k (data t) end /\
  map_find k (sub_tables (nested_merge t other)) =
    match map_find k (sub_tables other) with
    | Some s => Some s
    | None => map_find k (sub_tables t)
    end.
Proof.
  intros (Hd & Hs & Ha)%nested_wf_inv (Hd' & Hs' & Ha')%nested_wf_inv.
  split; [|split].
  - constructor; [by apply assign_all_wf..|]. apply assign_all_Forall; [|done].
    eapply Forall_impl; [exact Ha'|]. intros x Hx. by rewrite nested_assign_id.
  - by apply (assign_all_find id).
  - simpl. rewrite assign_all_find by done.
    destruct (map_find k (sub_tables other)) as [s|] eqn:E; [|done].
    apply map_find_Some_elem in E; [|done]. rewrite Forall_forall in Ha'.
    f_equal. apply nested_assign_id, (Ha' _ E).
Qed.

(** [get_mapped_value_or_throw<T>] for an alternative [T] of a variant:
    it returns [x] exactly when the key holds the variant built from [x];
    otherwise it throws the caller's text or one of the two default texts,
    according to what is wrong; [..._or_default] agrees with it and yields
    [T{}] in place of a throw. *)
Theorem get_mapped_alternative_spec {T} `{Alternative V T} t key msg :
  (forall x : T, get_mapped_alternative_or_throw t key msg = Ok x <->
                 map_find key (data t) = Some (in_place x)) /\
  (forall e, get_mapped_alternative_or_throw (T := T) t key msg = Throw e ->
     catches runtime_error e = true /\
     exn_text e = if bool_decide (msg = ""%string)
                  then (if map_find key (data t) is Some _
                        then "get_mapped_value_or_throw: wrong type of value"
                        else "get_mapped_value_or_throw: missing value")%string
                  else msg) /\
  get_mapped_alternative_or_default t key =
    match get_mapped_alternative_or_throw (T := T) t key msg with
    | Ok x => x
    | _ => value_init
    end.
Proof.
  unfold get_mapped_alternative_or_throw, get_mapped_alternative_or_default,
    get_value_or_default, error_text.
  destruct (map_find key (data t)) as [v|]; [|split; [done|]; split; [|done];
    intros e [= <-]; split; [done|simpl; by case_bool_decide]].
  destruct (get_if v) as [x|] eqn:E.
  - split; [|split; [done|done]]. intros y. apply get_if_Some in E as ->.
    split; [by intros [= ->]|]. intros [= Hx].
    apply (f_equal get_if) in Hx. rewrite !get_if_in_place in Hx. by simplify_eq.
  - split; [|split; [|done]].
    + intros y. split; [done|]. intros [= ->]. by rewrite get_if_in_place in E.
    + intros e [= <-]. split; [done|]. simpl. by case_bool_decide.
Qed.
End nested_map_properties.

(** Assigning one of its own sub-tables to a nested map: the test against
    [this] lets it through and [clear()] destroys the operand first. *)
Example nested_assign_own_sub_table :
  nested_operator_assign (NestedMap [] [(1, NestedMap [(2, 3)] [])]) (Within [1]) = UB.
Proof. reflexivity. Qed.

(** The same when merging an own sub-table that has a sub-table of its own name;
    any other own sub-table can be merged. *)
Example nested_merge_own_sub_table :
  (nested_merge_operand (NestedMap [] [(1, NestedMap [(2, 3)] [(1, NestedMap [(4, 5)] [])])]) (Within [1]),
   nested_merge_operand (NestedMap [] [(1, NestedMap [(2, 3)] [(6, NestedMap [(4, 5)] [])])]) (Within [1])) =
  (UB, Ok (NestedMap [(2, 3)] [(1, NestedMap [(2, 3)] [(6, NestedMap [(4, 5)] [])]); (6, NestedMap [(4, 5)] [])])).
Proof. reflexivity. Qed.

Definition sample_table : nested_map Z Z := NestedMap [(1, 10); (2, 20)] [(3, NestedMap [(4, 40)] [])].

Lemma sample_table_wf : nested_wf sample_table.
Proof. repeat constructor. Defined.

Lemma nested_operator_assign_copies_witness :
  nested_operator_assign (NestedMap [(7, 7)] []) (Other sample_table) = Ok sample_table.
Proof.
  apply (nested_operator_assign_copies _ sample_table Z.eqb Z.eqb sample_table_wf Z.eqb_eq Z.eqb_eq).
Defined.

Lemma nested_merge_right_biased_witness :
  map_find 2 (data (nested_merge (NestedMap [(2, 7); (5, 50)] []) sample_table)) = Some 20.
Proof.
  destruct (nested_merge_right_biased (NestedMap [(2, 7); (5, 50)] []) sample_table 2)
    as (_ & Hd & _); [repeat constructor|exact sample_table_wf|exact Hd].
Defined.
