(* ===== verification/Convert.v ===== *)
(** * Convert: [convert/string.hpp], [convert/map.hpp], [convert/nested_map.hpp]

    Text conversions.  Streams are imbued with the "C" locale, so numbers print
    in plain decimal, [bool] as 0/1 and pointers as [std::hex] with
    [std::showbase] (which adds no prefix to zero).  Extraction follows
    [num_get]: optional blanks and sign, the longest run of digits, 0 when there
    is none, the nearest limit on overflow. *)

From S2P Require Import Prelude Errors Bytes StdMap Xpod NestedMap.

(** ** Digits *)

Definition digit_char (d : Z) : byte := byte_of (if bool_decide (d < 10) then 48 + d else 87 + d).

Definition digit_val (c : byte) : option Z :=
  let v := byte_val c in
  if bool_decide (48 <= v <= 57) then Some (v - 48)
  else if bool_decide (97 <= v <= 102) then Some (v - 87)
  else if bool_decide (65 <= v <= 70) then Some (v - 55)
  else None.

(** The digits of [z] in front of [acc]; [fuel] bounds their number. *)
Fixpoint put_digits (fuel : nat) (base z : Z) (acc : bytes) : bytes :=
  match fuel with
  | O => acc
  | S fuel =>
      let acc := digit_char (z mod base) :: acc in
      if bool_decide (z / base = 0) then acc else put_digits fuel base (z / base) acc
  end.

(** One digit per bit is enough. *)
Definition print_nat (base z : Z) : bytes := put_digits (S (Z.to_nat (Z.log2 z))) base z [].

(** The longest run of digits, and how many there were. *)
Fixpoint take_digits (base acc : Z) (count : nat) (s : bytes) : Z * nat :=
  match s with
  | [] => (acc, count)
  | c :: s =>
      match digit_val c with
      | Some d =>
          if bool_decide (d < base) then take_digits base (acc * base + d) (S count) s
          else (acc, count)
      | None => (acc, count)
      end
  end.

Definition is_space (c : byte) : bool :=
  bool_decide (byte_val c = 32) || bool_decide (9 <= byte_val c <= 13).

Fixpoint skip_spaces (s : bytes) : bytes :=
  match s with
  | c :: s' => if is_space c then skip_spaces s' else s
  | [] => []
  end.

(** An optional sign: is the number negated? *)
Definition take_sign (s : bytes) : bool * bytes :=
  match s with
  | c :: s' =>
      if bool_decide (byte_val c = 45) then (true, s')
      else if bool_decide (byte_val c = 43) then (false, s') else (false, s)
  | [] => (false, s)
  end.

(** An optional "0x" or "0X". *)
Definition skip_0x (s : bytes) : bytes :=
  match s with
  | z :: x :: s' =>
      if bool_decide (byte_val z = 48) &&
         (bool_decide (byte_val x = 120) || bool_decide (byte_val x = 88))
      then s' else s
  | _ => s
  end.

(** [std::setw(width)] and [std::setfill(fill)] for text that is aligned right. *)
Definition pad {C} (width : nat) (fill : C) (s : list C) : list C := replicate (width - length s) fill ++ s.

(** ** [to_string] and [from_string] of the basic types *)

Definition minus : byte := byte_of 45.

(** [to_string(long long)], and of every other integer type. *)
Definition to_string_integer (z : Z) : bytes :=
  if bool_decide (z < 0) then minus :: print_nat 10 (- z) else print_nat 10 z.

(** [to_string(bool)]: no [std::boolalpha]. *)
Definition to_string_bool (b : bool) : bytes := to_string_integer (if b then 1 else 0).

(** [to_string(T* const&)]. *)
Definition to_string_pointer (p : Z) : bytes :=
  if bool_decide (p = 0) then str "0" else str "0x" ++ print_nat 16 p.

(** [from_string<T>] with the extraction of a [T]: without a character to extract
    from, [result] stays indeterminate. *)
Definition from_string {T} (extract : bytes -> T) (s : bytes) : outcome T :=
  match skip_spaces s with [] => UB | s => Ok (extract s) end.

(** [long long]: text that is no number gives 0, one out of range the nearest. *)
Definition extract_integer (s : bytes) : Z :=
  let '(neg, s) := take_sign s in
  let '(v, _) := take_digits 10 0 0 s in
  let v := if (neg : bool) then - v else v in
  if bool_decide (v < - 2 ^ 63) then - 2 ^ 63
  else if bool_decide (2 ^ 63 - 1 < v) then 2 ^ 63 - 1 else v.

(** [void*]. *)
Definition extract_pointer (s : bytes) : Z :=
  let '(neg, s) := take_sign s in
  let '(v, _) := take_digits 16 0 0 (skip_0x s) in
  if bool_decide (size_max < v) then size_max else size_t (if (neg : bool) then - v else v).

Definition from_string_integer : bytes -> outcome Z := from_string extract_integer.
Definition from_string_pointer : bytes -> outcome Z := from_string extract_pointer.

(** Blank text leaves the result indeterminate. *)
Example blank_number : from_string_integer (str "  ") = UB /\ from_string_integer (str " x") = Ok 0.
Proof. by vm_compute. Qed.

(** ** Characters *)

Definition tab : byte := byte_of 9.
Definition newline : byte := byte_of 10.

(** [indent(indentation)]: the [int] becomes a [std::size_t] length. *)
Definition indent (indentation : Z) : outcome bytes :=
  if bool_decide (indentation < 0) then throw std_length_error "basic_string::_M_create"
  else Ok (replicate (Z.to_nat indentation) tab).

(** [std::tolower] on one byte in the "C" locale, and [to_lower]. *)
Definition tolower (c : byte) : byte :=
  if bool_decide (65 <= byte_val c <= 90) then byte_of (byte_val c + 32) else c.
Definition to_lower (s : bytes) : bytes := map tolower s.

(** [escape_string(input, escape_character, characters_to_escape)]. *)
Fixpoint escape_string (input : bytes) (esc : byte) (chars : bytes) : bytes :=
  match input with
  | [] => []
  | ch :: input =>
      (if bool_decide (ch ∈ chars) then [esc; ch] else [ch]) ++ escape_string input esc chars
  end.

(** [unescape_string(input, escape_character, characters_to_unescape)]. *)
Fixpoint unescape_string (input : bytes) (esc : byte) (chars : bytes) : bytes :=
  match input with
  | [] => []
  | c :: rest =>
      if bool_decide (c = esc) then
        match rest with
        | d :: rest' =>
            if bool_decide (d ∈ chars) then d :: unescape_string rest' esc chars
            else c :: unescape_string rest esc chars
        | [] => [c]
        end
      else c :: unescape_string rest esc chars
  end.

(** ** Maps *)

(** [convert::to_string] of a key or value type. *)
Class ToString (T : Type) := to_string : T -> bytes.
#[export] Instance integer_to_string : ToString Z := to_string_integer.
#[export] Instance bool_to_string : ToString bool := to_string_bool.
#[export] Instance bytes_to_string : ToString bytes := id.

Section map_to_string.
Context {K V : Type} `{ToString K, ToString V}.

(** [to_string(table, indentation)] of [convert/map.hpp]. *)
Fixpoint map_to_string (table : list (K * V)) (indentation : Z) : outcome bytes :=
  match table with
  | [] => Ok []
  | (k, v) :: table =>
      i ← indent indentation;
      i1 ← indent 1;
      rest ← map_to_string table indentation;
      Ok (i ++ to_string k ++ i1 ++ to_string v ++ [newline] ++ rest)
  end.

(** The loop over a map of nested maps, given the text of a nested map. *)
Definition tables_to_string (f : nested_map K V -> Z -> outcome bytes) :=
  fix go (tables : list (K * nested_map K V)) (indentation : Z) : outcome bytes :=
    match tables with
    | [] => Ok []
    | (k, t) :: tables =>
        i ← indent indentation;
        inner ← f t (indentation + 1);
        rest ← go tables indentation;
        Ok (i ++ to_string k ++ [newline] ++ inner ++ rest)
    end.

(** [to_string(nested_map, indentation)]. *)
Fixpoint nested_to_string_at (t : nested_map K V) (indentation : Z) : outcome bytes :=
  match t with
  | NestedMap d s =>
      a ← map_to_string d (indentation + 1);
      b ← tables_to_string nested_to_string_at s (indentation + 1);
      Ok (a ++ b)
  end.

(** [to_string(nested_map)], [to_string(map)]. *)
Definition nested_to_string (t : nested_map K V) : outcome bytes := nested_to_string_at t (-1).
Definition plain_map_to_string (table : list (K * V)) : outcome bytes := map_to_string table 0.
End map_to_string.

(** The sample of [test_convert_nested_map.cpp]. *)
Definition sample_nested : nested_map bytes Z :=
  NestedMap [(str "a", 3); (str "b", 4)]
    [(str "i", NestedMap [(str "d", 6)] []); (str "j", NestedMap [(str "g", -9)] [])].

Example sample_nested_text :
  nested_to_string sample_nested =
  Ok (str "a" ++ [tab] ++ str "3" ++ [newline] ++ str "b" ++ [tab] ++ str "4" ++ [newline] ++
      str "i" ++ [newline] ++ [tab; tab] ++ str "d" ++ [tab] ++ str "6" ++ [newline] ++
      str "j" ++ [newline] ++ [tab; tab] ++ str "g" ++ [tab] ++ str "-9" ++ [newline]).
Proof. vm_compute. reflexivity. Qed.

(** ** Laws of the digits *)

Lemma digit_val_char base d : 0 <= d < base -> base <= 16 -> digit_val (digit_char d) = Some d.
Proof.
  intros Hd Hb. unfold digit_val, digit_char. rewrite byte_val_of.
  destruct (decide (d < 10)).
  - rewrite (bool_decide_eq_true_2 (d < 10)), Z.mod_small by lia.
    rewrite bool_decide_eq_true_2 by lia. f_equal; lia.
  - rewrite (bool_decide_eq_false_2 (d < 10)), Z.mod_small by lia.
    rewrite bool_decide_eq_false_2, bool_decide_eq_true_2 by lia. f_equal; lia.
Qed.

(** [take_digits] reads back what [put_digits] wrote: the accumulator becomes
    [acc * base^n + z] for the [n] digits of [z]. *)
Lemma take_put_digits base fuel z rest acc count :
  2 <= base <= 16 -> 0 <= z < base ^ Z.of_nat fuel ->
  exists n : nat, (fuel = O -> n = O) /\ (0 < fuel -> 0 < n)%nat /\
    take_digits base acc count (put_digits fuel base z rest) =
    take_digits base (acc * base ^ Z.of_nat n + z) (count + n) rest.
Proof.
  intros Hb. revert z rest. induction fuel as [|fuel IH]; intros z rest Hz; simpl.
  - exists O. split; [done|]. split; [lia|]. change (base ^ Z.of_nat 0) with 1 in *.
    f_equal; lia.
  - pose proof (Z.div_mod z base ltac:(lia)) as Hdm.
    pose proof (Z.mod_pos_bound z base ltac:(lia)) as Hm.
    case_bool_decide as Hq.
    + exists 1%nat. split; [done|]. split; [lia|]. simpl.
      rewrite (digit_val_char base), bool_decide_eq_true_2 by lia.
      replace (count + 1)%nat with (S count) by lia. f_equal. lia.
    + assert (0 <= z / base < base ^ Z.of_nat fuel) as Hz'.
      { split; [apply Z.div_pos; lia|]. apply Z.div_lt_upper_bound; [lia|].
        rewrite Nat2Z.inj_succ, Z.pow_succ_r in Hz by lia. lia. }
      destruct (IH (z / base) (digit_char (z mod base) :: rest) Hz') as (n & _ & Hn & E).
      exists (S n). split; [done|]. split; [lia|]. rewrite E. simpl.
      rewrite (digit_val_char base), bool_decide_eq_true_2 by lia.
      replace (count + S n)%nat with (S (count + n)) by lia.
      f_equal. rewrite Nat2Z.inj_succ, Z.pow_succ_r by lia. nia.
Qed.

Lemma print_nat_fuel base z : 2 <= base -> 0 <= z -> z < base ^ Z.of_nat (S (Z.to_nat (Z.log2 z))).
Proof.
  intros Hb Hz. rewrite Nat2Z.inj_succ, Z2Nat.id by apply Z.log2_nonneg.
  destruct (decide (z = 0)) as [->|].
  - apply Z.pow_pos_nonneg; [lia|]. pose proof (Z.log2_nonneg 0). lia.
  - pose proof (Z.log2_spec z ltac:(lia)) as [_ Hlt].
    eapply Z.lt_le_trans; [exact Hlt|]. apply Z.pow_le_mono_l. lia.
Qed.

Lemma take_print_nat base z :
  2 <= base <= 16 -> 0 <= z -> exists n, take_digits base 0 0 (print_nat base z) = (z, n).
Proof.
  intros Hb Hz. unfold print_nat.
  destruct (take_put_digits base (S (Z.to_nat (Z.log2 z))) z [] 0 0) as (n & _ & _ & ->);
    [done|split; [done|apply print_nat_fuel; lia]|by exists (0 + n)%nat].
Qed.

(** A printed number starts with a digit. *)
Lemma put_digits_head base fuel z rest :
  2 <= base <= 16 -> 0 <= z -> (exists c s d, rest = c :: s /\ digit_val c = Some d) ->
  exists c s d, put_digits fuel base z rest = c :: s /\ digit_val c = Some d.
Proof.
  intros Hb. revert z rest. induction fuel as [|fuel IH]; intros z rest Hz Hr; simpl; [done|].
  pose proof (Z.mod_pos_bound z base ltac:(lia)).
  assert (exists c s d, digit_char (z mod base) :: rest = c :: s /\ digit_val c = Some d) as Hc
    by (eexists _, _, _; split; [done|apply (digit_val_char base); lia]).
  case_bool_decide; [done|]. apply IH; [apply Z.div_pos; lia|done].
Qed.

Lemma print_nat_head base z :
  2 <= base <= 16 -> 0 <= z ->
  exists c s d, print_nat base z = c :: s /\ digit_val c = Some d.
Proof.
  intros Hb Hz. unfold print_nat. simpl. pose proof (Z.mod_pos_bound z base ltac:(lia)).
  assert (exists c s d, [digit_char (z mod base)] = c :: s /\ digit_val c = Some d) as Hc
    by (eexists _, _, _; split; [done|apply (digit_val_char base); lia]).
  case_bool_decide; [done|]. apply put_digits_head; [done|apply Z.div_pos; lia|done].
Qed.

Lemma digit_not_special c d :
  digit_val c = Some d ->
  is_space c = false /\ byte_val c <> 45 /\ byte_val c <> 43 /\ byte_val c <> 120 /\ byte_val c <> 88.
Proof.
  unfold digit_val, is_space. intros Hd.
  repeat case_bool_decide; simplify_eq; simpl; (lia || (split; [|lia])); try done; lia.
Qed.

Lemma skip_print_nat base z :
  2 <= base <= 16 -> 0 <= z ->
  skip_spaces (print_nat base z) = print_nat base z /\
  take_sign (print_nat base z) = (false, print_nat base z).
Proof.
  intros Hb Hz. destruct (print_nat_head base z Hb Hz) as (c & s & d & -> & Hd).
  apply digit_not_special in Hd as (Hs & Hm & Hp & _). simpl. rewrite Hs.
  by rewrite !bool_decide_eq_false_2.
Qed.

(** Digits of a number below [base ^ n], with zeros in front up to [n]. *)
Lemma length_put_digits_le base fuel z rest n :
  2 <= base -> 0 <= z < base ^ Z.of_nat (S n) -> (length (put_digits fuel base z rest) <= S n + length rest)%nat.
Proof.
  intros Hb. revert z rest n. induction fuel as [|fuel IH]; intros z rest n Hz; simpl; [lia|].
  case_bool_decide as Hq; [simpl; lia|]. destruct n as [|n].
  - rewrite Z.pow_1_r in Hz. rewrite Z.div_small in Hq by lia. done.
  - etransitivity; [apply (IH _ _ n)|simpl; lia]. rewrite Nat2Z.inj_succ, Z.pow_succ_r in Hz by lia.
    split; [apply Z.div_pos; lia|]. apply Z.div_lt_upper_bound; lia.
Qed.

Lemma length_pad_print base z n :
  2 <= base -> 0 <= z < base ^ Z.of_nat n -> (0 < n)%nat -> length (pad n (digit_char 0) (print_nat base z)) = n.
Proof.
  intros Hb Hz Hn. destruct n as [|n]; [lia|].
  pose proof (length_put_digits_le base (S (Z.to_nat (Z.log2 z))) z [] n Hb Hz) as Hl. rewrite Nat.add_0_r in Hl.
  unfold pad, print_nat. rewrite length_app, length_replicate. lia.
Qed.

Lemma take_digits_zeros base n count s :
  0 < base -> take_digits base 0 count (replicate n (digit_char 0) ++ s) = take_digits base 0 (count + n) s.
Proof.
  intros Hb. revert count. induction n as [|n IH]; intros count; [by rewrite Nat.add_0_r|].
  cbn [replicate app take_digits]. rewrite (digit_val_char 10), bool_decide_eq_true_2 by lia.
  rewrite Z.mul_0_l, IH. by rewrite Nat.add_succ_r.
Qed.

(** They read back. *)
Lemma take_pad_print base z n :
  2 <= base <= 16 -> 0 <= z -> (take_digits base 0 0 (pad n (digit_char 0) (print_nat base z))).1 = z.
Proof.
  intros Hb Hz. unfold pad, print_nat. rewrite take_digits_zeros by lia.
  edestruct (take_put_digits base) as (m & _ & _ & ->); [done|split; [done|apply print_nat_fuel; lia]|done].
Qed.

(** A number of [n] digits is below [base ^ n]. *)
Lemma take_digits_bound base acc count s :
  2 <= base -> 0 <= acc -> 0 <= (take_digits base acc count s).1 < (acc + 1) * base ^ Z.of_nat (length s).
Proof.
  intros Hb. revert acc count. induction s as [|c s IH]; intros acc count Ha; simpl; [lia|].
  assert (0 < base ^ Z.of_nat (length s)) by (apply Z.pow_pos_nonneg; lia).
  assert (base ^ Z.of_nat (S (length s)) = base * base ^ Z.of_nat (length s)) as E
    by (rewrite Nat2Z.inj_succ, Z.pow_succ_r; lia).
  destruct (digit_val c) as [d|] eqn:Hd; [case_bool_decide|]; simpl; [|nia|nia].
  assert (0 <= d). { unfold digit_val in Hd. repeat case_bool_decide; simplify_eq; lia. }
  specialize (IH (acc * base + d) (S count) ltac:(nia)). nia.
Qed.

(** A number of at least [n] digits needs no zeros in front. *)
Lemma pad_exact base z n :
  2 <= base <= 16 -> 0 <= z -> base ^ Z.of_nat n <= z -> pad (S n) (digit_char 0) (print_nat base z) = print_nat base z.
Proof.
  intros Hb Hz Hn. unfold pad. destruct (take_print_nat base z Hb Hz) as [m Hm].
  pose proof (take_digits_bound base 0 0 (print_nat base z) ltac:(lia) ltac:(lia)) as Hl. rewrite Hm in Hl. simpl in Hl.
  assert (base ^ Z.of_nat n < base ^ Z.of_nat (length (print_nat base z))) as Hlt by lia.
  apply Z.pow_lt_mono_r_iff in Hlt; [|lia..].
  replace (S n - length (print_nat base z))%nat with O by lia. done.
Qed.

(** Every character printed is a digit. *)
Definition is_digit (base : Z) (c : byte) : Prop := exists d, 0 <= d < base /\ c = digit_char d.

Lemma print_nat_digits base z : 2 <= base -> 0 <= z -> Forall (is_digit base) (print_nat base z).
Proof.
  intros Hb. unfold print_nat. generalize (S (Z.to_nat (Z.log2 z))). intros fuel.
  assert (Forall (is_digit base) []) as Hr by constructor. revert Hr. generalize (@nil byte).
  revert z. induction fuel as [|fuel IH]; intros z rest Hr Hz; simpl; [done|].
  assert (Forall (is_digit base) (digit_char (z mod base) :: rest)).
  { constructor; [|done]. exists (z mod base). split; [apply Z.mod_pos_bound; lia|done]. }
  case_bool_decide; [done|]. apply IH; [done|]. apply Z.div_pos; lia.
Qed.

(** ** Laws of the maps *)

Lemma indent_Ok n : 0 <= n -> indent n = Ok (replicate (Z.to_nat n) tab).
Proof. intros Hn. unfold indent. by rewrite bool_decide_eq_false_2 by lia. Qed.

(** The reference listing: one line per entry, with its depth; the entries of a
    sub-table come after its key, two levels deeper. *)
Section lines.
Context {K V : Type} `{ToString K, ToString V}.

Definition line : Type := Z * bytes.
Definition render (l : line) : bytes := replicate (Z.to_nat l.1) tab ++ l.2 ++ [newline].

Definition data_lines (depth : Z) (d : list (K * V)) : list line :=
  map (fun x => (depth, to_string x.1 ++ [tab] ++ to_string x.2)) d.

Fixpoint nested_lines (depth : Z) (t : nested_map K V) : list line :=
  match t with
  | NestedMap d s =>
      data_lines depth d ++
      concat (map (fun x => (depth, to_string x.1) :: nested_lines (depth + 2) x.2) s)
  end.

Lemma render_app d txt rest :
  render (d, txt) ++ rest = replicate (Z.to_nat d) tab ++ txt ++ newline :: rest.
Proof. unfold render. simpl. by rewrite <- !app_assoc. Qed.

Lemma map_to_string_lines d i :
  0 <= i -> map_to_string d i = Ok (concat (map render (data_lines i d))).
Proof.
  intros Hi. induction d as [|[k v] d IH]; simpl; [done|].
  rewrite indent_Ok by done. simpl. rewrite IH. simpl. unfold render. simpl.
  by rewrite <- !app_assoc.
Qed.

Lemma nested_to_string_lines t i :
  0 <= i + 1 -> nested_to_string_at t i = Ok (concat (map render (nested_lines (i + 1) t))).
Proof.
  revert i. induction t as [d s IH] using nested_map_rec_all. intros i Hi.
  simpl. rewrite map_to_string_lines by done. simpl.
  assert (tables_to_string nested_to_string_at s (i + 1) =
    Ok (concat (map render (concat (map (fun x =>
          (i + 1, to_string x.1) :: nested_lines (i + 1 + 2) x.2) s))))) as ->.
  { induction IH as [|[k t] s Ht IH IHs]; simpl; [done|].
    rewrite indent_Ok by done. simpl. rewrite Ht by lia. simpl. rewrite IHs. simpl.
    replace (i + 1 + 1 + 1) with (i + 1 + 2) by lia. simpl in *.
    by rewrite map_app, concat_app, render_app. }
  simpl. by rewrite map_app, concat_app.
Qed.
End lines.

Lemma from_string_visible {T} (extract : bytes -> T) c s :
  is_space c = false -> from_string extract (c :: s) = Ok (extract (c :: s)).
Proof. intros Hc. unfold from_string. simpl. by rewrite Hc. Qed.

Lemma integer_text_roundtrip z :
  is_long_long z -> from_string_integer (to_string_integer z) = Ok z.
Proof.
  unfold is_long_long, from_string_integer, to_string_integer. intros Hz. case_bool_decide.
  - rewrite (from_string_visible _ minus) by done. f_equal. unfold extract_integer.
    change (take_sign (minus :: print_nat 10 (- z))) with (true, print_nat 10 (- z)).
    destruct (take_print_nat 10 (- z) ltac:(lia) ltac:(lia)) as [n ->].
    rewrite !bool_decide_eq_false_2 by lia. lia.
  - destruct (print_nat_head 10 z ltac:(lia) ltac:(lia)) as (c & s & d & E & Hd).
    destruct (skip_print_nat 10 z) as [_ Hsg]; [lia..|]. rewrite E in *.
    rewrite from_string_visible by (by eapply digit_not_special). unfold extract_integer. rewrite Hsg, <- E.
    destruct (take_print_nat 10 z ltac:(lia) ltac:(lia)) as [n ->].
    by rewrite !bool_decide_eq_false_2 by lia.
Qed.

Lemma pointer_text_roundtrip p : is_size_t p -> from_string_pointer (to_string_pointer p) = Ok p.
Proof.
  unfold is_size_t, from_string_pointer, to_string_pointer. intros Hp.
  case_bool_decide; [subst; done|].
  rewrite (from_string_visible _ (byte_of 48) (byte_of 120 :: print_nat 16 p)) by done. f_equal.
  unfold extract_pointer. simpl. destruct (take_print_nat 16 p ltac:(lia) ltac:(lia)) as [n ->].
  rewrite bool_decide_eq_false_2 by lia. by apply size_t_id.
Qed.

(** The printed text of a 64-bit number has at most 66 characters. *)
Lemma length_put_digits base fuel z rest :
  (length (put_digits fuel base z rest) <= fuel + length rest)%nat.
Proof.
  revert z rest. induction fuel as [|fuel IH]; intros z rest; simpl; [lia|].
  case_bool_decide; simpl; [lia|]. etransitivity; [apply IH|]. simpl. lia.
Qed.

Lemma length_to_string_pointer p : is_size_t p -> (length (to_string_pointer p) <= 66)%nat.
Proof.
  unfold is_size_t, to_string_pointer. intros Hp. case_bool_decide; [simpl; lia|].
  rewrite length_app. simpl length. etransitivity;
    [apply Nat.add_le_mono_l, length_put_digits|]. simpl.
  assert (Z.log2 p < 64); [|lia]. destruct (decide (p = 0)) as [->|]; [done|].
  apply Z.log2_lt_pow2; unfold size_max, size_bits in *; lia.
Qed.

(** ** Properties *)

(** Printed numbers read back: for every [long long] the decimal text, and
    for every address the "0x" text, parse to the number they came from. *)
Theorem number_text_roundtrip z p :
  is_long_long z -> is_size_t p ->
  from_string_integer (to_string_integer z) = Ok z /\
  from_string_pointer (to_string_pointer p) = Ok p.
Proof. split; [by apply integer_text_roundtrip|by apply pointer_text_roundtrip]. Qed.

Lemma number_text_roundtrip_witness :
  from_string_integer (to_string_integer (- 2 ^ 63)) = Ok (- 2 ^ 63) /\
  from_string_pointer (to_string_pointer 0xdeadbeef) = Ok 0xdeadbeef.
Proof.
  apply number_text_roundtrip; unfold is_long_long, is_size_t, size_max, size_bits; lia.
Defined.

(** Unescaping undoes escaping, for every escape character and every set of
    escaped characters, whether or not the set contains the escape character. *)
Theorem unescape_escape input esc chars :
  unescape_string (escape_string input esc chars) esc chars = input.
Proof.
  induction input as [|ch input IH]; simpl; [done|].
  case_bool_decide as Hch; simpl.
  - rewrite bool_decide_eq_true_2 by done. rewrite bool_decide_eq_true_2 by done. by rewrite IH.
  - case_bool_decide as He; [|by rewrite IH]. subst ch.
    destruct input as [|c2 input]; [done|]. rewrite <- IH at 2. simpl in *.
    destruct (bool_decide (c2 ∈ chars)) eqn:E; simpl.
    + by rewrite (bool_decide_eq_false_2 (esc ∈ chars)).
    + by rewrite E.
Qed.

(** The printed nested map is the reference listing: one line per entry of
    every level, data before sub-tables, each key of a sub-table followed by the
    sub-table's lines two tabs deeper; printing never throws. *)
Theorem nested_to_string_listing {K V} `{ToString K, ToString V} (t : nested_map K V) :
  nested_to_string t = Ok (concat (map render (nested_lines 0 t))).
Proof. by apply (nested_to_string_lines t (-1)). Qed.
