(* ===== verification/Decimal.v ===== *)
(** * Decimal: the text of a [double] and of a variant ([convert/string.hpp], [convert/xpod.hpp])

    [to_string] of a [double] is what a stream with the "C" locale and its default
    precision prints: six significant digits, rounded to nearest (ties to the
    even digit) from the exact binary value, in fixed or scientific notation,
    without trailing zeros. *)

From S2P Require Import Prelude Errors Bytes StdMap Xpod NestedMap.
From S2P Require Import Convert.

(** ** The value of a [double] *)

(** IEEE binary64: [Finite neg m e] is [m * 2^e], negated or not. *)
Inductive double_value : Type :=
| Finite (neg : bool) (m e : Z)
| Infinite (neg : bool)
| NaN (neg : bool).

Definition value_of (d : double) : double_value :=
  let bits := double_bits d in
  let neg := Z.testbit bits 63 in
  let exponent := Z.shiftr bits 52 mod 2 ^ 11 in
  let fraction := bits mod 2 ^ 52 in
  if bool_decide (exponent = 2047) then if bool_decide (fraction = 0) then Infinite neg else NaN neg
  else if bool_decide (exponent = 0) then Finite neg fraction (-1074)
  else Finite neg (2 ^ 52 + fraction) (exponent - 1075).

(** ** Printing *)

(** Number of decimal digits. *)
Definition digits (z : Z) : Z := Z.of_nat (length (print_nat 10 z)).

(** The fraction [m * 2^e * 10^k]. *)
Definition scaled (m e k : Z) : Z * Z :=
  (m * 2 ^ Z.max e 0 * 10 ^ Z.max k 0, 2 ^ Z.max (- e) 0 * 10 ^ Z.max (- k) 0).

Definition round_half_even (n d : Z) : Z :=
  let q := n / d in
  let r := n mod d in
  if bool_decide (2 * r < d) then q
  else if bool_decide (d < 2 * r) then q + 1
  else if Z.even q then q else q + 1.

(** The largest [x] with [10^x <= m * 2^e], for [0 < m]. *)
Definition decimal_exponent (m e : Z) : Z :=
  let '(n, d) := scaled m e 0 in
  let k := digits n - digits d in
  if bool_decide (n * 10 ^ Z.max (- k) 0 < d * 10 ^ Z.max k 0) then k - 1 else k.

Definition precision : Z := 6.

(** The significant digits as an integer, and the exponent of the first. *)
Definition significant (m e : Z) : Z * Z :=
  let x := decimal_exponent m e in
  let '(n, d) := scaled m e (precision - 1 - x) in
  let q := round_half_even n d in
  if bool_decide (q = 10 ^ precision) then (10 ^ (precision - 1), x + 1) else (q, x).

Definition digit_zero : byte := byte_of 48.
Definition point : byte := byte_of 46.

(** Without the zeros at the end. *)
Fixpoint strip_zeros (s : bytes) : bytes :=
  match s with
  | [] => []
  | c :: s =>
      match strip_zeros s with
      | [] => if bool_decide (c = digit_zero) then [] else [c]
      | s => c :: s
      end
  end.
Definition with_fraction (whole fraction : bytes) : bytes :=
  match strip_zeros fraction with [] => whole | f => whole ++ point :: f end.

(** "%g" of the digits [q] with exponent [x]. *)
Definition general (q x : Z) : bytes :=
  let ds := print_nat 10 q in
  if bool_decide (-4 <= x < precision) then
    if bool_decide (0 <= x) then with_fraction (take (Z.to_nat (x + 1)) ds) (drop (Z.to_nat (x + 1)) ds)
    else with_fraction (str "0") (replicate (Z.to_nat (- x - 1)) digit_zero ++ ds)
  else
    with_fraction (take 1 ds) (drop 1 ds) ++ str "e" ++ str (if bool_decide (x < 0) then "-" else "+") ++
    pad 2 digit_zero (print_nat 10 (Z.abs x)).

Definition to_string_double (d : double) : bytes :=
  match value_of d with
  | Finite neg m e =>
      str (if neg then "-" else "") ++
      (if bool_decide (m = 0) then str "0" else let '(q, x) := significant m e in general q x)
  | Infinite neg => str (if neg then "-inf" else "inf")
  | NaN neg => str (if neg then "-nan" else "nan")
  end.

(** [to_string(const xpod::type&)] of [convert/xpod.hpp]. *)
Definition xpod_to_string (v : xpod) : bytes :=
  match v with
  | XInteger z => to_string_integer z
  | XNumber d => to_string_double d
  | XBoolean b => to_string_bool b
  | XPointer p => to_string_pointer (pointer_addr p)
  | XString s => s
  end.
#[export] Instance double_to_string : ToString double := to_string_double.
#[export] Instance xpod_text : ToString xpod := xpod_to_string.

Definition double_of_bits (z : Z) : double := Double z.

Example print_tenth : to_string_double (double_of_bits 0x3fb999999999999a) = str "0.1".
Proof. vm_compute. reflexivity. Qed.
Example print_pi : to_string_double (double_of_bits 0x400921fb54442d18) = str "3.14159".
Proof. vm_compute. reflexivity. Qed.
Example print_large : to_string_double (double_of_bits 0xc12e848000000000) = str "-1e+06".
Proof. vm_compute. reflexivity. Qed.
Example print_largest : to_string_double (double_of_bits 0x7fefffffffffffff) = str "1.79769e+308".
Proof. vm_compute. reflexivity. Qed.
Example print_least : to_string_double (double_of_bits 1) = str "4.94066e-324".
Proof. vm_compute. reflexivity. Qed.
Example print_small : to_string_double (double_of_bits 0x3f1a36e2eb1c432d) = str "0.0001".
Proof. vm_compute. reflexivity. Qed.

(** Numbers that differ in the seventh digit have the same text. *)
Example digits_lost : to_string_double (double_of_bits 0x412e847e00000000) = to_string_double (double_of_bits 0x412e847e40000000).
Proof. vm_compute. reflexivity. Qed.

(** The text does not tell the alternatives of a variant apart. *)
Example xpod_text_ambiguous : xpod_to_string (XInteger 5) = xpod_to_string (XNumber (double_of_bits 0x4014000000000000)).
Proof. vm_compute. reflexivity. Qed.

(** ** Reading back *)

(** Digits with an optional point: the number without the point, how many digits
    were behind it, and the rest. *)
Definition read_mantissa (s : bytes) : Z * nat * bytes :=
  let '(w, n) := take_digits 10 0 0 s in
  match drop n s with
  | c :: rest => if bool_decide (c = point) then let '(m, k) := take_digits 10 w 0 rest in (m, k, drop k rest) else (w, O, c :: rest)
  | [] => (w, O, [])
  end.

(** "e" or "E". *)
Definition is_exponent (c : byte) : bool := bool_decide (byte_val c = 101) || bool_decide (byte_val c = 69).

(** The exact value of a decimal text: [(neg, m, e)] is [m * 10^e]. *)
Definition read_decimal (s : bytes) : bool * Z * Z :=
  let '(neg, s) := take_sign s in
  let '(m, k, rest) := read_mantissa s in
  let e := match rest with
  | c :: rest =>
      if is_exponent c then
        let '(eneg, rest) := take_sign rest in
        let '(x, _) := take_digits 10 0 0 rest in if (eneg : bool) then - x else x
      else 0
  | [] => 0
  end in
  (neg, m, e - Z.of_nat k).

(** Are there digits, and digits behind an "e"? *)
Definition complete_number (s : bytes) : bool :=
  let s := (take_sign s).2 in
  let '(_, k, rest) := read_mantissa s in
  bool_decide (0 < (take_digits 10 0 0 s).2 + k)%nat &&
  match rest with
  | c :: rest => if is_exponent c then bool_decide (0 < (take_digits 10 0 0 (take_sign rest).2).2)%nat else true
  | [] => true
  end.

(** The value of digits behind [acc]. *)
Definition dv (acc : Z) (s : bytes) : Z := fold_left (fun a c => a * 10 + (byte_val c - 48)) s acc.

Definition stops (rest : bytes) : Prop :=
  match rest with [] => True | c :: _ => match digit_val c with Some d => 10 <= d | None => True end end.

Lemma digit_char_val d : 0 <= d < 10 -> byte_val (digit_char d) = 48 + d.
Proof. intros Hd. unfold digit_char. rewrite bool_decide_eq_true_2 by lia. by rewrite byte_val_of_small by lia. Qed.

Lemma take_digits_dv acc count s rest :
  Forall (is_digit 10) s -> stops rest -> take_digits 10 acc count (s ++ rest) = (dv acc s, (count + length s)%nat).
Proof.
  intros Hs Hr. revert acc count. induction Hs as [|c s (d & Hd & ->) _ IH]; intros acc count; simpl.
  - rewrite Nat.add_0_r. destruct rest as [|c rest]; simpl in *; [done|]. destruct (digit_val c); [|done].
    by rewrite bool_decide_eq_false_2 by lia.
  - rewrite (digit_val_char 10), bool_decide_eq_true_2, IH by lia. rewrite digit_char_val by done.
    f_equal; [do 2 f_equal; lia|lia].
Qed.

Lemma dv_app acc s t : dv acc (s ++ t) = dv (dv acc s) t.
Proof. apply fold_left_app. Qed.

Lemma dv_zeros acc k : dv acc (replicate k digit_zero) = acc * 10 ^ Z.of_nat k.
Proof.
  revert acc. induction k as [|k IH]; intros acc; [simpl; lia|]. change (dv acc (replicate (S k) digit_zero)) with (dv (acc * 10 + 0) (replicate k digit_zero)).
  rewrite IH, Nat2Z.inj_succ, Z.pow_succ_r by lia. lia.
Qed.

Lemma dv_print z : 0 <= z -> dv 0 (print_nat 10 z) = z.
Proof.
  intros Hz. destruct (take_print_nat 10 z ltac:(lia) Hz) as [n E].
  pose proof (take_digits_dv 0 0 (print_nat 10 z) [] (print_nat_digits 10 z ltac:(lia) Hz) I) as E2.
  rewrite app_nil_r, E in E2. by injection E2 as <-.
Qed.

Lemma strip_zeros_spec s : exists k, s = strip_zeros s ++ replicate k digit_zero.
Proof.
  induction s as [|c s (k & E)]; [by exists O|]. simpl. destruct (strip_zeros s) as [|c' s'].
  - case_bool_decide as Hc; [exists (S k); subst c; simpl; by rewrite E at 1|exists k; simpl; by rewrite E at 1].
  - exists k. simpl. by rewrite E at 1.
Qed.

(** Whole digits and a fraction without its zeros. *)
Lemma read_with_fraction w f rest :
  Forall (is_digit 10) w -> Forall (is_digit 10) f -> stops rest -> head rest <> Some point ->
  exists m k j, read_mantissa (with_fraction w f ++ rest) = (m, k, rest) /\
    dv 0 (w ++ f) = m * 10 ^ Z.of_nat j /\ (k + j = length f)%nat.
Proof.
  intros Hw Hf Hr Hp. unfold with_fraction, read_mantissa. destruct (strip_zeros_spec f) as [j E].
  assert (stops (point :: strip_zeros f ++ rest)) as Hsp by done.
  destruct (strip_zeros f) as [|c f'].
  - rewrite take_digits_dv, Nat.add_0_l, drop_app_length by done.
    exists (dv 0 w), O, (length f). split; [destruct rest as [|c rest]; [done|]; rewrite bool_decide_eq_false_2 by (intros ->; done); done|].
    split; [|lia]. rewrite dv_app. simpl in E. rewrite E, dv_zeros, length_replicate. done.
  - rewrite <- app_assoc. cbn [app]. rewrite take_digits_dv, Nat.add_0_l, drop_app_length by done.
    rewrite bool_decide_eq_true_2 by done. rewrite E in Hf. apply Forall_app in Hf as [Hf' _].
    change (c :: f' ++ rest) with ((c :: f') ++ rest). rewrite take_digits_dv, Nat.add_0_l, drop_app_length by done.
    eexists _, _, j. split; [done|]. split; [|rewrite E, length_app, length_replicate; lia].
    rewrite E, dv_app, dv_app, dv_zeros. done.
Qed.

Lemma print_length q : 10 ^ 5 <= q < 10 ^ 6 -> length (print_nat 10 q) = 6%nat.
Proof.
  intros Hq. pose proof (length_put_digits_le 10 (S (Z.to_nat (Z.log2 q))) q [] 5 ltac:(lia) ltac:(lia)) as Hl.
  pose proof (pad_exact 10 q 5 ltac:(lia) ltac:(lia) ltac:(lia)) as Hp. apply (f_equal length) in Hp. revert Hl Hp.
  unfold pad, print_nat. rewrite length_app, length_replicate. simpl (length []). lia.
Qed.

Lemma take_sign_digits w s : Forall (is_digit 10) w -> w <> [] -> take_sign (w ++ s) = (false, w ++ s).
Proof.
  intros [|c w' (d & Hd & ->) _] ?; [done|]. simpl. rewrite digit_char_val by done. by rewrite !bool_decide_eq_false_2 by lia.
Qed.

Lemma with_fraction_sign w f s :
  Forall (is_digit 10) w -> w <> [] -> take_sign (with_fraction w f ++ s) = (false, with_fraction w f ++ s).
Proof.
  intros Hw Hn. unfold with_fraction. destruct (strip_zeros f); [|rewrite <- app_assoc]; by apply take_sign_digits.
Qed.

Lemma take_digits_pos c s acc n : is_digit 10 c -> (n < (take_digits 10 acc n (c :: s)).2)%nat.
Proof.
  intros (d & Hd & ->). assert (forall a k l, (k <= (take_digits 10 a k l).2)%nat) as Hge.
  { intros a k l. revert a k. induction l as [|b l IH]; intros a k; simpl; [lia|]. destruct (digit_val b) as [v|]; [|simpl; lia].
    case_bool_decide; [|simpl; lia]. specialize (IH (a * 10 + v) (Datatypes.S k)). lia. }
  simpl. rewrite (digit_val_char 10), bool_decide_eq_true_2 by lia. specialize (Hge (acc * 10 + d) (Datatypes.S n) s). lia.
Qed.

Lemma with_fraction_digits w f s :
  Forall (is_digit 10) w -> w <> [] -> (0 < (take_digits 10 0 0 (with_fraction w f ++ s)).2)%nat.
Proof.
  intros [|c w' Hc _] ?; [done|]. unfold with_fraction. by destruct (strip_zeros f); apply take_digits_pos.
Qed.

Lemma complete_number_intro s m k rest :
  take_sign s = (false, s) -> read_mantissa s = (m, k, rest) -> (0 < (take_digits 10 0 0 s).2)%nat ->
  match rest with
  | c :: rest => is_exponent c = true -> (0 < (take_digits 10 0 0 (take_sign rest).2).2)%nat
  | [] => True
  end -> complete_number s = true.
Proof.
  intros Hs Hm Hd Hr. unfold complete_number. rewrite Hs. cbn [snd]. rewrite Hm, bool_decide_eq_true_2 by lia.
  destruct rest as [|c rest]; [done|]. destruct (is_exponent c); [|done]. by rewrite bool_decide_eq_true_2 by auto.
Qed.

Lemma general_visible q x : 10 ^ 5 <= q < 10 ^ 6 -> skip_spaces (general q x) = general q x /\ general q x <> [].
Proof.
  intros Hq. destruct (print_nat_head 10 q ltac:(lia) ltac:(lia)) as (c & s & d & E & Hd).
  apply digit_not_special in Hd as (Hs & _). unfold general, with_fraction. rewrite E.
  repeat case_bool_decide.
  - replace (Z.to_nat (x + 1)) with (Datatypes.S (Z.to_nat x)) by lia. cbn [take drop].
    destruct (strip_zeros _); simpl; by rewrite Hs.
  - by destruct (strip_zeros _).
  - cbn [take drop]. destruct (strip_zeros _); simpl; by rewrite Hs.
  - cbn [take drop]. destruct (strip_zeros _); simpl; by rewrite Hs.
Qed.

Lemma exponent_digits (x : Z) :
  (0 < (take_digits 10 0 0 (take_sign (str (if bool_decide (x < 0)%Z then "-" else "+") ++
     pad 2 digit_zero (print_nat 10 (Z.abs x)))).2).2)%nat.
Proof.
  replace (take_sign _).2 with (pad 2 digit_zero (print_nat 10 (Z.abs x))) by (by case_bool_decide).
  assert (Forall (is_digit 10) (pad 2 digit_zero (print_nat 10 (Z.abs x)))) as Hf.
  { unfold pad. apply Forall_app. split; [apply Forall_replicate; by exists 0|apply print_nat_digits; lia]. }
  assert (pad 2 digit_zero (print_nat 10 (Z.abs x)) <> []) as Hn.
  { unfold pad. destruct (print_nat_head 10 (Z.abs x) ltac:(lia) ltac:(lia)) as (c & s & d & -> & _). by destruct (replicate _ _). }
  destruct Hf as [|c s Hc _]; [done|]. by apply take_digits_pos.
Qed.

(** What [read_decimal] makes of a number with its sign taken off. *)
Lemma read_general q x :
  10 ^ 5 <= q < 10 ^ 6 -> take_sign (general q x) = (false, general q x) /\ complete_number (general q x) = true /\
  exists m j, read_decimal (general q x) = (false, m, x - 5 + Z.of_nat j) /\ q = m * 10 ^ Z.of_nat j.
Proof.
  intros Hq. pose proof (print_length q Hq) as Hl. pose proof (print_nat_digits 10 q ltac:(lia) ltac:(lia)) as Hd.
  pose proof (dv_print q ltac:(lia)) as Hv. unfold general, precision. set (ds := print_nat 10 q) in *.
  assert (Forall (is_digit 10) [digit_zero]) as Hz by (constructor; [exists 0; done|constructor]).
  assert (forall n, (0 < n)%nat -> take n ds <> []) as Hne by (intros [|n] ?; [lia|destruct ds; done]).
  assert (forall w f rest, Forall (is_digit 10) w -> Forall (is_digit 10) f -> w <> [] -> stops rest ->
    head rest <> Some point -> dv 0 (w ++ f) = q ->
    take_sign (with_fraction w f ++ rest) = (false, with_fraction w f ++ rest) /\
    (0 < (take_digits 10 0 0 (with_fraction w f ++ rest)).2)%nat /\
    exists m k j, read_mantissa (with_fraction w f ++ rest) = (m, k, rest) /\ q = m * 10 ^ Z.of_nat j /\ (k + j = length f)%nat) as Hread.
  { intros w f rest Hw Hf Hwn Hs Hp <-. split; [by apply with_fraction_sign|].
    split; [by apply with_fraction_digits|]. by apply read_with_fraction. }
  assert (forall n, Forall (is_digit 10) (take n ds)) by (intros; by apply Forall_take).
  assert (forall n, Forall (is_digit 10) (drop n ds)) by (intros; by apply Forall_drop).
  case_bool_decide as Hx; [case_bool_decide as Hx0|].
  - destruct (Hread (take (Z.to_nat (x + 1)) ds) (drop (Z.to_nat (x + 1)) ds) []) as (Hsg & Hc & m & k & j & Hm & Hqm & Hk);
      [done..|apply Hne; lia|done|done|by rewrite take_drop|].
    rewrite app_nil_r in *. split; [done|]. split; [by eapply complete_number_intro|]. exists m, j. split; [|done]. unfold read_decimal. rewrite Hsg, Hm.
    rewrite length_drop, Hl in Hk. f_equal. lia.
  - destruct (Hread (str "0") (replicate (Z.to_nat (- x - 1)) digit_zero ++ ds) []) as (Hsg & Hc & m & k & j & Hm & Hqm & Hk);
      [done| |done|done|done| |].
    { apply Forall_app. split; [|done]. apply Forall_replicate. by inversion Hz. }
    { rewrite !dv_app, dv_zeros. done. }
    rewrite app_nil_r in *. split; [done|]. split; [by eapply complete_number_intro|]. exists m, j. split; [|done]. unfold read_decimal. rewrite Hsg, Hm.
    rewrite length_app, length_replicate, Hl in Hk. f_equal. lia.
  - destruct (Hread (take 1 ds) (drop 1 ds) (str "e" ++ str (if bool_decide (x < 0) then "-" else "+") ++
        pad 2 digit_zero (print_nat 10 (Z.abs x)))) as (Hsg & Hc & m & k & j & Hm & Hqm & Hk);
      [done..|apply Hne; lia|by change (10 <= 14)|done|by rewrite take_drop|].
    split; [done|]. split; [eapply complete_number_intro; [done..|]; intros _; apply exponent_digits|].
    exists m, j. split; [|done]. unfold read_decimal. rewrite Hsg, Hm. cbn [str app].
    pose proof (take_pad_print 10 (Z.abs x) 2 ltac:(lia) ltac:(lia)) as Hp. change (digit_char 0) with digit_zero in Hp.
    rewrite length_drop, Hl in Hk. clear Hc.
    case_bool_decide; simpl; (destruct (take_digits _ _ _ _) as [y n']; simpl in Hp; subst y; f_equal; lia).
Qed.

(** ** The exponent *)

Lemma pow10_pos k : 0 <= k -> 0 < 10 ^ k.
Proof. apply Z.pow_pos_nonneg. lia. Qed.

(** [b^x <= n / d], without fractions. *)
Definition at_least_in (b n d x : Z) : Prop := d * b ^ Z.max x 0 <= n * b ^ Z.max (- x) 0.
Abbreviation at_least := (at_least_in 10).

Lemma at_least_in_shift b n d x N :
  0 < b -> 0 <= N -> 0 <= N + x -> at_least_in b n d x <-> d * b ^ (N + x) <= n * b ^ N.
Proof.
  intros Hb HN Hx. unfold at_least_in. set (k := N - Z.max (- x) 0).
  replace (N + x) with (Z.max x 0 + k) by lia. replace (b ^ N) with (b ^ (Z.max (- x) 0 + k)) by (f_equal; lia).
  rewrite !Z.pow_add_r by lia. pose proof (Z.pow_pos_nonneg b k Hb ltac:(lia)). split; intros; nia.
Qed.

Lemma at_least_in_mono b n d x y : 1 < b -> 0 < d -> y <= x -> at_least_in b n d x -> at_least_in b n d y.
Proof.
  intros Hb Hd Hy. set (N := Z.max (- y) 0).
  rewrite (at_least_in_shift b n d x N), (at_least_in_shift b n d y N) by lia. intros Hx.
  etrans; [|exact Hx]. apply Z.mul_le_mono_nonneg_l; [lia|]. apply Z.pow_le_mono_r; lia.
Qed.

Lemma at_least_shift n d x N : 0 <= N -> 0 <= N + x -> at_least n d x <-> d * 10 ^ (N + x) <= n * 10 ^ N.
Proof. by apply at_least_in_shift. Qed.

Lemma digits_spec z : 0 < z -> 0 < digits z /\ 10 ^ (digits z - 1) <= z < 10 ^ digits z.
Proof.
  intros Hz. unfold digits. destruct (take_print_nat 10 z ltac:(lia) ltac:(lia)) as [n Hn].
  pose proof (take_digits_bound 10 0 0 (print_nat 10 z) ltac:(lia) ltac:(lia)) as Hl. rewrite Hn in Hl. simpl in Hl.
  destruct (print_nat_head 10 z ltac:(lia) ltac:(lia)) as (c & s & _ & E & _).
  pose proof (fun n => length_put_digits_le 10 (S (Z.to_nat (Z.log2 z))) z [] n ltac:(lia)) as Hp.
  change (put_digits _ 10 z []) with (print_nat 10 z) in Hp. rewrite E in *. simpl length in *.
  split; [lia|]. split; [|lia]. replace (Z.of_nat (S (length s)) - 1) with (Z.of_nat (length s)) by lia.
  destruct (length s) as [|k]; [simpl; lia|]. destruct (decide (10 ^ Z.of_nat (S k) <= z)); [done|].
  specialize (Hp k ltac:(lia)). lia.
Qed.

Lemma scaled_pos m e k : 0 < m -> 0 < (scaled m e k).1 /\ 0 < (scaled m e k).2.
Proof.
  intros Hm. unfold scaled. simpl. pose proof (Z.pow_pos_nonneg 2 (Z.max e 0)). pose proof (Z.pow_pos_nonneg 2 (Z.max (- e) 0)).
  pose proof (pow10_pos (Z.max k 0)). pose proof (pow10_pos (Z.max (- k) 0)). nia.
Qed.

Lemma scaled_zero m e k :
  scaled m e k = ((scaled m e 0).1 * 10 ^ Z.max k 0, (scaled m e 0).2 * 10 ^ Z.max (- k) 0).
Proof. unfold scaled. simpl. by rewrite !Z.mul_1_r. Qed.

(** The exponent is that of the first digit: [10^x <= m * 2^e < 10^(x + 1)]. *)
Lemma decimal_exponent_spec m e n d :
  0 < m -> scaled m e 0 = (n, d) ->
  at_least n d (decimal_exponent m e) /\ ~ at_least n d (decimal_exponent m e + 1).
Proof.
  intros Hm E. destruct (scaled_pos m e 0 Hm) as [Hn Hd]. unfold decimal_exponent. rewrite E in *. simpl in Hn, Hd.
  destruct (digits_spec n Hn) as (Hnp & Hn1 & Hn2). destruct (digits_spec d Hd) as (Hdp & Hd1 & Hd2).
  set (k := digits n - digits d).
  assert (at_least n d (k - 1)) as Hlo.
  { apply (at_least_shift n d (k - 1) (digits d)); [lia..|]. replace (digits d + (k - 1)) with (digits n - 1) by lia. nia. }
  assert (~ at_least n d (k + 1)) as Hhi.
  { rewrite (at_least_shift n d (k + 1) (digits d - 1)) by lia. replace (digits d - 1 + (k + 1)) with (digits n) by lia. nia. }
  case_bool_decide as Hc; [rewrite Z.sub_add|]; split; try done; unfold at_least_in; lia.
Qed.

(** ** Rounding *)

(** [m * 10^e] differs from [n / d] by at most one part in 200000. *)
Definition near (n d m e : Z) : Prop :=
  200000 * Z.abs (m * 10 ^ Z.max e 0 * d - n * 10 ^ Z.max (- e) 0) <= n * 10 ^ Z.max (- e) 0.

Lemma near_shift n d m e N :
  0 <= N -> 0 <= N + e -> near n d m e <-> 200000 * Z.abs (m * 10 ^ (N + e) * d - n * 10 ^ N) <= n * 10 ^ N.
Proof.
  intros HN He. unfold near. set (k := N - Z.max (- e) 0).
  replace (N + e) with (Z.max e 0 + k) by lia. replace (10 ^ N) with (10 ^ (Z.max (- e) 0 + k)) by (f_equal; lia).
  rewrite !Z.pow_add_r by lia. pose proof (pow10_pos k ltac:(lia)) as Hk.
  set (a := 10 ^ Z.max e 0). set (b := 10 ^ Z.max (- e) 0).
  replace (m * (a * 10 ^ k) * d - n * (b * 10 ^ k)) with ((m * a * d - n * b) * 10 ^ k) by ring.
  rewrite Z.abs_mul, (Z.abs_eq (10 ^ k)) by lia. split; intros; nia.
Qed.

Lemma near_scale n d m e j : 0 <= j -> near n d (m * 10 ^ j) e <-> near n d m (e + j).
Proof.
  intros Hj. rewrite (near_shift n d _ e (Z.max (- e) 0)), (near_shift n d m (e + j) (Z.max (- e) 0)) by lia.
  rewrite Z.add_assoc, (Z.pow_add_r 10 (Z.max (- e) 0 + e) j) by lia.
  by replace (m * 10 ^ j * 10 ^ (Z.max (- e) 0 + e)) with (m * (10 ^ (Z.max (- e) 0 + e) * 10 ^ j)) by ring.
Qed.

Lemma round_half_even_spec n d :
  0 < d -> 2 * Z.abs (round_half_even n d * d - n) <= d /\ n / d <= round_half_even n d <= n / d + 1.
Proof.
  intros Hd. unfold round_half_even. pose proof (Z.div_mod n d ltac:(lia)). pose proof (Z.mod_pos_bound n d Hd).
  repeat case_bool_decide; [..|destruct (Z.even (n / d))]; nia.
Qed.

(** [q * 10^e] differs from [n / d] by at most half of [10^e]. *)
Definition half_unit (n d q e : Z) : Prop :=
  2 * Z.abs (q * 10 ^ Z.max e 0 * d - n * 10 ^ Z.max (- e) 0) <= 10 ^ Z.max e 0 * d.

Lemma half_unit_carry n d q e : 0 < d -> half_unit n d (10 * q) e -> half_unit n d q (e + 1).
Proof.
  intros Hd. unfold half_unit. pose proof (pow10_pos (Z.max e 0) ltac:(lia)) as Hp. destruct (decide (0 <= e)).
  - replace (Z.max (e + 1) 0) with (Z.max e 0 + 1) by lia. rewrite Z.pow_add_r, Z.pow_1_r by lia.
    replace (Z.max (- (e + 1)) 0) with (Z.max (- e) 0) by lia.
    replace (q * (10 ^ Z.max e 0 * 10) * d) with (10 * q * 10 ^ Z.max e 0 * d) by ring. nia.
  - replace (Z.max (e + 1) 0) with 0 by lia. replace (Z.max e 0) with 0 by lia.
    replace (Z.max (- e) 0) with (Z.max (- (e + 1)) 0 + 1) by lia. rewrite Z.pow_add_r, Z.pow_1_r, !Z.pow_0_r by lia.
    set (D := n * 10 ^ Z.max (- (e + 1)) 0). replace (n * (10 ^ Z.max (- (e + 1)) 0 * 10)) with (10 * D) by (unfold D; ring).
    rewrite !Z.mul_1_l, !Z.mul_1_r. lia.
Qed.

(** Six digits: the result is in range and near the number. *)
Lemma significant_spec m e n d :
  0 < m -> scaled m e 0 = (n, d) ->
  let '(q, x) := significant m e in 10 ^ 5 <= q < 10 ^ 6 /\ near n d q (x - 5) /\ half_unit n d q (x - 5).
Proof.
  intros Hm E. destruct (decimal_exponent_spec m e n d Hm E) as [Hlo Hhi].
  destruct (scaled_pos m e 0 Hm) as [Hn Hd]. rewrite E in Hn, Hd. simpl in Hn, Hd.
  unfold significant, precision. set (x := decimal_exponent m e) in *. rewrite scaled_zero, E. cbn [fst snd].
  replace (6 - 1 - x) with (- (x - 5)) by lia. rewrite Z.opp_involutive.
  rewrite (at_least_shift n d x (Z.max (- (x - 5)) 0)) in Hlo by lia.
  rewrite (at_least_shift n d (x + 1) (Z.max (- (x - 5)) 0)) in Hhi by lia.
  replace (Z.max (- (x - 5)) 0 + x) with (5 + Z.max (x - 5) 0) in Hlo by lia.
  replace (Z.max (- (x - 5)) 0 + (x + 1)) with (6 + Z.max (x - 5) 0) in Hhi by lia.
  rewrite Z.pow_add_r in Hlo, Hhi by lia.
  set (n' := n * 10 ^ Z.max (- (x - 5)) 0) in *. set (d' := d * 10 ^ Z.max (x - 5) 0).
  assert (0 < d') as Hd' by (pose proof (pow10_pos (Z.max (x - 5) 0)); nia).
  assert (10 ^ 5 * d' <= n') as Hlo' by (unfold d'; lia). assert (n' < 10 ^ 6 * d') as Hhi' by (unfold d'; lia).
  destruct (round_half_even_spec n' d' Hd') as [Hr Hq]. set (q := round_half_even n' d') in *.
  assert (10 ^ 5 <= n' / d' < 10 ^ 6) as Hb.
  { split; [apply Z.div_le_lower_bound|apply Z.div_lt_upper_bound]; lia. }
  assert (near n d q (x - 5)) as Hnear.
  { unfold near. fold n'. replace (q * 10 ^ Z.max (x - 5) 0 * d) with (q * d') by (unfold d'; ring). lia. }
  assert (half_unit n d q (x - 5)) as Hhalf.
  { unfold half_unit. fold n'. replace (q * 10 ^ Z.max (x - 5) 0 * d) with (q * d') by (unfold d'; ring). unfold d' in *. lia. }
  case_bool_decide as Hc; [|split; [lia|done]]. split; [lia|].
  replace (x + 1 - 5) with (x - 5 + 1) by lia. rewrite Hc in Hnear, Hhalf.
  split; [by apply near_scale|by apply half_unit_carry].
Qed.

Lemma value_of_nonneg d neg m e : value_of d = Finite neg m e -> 0 <= m.
Proof.
  unfold value_of. pose proof (Z.mod_pos_bound (double_bits d) (2 ^ 52) ltac:(lia)).
  repeat case_bool_decide; intros E; simplify_eq; lia.
Qed.

(** The text in terms of the digits and the exponent. *)
Lemma read_text q x neg :
  10 ^ 5 <= q < 10 ^ 6 -> let s := str (if (neg : bool) then "-" else "") ++ general q x in
  complete_number s = true /\ skip_spaces s = s /\ s <> [] /\
  exists M j, read_decimal s = (neg, M, x - 5 + Z.of_nat j) /\ q = M * 10 ^ Z.of_nat j.
Proof.
  intros Hq. destruct (read_general q x Hq) as (Hsg & Hc & M & j & Hr & HM).
  destruct neg; cbn [app].
  - change (str "-") with [minus]. cbn [app]. split.
    { unfold complete_number in *. rewrite Hsg in Hc. done. }
    split; [done|]. split; [done|]. exists M, j. split; [|done]. unfold read_decimal in *. rewrite Hsg in Hr.
    change (take_sign (minus :: general q x)) with (true, general q x).
    cbn [app] in *. by destruct (read_mantissa (general q x)) as [[M' k] rest]; injection Hr as -> ->.
  - change (str "") with (@nil byte). cbn [app]. split; [done|]. split; [by apply general_visible|].
    split; [by apply general_visible|]. by exists M, j.
Qed.

(** C19. The text of a finite [double], read as a decimal number, has the sign of the
    number and differs from its exact value by at most one part in 200000: five
    in the seventh significant digit. *)
Theorem to_string_double_near d neg m e :
  value_of d = Finite neg m e ->
  exists M E, read_decimal (to_string_double d) = (neg, M, E) /\ near (scaled m e 0).1 (scaled m e 0).2 M E.
Proof.
  intros Hv. pose proof (value_of_nonneg d neg m e Hv) as Hm. unfold to_string_double. rewrite Hv. case_bool_decide as H0.
  - exists 0, 0. subst m. split; [by destruct neg|]. done.
  - pose proof (significant_spec m e _ _ ltac:(lia) (surjective_pairing _)) as Hs. destruct (significant m e) as [q x].
    destruct Hs as (Hq & Hn & _). destruct (read_text q x neg Hq) as (_ & _ & _ & M & j & Hr & HM).
    exists M, (x - 5 + Z.of_nat j). split; [exact Hr|]. apply near_scale; [lia|]. by rewrite <- HM.
Qed.

Lemma to_string_double_near_witness :
  value_of (double_of_bits 0xc00921fb54442d18) = Finite true 7074237752028440 (-51) /\
  exists M E, read_decimal (to_string_double (double_of_bits 0xc00921fb54442d18)) = (true, M, E) /\
    near (scaled 7074237752028440 (-51) 0).1 (scaled 7074237752028440 (-51) 0).2 M E.
Proof.
  assert (value_of (double_of_bits 0xc00921fb54442d18) = Finite true 7074237752028440 (-51)) as H by (vm_compute; reflexivity).
  split; [exact H|]. exact (to_string_double_near (double_of_bits 0xc00921fb54442d18) true 7074237752028440 (-51) H).
Defined.
