(* ===== verification/DoubleText.v ===== *)
(** * DoubleText: [from_string] of a [double] ([convert/string.hpp])

    What [std::num_get] collects and [strtod] converts with the "C" locale: the
    [double] nearest to the decimal text; and what printing and reading keep of a
    number. *)

From S2P Require Import Prelude Errors Bytes StdMap Xpod NestedMap.
From S2P Require Import Convert Decimal.

(** ** Rounding to binary *)

(** The exponent of the first binary digit of [n / d]. *)
Definition binary_exponent (n d : Z) : Z :=
  let k := Z.log2 n - Z.log2 d in
  if bool_decide (n * 2 ^ Z.max (- k) 0 < d * 2 ^ Z.max k 0) then k - 1 else k.

(** The significand and the exponent of the number nearest to [n / d], ties to
    the even significand; [2^53] stands for the next exponent. *)
Definition nearest (n d : Z) : Z * Z :=
  let e := Z.max (binary_exponent n d - 52) (-1074) in
  (round_half_even (n * 2 ^ Z.max (- e) 0) (d * 2 ^ Z.max e 0), e).

(** Its bits; out of range, those of the largest number. *)
Definition nearest_bits (n d : Z) : Z :=
  if bool_decide (n = 0) then 0
  else let '(q, e) := nearest n d in Z.min (q + (e + 1074) * 2 ^ 52) (2047 * 2 ^ 52 - 1).

(** [double]: [std::num_get] collects a number with the "C" locale and converts
    it with [strtod], which rounds to nearest; text that is no number gives 0,
    one out of range the largest number. *)
Definition extract_double (s : bytes) : double :=
  if complete_number s then
    let '(neg, m, e) := read_decimal s in
    Double ((if (neg : bool) then 2 ^ 63 else 0) + nearest_bits (m * 10 ^ Z.max e 0) (10 ^ Z.max (- e) 0))
  else Double 0.

Definition from_string_double : bytes -> outcome double := from_string extract_double.

Example read_tenth : from_string_double (str " 0.1") = Ok (Double 0x3fb999999999999a).
Proof. vm_compute. reflexivity. Qed.
Example read_least : from_string_double (str "4.94066e-324") = Ok (Double 1).
Proof. vm_compute. reflexivity. Qed.
Example read_incomplete : from_string_double (str "1e+") = Ok (Double 0) /\ from_string_double (str ".5E1x") = Ok (Double 0x4014000000000000).
Proof. split; vm_compute; reflexivity. Qed.

(** What [to_string] prints for an infinite number is read as zero. *)
Example infinity_lost :
  from_string_double (to_string_double (Double 0x7ff0000000000000)) = Ok (Double 0).
Proof. vm_compute. reflexivity. Qed.

(** ** The nearest number *)

Lemma pow2_pos k : 0 <= k -> 0 < 2 ^ k.
Proof. apply Z.pow_pos_nonneg. lia. Qed.

(** [2^x <= n / d < 2^(x + 1)]. *)
Lemma binary_exponent_spec n d :
  0 < n -> 0 < d -> at_least_in 2 n d (binary_exponent n d) /\ ~ at_least_in 2 n d (binary_exponent n d + 1).
Proof.
  intros Hn Hd. pose proof (Z.log2_spec n Hn) as [Ln Ln']. pose proof (Z.log2_spec d Hd) as [Ld Ld'].
  pose proof (Z.log2_nonneg n) as Pn. pose proof (Z.log2_nonneg d) as Pd. rewrite Z.pow_succ_r in Ln', Ld' by done.
  unfold binary_exponent. set (k := Z.log2 n - Z.log2 d). set (N := Z.log2 d + 1).
  assert (at_least_in 2 n d (k - 1)) as Hlo.
  { apply (at_least_in_shift 2 n d (k - 1) N); [lia..|].
    replace (N + (k - 1)) with (Z.log2 n) by lia. unfold N. rewrite Z.pow_add_r, Z.pow_1_r by lia. nia. }
  assert (~ at_least_in 2 n d (k + 1)) as Hhi.
  { rewrite (at_least_in_shift 2 n d (k + 1) (Z.log2 d)) by lia. replace (Z.log2 d + (k + 1)) with (Z.log2 n + 1) by lia.
    rewrite Z.pow_add_r, Z.pow_1_r by lia. nia. }
  case_bool_decide as Hc; [rewrite Z.sub_add|]; split; try done; unfold at_least_in; lia.
Qed.

(** The nearest number: its significand has 53 bits unless the exponent is least,
    and it is off by at most half a unit in its last place. *)
Lemma nearest_spec n d :
  0 < n -> 0 < d -> let '(q, e) := nearest n d in
  -1074 <= e /\ 0 <= q <= 2 ^ 53 /\ (e = -1074 \/ 2 ^ 52 <= q /\ at_least_in 2 n d (e + 52)) /\
  2 * Z.abs (q * (d * 2 ^ Z.max e 0) - n * 2 ^ Z.max (- e) 0) <= d * 2 ^ Z.max e 0.
Proof.
  intros Hn Hd. destruct (binary_exponent_spec n d Hn Hd) as [Hlo Hhi]. unfold nearest.
  set (x := binary_exponent n d) in *. set (e := Z.max (x - 52) (-1074)).
  set (n' := n * 2 ^ Z.max (- e) 0). set (d' := d * 2 ^ Z.max e 0).
  assert (0 < d') as Hd' by (unfold d'; pose proof (pow2_pos (Z.max e 0)); nia).
  assert (0 < n') as Hn' by (unfold n'; pose proof (pow2_pos (Z.max (- e) 0)); nia).
  destruct (round_half_even_spec n' d' Hd') as [Hr Hq]. set (q := round_half_even n' d') in *.
  assert (forall y, 0 <= y -> at_least_in 2 n d (e + y) <-> d' * 2 ^ y <= n') as Hsh.
  { intros y Hy. rewrite (at_least_in_shift 2 n d (e + y) (Z.max (- e) 0)) by lia.
    replace (Z.max (- e) 0 + (e + y)) with (Z.max e 0 + y) by lia. rewrite Z.pow_add_r by lia. unfold d', n'.
    by rewrite Z.mul_assoc. }
  assert (n' < d' * 2 ^ 53) as Htop.
  { apply Z.nle_gt. rewrite <- Hsh by lia. intros Ha. apply Hhi. by apply (at_least_in_mono 2 n d (e + 53)); [lia..|]. }
  split; [lia|]. split; [|split; [|done]].
  - pose proof (Z.div_pos n' d' ltac:(lia) Hd'). pose proof (Z.div_lt_upper_bound n' d' (2 ^ 53) Hd' ltac:(lia)). lia.
  - destruct (decide (x - 52 <= -1074)); [left; lia|right]. replace (e + 52) with x by lia. split; [|done].
    assert (d' * 2 ^ 52 <= n') as Hb by (apply Hsh; [lia|]; by replace (e + 52) with x by lia).
    pose proof (Z.div_le_lower_bound n' d' (2 ^ 52) Hd' ltac:(lia)). lia.
Qed.

(** The bits of a significand and an exponent. *)
Lemma value_of_bits neg q e :
  -1074 <= e -> 0 <= q <= 2 ^ 53 -> e = -1074 \/ 2 ^ 52 <= q -> q + (e + 1074) * 2 ^ 52 < 2047 * 2 ^ 52 ->
  exists m e', value_of (Double ((if (neg : bool) then 2 ^ 63 else 0) + (q + (e + 1074) * 2 ^ 52))) = Finite neg m e' /\
    (m = q /\ e' = e \/ q = 2 ^ 53 /\ m = 2 ^ 52 /\ e' = e + 1).
Proof.
  intros He Hq Hn Htop. set (b := q + (e + 1074) * 2 ^ 52) in *. set (h := if neg then 1 else 0).
  assert (0 <= b < 2047 * 2 ^ 52) as Hb by lia.
  replace ((if neg then 2 ^ 63 else 0) + b) with (h * 2 ^ 63 + b) by (by destruct neg).
  assert (Z.testbit (h * 2 ^ 63 + b) 63 = neg) as Hs.
  { apply Z.b2z_inj. rewrite Z.testbit_spec' by lia. rewrite Z.div_add_l, (Z.div_small b) by lia. by destruct neg. }
  assert (Z.shiftr (h * 2 ^ 63 + b) 52 mod 2 ^ 11 = b / 2 ^ 52) as Hx.
  { rewrite Z.shiftr_div_pow2 by lia. replace (h * 2 ^ 63 + b) with (h * 2 ^ 11 * 2 ^ 52 + b) by lia.
    rewrite Z.div_add_l, Z.add_comm, Z_mod_plus_full by lia. apply Z.mod_small.
    split; [apply Z.div_pos; lia|apply Z.div_lt_upper_bound; lia]. }
  assert ((h * 2 ^ 63 + b) mod 2 ^ 52 = b mod 2 ^ 52) as Hf.
  { replace (h * 2 ^ 63 + b) with (b + h * 2 ^ 11 * 2 ^ 52) by lia. apply Z_mod_plus_full. }
  pose proof (Z.div_lt_upper_bound b (2 ^ 52) 2047 ltac:(lia) ltac:(lia)) as Hlt.
  unfold value_of. cbn [double_bits]. rewrite Hs, Hx, Hf, bool_decide_eq_false_2 by lia.
  destruct (decide (2 ^ 52 <= q)) as [Hq52|Hq52].
  - destruct (decide (q = 2 ^ 53)) as [Eq|].
    + assert (b = (e + 1076) * 2 ^ 52) as -> by lia. rewrite Z.div_mul, Z_mod_mult, bool_decide_eq_false_2 by lia.
      eexists _, _. split; [done|]. right. lia.
    + assert (b = (e + 1075) * 2 ^ 52 + (q - 2 ^ 52)) as -> by lia.
      rewrite Z.div_add_l, (Z.div_small (q - 2 ^ 52)), Z.add_0_r, (Z.add_comm _ (q - 2 ^ 52)), Z_mod_plus_full, Z.mod_small by lia.
      rewrite bool_decide_eq_false_2 by lia. eexists _, _. split; [done|]. left. lia.
  - assert (b = q) as -> by lia. rewrite Z.div_small, Z.mod_small, bool_decide_eq_true_2 by lia.
    eexists _, _. split; [done|]. left. lia.
Qed.


Lemma round_half_even_close n d q : 0 < d -> 2 * Z.abs (n - q * d) < d -> round_half_even n d = q.
Proof.
  intros Hd Hc. destruct (round_half_even_spec n d Hd) as [Hr _]. set (r := round_half_even n d) in *. nia.
Qed.

(** A number within a tenth of the last place of [q * 10^(x - 5)] prints as [q] and [x]. *)
Lemma significant_close m e q x n d :
  0 < m -> scaled m e 0 = (n, d) -> 10 ^ 5 <= q < 10 ^ 6 ->
  10 ^ 7 * Z.abs (n * 10 ^ Z.max (5 - x) 0 - q * 10 ^ Z.max (x - 5) 0 * d) <= q * 10 ^ Z.max (x - 5) 0 * d ->
  significant m e = (q, x).
Proof.
  intros Hm E Hq. destruct (decimal_exponent_spec m e n d Hm E) as [Hlo Hhi].
  destruct (scaled_pos m e 0 Hm) as [Hn Hd]. rewrite E in Hn, Hd. simpl in Hn, Hd.
  set (n' := n * 10 ^ Z.max (5 - x) 0). set (d' := d * 10 ^ Z.max (x - 5) 0).
  replace (q * 10 ^ Z.max (x - 5) 0 * d) with (q * d') by (unfold d'; ring). intros Hc.
  assert (0 < d') as Hd' by (unfold d'; pose proof (pow10_pos (Z.max (x - 5) 0)); nia).
  assert (forall j, 0 <= j -> at_least n d (x - 5 + j) <-> d' * 10 ^ j <= n') as Hsh.
  { intros j Hj. rewrite (at_least_shift n d (x - 5 + j) (Z.max (5 - x) 0)) by lia.
    replace (Z.max (5 - x) 0 + (x - 5 + j)) with (Z.max (x - 5) 0 + j) by lia. rewrite Z.pow_add_r by lia. unfold d', n'.
    by rewrite Z.mul_assoc. }
  assert (10 ^ 5 * d' <= q * d' <= (10 ^ 6 - 1) * d') as Hqd by (split; apply Z.mul_le_mono_nonneg_r; lia).
  set (y := decimal_exponent m e) in *.
  assert (x - 1 <= y <= x) as Hy.
  { split; apply Z.nlt_ge; intros Hlt.
    - apply Hhi, (at_least_in_mono 10 n d (x - 5 + 4)); [lia..|]. apply Hsh; lia.
    - apply (at_least_in_mono 10 n d y (x - 5 + 6)) in Hlo; [|lia..]. apply Hsh in Hlo; lia. }
  unfold significant. fold y. rewrite scaled_zero, E. cbn [fst snd]. unfold precision.
  destruct (decide (y = x)) as [->|].
  - replace (6 - 1 - x) with (5 - x) by lia. replace (- (5 - x)) with (x - 5) by lia. fold n' d'.
    rewrite (round_half_even_close n' d' q) by lia. by rewrite bool_decide_eq_false_2 by lia.
  - assert (y = x - 1) as -> by lia. replace (6 - 1 - (x - 1)) with (6 - x) by lia. replace (- (6 - x)) with (x - 6) by lia.
    assert (q = 10 ^ 5) as ->.
    { assert (~ d' * 10 ^ 5 <= n') as Hn5 by (rewrite <- Hsh by lia; by replace (x - 5 + 5) with (x - 1 + 1) by lia). nia. }
    rewrite (round_half_even_close _ _ (10 ^ 6)).
    + rewrite bool_decide_eq_true_2 by done. f_equal. lia.
    + pose proof (pow10_pos (Z.max (x - 6) 0)). nia.
    + destruct (decide (6 <= x)).
      * unfold n', d' in Hc. replace (Z.max (x - 5) 0) with (Z.max (x - 6) 0 + 1) in Hc by lia.
        rewrite Z.pow_add_r, Z.pow_1_r in Hc by lia. replace (Z.max (6 - x) 0) with (Z.max (5 - x) 0) by lia.
        pose proof (pow10_pos (Z.max (x - 6) 0)). set (D := d * 10 ^ Z.max (x - 6) 0) in *. assert (0 < D) by (unfold D; nia).
        replace (d * (10 ^ Z.max (x - 6) 0 * 10)) with (D * 10) in Hc by (unfold D; ring). lia.
      * replace (Z.max (6 - x) 0) with (Z.max (5 - x) 0 + 1) by lia. rewrite Z.pow_add_r, Z.pow_1_r by lia.
        replace (Z.max (x - 6) 0) with (Z.max (x - 5) 0) by lia. fold d'.
        replace (n * (10 ^ Z.max (5 - x) 0 * 10)) with (n' * 10) by (unfold n'; ring). lia.
Qed.

(** Reading a number that needs no more than the normal precision. *)
Lemma nearest_close neg n d :
  0 < n -> 0 < d -> (let '(q, e) := nearest n d in 10 ^ 7 <= q /\ q + (e + 1074) * 2 ^ 52 < 2047 * 2 ^ 52) ->
  exists m e, value_of (Double ((if (neg : bool) then 2 ^ 63 else 0) + nearest_bits n d)) = Finite neg m e /\ 0 < m /\
    10 ^ 7 * Z.abs ((scaled m e 0).1 * d - n * (scaled m e 0).2) <= n * (scaled m e 0).2.
Proof.
  intros Hn Hd. pose proof (nearest_spec n d Hn Hd) as Hs. unfold nearest_bits. rewrite bool_decide_eq_false_2 by lia.
  destruct (nearest n d) as [q e]. destruct Hs as (He & Hq & Hor & Hr). intros [Hq7 Htop].
  rewrite Z.min_l by lia. destruct (value_of_bits neg q e He Hq ltac:(tauto) Htop) as (m & e' & Hv & Hm).
  exists m, e'. split; [done|]. unfold scaled. simpl fst. simpl snd. rewrite !Z.mul_1_r.
  assert (10 ^ 7 * Z.abs (q * (d * 2 ^ Z.max e 0) - n * 2 ^ Z.max (- e) 0) <= n * 2 ^ Z.max (- e) 0) as Hclose.
  { assert (0 < d * 2 ^ Z.max e 0) by (pose proof (pow2_pos (Z.max e 0)); nia). nia. }
  destruct Hm as [[-> ->]|(-> & -> & ->)].
  - split; [lia|]. by replace (q * 2 ^ Z.max e 0 * d) with (q * (d * 2 ^ Z.max e 0)) by ring.
  - split; [lia|]. destruct (decide (0 <= e)).
    + replace (Z.max (e + 1) 0) with (Z.max e 0 + 1) by lia. rewrite Z.pow_add_r, Z.pow_1_r by lia.
      replace (Z.max (- (e + 1)) 0) with (Z.max (- e) 0) by lia.
      by replace (2 ^ 52 * (2 ^ Z.max e 0 * 2) * d) with (2 ^ 53 * (d * 2 ^ Z.max e 0)) by ring.
    + replace (Z.max (e + 1) 0) with 0 by lia. replace (Z.max e 0) with 0 in Hclose by lia.
      replace (Z.max (- e) 0) with (Z.max (- (e + 1)) 0 + 1) in Hclose by lia. rewrite Z.pow_add_r, Z.pow_1_r, Z.pow_0_r in * by lia.
      set (D := n * 2 ^ Z.max (- (e + 1)) 0) in *.
      replace (n * (2 ^ Z.max (- (e + 1)) 0 * 2)) with (2 * D) in Hclose by (unfold D; ring). lia.
Qed.

(** The largest number. *)
Definition double_max : Z := (2 ^ 53 - 1) * 2 ^ 971.

Lemma double_max_bounds :
  10 ^ 6 * 10 ^ 302 <= double_max /\ 179769 * 10 ^ 303 <= double_max /\
  2 * double_max < 359539 * 10 ^ 303 /\ 200001 * double_max < 200000 * (10 ^ 5 * 10 ^ 304) /\ double_max < 2 ^ 1024.
Proof. by vm_compute. Qed.

Lemma value_of_range d neg m e : value_of d = Finite neg m e -> m < 2 ^ 53 /\ -1074 <= e <= 971.
Proof.
  unfold value_of. pose proof (Z.mod_pos_bound (double_bits d) (2 ^ 52) ltac:(lia)).
  pose proof (Z.mod_pos_bound (Z.shiftr (double_bits d) 52) (2 ^ 11) ltac:(lia)).
  repeat case_bool_decide; intros E; simplify_eq; lia.
Qed.

(** Rounding to six digits does not leave the range. *)
Lemma significant_range m e n d q x :
  0 < m < 2 ^ 53 -> e <= 971 -> scaled m e 0 = (n, d) -> significant m e = (q, x) ->
  q * 10 ^ Z.max (x - 5) 0 <= double_max * 10 ^ Z.max (5 - x) 0.
Proof.
  intros Hm He E Hs. pose proof (significant_spec m e n d ltac:(lia) E) as Hspec. rewrite Hs in Hspec.
  destruct Hspec as (Hq & Hnear & Hhalf). assert (0 < d /\ n <= double_max * d) as [Hd Hn].
  { unfold scaled in E. injection E as <- <-. rewrite !Z.mul_1_r. pose proof (pow2_pos (Z.max (- e) 0) ltac:(lia)). split; [done|].
    assert (2 ^ Z.max e 0 <= 2 ^ 971) by (apply Z.pow_le_mono_r; lia). unfold double_max.
    pose proof (pow2_pos (Z.max e 0) ltac:(lia)). etrans; [apply (Z.mul_le_mono_nonneg m (2 ^ 53 - 1) (2 ^ Z.max e 0) (2 ^ 971)); lia|].
    apply Z.le_mul_diag_r; lia. }
  pose proof (pow10_pos (Z.max (5 - x) 0) ltac:(lia)) as Hb.
  pose proof double_max_bounds as (B1 & B2 & B3 & B4 & _).
  revert Hn B1 B2 B3 B4. generalize double_max as D. intros D Hn B1 B2 B3 B4.
  destruct (decide (x <= 307)) as [Hx|Hx].
  - pose proof (pow10_pos 302 ltac:(lia)) as P302.
    assert (10 ^ Z.max (x - 5) 0 <= 10 ^ 302) as Hp by (apply Z.pow_le_mono_r; lia).
    pose proof (pow10_pos (Z.max (x - 5) 0) ltac:(lia)).
    revert Hp B1 P302. generalize (10 ^ 302) as U. intros.
    etrans; [apply (Z.mul_le_mono_nonneg q (10 ^ 6) (10 ^ Z.max (x - 5) 0) U); lia|].
    etrans; [exact B1|]. apply Z.le_mul_diag_r; lia.
  - replace (Z.max (5 - x) 0) with 0 by lia. unfold near, half_unit in *.
    replace (Z.max (- (x - 5)) 0) with 0 in * by lia. rewrite Z.pow_0_r, !Z.mul_1_r in *.
    destruct (decide (x = 308)) as [->|].
    + replace (Z.max (308 - 5) 0) with 303 in * by lia.
      pose proof (pow10_pos 303 ltac:(lia)) as P303. clear Hnear. revert P303 B2 B3 Hhalf. generalize (10 ^ 303) as T. intros.
      assert ((2 * q - 1) * T * d <= 2 * D * d) as Hle by lia.
      apply Z.mul_le_mono_pos_r in Hle; [|done].
      assert (2 * q - 1 < 359539) as Hq' by (apply (Z.mul_lt_mono_pos_r T); lia).
      etrans; [apply (Z.mul_le_mono_nonneg_r q 179769 T); lia|done].
    + pose proof (pow10_pos 304 ltac:(lia)) as P304.
      assert (10 ^ 304 <= 10 ^ Z.max (x - 5) 0) as Hp by (apply Z.pow_le_mono_r; lia).
      revert Hp P304 B4. generalize (10 ^ 304) as U. intros. set (P := 10 ^ Z.max (x - 5) 0) in *. exfalso.
      assert (200000 * (q * P) * d <= 200001 * D * d) as Hle by lia. apply Z.mul_le_mono_pos_r in Hle; [|done].
      assert (10 ^ 5 * U <= q * P) by (apply Z.mul_le_mono_nonneg; lia). lia.
Qed.

Lemma nearest_in_range n d :
  0 < n -> 0 < d -> n <= double_max * d -> 2 ^ 51 * d <= n * 2 ^ 1074 ->
  let '(q, e) := nearest n d in 10 ^ 7 <= q /\ q + (e + 1074) * 2 ^ 52 < 2047 * 2 ^ 52.
Proof.
  intros Hn Hd Hmax Hmin. pose proof (nearest_spec n d Hn Hd) as Hs. destruct (nearest n d) as [q e].
  destruct Hs as (He & Hq & Hor & Hr). destruct (decide (e = -1074)) as [->|Hne].
  - replace (Z.max (-1074) 0) with 0 in Hr by lia. replace (Z.max (- -1074) 0) with 1074 in Hr by lia.
    rewrite Z.pow_0_r, Z.mul_1_r in Hr. revert Hr Hmin. generalize (n * 2 ^ 1074). intros. split; [nia|lia].
  - destruct Hor as [|[Hq52 Ha]]; [lia|]. split; [lia|].
    assert (e <= 971) as He'.
    { apply Z.nlt_ge. intros Hlt. apply (at_least_in_mono 2 n d (e + 52) 1024) in Ha; [|lia..].
      unfold at_least_in in Ha. replace (Z.max 1024 0) with 1024 in Ha by lia. replace (Z.max (-(1024)) 0) with 0 in Ha by lia.
      rewrite Z.pow_0_r, Z.mul_1_r in Ha. pose proof double_max_bounds as (_ & _ & _ & _ & B).
      revert Ha Hmax B. generalize double_max, (2 ^ 1024). intros D T. nia. }
    destruct (decide (e = 971)) as [->|]; [|lia]. replace (Z.max 971 0) with 971 in Hr by lia.
    replace (Z.max (- (971)) 0) with 0 in Hr by lia. rewrite Z.pow_0_r, Z.mul_1_r in Hr. unfold double_max in Hmax.
    pose proof (pow2_pos 971 ltac:(lia)) as P. revert Hr Hmax P. generalize (2 ^ 971) as T. intros T Hr Hmax P.
    replace ((2 ^ 53 - 1) * T * d) with ((2 ^ 53 - 1) * (d * T)) in Hmax by ring.
    assert (0 < d * T) as HT by nia. revert Hr Hmax HT. generalize (d * T) as D. intros. nia.
Qed.

(** The same number as another fraction. *)
Lemma same_fraction M j x n d :
  n = M * 10 ^ Z.max (x - 5 + Z.of_nat j) 0 -> d = 10 ^ Z.max (- (x - 5 + Z.of_nat j)) 0 ->
  n * 10 ^ Z.max (5 - x) 0 = M * 10 ^ Z.of_nat j * 10 ^ Z.max (x - 5) 0 * d.
Proof.
  intros -> ->. rewrite <- !Z.mul_assoc, <- !Z.pow_add_r by lia. do 2 f_equal. lia.
Qed.

Lemma close_fraction n d n1 d1 n2 d2 :
  0 < d1 -> n1 * d2 = n2 * d1 -> 10 ^ 7 * Z.abs (n * d1 - n1 * d) <= n1 * d -> 0 < d2 ->
  10 ^ 7 * Z.abs (n * d2 - n2 * d) <= n2 * d.
Proof.
  intros H1 E Hc H2. apply (Z.mul_le_mono_pos_r _ _ d1); [done|].
  assert (n1 * d * d2 = n2 * d * d1) as E' by (replace (n1 * d * d2) with (n1 * d2 * d) by ring; rewrite E; ring).
  assert ((n * d1 - n1 * d) * d2 = (n * d2 - n2 * d) * d1) as E2 by (rewrite !Z.mul_sub_distr_r, E'; ring).
  apply (f_equal Z.abs) in E2. rewrite !Z.abs_mul, (Z.abs_eq d1), (Z.abs_eq d2) in E2 by lia.
  rewrite <- Z.mul_assoc, <- E2, Z.mul_assoc, <- E'. apply Z.mul_le_mono_nonneg_r; lia.
Qed.

(** ** Printing and reading *)

Lemma near_scale_digits n d q M j e : q = M * 10 ^ Z.of_nat j -> near n d q e -> near n d M (e + Z.of_nat j).
Proof. intros ->. apply near_scale. lia. Qed.

Lemma text_in_range m e n d M E n1 d1 :
  scaled m e 0 = (n, d) -> 2 ^ 52 <= m -> -1074 <= e <= 971 -> 0 < M -> near n d M E ->
  n1 = M * 10 ^ Z.max E 0 -> d1 = 10 ^ Z.max (- E) 0 -> 0 < n1 /\ 0 < d1 /\ 2 ^ 51 * d1 <= n1 * 2 ^ 1074.
Proof.
  intros Hs Hm He HM Hnear -> ->. pose proof (pow10_pos (Z.max E 0) ltac:(lia)) as Pn.
  pose proof (pow10_pos (Z.max (- E) 0) ltac:(lia)) as Pd. split; [nia|]. split; [done|]. unfold near in Hnear.
  revert Hnear Pn Pd. generalize (10 ^ Z.max (- E) 0) as d1. intros d1 Hnear Pn Pd.
  revert Hnear. assert (0 < M * 10 ^ Z.max E 0) as Hn1 by nia. revert Hn1. generalize (M * 10 ^ Z.max E 0) as n1. intros n1 Hn1 Hnear.
  assert (2 ^ 52 <= n /\ 0 < d <= 2 ^ 1074) as [Hn Hd].
  { unfold scaled in Hs. injection Hs as <- <-. rewrite !Z.mul_1_r. pose proof (pow2_pos (Z.max e 0) ltac:(lia)).
    split; [nia|]. split; [apply pow2_pos; lia|apply Z.pow_le_mono_r; lia]. }
  etrans; [|apply (Z.mul_le_mono_nonneg_l d); lia].
  assert (2 ^ 52 * d1 <= n * d1) by (apply Z.mul_le_mono_nonneg_r; lia). lia.
Qed.

(** C20. The text of a [double] survives reading: for zero and every number with the
    normal precision, [from_string] reads what [to_string] has printed as a
    [double] with the same text, so that six significant digits and the sign are
    kept, whatever the magnitude. *)
Theorem double_text_stable d neg m e :
  value_of d = Finite neg m e -> m = 0 \/ 2 ^ 52 <= m ->
  exists d', from_string_double (to_string_double d) = Ok d' /\ to_string_double d' = to_string_double d.
Proof.
  intros Hv Hor. destruct (decide (m = 0)) as [->|Hm0].
  { assert (to_string_double d = if neg then str "-0" else str "0") as -> by (unfold to_string_double; rewrite Hv; by destruct neg).
    exists (Double (if neg then 2 ^ 63 else 0)). destruct neg; split; vm_compute; reflexivity. }
  destruct Hor as [|Hm]; [done|]. destruct (value_of_range d neg m e Hv) as (Hm53 & He).
  destruct (scaled m e 0) as [n dn] eqn:E. pose proof (significant_spec m e n dn ltac:(lia) E) as Hs.
  destruct (significant m e) as [q x] eqn:Es. destruct Hs as (Hq & Hnear & _).
  pose proof (significant_range m e n dn q x ltac:(lia) ltac:(lia) E Es) as Hmax.
  assert (to_string_double d = str (if neg then "-" else "") ++ general q x) as Et.
  { unfold to_string_double. by rewrite Hv, bool_decide_eq_false_2, Es. }
  destruct (read_text q x neg Hq) as (Hc & Hsk & Hnn & M & j & Hr & HM).
  pose proof (near_scale_digits n dn q M j (x - 5) HM Hnear) as Hnear'.
  set (n1 := M * 10 ^ Z.max (x - 5 + Z.of_nat j) 0). set (d1 := 10 ^ Z.max (- (x - 5 + Z.of_nat j)) 0).
  pose proof (same_fraction M j x n1 d1 eq_refl eq_refl) as Hf. rewrite <- HM in Hf.
  destruct (text_in_range m e n dn M (x - 5 + Z.of_nat j) n1 d1) as (Hn1 & Hd1 & Hmin); [exact E|lia|exact He| |exact Hnear'|done|done|].
  { pose proof (pow10_pos (Z.of_nat j) ltac:(lia)). nia. }
  pose proof (pow10_pos (Z.max (5 - x) 0) ltac:(lia)) as Htd.
  assert (n1 <= double_max * d1) as Hmax1.
  { apply (Z.mul_le_mono_pos_r _ _ (10 ^ Z.max (5 - x) 0)); [done|]. rewrite Hf.
    replace (double_max * d1 * 10 ^ Z.max (5 - x) 0) with (double_max * 10 ^ Z.max (5 - x) 0 * d1) by ring.
    apply Z.mul_le_mono_nonneg_r; lia. }
  destruct (nearest_close neg n1 d1 Hn1 Hd1 (nearest_in_range n1 d1 Hn1 Hd1 Hmax1 Hmin)) as (m' & e' & Hv' & Hm' & Hclose).
  eexists. split.
  - rewrite Et. unfold from_string_double, from_string. rewrite Hsk. destruct (_ ++ general q x) eqn:Eg; [done|].
    rewrite <- Eg in *. unfold extract_double. by rewrite Hc, Hr.
  - rewrite Et. unfold to_string_double. fold n1 d1. rewrite Hv', bool_decide_eq_false_2 by lia.
    rewrite (significant_close m' e' q x _ _ Hm' (surjective_pairing _) Hq); [done|]. by apply (close_fraction _ _ n1 d1).
Qed.

Lemma double_text_stable_witness :
  exists d', from_string_double (str "-3.14159") = Ok d' /\ to_string_double d' = str "-3.14159".
Proof.
  exact (double_text_stable (double_of_bits 0xc00921fb54442d18) true 7074237752028440 (-51)
    ltac:(vm_compute; reflexivity) ltac:(right; vm_compute; congruence)).
Defined.

(** Below the normal precision a text may change once more. *)
Example small_text_unstable :
  to_string_double (Double 202403) = str "1e-318" /\
  match from_string_double (str "1e-318") with Ok d' => to_string_double d' = str "9.99999e-319" | _ => False end.
Proof. split; vm_compute; reflexivity. Qed.

(** Out of range: the largest number. *)
Example read_beyond : from_string_double (str "-1e400") = Ok (Double 0xffefffffffffffff).
Proof. vm_compute. reflexivity. Qed.
