(* ===== verification/Utf8.v ===== *)
(** * Utf8: [encoding/utf8.hpp]

    The validity test, checked against the UTF-8 encoding of Unicode scalar
    values: it accepts every well-formed text (completeness) and accepts exactly
    the sequences of a lead byte with its number of continuation bytes; that
    grammar is wider than UTF-8, as three accepted ill-formed texts show. *)

From S2P Require Import Prelude Errors Bytes StdMap Xpod NestedMap Convert.

(** The test [(c & 0x80) && !(c & 0x40)] on one byte. *)
Definition is_continuation (c : byte) : bool :=
  bool_decide (Z.land (byte_val c) 0x80 <> 0) && bool_decide (Z.land (byte_val c) 0x40 = 0).

Definition in_range (lo hi : Z) (c : byte) : bool := bool_decide (lo <= byte_val c <= hi).

(** [is_valid_utf8(s)]; the argument is the string from index [i] on, so
    [i + k < len] says that [k] more bytes follow the lead byte. *)
Fixpoint is_valid_utf8 (s : bytes) : bool :=
  match s with
  | [] => true
  | c :: s1 =>
      if in_range 0 0x7F c then is_valid_utf8 s1
      else match s1 with
      | [] => false
      | c1 :: s2 =>
          if in_range 0xC2 0xDF c then
            if is_continuation c1 then is_valid_utf8 s2 else false
          else match s2 with
          | [] => false
          | c2 :: s3 =>
              if in_range 0xE0 0xEF c then
                if is_continuation c1 && is_continuation c2 then is_valid_utf8 s3 else false
              else match s3 with
              | [] => false
              | c3 :: s4 =>
                  if in_range 0xF0 0xF4 c then
                    if is_continuation c1 && is_continuation c2 && is_continuation c3
                    then is_valid_utf8 s4 else false
                  else false
              end
          end
      end
  end.

(** [has_utf8_specific_encoding(s)]. *)
Definition has_utf8_specific_encoding (s : bytes) : bool :=
  let all_ascii := forallb (fun c => bool_decide (byte_val c < 128)) s in
  if all_ascii then false else is_valid_utf8 s.

(** ** Unicode *)

(** Scalar values: code points without the surrogates. *)
Definition is_scalar (u : Z) : Prop := 0 <= u < 0xD800 \/ 0xE000 <= u <= 0x10FFFF.

(** The UTF-8 encoding of a code point (RFC 3629). *)
Definition utf8_encode (u : Z) : bytes :=
  if bool_decide (u < 0x80) then [byte_of u]
  else if bool_decide (u < 0x800) then [byte_of (0xC0 + u / 64); byte_of (0x80 + u mod 64)]
  else if bool_decide (u < 0x10000) then
    [byte_of (0xE0 + u / 4096); byte_of (0x80 + u / 64 mod 64); byte_of (0x80 + u mod 64)]
  else
    [byte_of (0xF0 + u / 262144); byte_of (0x80 + u / 4096 mod 64);
     byte_of (0x80 + u / 64 mod 64); byte_of (0x80 + u mod 64)].

(** The grammar the test accepts: a lead byte and its continuation bytes. *)
Inductive chunk : bytes -> Prop :=
| chunk_1 c : in_range 0 0x7F c = true -> chunk [c]
| chunk_2 c c1 : in_range 0xC2 0xDF c = true -> is_continuation c1 = true -> chunk [c; c1]
| chunk_3 c c1 c2 : in_range 0xE0 0xEF c = true ->
    is_continuation c1 = true -> is_continuation c2 = true -> chunk [c; c1; c2]
| chunk_4 c c1 c2 c3 : in_range 0xF0 0xF4 c = true ->
    is_continuation c1 = true -> is_continuation c2 = true -> is_continuation c3 = true ->
    chunk [c; c1; c2; c3].

(** ** Laws *)

Lemma in_range_spec lo hi c : in_range lo hi c = true <-> lo <= byte_val c <= hi.
Proof. apply bool_decide_eq_true. Qed.

(** A continuation byte is one of 0x80..0xBF (checked on all 256 bytes). *)
Lemma is_continuation_range c : is_continuation c = bool_decide (0x80 <= byte_val c < 0xC0).
Proof. destruct c as [[] [] [] [] [] [] [] []]; vm_compute; reflexivity. Qed.

Ltac range_tests :=
  repeat match goal with
  | H : in_range _ _ _ = true |- _ => apply in_range_spec in H
  | |- context [in_range ?lo ?hi ?c] =>
      first [ rewrite (bool_decide_eq_true_2 (lo <= byte_val c <= hi)) by lia
            | rewrite (bool_decide_eq_false_2 (lo <= byte_val c <= hi)) by lia
            | (replace (in_range lo hi c) with true
                 by (symmetry; apply in_range_spec; lia))
            | (replace (in_range lo hi c) with false
                 by (symmetry; apply not_true_iff_false; rewrite in_range_spec; lia)) ]
  end.

Lemma is_valid_utf8_chunk l s : chunk l -> is_valid_utf8 (l ++ s) = is_valid_utf8 s.
Proof.
  destruct 1; simpl; range_tests;
    repeat match goal with H : is_continuation _ = true |- _ => rewrite H; clear H end; done.
Qed.

Lemma is_valid_utf8_chunks ls : Forall chunk ls -> is_valid_utf8 (concat ls) = true.
Proof.
  induction 1 as [|l ls Hl Hls IH]; simpl; [done|]. by rewrite is_valid_utf8_chunk.
Qed.

Lemma chunks_of_valid s : is_valid_utf8 s = true -> exists ls, Forall chunk ls /\ s = concat ls.
Proof.
  induction s as [s IH] using (induction_ltof1 _ length). unfold ltof in IH.
  destruct s as [|c s1]; [intros _; by exists []|].
  assert (forall l s', c :: s1 = l ++ s' -> chunk l -> is_valid_utf8 s' = true ->
    exists ls, Forall chunk ls /\ c :: s1 = concat ls) as Hstep.
  { intros l s' E Hl Hv. destruct (IH s') as (ls & Hls & ->).
    - rewrite E, length_app. destruct Hl; simpl; lia.
    - done.
    - exists (l :: ls). split; [by constructor|done]. }
  simpl. intros Hv. repeat case_match; try done;
    repeat match goal with H : _ && _ = true |- _ => apply andb_true_iff in H as [? ?] end.
  - by eapply (Hstep [c]); [done|constructor|].
  - by eapply (Hstep [c; _]); [done|constructor|].
  - by eapply (Hstep [c; _; _]); [done|constructor|].
  - by eapply (Hstep [c; _; _; _]); [done|constructor|].
Qed.

Lemma continuation_of z : 0 <= z < 64 -> is_continuation (byte_of (0x80 + z)) = true.
Proof.
  intros Hz. rewrite is_continuation_range, byte_val_of_small by lia.
  apply bool_decide_eq_true_2. lia.
Qed.

Lemma in_range_of lo hi z : 0 <= lo -> hi < 256 -> lo <= z <= hi -> in_range lo hi (byte_of z) = true.
Proof. intros ? ? ?. apply in_range_spec. rewrite byte_val_of_small by lia. lia. Qed.

Lemma utf8_encode_chunk u : is_scalar u -> chunk (utf8_encode u).
Proof.
  unfold is_scalar, utf8_encode. intros Hu.
  repeat case_bool_decide; constructor;
    try (apply continuation_of; apply Z.mod_pos_bound; lia);
    apply in_range_of; Z.to_euclidean_division_equations; lia.
Qed.

Lemma tolower_val c : byte_val (tolower c) =
  if bool_decide (65 <= byte_val c <= 90) then byte_val c + 32 else byte_val c.
Proof. unfold tolower. case_bool_decide; [by apply byte_val_of_small; lia|done]. Qed.

Lemma tolower_high c : 128 <= byte_val c -> tolower c = c.
Proof. intros Hc. unfold tolower. by rewrite bool_decide_eq_false_2 by lia. Qed.

Lemma in_range_tolower lo hi c : 128 <= lo -> in_range lo hi (tolower c) = in_range lo hi c.
Proof.
  intros Hlo. apply bool_decide_ext. rewrite tolower_val. case_bool_decide; lia.
Qed.

Lemma in_range_tolower_ascii c : in_range 0 0x7F (tolower c) = in_range 0 0x7F c.
Proof. apply bool_decide_ext. rewrite tolower_val. case_bool_decide; lia. Qed.

Lemma is_continuation_tolower c : is_continuation (tolower c) = is_continuation c.
Proof.
  rewrite !is_continuation_range. apply bool_decide_ext. rewrite tolower_val.
  case_bool_decide; lia.
Qed.

Lemma is_valid_utf8_to_lower s : is_valid_utf8 (to_lower s) = is_valid_utf8 s.
Proof.
  induction s as [s IH] using (induction_ltof1 _ length). unfold ltof in IH.
  destruct s as [|c s1]; [done|]. simpl. rewrite in_range_tolower_ascii.
  rewrite IH by (simpl; lia). destruct (in_range 0 0x7F c); [done|].
  destruct s1 as [|c1 s2]; [done|]. simpl.
  rewrite !in_range_tolower by lia. rewrite !is_continuation_tolower.
  rewrite (IH s2) by (simpl; lia). destruct (in_range 0xC2 0xDF c); [done|].
  destruct s2 as [|c2 s3]; [done|]. simpl. rewrite !is_continuation_tolower.
  rewrite (IH s3) by (simpl; lia). destruct (in_range 0xE0 0xEF c); [done|].
  destruct s3 as [|c3 s4]; [done|]. simpl. rewrite !is_continuation_tolower.
  by rewrite (IH s4) by (simpl; lia).
Qed.

Lemma utf8_encode_ascii u :
  is_scalar u -> forallb (fun c => bool_decide (byte_val c < 128)) (utf8_encode u) = bool_decide (u < 128).
Proof.
  unfold is_scalar, utf8_encode. intros Hu.
  case_bool_decide as H1; [|repeat case_bool_decide]; simpl; rewrite byte_val_of_small by
    (Z.to_euclidean_division_equations; lia).
  - by rewrite bool_decide_eq_true_2.
  - rewrite bool_decide_eq_false_2; [done|]. Z.to_euclidean_division_equations; lia.
  - rewrite bool_decide_eq_false_2; [done|]. Z.to_euclidean_division_equations; lia.
  - rewrite bool_decide_eq_false_2; [done|]. Z.to_euclidean_division_equations; lia.
Qed.

(** ** Properties *)

(** Completeness: every text, encoded as UTF-8, is valid, and it has
    UTF-8-specific encoding exactly when some character is outside ASCII. *)
Theorem utf8_texts_accepted us :
  Forall is_scalar us ->
  is_valid_utf8 (concat (map utf8_encode us)) = true /\
  (has_utf8_specific_encoding (concat (map utf8_encode us)) = true <-> Exists (fun u => 128 <= u) us).
Proof.
  intros Hus. assert (is_valid_utf8 (concat (map utf8_encode us)) = true) as Hv.
  { apply is_valid_utf8_chunks, Forall_map. eapply Forall_impl; [exact Hus|].
    intros u. apply utf8_encode_chunk. }
  split; [done|]. unfold has_utf8_specific_encoding. rewrite Hv.
  enough (forallb (fun c => bool_decide (byte_val c < 128)) (concat (map utf8_encode us)) = true
          <-> Forall (fun u => u < 128) us) as Ha.
  { destruct (forallb _ _) eqn:E.
    - split; [done|]. intros Hex. apply Exists_exists in Hex as (u & Hin & Hu).
      destruct Ha as [Ha _]. rewrite Forall_forall in Ha. specialize (Ha eq_refl u Hin). lia.
    - split; [|done]. intros _.
      destruct (decide (Exists (fun u => 128 <= u) us)) as [|Hn]; [done|]. exfalso.
      destruct Ha as [_ Ha]. enough (false = true) by done. apply Ha, Forall_forall.
      intros u Hin. destruct (decide (u < 128)); [done|]. exfalso. apply Hn.
      apply Exists_exists. exists u. split; [done|lia]. }
  clear Hv. induction Hus as [|u us Hu Hus IH]; simpl; [done|].
  rewrite forallb_app, andb_true_iff, IH, utf8_encode_ascii, Forall_cons by done.
  by rewrite bool_decide_eq_true.
Qed.

Lemma utf8_texts_accepted_witness :
  is_valid_utf8 (concat (map utf8_encode [0x48; 0xA9; 0x20AC; 0x1F600])) = true.
Proof.
  refine (proj1 (utf8_texts_accepted [0x48; 0xA9; 0x20AC; 0x1F600] _)).
  repeat (apply List.Forall_cons; [unfold is_scalar; lia|]). apply List.Forall_nil.
Defined.

(** C34. What is accepted: exactly the concatenations of a lead byte
    (00..7F, C2..DF, E0..EF, F0..F4) with the one, two or three continuation
    bytes (80..BF) it announces. *)
Theorem is_valid_utf8_iff_chunks s :
  is_valid_utf8 s = true <-> exists ls, Forall chunk ls /\ s = concat ls.
Proof.
  split; [apply chunks_of_valid|]. intros (ls & Hls & ->). by apply is_valid_utf8_chunks.
Qed.

(** Lower-casing is safe on UTF-8: it maps every byte on its own, leaves
    the bytes of multi-byte characters alone, keeps length and validity, and
    lower-casing twice changes nothing more. *)
Theorem to_lower_utf8 s :
  is_valid_utf8 (to_lower s) = is_valid_utf8 s /\
  has_utf8_specific_encoding (to_lower s) = has_utf8_specific_encoding s /\
  length (to_lower s) = length s /\
  (forall i c, s !! i = Some c -> 128 <= byte_val c -> to_lower s !! i = Some c) /\
  to_lower (to_lower s) = to_lower s.
Proof.
  split; [apply is_valid_utf8_to_lower|]. split; [|split; [apply length_map|split]].
  - unfold has_utf8_specific_encoding. rewrite is_valid_utf8_to_lower.
    replace (forallb (fun c => bool_decide (byte_val c < 128)) (to_lower s))
      with (forallb (fun c => bool_decide (byte_val c < 128)) s); [done|].
    induction s as [|c s IH]; simpl; [done|]. rewrite IH. f_equal.
    apply bool_decide_ext. rewrite tolower_val. case_bool_decide; lia.
  - intros i c Hi Hc. unfold to_lower. rewrite list_lookup_fmap, Hi. simpl.
    by rewrite tolower_high.
  - unfold to_lower. rewrite map_map. apply map_ext. intros c.
    apply byte_val_inj. rewrite !tolower_val. repeat case_bool_decide; lia.
Qed.

(** Ill-formed texts the test lets through: an overlong NUL, a surrogate, and a
    code point beyond U+10FFFF. *)
Example accepts_overlong : is_valid_utf8 (map byte_of [0xE0; 0x80; 0x80]) = true.
Proof. reflexivity. Qed.
Example accepts_surrogate : is_valid_utf8 (map byte_of [0xED; 0xA0; 0x80]) = true.
Proof. reflexivity. Qed.
Example accepts_beyond_unicode : is_valid_utf8 (map byte_of [0xF4; 0x90; 0x80; 0x80]) = true.
Proof. reflexivity. Qed.
