(* ===== verification/Serialization.v ===== *)
(** * Serialization: [serialization/*.hpp]

    The traits of each type: [serialize] appends to a stream (the interface of
    [Buffer.v]), [deserialize] reads at a position of a memory block, here the
    bytes from that position to the block's end, and returns the position after
    what it read.  Reading past the end is undefined behaviour.  The map loop
    and the recursion over nested maps take fuel; as every element occupies at
    least one byte, the block's length is enough ([nested_deserialize_fuel]). *)

From S2P Require Import Prelude Errors Bytes StdMap Heap Buffer Xpod NestedMap Convert.

(** ** The interface *)

Class Traits (T : Type) := {
  serialize : forall {S} `{Stream S}, T -> M S unit;
  deserialize : bytes -> outcome (T * bytes);
}.

(** What a client relies on: [serialize] appends an encoding, [deserialize]
    reads it back whatever follows, and a successful read consumes a non-empty
    prefix of its input. *)
Class TraitsLaws (T : Type) `{Traits T} := {
  encode : T -> bytes;
  encodable : T -> Prop;
  serialize_appends S `{StreamLaws S} v : appends (serialize v) (encode v);
  deserialize_encode v rest : encodable v -> deserialize (encode v ++ rest) = Ok (v, rest);
  deserialize_consumes it v rest :
    deserialize it = Ok (v, rest) -> exists c used, it = (c :: used) ++ rest;
}.

(** ** Trivial types: [traits.hpp] *)

(** The object representation of a standard-layout, trivial type. *)
Class Trivial (T : Type) := {
  sizeof : nat;
  to_bytes : T -> bytes;
  of_bytes : bytes -> outcome T;
}.

Class TrivialLaws (T : Type) `{Trivial T} := {
  representable : T -> Prop;
  sizeof_pos : (0 < sizeof)%nat;
  length_to_bytes v : length (to_bytes v) = sizeof;
  of_to_bytes v : representable v -> of_bytes (to_bytes v) = Ok v;
}.

Section trivial.
Context {T : Type} `{Trivial T}.

Definition trivial_serialize {S} `{Stream S} (val : T) : M S unit :=
  stream_append (to_bytes val).

Definition trivial_deserialize (it : bytes) : outcome (T * bytes) :=
  '(l, it) ← read_bytes sizeof it;
  v ← of_bytes l;
  Ok (v, it).
End trivial.

#[export] Instance trivial_traits {T} `{Trivial T} : Traits T := {|
  serialize := fun S _ => trivial_serialize;
  deserialize := trivial_deserialize |}.

(** Integers of [n] bytes. *)
Definition unsigned_trivial (n : nat) : Trivial Z :=
  {| sizeof := n; to_bytes := le_encode n; of_bytes l := Ok (le_decode l) |}.
Definition signed_trivial (n : nat) : Trivial Z :=
  {| sizeof := n; to_bytes := le_encode n; of_bytes l := Ok (le_decode_signed l) |}.

Definition int_trivial : Trivial Z := signed_trivial 4.
Definition long_long_trivial : Trivial Z := signed_trivial 8.
Definition size_t_trivial : Trivial Z := unsigned_trivial 8.

#[export] Instance char_trivial : Trivial byte :=
  {| sizeof := 1; to_bytes c := [c];
     of_bytes l := match l with [c] => Ok c | _ => UB end |}.

(** Only the bytes 0 and 1 represent a [bool]. *)
#[export] Instance bool_trivial : Trivial bool :=
  {| sizeof := 1; to_bytes (b : bool) := [byte_of (if b then 1 else 0)];
     of_bytes l :=
       if bool_decide (le_decode l = 0) then Ok false
       else if bool_decide (le_decode l = 1) then Ok true else UB |}.

#[export] Instance double_trivial : Trivial double :=
  {| sizeof := 8; to_bytes d := le_encode 8 (double_bits d);
     of_bytes l := Ok (Double (le_decode l)) |}.

(** ** [std::string]: [string.hpp] *)

(** [size] bytes at the position. *)
Definition read_sized (size : Z) (it : bytes) : outcome (bytes * bytes) :=
  if bool_decide (size <= Z.of_nat (length it)) then read_bytes (Z.to_nat size) it else UB.

Section string_traits.
Context {S : Type} `{Stream S}.

Fixpoint serialize_chars (s : bytes) : M S unit :=
  match s with
  | [] => mret tt
  | c :: s => _ ← trivial_serialize c; serialize_chars s
  end.

Definition string_serialize (s : bytes) : M S unit :=
  _ ← stream_append (le_encode 8 (Z.of_nat (length s)));
  serialize_chars s.
End string_traits.

Definition string_deserialize (it : bytes) : outcome (bytes * bytes) :=
  '(size, it) ← read_bytes 8 it;
  read_sized (le_decode size) it.

#[export] Instance string_traits : Traits bytes := {|
  serialize := fun S _ => string_serialize;
  deserialize := string_deserialize |}.

(** ** [std::map]: [map.hpp], and [nested_map]: [nested_map.hpp] *)

Section map_serializer.
Context {K : Type} `{Traits K}.

(** The loop over the entries, given how a mapped value is written. *)
Definition serialize_entries {S} `{Stream S} {V} (f : V -> M S unit) : list (K * V) -> M S unit :=
  fix go m :=
    match m with
    | [] => mret tt
    | (k, v) :: m => _ ← serialize k; _ ← f v; go m
    end.

Definition map_serialize {S} `{Stream S} {V} (f : V -> M S unit) (m : list (K * V)) : M S unit :=
  _ ← stream_append (le_encode 8 (map_size m));
  serialize_entries f m.

Context `{KeyOrder K}.

(** The result of a loop that has run out of fuel, which no loop of this file
    does ([nested_deserialize_fuel]). *)
Definition out_of_fuel {A} (out : option exn) : outcome A :=
  match out with Some e => Throw e | None => UB end.

(** [n] rounds of reading a key and a value and inserting them: an entry
    whose key is already there is dropped. *)
Fixpoint insert_entries {V} (out : option exn) (f : bytes -> outcome (V * bytes)) (fuel : nat) (n : Z)
    (it : bytes) (m : list (K * V)) : outcome (list (K * V) * bytes) :=
  if bool_decide (n = 0) then Ok (m, it)
  else match fuel with
  | O => out_of_fuel out
  | S fuel =>
      '(k, it) ← deserialize it;
      '(v, it) ← f it;
      insert_entries out f fuel (n - 1) it (map_insert k v m).1
  end.

(** The loop with [more] fuel than it needs. *)
Definition map_deserialize_with {V} (out : option exn) (more : nat) (f : bytes -> outcome (V * bytes)) (it : bytes) :
    outcome (list (K * V) * bytes) :=
  '(size, it) ← read_bytes 8 it;
  insert_entries out f (S (length it) + more) (le_decode size) it [].

Definition map_deserialize {V} (f : bytes -> outcome (V * bytes)) : bytes -> outcome (list (K * V) * bytes) :=
  map_deserialize_with None 0 f.

Context {V : Type} `{Traits V}.

Fixpoint nested_serialize {S} `{Stream S} (t : nested_map K V) : M S unit :=
  match t with
  | NestedMap d s => _ ← map_serialize serialize d; map_serialize nested_serialize s
  end.

Fixpoint nested_deserialize_with (out : option exn) (more : nat) (fuel : nat) (it : bytes) :
    outcome (nested_map K V * bytes) :=
  match fuel with
  | O => out_of_fuel out
  | S fuel =>
      '(d, it) ← map_deserialize_with out more deserialize it;
      '(s, it) ← map_deserialize_with out more (nested_deserialize_with out more fuel) it;
      Ok (NestedMap d s, it)
  end.

Definition nested_deserialize : nat -> bytes -> outcome (nested_map K V * bytes) :=
  nested_deserialize_with None 0.

Lemma nested_deserialize_S fuel it :
  nested_deserialize (S fuel) it =
  ('(d, it) ← map_deserialize deserialize it;
   '(s, it) ← map_deserialize (nested_deserialize fuel) it;
   Ok (NestedMap d s, it)).
Proof. done. Qed.
End map_serializer.

#[export] Instance map_traits {K V} `{Traits K, KeyOrder K, Traits V} : Traits (list (K * V)) := {|
  serialize := fun S _ => map_serialize serialize;
  deserialize := map_deserialize deserialize |}.

#[export] Instance nested_traits {K V} `{Traits K, KeyOrder K, Traits V} : Traits (nested_map K V) := {|
  serialize := fun S _ => nested_serialize;
  deserialize it := nested_deserialize (S (length it)) it |}.

(** ** The variant: [xpod.hpp] *)

Definition xpod_serialize {S} `{Stream S} (val : xpod) : M S unit :=
  _ ← stream_append [byte_of (xpod_index val)];
  match val with
  | XInteger z => stream_append (le_encode 8 z)
  | XNumber d => stream_append (le_encode 8 (double_bits d))
  | XBoolean b => stream_append [byte_of (if b then 1 else 0)]
  | XPointer p =>
      let s := to_string_pointer (pointer_addr p) in
      _ ← stream_append (le_encode 8 (Z.of_nat (length s)));
      stream_append s
  | XString s =>
      _ ← stream_append (le_encode 8 (Z.of_nat (length s)));
      stream_append s
  end.

Definition xpod_deserialize (it : bytes) : outcome (xpod * bytes) :=
  '(l, it) ← read_bytes 1 it;
  let valIndex := le_decode l in
  if bool_decide (valIndex = type_index.integer) then
    '(l, it) ← read_bytes 8 it;
    Ok (XInteger (le_decode_signed l), it)
  else if bool_decide (valIndex = type_index.number) then
    '(l, it) ← read_bytes 8 it;
    Ok (XNumber (Double (le_decode l)), it)
  else if bool_decide (valIndex = type_index.boolean) then
    '(b, it) ← trivial_deserialize it;
    Ok (XBoolean b, it)
  else if bool_decide (valIndex = type_index.pointer) then
    '(l, it) ← read_bytes 8 it;
    '(s, it) ← read_sized (le_decode l) it;
    p ← from_string_pointer s;
    Ok (XPointer (Pointer p), it)
  else if bool_decide (valIndex = type_index.string) then
    '(l, it) ← read_bytes 8 it;
    '(s, it) ← read_sized (le_decode l) it;
    Ok (XString s, it)
  else throw runtime_error "cbeam::serialization::deserialize: invalid ByteStream".

#[export] Instance xpod_traits : Traits xpod := {|
  serialize := fun S _ => xpod_serialize;
  deserialize := xpod_deserialize |}.

(** ** The direct calls: [direct.hpp] *)

(** [serialize(instance)]: the stream, or the exception, with the lines logged. *)
Definition direct_serialize {T S} `{Traits T, Stream S} (empty : S) (instance : T) :
    outcome S * list string :=
  match serialize instance empty with
  | (Ok _, byte_stream) => (Ok byte_stream, [])
  | (Throw e, _) =>
      (Throw e,
       [if catches std_exception e
        then ("cbeam::serialization: Exception while serializing: " ++ exn_text e)%string
        else "cbeam::serialization: Unknown exception while serializing"%string])
  | (UB, _) => (UB, [])
  end.

(** [deserialize<T>(it)] with an advancing and with a constant position. *)
Definition direct_deserialize {T} `{Traits T} (it : bytes) : outcome (T * bytes) := deserialize it.
Definition direct_deserialize_const {T} `{Traits T} (it : bytes) : outcome T :=
  '(v, _) ← deserialize it;
  Ok v.

Definition sample_config : nested_map bytes xpod :=
  NestedMap [(str "name", XString (str "cbeam")); (str "p", XPointer (Pointer 0xbeef))]
    [(str "sub", NestedMap [(str "on", XBoolean true)] [])].

Definition heap_start : heap * buf := (∅, buf_default).

Definition run_roundtrip : option (nested_map bytes xpod * bytes) :=
  match @direct_serialize _ _ _ (@buffer_stream moving) heap_start sample_config with
  | (Ok (h, b), _) => match deserialize (buf_contents h b) with Ok r => Some r | _ => None end
  | _ => None
  end.

Example run_roundtrip_ok : run_roundtrip = Some (sample_config, []).
Proof. vm_compute. reflexivity. Qed.

(** ** Laws of the trivial types *)

#[export] Instance trivial_laws {T} `{TrivialLaws T} : TraitsLaws T.
Proof.
  exists to_bytes representable.
  - intros S ? ? v. apply appends_append. intros Hnil.
    pose proof (length_to_bytes v) as Hl. pose proof sizeof_pos. rewrite Hnil in Hl. simpl in Hl. lia.
  - intros v rest Hv. simpl. unfold trivial_deserialize.
    rewrite read_bytes_app by apply length_to_bytes. simpl. by rewrite of_to_bytes.
  - intros it v rest. simpl. unfold trivial_deserialize. intros ?. inv_ok.
    destruct x as [l it']. inv_ok. apply read_bytes_Ok in H1 as [-> Hl].
    pose proof sizeof_pos. destruct l as [|c l]; [simpl in Hl; lia|]. by exists c, l.
Defined.

Lemma signed_laws n : (0 < n)%nat -> @TrivialLaws Z (signed_trivial n).
Proof.
  intros Hn. exists (fun z => - 2 ^ (8 * Z.of_nat n - 1) <= z < 2 ^ (8 * Z.of_nat n - 1)); simpl.
  - done.
  - apply length_le_encode.
  - intros z Hz. by rewrite le_decode_signed_encode.
Defined.

#[export] Instance int_laws : @TrivialLaws Z int_trivial.
Proof. apply signed_laws. lia. Defined.
#[export] Instance long_long_laws : @TrivialLaws Z long_long_trivial.
Proof. apply signed_laws. lia. Defined.
#[export] Instance size_t_laws : @TrivialLaws Z size_t_trivial.
Proof.
  exists is_size_t; [simpl; lia|intros; apply length_le_encode|].
  intros z Hz. change (Ok (le_decode (le_encode 8 z)) = Ok z). rewrite le_decode_encode; [done|].
  unfold is_size_t, size_max, size_bits in Hz. simpl Z.of_nat. lia.
Defined.
#[export] Instance char_laws : TrivialLaws byte.
Proof. exists (fun _ => True); simpl; [lia|done|done]. Defined.
#[export] Instance bool_laws : TrivialLaws bool.
Proof. exists (fun _ => True); simpl; [lia|done|by intros []]. Defined.
#[export] Instance double_laws : TrivialLaws double.
Proof.
  exists (fun d => is_size_t (double_bits d)); [simpl; lia|intros; apply length_le_encode|].
  intros [z] Hz. change (Ok (Double (le_decode (le_encode 8 z))) = Ok (Double z)).
  rewrite le_decode_encode; [done|]. simpl in Hz.
  unfold is_size_t, size_max, size_bits in Hz. simpl Z.of_nat. lia.
Defined.

(** ** Strings and variants *)

Lemma size_bytes_roundtrip z : is_size_t z -> le_decode (le_encode 8 z) = z.
Proof.
  intros Hz. apply le_decode_encode. unfold is_size_t, size_max, size_bits in Hz.
  simpl Z.of_nat. lia.
Qed.

Lemma read_size_app z rest : read_bytes 8 (le_encode 8 z ++ rest) = Ok (le_encode 8 z, rest).
Proof. apply read_bytes_app. apply length_le_encode. Qed.

Lemma read_sized_app s rest : read_sized (Z.of_nat (length s)) (s ++ rest) = Ok (s, rest).
Proof.
  unfold read_sized. rewrite bool_decide_eq_true_2 by (rewrite length_app; lia).
  by rewrite Nat2Z.id, read_bytes_app.
Qed.

Lemma read_sized_Ok n it s rest : read_sized n it = Ok (s, rest) -> it = s ++ rest.
Proof. unfold read_sized. case_bool_decide; [|done]. intros H'. by apply read_bytes_Ok in H' as [-> _]. Qed.

(** Take a successful chain of reads apart. *)
Ltac inv_reads :=
  intros; inv_ok;
  repeat (match goal with x : (_ * _)%type |- _ => destruct x end; inv_ok).

(** A positive number of bytes read is a non-empty prefix. *)
Lemma read_bytes_used n it l rest :
  (0 < n)%nat -> read_bytes n it = Ok (l, rest) -> exists c used, l = c :: used /\ it = (c :: used) ++ rest.
Proof.
  intros Hn Hr. apply read_bytes_Ok in Hr as [-> Hl].
  destruct l as [|c l]; [simpl in Hl; lia|]. by exists c, l.
Qed.

Lemma used_app (c : byte) (used rest2 mid rest : bytes) :
  rest2 = mid ++ rest -> exists (c' : byte) (used' : bytes), (c :: used) ++ rest2 = (c' :: used') ++ rest.
Proof. intros ->. exists c, (used ++ mid). simpl. by rewrite app_assoc. Qed.

Lemma serialize_chars_after {S} `{StreamLaws S} s : appends_after (serialize_chars s) s.
Proof.
  induction s as [|c s IH]; simpl; [apply after_ret|].
  change (c :: s) with ([c] ++ s). apply after_seq; [apply after_append|done].
Qed.

Lemma size_append {S A} `{StreamLaws S} n (m : M S A) d :
  appends_after m d -> appends (_ ← stream_append (le_encode 8 n); m) (le_encode 8 n ++ d).
Proof. apply appends_seq; [done|]. by apply appends_append. Qed.

Lemma string_deserialize_encode s rest :
  is_size_t (Z.of_nat (length s)) ->
  string_deserialize ((le_encode 8 (Z.of_nat (length s)) ++ s) ++ rest) = Ok (s, rest).
Proof.
  intros Hs. unfold string_deserialize. rewrite <- app_assoc, read_size_app.
  cbn. by rewrite size_bytes_roundtrip, read_sized_app.
Qed.

#[export] Instance string_laws : TraitsLaws bytes.
Proof.
  exists (fun s => le_encode 8 (Z.of_nat (length s)) ++ s)
    (fun s => is_size_t (Z.of_nat (length s))).
  - intros S ? ? s. apply size_append, serialize_chars_after.
  - intros s rest Hs. by apply string_deserialize_encode.
  - intros it s rest. simpl. unfold string_deserialize. intros ?. inv_ok.
    destruct x as [l it']. apply read_bytes_used in H as (c & used & _ & ->); [|lia].
    apply read_sized_Ok in H0. by eapply used_app.
Defined.

Definition xpod_encode (v : xpod) : bytes :=
  byte_of (xpod_index v) ::
  match v with
  | XInteger z => le_encode 8 z
  | XNumber d => le_encode 8 (double_bits d)
  | XBoolean b => [byte_of (if b then 1 else 0)]
  | XPointer p => let s := to_string_pointer (pointer_addr p) in le_encode 8 (Z.of_nat (length s)) ++ s
  | XString s => le_encode 8 (Z.of_nat (length s)) ++ s
  end.

Definition xpod_encodable (v : xpod) : Prop :=
  match v with
  | XInteger z => is_long_long z
  | XNumber d => is_size_t (double_bits d)
  | XBoolean _ => True
  | XPointer p => is_size_t (pointer_addr p)
  | XString s => is_size_t (Z.of_nat (length s))
  end.

Lemma xpod_serialize_appends {S} `{StreamLaws S} v : appends (xpod_serialize v) (xpod_encode v).
Proof.
  unfold xpod_serialize, xpod_encode.
  destruct v; (apply (appends_seq _ _ [_]); [done|by apply appends_append|]);
    first [apply after_append | apply after_seq; apply after_append].
Qed.

Lemma read_byte c it : read_bytes 1 (c :: it) = Ok ([c], it).
Proof. by apply (read_bytes_app 1 [c]). Qed.

(** What follows the index byte, by alternative. *)
Lemma xpod_deserialize_byte i it :
  0 <= i < 256 -> xpod_deserialize (byte_of i :: it) =
  if bool_decide (i = 0) then '(l, it) ← read_bytes 8 it; Ok (XInteger (le_decode_signed l), it)
  else if bool_decide (i = 1) then '(l, it) ← read_bytes 8 it; Ok (XNumber (Double (le_decode l)), it)
  else if bool_decide (i = 2) then '(b, it) ← trivial_deserialize it; Ok (XBoolean b, it)
  else if bool_decide (i = 3) then
    '(l, it) ← read_bytes 8 it; '(s, it) ← read_sized (le_decode l) it;
    p ← from_string_pointer s;
    Ok (XPointer (Pointer p), it)
  else if bool_decide (i = 4) then
    '(l, it) ← read_bytes 8 it; '(s, it) ← read_sized (le_decode l) it; Ok (XString s, it)
  else throw runtime_error "cbeam::serialization::deserialize: invalid ByteStream".
Proof.
  intros Hi. unfold xpod_deserialize. rewrite read_byte.
  assert (le_decode [byte_of i] = i) as E.
  { simpl. rewrite byte_val_of, Z.mod_small by lia. lia. }
  cbn [mbind outcome_bind]. by rewrite E.
Qed.

Lemma xpod_deserialize_encode v rest :
  xpod_encodable v -> xpod_deserialize (xpod_encode v ++ rest) = Ok (v, rest).
Proof.
  intros Hv. unfold xpod_encode. rewrite <- app_comm_cons.
  destruct v as [z|d|b|p|s]; cbn [xpod_index];
    rewrite xpod_deserialize_byte by (split; vm_compute; congruence); cbn [xpod_encodable] in Hv.
  - rewrite read_size_app. cbn. rewrite le_decode_signed_encode; [done|lia|exact Hv].
  - rewrite read_size_app. cbn. rewrite size_bytes_roundtrip by done. by destruct d.
  - by destruct b.
  - rewrite <- app_assoc, read_size_app. cbn -[to_string_pointer].
    rewrite size_bytes_roundtrip, read_sized_app.
    + cbn -[to_string_pointer]. rewrite pointer_text_roundtrip by done. by destruct p.
    + pose proof (length_to_string_pointer _ Hv). unfold is_size_t, size_max, size_bits. lia.
  - rewrite <- app_assoc, read_size_app. cbn.
    by rewrite size_bytes_roundtrip, read_sized_app.
Qed.

Lemma xpod_deserialize_consumes it v rest :
  xpod_deserialize it = Ok (v, rest) -> exists c used, it = (c :: used) ++ rest.
Proof.
  destruct it as [|c it]; [done|]. rewrite <- (byte_of_val c), xpod_deserialize_byte
    by apply byte_val_range.
  intros Hd. exists (byte_of (byte_val c)). repeat case_bool_decide; inv_ok;
    try match goal with x : (_ * _)%type |- _ => destruct x; inv_ok end;
    repeat match goal with
    | x : (_ * _)%type |- _ => destruct x; inv_ok
    | H : read_bytes _ _ = Ok _ |- _ => apply read_bytes_Ok in H as [-> _]
    | H : read_sized _ _ = Ok _ |- _ => apply read_sized_Ok in H as ->
    | H : trivial_deserialize _ = Ok _ |- _ => apply trivial_laws in H as (? & ? & ->)
    end; try (by eexists).
  all: rewrite app_assoc; by eexists.
Qed.

#[export] Instance xpod_laws : TraitsLaws xpod.
Proof.
  exists xpod_encode xpod_encodable.
  - intros S ? ? v. apply xpod_serialize_appends.
  - apply xpod_deserialize_encode.
  - apply xpod_deserialize_consumes.
Defined.

(** ** Maps *)

Section map_laws.
Context {K : Type} `{KeyOrderLaws K} `{!Traits K} `{!TraitsLaws K}.

Definition map_encode {V} (f : V -> bytes) (m : list (K * V)) : bytes :=
  le_encode 8 (map_size m) ++ concat (map (fun x => encode x.1 ++ f x.2) m).

Definition map_encodable {V} (P : V -> Prop) (m : list (K * V)) : Prop :=
  map_wf m /\ is_size_t (map_size m) /\ Forall (fun x => encodable x.1 /\ P x.2) m.

Lemma map_serialize_appends {S} `{StreamLaws S} {V} (f : V -> M S unit) (e : V -> bytes) m :
  Forall (fun x => appends (f x.2) (e x.2)) m -> appends (map_serialize f m) (map_encode e m).
Proof.
  intros Hf. apply size_append.
  induction Hf as [|[k v] m Hv Hm IH]; simpl; [apply after_ret|].
  rewrite <- app_assoc. apply after_seq; [by apply appends_weaken, serialize_appends; apply _|].
  apply after_seq; [by apply appends_weaken|done].
Qed.

Lemma encode_nonempty (k : K) : encodable k -> (0 < length (encode k))%nat.
Proof.
  intros Hk. pose proof (deserialize_encode k [] Hk) as Hd.
  apply deserialize_consumes in Hd as (c & used & Hd). rewrite !app_nil_r in Hd.
  rewrite Hd. simpl. lia.
Qed.

Lemma length_entries {V} (f : V -> bytes) (m : list (K * V)) :
  Forall (fun x => encodable x.1) m ->
  (length m <= length (concat (map (fun x => encode x.1 ++ f x.2) m)))%nat.
Proof.
  induction 1 as [|[k v] m Hk Hm IH]; simpl in *; [lia|].
  rewrite !length_app. pose proof (encode_nonempty k Hk). lia.
Qed.

Lemma insert_entries_step {V} out (f : bytes -> outcome (V * bytes)) fuel n it m :
  n <> 0 -> insert_entries out f (S fuel) n it m =
  ('(k, it) ← deserialize it; '(v, it) ← f it;
   insert_entries out f fuel (n - 1) it (map_insert k v m).1).
Proof. intros Hn. cbn [insert_entries]. by rewrite bool_decide_eq_false_2. Qed.

Lemma map_wf_app_below {V} (m1 m2 : list (K * V)) k v :
  map_wf (m1 ++ (k, v) :: m2) -> Forall (fun y => key_ltb y.1 k = true) m1.
Proof.
  unfold map_wf. induction m1 as [|a m1 IH]; simpl; intros Hwf; [constructor|].
  apply StronglySorted_inv in Hwf as [Hwf Ha]. constructor; [|by apply IH].
  apply Forall_app in Ha as [_ Ha]. by apply Forall_inv in Ha.
Qed.

Lemma insert_entries_encode {V} out (f : bytes -> outcome (V * bytes)) (e : V -> bytes) m :
  Forall (fun x => encodable x.1 /\ forall rest, f (e x.2 ++ rest) = Ok (x.2, rest)) m ->
  forall fuel acc rest, (length m <= fuel)%nat -> map_wf (acc ++ m) ->
  insert_entries out f fuel (map_size m) (concat (map (fun x => encode x.1 ++ e x.2) m) ++ rest) acc =
    Ok (acc ++ m, rest).
Proof.
  unfold map_size. induction 1 as [|[k v] m [Hk Hv] Hm IH]; intros fuel acc rest Hf Hwf.
  - rewrite app_nil_r. by destruct fuel.
  - cbn [length map concat fst snd] in *. destruct fuel as [|fuel]; [lia|].
    rewrite insert_entries_step by lia.
    rewrite <- !app_assoc, deserialize_encode by done. cbn [mbind outcome_bind].
    rewrite Hv. cbn [mbind outcome_bind].
    rewrite map_insert_last by (by eapply map_wf_app_below). cbn [fst].
    replace (Z.of_nat (S (length m)) - 1) with (Z.of_nat (length m)) by lia.
    rewrite IH; [by rewrite <- app_assoc|lia|by rewrite <- app_assoc].
Qed.

Lemma map_deserialize_encode {V} (f : bytes -> outcome (V * bytes)) (e : V -> bytes) m rest :
  map_wf m -> is_size_t (map_size m) ->
  Forall (fun x => encodable x.1 /\ forall rest, f (e x.2 ++ rest) = Ok (x.2, rest)) m ->
  map_deserialize f (map_encode e m ++ rest) = Ok (m, rest).
Proof.
  intros Hwf Hsz Hm. unfold map_deserialize, map_deserialize_with, map_encode.
  rewrite <- app_assoc, read_size_app. cbn [mbind outcome_bind].
  rewrite size_bytes_roundtrip by done. apply (insert_entries_encode None f e m Hm _ []); [|done].
  rewrite length_app.
  enough (length m <= length (concat (map (fun x => encode x.1 ++ e x.2) m)))%nat by lia.
  apply length_entries. eapply Forall_impl; [exact Hm|]. by intros x [? _].
Qed.

Lemma insert_entries_rest {V} out (f : bytes -> outcome (V * bytes)) :
  (forall it v rest, f it = Ok (v, rest) -> exists used, it = used ++ rest) ->
  forall fuel n it m m' rest,
  insert_entries out f fuel n it m = Ok (m', rest) -> exists used, it = used ++ rest.
Proof.
  intros Hf. induction fuel as [|fuel IH]; intros n it m m' rest; simpl; case_bool_decide.
  - intros ?; inv_ok. by exists [].
  - by destruct out.
  - intros ?; inv_ok. by exists [].
  - inv_reads.
    match goal with Hk : deserialize _ = _, Hv : f _ = _, Hr : insert_entries _ _ _ _ _ _ = _ |- _ =>
      apply deserialize_consumes in Hk as (c & u1 & ->); apply Hf in Hv as [u2 ->];
      apply IH in Hr as [u3 ->] end.
    rewrite !app_assoc. by eexists.
Qed.

Lemma map_deserialize_consumes {V} out more (f : bytes -> outcome (V * bytes)) it m rest :
  (forall it v rest, f it = Ok (v, rest) -> exists used, it = used ++ rest) ->
  map_deserialize_with out more f it = Ok (m, rest) -> exists c used, it = (c :: used) ++ rest.
Proof.
  intros Hf. unfold map_deserialize_with. inv_reads.
  match goal with Hl : read_bytes _ _ = _, Hr : insert_entries _ _ _ _ _ _ = _ |- _ =>
    apply read_bytes_used in Hl as (c & u & _ & ->); [|lia];
    apply insert_entries_rest in Hr as [u2 ->]; [|done] end.
  by eapply used_app.
Qed.

Lemma weaken_consumes {V} (f : bytes -> outcome (V * bytes)) :
  (forall it v rest, f it = Ok (v, rest) -> exists c used, it = (c :: used) ++ rest) ->
  forall it v rest, f it = Ok (v, rest) -> exists used, it = used ++ rest.
Proof. intros Hf it v rest (c & u & ->)%Hf. by exists (c :: u). Qed.

Context {V : Type} `{!Traits V} `{!TraitsLaws V}.

#[export] Instance map_traits_laws : TraitsLaws (list (K * V)).
Proof.
  exists (map_encode encode) (map_encodable encodable).
  - intros S ? ? m. apply map_serialize_appends, Forall_true.
    intros x. apply serialize_appends, _.
  - intros m rest (Hwf & Hsz & Hm). apply map_deserialize_encode; [done..|].
    eapply Forall_impl; [exact Hm|]. intros x [Hk Hv]. split; [done|].
    intros rest'. by apply deserialize_encode.
  - intros it m rest. apply map_deserialize_consumes, weaken_consumes, deserialize_consumes.
Defined.

(** ** Nested maps *)

Fixpoint nested_encode (t : nested_map K V) : bytes :=
  match t with
  | NestedMap d s => map_encode encode d ++ map_encode nested_encode s
  end.

Inductive nested_encodable : nested_map K V -> Prop :=
| nested_encodable_intro d s :
    map_encodable encodable d -> map_wf s -> is_size_t (map_size s) ->
    Forall (fun x => encodable x.1) s -> Forall (fun x => nested_encodable x.2) s ->
    nested_encodable (NestedMap d s).

Lemma nested_serialize_appends {S} `{StreamLaws S} (t : nested_map K V) :
  appends (nested_serialize t) (nested_encode t).
Proof.
  induction t as [d s IH] using nested_map_rec_all. cbn [nested_serialize nested_encode].
  apply (appends_seq (map_serialize serialize d)); [done| |by apply appends_weaken, map_serialize_appends].
  apply map_serialize_appends, Forall_true. intros x. apply serialize_appends, _.
Qed.

Lemma length_entry (f : nested_map K V -> bytes) (x : K * nested_map K V) s :
  x ∈ s -> (length (f x.2) < length (map_encode f s))%nat.
Proof.
  intros Hx. unfold map_encode. rewrite length_app, length_le_encode.
  induction Hx as [x s|x y s Hx IH]; simpl; rewrite !length_app; lia.
Qed.

Lemma nested_deserialize_encode (t : nested_map K V) :
  nested_encodable t -> forall fuel rest, (length (nested_encode t) < fuel)%nat ->
  nested_deserialize fuel (nested_encode t ++ rest) = Ok (t, rest).
Proof.
  induction t as [d s IH] using nested_map_rec_all. intros Ht fuel rest Hf.
  inversion Ht as [? ? Hd Hs Hsz Hk Hsub]; subst. destruct fuel as [|fuel]; [lia|].
  rewrite nested_deserialize_S. cbn [nested_encode] in *. rewrite <- app_assoc.
  pose proof (deserialize_encode (T := list (K * V)) d) as Hdd. cbn in Hdd.
  rewrite Hdd by done. cbn [mbind outcome_bind].
  rewrite map_deserialize_encode; [done..|].
  rewrite Forall_forall in *. intros x Hx. split; [by apply Hk|]. intros rest'.
  apply (IH x Hx); [by apply Hsub|]. rewrite length_app in Hf.
  pose proof (length_entry nested_encode x s Hx). lia.
Qed.

Lemma nested_deserialize_consumes out more fuel it (t : nested_map K V) rest :
  nested_deserialize_with out more fuel it = Ok (t, rest) -> exists c used, it = (c :: used) ++ rest.
Proof.
  revert it t rest. induction fuel as [|fuel IH]; intros it t rest; simpl; [by destruct out|].
  inv_reads.
  match goal with Hd : map_deserialize_with _ _ deserialize _ = _, Hs : map_deserialize_with _ _ (nested_deserialize_with _ _ _) _ = _ |- _ =>
    apply map_deserialize_consumes in Hd as (c & u & ->); [|apply weaken_consumes, deserialize_consumes];
    apply map_deserialize_consumes in Hs as (c2 & u2 & ->); [|by apply weaken_consumes] end.
  by eapply used_app.
Qed.

#[export] Instance nested_traits_laws : TraitsLaws (nested_map K V).
Proof.
  exists nested_encode nested_encodable.
  - intros S ? ? t. apply nested_serialize_appends.
  - intros t rest Ht. apply nested_deserialize_encode; [done|]. rewrite length_app. lia.
  - intros it t rest. apply nested_deserialize_consumes.
Defined.
End map_laws.

(** ** Fuel *)

Section fuel.
Context {K : Type} `{KeyOrderLaws K} `{!Traits K} `{!TraitsLaws K}.

(** The loop only looks at shorter inputs, and any fuel above the length of
    the input gives the same result. *)
Lemma insert_entries_ext {V} out1 out2 (f g : bytes -> outcome (V * bytes)) bound :
  (forall it, (length it < bound)%nat -> f it = g it) ->
  (forall it v rest, f it = Ok (v, rest) -> exists used, it = used ++ rest) ->
  forall fuel1 fuel2 n it (m : list (K * V)),
  (length it <= bound)%nat -> (length it < fuel1)%nat -> (length it < fuel2)%nat ->
  insert_entries out1 f fuel1 n it m = insert_entries out2 g fuel2 n it m.
Proof.
  intros Hfg Hf. induction fuel1 as [|fuel1 IH]; intros [|fuel2] n it m Hb H1 H2; [lia..|].
  destruct (decide (n = 0)) as [->|Hn]; [done|]. rewrite !insert_entries_step by done.
  destruct (deserialize it) as [[k it1]| |] eqn:Ek; [|done..]. cbn [mbind outcome_bind].
  apply deserialize_consumes in Ek as (c & u & ->).
  rewrite length_app in *. simpl in *. rewrite <- Hfg by lia.
  destruct (f it1) as [[v it2]| |] eqn:Ev; [|done..]. cbn [mbind outcome_bind].
  apply Hf in Ev as [u2 ->]. rewrite length_app in *. apply IH; lia.
Qed.

Lemma map_deserialize_ext {V} out1 out2 more1 more2 (f g : bytes -> outcome (V * bytes)) it :
  (forall it', (length it' < length it)%nat -> f it' = g it') ->
  (forall it v rest, f it = Ok (v, rest) -> exists used, it = used ++ rest) ->
  @map_deserialize_with K _ _ V out1 more1 f it = map_deserialize_with out2 more2 g it.
Proof.
  intros Hfg Hf. unfold map_deserialize_with.
  destruct (read_bytes 8 it) as [[l it1]| |] eqn:El; [|done..]. cbn [mbind outcome_bind].
  apply read_bytes_used in El as (c & u & _ & ->); [|lia].
  apply (insert_entries_ext out1 out2 f g (length it1)); [|done|lia..].
  intros it' Hit. apply Hfg. rewrite length_app. simpl. lia.
Qed.

Lemma nested_deserialize_ext {V} `{!Traits V} `{!TraitsLaws V} out1 out2 more1 more2 fuel1 : forall fuel2 it,
  (length it < fuel1)%nat -> (length it < fuel2)%nat ->
  nested_deserialize_with (K := K) (V := V) out1 more1 fuel1 it = nested_deserialize_with out2 more2 fuel2 it.
Proof.
  induction fuel1 as [|fuel1 IH]; intros [|fuel2] it H1 H2; [lia..|]. cbn [nested_deserialize_with].
  rewrite (map_deserialize_ext out1 out2 more1 more2 deserialize deserialize);
    [|done|apply weaken_consumes, deserialize_consumes].
  destruct (map_deserialize_with out2 more2 deserialize it) as [[d it1]| |] eqn:Ed; [|done..].
  cbn [mbind outcome_bind].
  apply map_deserialize_consumes in Ed as (c & u & ->); [|apply weaken_consumes, deserialize_consumes].
  rewrite length_app in *. simpl in *.
  rewrite (map_deserialize_ext out1 out2 more1 more2 _ (nested_deserialize_with out2 more2 fuel2)); [done|..].
  - intros it' Hit. apply IH; lia.
  - apply weaken_consumes. intros it v rest. apply nested_deserialize_consumes.
Qed.
End fuel.

(** ** Properties *)

Section serialization_properties.
Context {K V : Type} `{KeyOrderLaws K} `{!Traits K} `{!TraitsLaws K} `{!Traits V} `{!TraitsLaws V}.

(** C14. Round trip: whenever serializing a nested map into a stream returns,
    nothing was logged and the stream has grown by bytes that deserialize, in
    front of any other bytes, to exactly that nested map, leaving the other
    bytes unread; when it throws, the exception is passed on and logged; its
    behaviour is always defined. *)
Theorem nested_map_roundtrip {S} `{StreamLaws S} (t : nested_map K V) (s : S) r log :
  nested_encodable t -> stream_wf s ->
  Z.of_nat (length (stream_contents s)) + Z.of_nat (length (nested_encode t)) <= size_max ->
  direct_serialize s t = (r, log) ->
  (forall s', r = Ok s' -> log = [] /\
     exists d, stream_contents s' = stream_contents s ++ d /\
       forall rest, direct_deserialize (d ++ rest) = Ok (t, rest) /\
                    direct_deserialize_const (d ++ rest) = Ok t) /\
  r <> UB /\
  (forall e, r = Throw e -> exists line, log = [line] /\
     (catches std_exception e = true ->
      line = ("cbeam::serialization: Exception while serializing: " ++ exn_text e)%string)).
Proof.
  intros Ht Hs Hl. unfold direct_serialize.
  pose proof (nested_serialize_appends t s Hs Hl) as Happ.
  change (serialize t s) with (nested_serialize t s).
  destruct (nested_serialize t s) as [[[]|e|] s1] eqn:E; intros [= <- <-]; split; try done.
  - intros s' [= <-]. split; [done|]. exists (nested_encode t). split; [apply Happ|].
    intros rest. pose proof (deserialize_encode t rest Ht) as Hd.
    change (encode t) with (nested_encode t) in Hd.
    unfold direct_deserialize, direct_deserialize_const. by rewrite Hd.
  - split; [done|]. intros e' [= <-]. eexists. split; [done|]. by intros ->.
Qed.

(** C16. Termination of deserialization: on every input, well-formed or not,
    with any fuel above the input's length for the recursion over the levels and
    any fuel above the rest's length for the loops over the entries, neither ever
    runs out: the result does not depend on what a loop returns that does ([out],
    undefined behaviour or any exception), nor on the amounts. *)
Theorem nested_deserialize_fuel out more fuel it :
  (length it < fuel)%nat ->
  nested_deserialize_with (K := K) (V := V) out more fuel it = deserialize it.
Proof.
  intros Hf. change (deserialize it) with (nested_deserialize_with (K := K) (V := V) None 0 (S (length it)) it).
  apply nested_deserialize_ext; lia.
Qed.
End serialization_properties.

Lemma le_encode_signed l : (0 < length l)%nat -> le_encode (length l) (le_decode_signed l) = l.
Proof.
  intros Hl. unfold le_decode_signed. case_bool_decide; [apply le_encode_decode|].
  rewrite <- le_encode_wrap. rewrite <- (Z_mod_plus_full _ 1), Z.mul_1_l, Z.sub_add.
  rewrite Z.mod_small by apply le_decode_range. apply le_encode_decode.
Qed.

Lemma le_decode_signed_range l :
  (0 < length l)%nat ->
  - 2 ^ (8 * Z.of_nat (length l) - 1) <= le_decode_signed l < 2 ^ (8 * Z.of_nat (length l) - 1).
Proof.
  intros Hl. pose proof (le_decode_range l) as Hr. unfold le_decode_signed.
  assert (2 ^ (8 * Z.of_nat (length l)) = 2 * 2 ^ (8 * Z.of_nat (length l) - 1)) as Hw.
  { rewrite <- (Z.pow_1_r 2) at 2. rewrite <- Z.pow_add_r by lia. f_equal. lia. }
  case_bool_decide; lia.
Qed.

Lemma xpod_deserialize_throws it e :
  xpod_deserialize it = Throw e <->
  e = Exn runtime_error "cbeam::serialization::deserialize: invalid ByteStream" /\
  exists c rest, it = c :: rest /\ 4 < byte_val c.
Proof.
  split.
  - destruct it as [|c it]; [done|]. rewrite <- (byte_of_val c), xpod_deserialize_byte
      by apply byte_val_range. pose proof (byte_val_range c).
    unfold trivial_deserialize, read_sized, read_bytes, from_string_pointer, from_string.
    repeat case_bool_decide; cbn -[skip_spaces];
      repeat (match goal with
              | |- context [bool_decide ?P] => destruct (bool_decide P)
              | |- context [skip_spaces ?s] => destruct (skip_spaces s)
              end; cbn -[skip_spaces]);
      intros ?; simplify_eq.
    split; [done|]. exists (byte_of (byte_val c)), it. split; [done|]. rewrite byte_of_val. lia.
  - intros (-> & c & rest & -> & Hc). pose proof (byte_val_range c).
    rewrite <- (byte_of_val c), xpod_deserialize_byte by done.
    by rewrite !bool_decide_eq_false_2 by lia.
Qed.

(** A pointer without text reads an indeterminate value. *)
Example blank_pointer : xpod_deserialize (byte_of 3 :: le_encode 8 0) = UB.
Proof. vm_compute. reflexivity. Qed.

Lemma read_8_unsigned it l rest :
  read_bytes 8 it = Ok (l, rest) -> it = le_encode 8 (le_decode l) ++ rest.
Proof. intros [-> Hl]%read_bytes_Ok. by rewrite <- Hl, le_encode_decode. Qed.

Lemma read_8_signed it l rest :
  read_bytes 8 it = Ok (l, rest) -> it = le_encode 8 (le_decode_signed l) ++ rest.
Proof. intros [-> Hl]%read_bytes_Ok. rewrite <- Hl at 1. by rewrite le_encode_signed by lia. Qed.

Lemma read_sized_length n it s rest :
  0 <= n -> read_sized n it = Ok (s, rest) -> it = s ++ rest /\ Z.of_nat (length s) = n.
Proof.
  intros Hn. unfold read_sized. case_bool_decide; [|done].
  intros [-> Hl]%read_bytes_Ok. split; [done|lia].
Qed.

Lemma read_bool it b rest :
  trivial_deserialize it = Ok (b, rest) -> it = byte_of (if b : bool then 1 else 0) :: rest.
Proof.
  unfold trivial_deserialize. inv_reads.
  match goal with Hr : read_bytes _ _ = _ |- _ => apply read_bytes_Ok in Hr as [-> Hl] end.
  destruct l as [|c [|]]; simpl in Hl; [lia| |lia].
  match goal with Hb : (if _ then _ else _) = Ok b |- _ => revert Hb end.
  simpl. assert (byte_val c + 256 * 0 = byte_val c) as -> by lia. intros Hb.
  rewrite <- (byte_of_val c). repeat case_bool_decide; simplify_eq; by f_equal; f_equal.
Qed.

(** C17. Reading a variant from arbitrary bytes: it throws exactly when the first
    byte is not the index of an alternative, and then the error is a
    [cbeam::error::runtime_error]; a value it returns has the alternative of the
    first byte; the bytes read are exactly the ones serializing the value writes,
    except that for a pointer they are the length and the characters of any text
    that [from_string] reads as its address (an address has several spellings). *)
Theorem xpod_deserialize_spec it :
  (forall e, xpod_deserialize it = Throw e <->
     e = Exn runtime_error "cbeam::serialization::deserialize: invalid ByteStream" /\
     exists c rest, it = c :: rest /\ 4 < byte_val c) /\
  (forall v rest, xpod_deserialize it = Ok (v, rest) ->
     (exists it', it = byte_of (xpod_index v) :: it') /\
     match v with
     | XPointer p => exists s, it = byte_of (xpod_index v) :: le_encode 8 (Z.of_nat (length s)) ++ s ++ rest /\
                               from_string_pointer s = Ok (pointer_addr p)
     | _ => it = xpod_encode v ++ rest
     end).
Proof.
  split; [intros e; apply xpod_deserialize_throws|]. intros v rest.
  destruct it as [|c it]; [done|]. rewrite <- (byte_of_val c), xpod_deserialize_byte
    by apply byte_val_range. pose proof (byte_val_range c).
  repeat case_bool_decide; inv_reads;
    match goal with E : byte_val c = _ |- _ => rewrite E end;
    (split; [by eexists|]); try done.
  - apply (f_equal (cons _)). by apply read_8_signed.
  - apply (f_equal (cons _)). by apply read_8_unsigned.
  - apply (f_equal (cons _)). by apply read_bool.
  - match goal with H8 : read_bytes _ _ = _, Hs : read_sized _ _ = _, Hp : from_string_pointer ?s = _ |- _ =>
      exists s; split; [|exact Hp]; apply (f_equal (cons _));
      apply read_8_unsigned in H8 as ->; apply read_sized_length in Hs as [-> <-];
      [done|apply le_decode_range] end.
  - apply (f_equal (cons _)). match goal with H8 : read_bytes _ _ = _, Hs : read_sized _ _ = _ |- _ =>
      apply read_8_unsigned in H8 as ->; apply read_sized_length in Hs as [-> <-];
      [by rewrite app_assoc|apply le_decode_range] end.
Qed.

(** ** Witnesses *)

Lemma sample_encodable : nested_encodable sample_config.
Proof.
  repeat match goal with
  | |- nested_encodable _ => apply nested_encodable_intro
  | |- map_encodable _ _ => split; [|split]
  | |- map_wf _ => apply SSorted_cons || apply SSorted_nil
  | |- StronglySorted _ _ => apply SSorted_cons || apply SSorted_nil
  | |- Forall _ (_ :: _) => apply List.Forall_cons
  | |- Forall _ [] => apply List.Forall_nil
  | |- _ /\ _ => split
  end; vm_compute; try done; try (split; congruence).
Defined.

Lemma nested_map_roundtrip_witness :
  exists (h : heap) b d,
    direct_serialize (H0 := @buffer_stream moving) heap_start sample_config = (Ok (h, b), []) /\
    buf_contents h b = d /\ direct_deserialize (d ++ [newline]) = Ok (sample_config, [newline]).
Proof.
  destruct (direct_serialize (H0 := @buffer_stream moving) heap_start sample_config) as [r log] eqn:E.
  pose proof (nested_map_roundtrip (S := heap * buf) (H1 := @buffer_stream moving)
    sample_config heap_start r log sample_encodable) as Hrt.
  assert (exists h b, r = Ok (h, b)) as (h & b & ->).
  { vm_compute in E. injection E as <- _. by eexists _, _. }
  destruct Hrt as [Hok _]; [|vm_compute; congruence|done|].
  - split; [|by left]. split; [done|]. split; [vm_compute; split; congruence|by left].
  - destruct (Hok (h, b) eq_refl) as (-> & d & Hd & Hdes). exists h, b, d.
    split; [done|]. split; [exact Hd|apply Hdes].
Defined.

Lemma nested_deserialize_fuel_witness :
  nested_deserialize_with (K := bytes) (V := xpod) (Some (Exn std_exception "out of fuel")) 3 17 (replicate 16 Ascii.zero) =
    Ok (NestedMap [] [], []).
Proof.
  rewrite (nested_deserialize_fuel (K := bytes) (V := xpod) _ 3 17 (replicate 16 Ascii.zero)); [|simpl; lia].
  vm_compute. reflexivity.
Defined.
