(* ===== verification/Json.v ===== *)
(** * Json: [json/*.hpp]

    The JSON serializers, written through the same stream interface as the
    binary ones.  They have no counterpart that reads; the reference here is a
    parser of JSON, as far as they write it (objects and strings, without spaces;
    a string by the rules of RFC 8259, without its [\u] escapes, bytes above 127
    taken as they are).  It recovers a nested map without control characters
    from its text; with control characters the text is no JSON
    ([newline_stays_raw]), but still tells nested maps apart, which is shown
    with the parser that takes a backslash in front of any character. *)

From S2P Require Import Prelude Errors Bytes StdMap Heap Buffer Xpod NestedMap Convert.

(** ** The constants of [traits.hpp] *)

Definition quote : byte := byte_of 34.
Definition backslash : byte := byte_of 92.
Definition lbrace : byte := byte_of 123.
Definition rbrace : byte := byte_of 125.
Definition comma : byte := byte_of 44.
Definition colon : byte := byte_of 58.

Definition escape_character : byte := backslash.
Definition characters_to_escape : bytes := map byte_of [92; 34; 13; 10; 9; 12; 8].

(** ** The serializers *)

Class JsonTraits (T : Type) := json_serialize : forall {S} `{Stream S}, T -> M S unit.

Section json.
Context {S : Type} `{Stream S}.

(** The primary template, given the text of the value, and [std::string]. *)
Definition json_basic_serialize (str_val : bytes) : M S unit :=
  _ ← stream_append [quote];
  _ ← stream_append (escape_string str_val escape_character characters_to_escape);
  stream_append [quote].

Definition json_string_serialize (s : bytes) : M S unit :=
  _ ← stream_append [quote];
  _ ← stream_append (escape_string s escape_character characters_to_escape);
  stream_append [quote].

Context {K : Type} `{JsonTraits K}.

(** The loop over the entries with its flag [first]. *)
Definition json_entries {V} (f : V -> M S unit) : bool -> list (K * V) -> M S bool :=
  fix go first m :=
    match m with
    | [] => mret first
    | (k, v) :: m =>
        _ ← (if first : bool then mret tt else stream_append [comma]);
        _ ← json_serialize k;
        _ ← stream_append [colon];
        _ ← f v;
        go false m
    end.

(** [traits<std::map>::serialize]. *)
Definition json_map_serialize {V} (f : V -> M S unit) (m : list (K * V)) : M S unit :=
  _ ← stream_append [lbrace];
  _ ← json_entries f true m;
  stream_append [rbrace].

(** [nested_map_serializer::serialize]: one flag for both loops. *)
Fixpoint json_nested_serialize {V} `{JsonTraits V} (t : nested_map K V) : M S unit :=
  match t with
  | NestedMap d s =>
      _ ← stream_append [lbrace];
      first ← json_entries json_serialize true d;
      _ ← json_entries json_nested_serialize first s;
      stream_append [rbrace]
  end.
End json.

#[export] Instance json_integer : JsonTraits Z := fun S _ z => json_basic_serialize (to_string_integer z).
#[export] Instance json_bool : JsonTraits bool := fun S _ b => json_basic_serialize (to_string_bool b).
#[export] Instance json_string : JsonTraits bytes := fun S _ => json_string_serialize.
#[export] Instance json_map {K V} `{JsonTraits K, JsonTraits V} : JsonTraits (list (K * V)) :=
  fun S _ => json_map_serialize json_serialize.
#[export] Instance json_nested {K V} `{JsonTraits K, JsonTraits V} : JsonTraits (nested_map K V) :=
  fun S _ => json_nested_serialize.

(** ** The text written *)

(** A key or scalar is written as the quoted text of [json_scalar v]. *)
Class JsonScalar (T : Type) `{JsonTraits T} := {
  json_scalar : T -> bytes;
  json_scalar_appends S `{StreamLaws S} v :
    appends (json_serialize v)
      ([quote] ++ escape_string (json_scalar v) escape_character characters_to_escape ++ [quote]);
}.

Definition quoted (s : bytes) : bytes :=
  [quote] ++ escape_string s escape_character characters_to_escape ++ [quote].

Lemma json_basic_appends {S} `{StreamLaws S} s : appends (json_basic_serialize s) (quoted s).
Proof.
  apply appends_seq; [done|by apply appends_append|].
  apply after_seq; apply after_append.
Qed.

#[export] Instance json_integer_scalar : JsonScalar Z.
Proof. exists to_string_integer. intros. apply json_basic_appends. Defined.
#[export] Instance json_bool_scalar : JsonScalar bool.
Proof. exists to_string_bool. intros. apply json_basic_appends. Defined.
#[export] Instance json_string_scalar : JsonScalar bytes.
Proof. exists id. intros. apply json_basic_appends. Defined.

(** Entries separated by commas, the first one without when [first]. *)
Fixpoint separated (first : bool) (l : list bytes) : bytes :=
  match l with
  | [] => []
  | e :: l => (if first then [] else [comma]) ++ e ++ separated false l
  end.

Lemma separated_app first l1 l2 :
  separated first (l1 ++ l2) =
  separated first l1 ++ separated (first && bool_decide (l1 = []))%bool l2.
Proof.
  revert first. induction l1 as [|e l1 IH]; intros first; cbn [separated app].
  - by rewrite bool_decide_eq_true_2, andb_true_r.
  - rewrite IH, <- !app_assoc. do 3 f_equal. by destruct first.
Qed.

Definition entry (k v : bytes) : bytes := quoted k ++ [colon] ++ v.

Section text.
Context {K V : Type} `{JsonScalar K, JsonScalar V}.

Fixpoint nested_json_text (t : nested_map K V) : bytes :=
  match t with
  | NestedMap d s =>
      [lbrace] ++
      separated true (map (fun x => entry (json_scalar x.1) (quoted (json_scalar x.2))) d ++
                      map (fun x => entry (json_scalar x.1) (nested_json_text x.2)) s) ++
      [rbrace]
  end.

(** The value a nested map stands for. *)
Inductive jvalue : Type :=
| JString (s : bytes)
| JObject (members : list (bytes * jvalue)).

Fixpoint nested_json (t : nested_map K V) : jvalue :=
  match t with
  | NestedMap d s =>
      JObject (map (fun x => (json_scalar x.1, JString (json_scalar x.2))) d ++
               map (fun x => (json_scalar x.1, nested_json x.2)) s)
  end.
End text.

(** ** The reference parser *)

(** The character that JSON means by a backslash and [d]. *)
Definition json_escape (d : byte) : option byte :=
  let n := byte_val d in
  if bool_decide (n = 34 \/ n = 92 \/ n = 47) then Some d
  else if bool_decide (n = 98) then Some (byte_of 8)
  else if bool_decide (n = 102) then Some (byte_of 12)
  else if bool_decide (n = 110) then Some (byte_of 10)
  else if bool_decide (n = 114) then Some (byte_of 13)
  else if bool_decide (n = 116) then Some (byte_of 9)
  else None.

Definition is_control (c : byte) : bool := byte_val c <? 32.

(** A string after its opening quote: JSON's ([strict]), which has no control
    characters, or with a backslash in front of any character. *)
Fixpoint parse_string (strict : bool) (s : bytes) : option (bytes * bytes) :=
  match s with
  | [] => None
  | c :: s =>
      if bool_decide (c = quote) then Some ([], s)
      else if bool_decide (c = backslash) then
        match s with
        | d :: s' =>
            e ← (if strict then json_escape d else Some d);
            '(t, r) ← parse_string strict s'; Some (e :: t, r)
        | [] => None
        end
      else if strict && is_control c then None
      else '(t, r) ← parse_string strict s; Some (c :: t, r)
  end.

(** Members after the opening brace or a comma, up to the closing brace. *)
Fixpoint parse_members (strict : bool) (parse : bytes -> option (jvalue * bytes)) (fuel : nat) (s : bytes) :
    option (list (bytes * jvalue) * bytes) :=
  match fuel, s with
  | S fuel, c :: s =>
      if bool_decide (c = quote) then
        '(k, s) ← parse_string strict s;
        match s with
        | c :: s =>
            if bool_decide (c = colon) then
              '(v, s) ← parse s;
              match s with
              | c :: s =>
                  if bool_decide (c = rbrace) then Some ([(k, v)], s)
                  else if bool_decide (c = comma) then
                    '(l, s) ← parse_members strict parse fuel s; Some ((k, v) :: l, s)
                  else None
              | [] => None
              end
            else None
        | [] => None
        end
      else None
  | _, _ => None
  end.

Fixpoint parse_value (strict : bool) (fuel : nat) (s : bytes) : option (jvalue * bytes) :=
  match fuel, s with
  | S fuel, c :: s =>
      if bool_decide (c = quote) then '(t, s) ← parse_string strict s; Some (JString t, s)
      else if bool_decide (c = lbrace) then
        match s with
        | d :: s' =>
            if bool_decide (d = rbrace) then Some (JObject [], s')
            else '(l, s) ← parse_members strict (parse_value strict fuel) fuel s; Some (JObject l, s)
        | [] => None
        end
      else None
  | _, _ => None
  end.

(** ** What the serializers append *)

Section json_appends.
Context {S : Type} `{StreamLaws S} {K : Type} `{JsonScalar K}.

Lemma after_ext {A} (m1 m2 : M S A) d :
  (forall s, m2 s = m1 s) -> appends_after m1 d -> appends_after m2 d.
Proof. intros Heq Hm s Hs Hne Hl. rewrite Heq. by apply Hm. Qed.

Lemma after_seq_in {A B} (m1 : M S unit) (m2 : M S B) (k : B -> M S A) d1 d2 :
  appends_after m1 d1 -> appends_after (b ← m2; k b) d2 ->
  appends_after (b ← (_ ← m1; m2); k b) (d1 ++ d2).
Proof.
  intros H1' H2'. apply (after_ext (_ ← m1; b ← m2; k b)).
  - intros s. apply M_bind_assoc.
  - by apply after_seq.
Qed.

(** The loop followed by a command that takes its flag. *)
Lemma json_entries_after {V A} (f : V -> M S unit) (e : V -> bytes) (k : bool -> M S A) d m first :
  Forall (fun x => appends (f x.2) (e x.2)) m ->
  (forall b, b = (first && bool_decide (m = []))%bool -> appends_after (k b) d) ->
  appends_after (b ← json_entries f first m; k b)
    (separated first (map (fun x => entry (json_scalar x.1) (e x.2)) m) ++ d).
Proof.
  intros Hm. revert first. induction Hm as [|[key v] m Hv Hm IH]; intros first Hk.
  - apply Hk. by rewrite bool_decide_eq_true_2, andb_true_r.
  - cbn [json_entries map separated fst snd]. unfold entry. rewrite <- !app_assoc.
    apply after_seq_in; [destruct first; [apply after_ret|apply after_append]|].
    apply after_seq_in; [by apply appends_weaken, json_scalar_appends; apply _|].
    apply after_seq_in; [apply after_append|].
    apply after_seq_in; [by apply appends_weaken|].
    apply IH. intros b ->. apply Hk. by rewrite (bool_decide_eq_false_2 (_ :: _ = [])), andb_false_r.
Qed.

Lemma json_nested_appends {V} `{JsonScalar V} (t : nested_map K V) :
  appends (json_nested_serialize t) (nested_json_text t).
Proof.
  induction t as [d s IH] using nested_map_rec_all.
  cbn [json_nested_serialize nested_json_text].
  apply appends_seq; [done|by apply appends_append|].
  enough (forall first, appends_after (_ ← json_entries json_nested_serialize first s; stream_append [rbrace])
    (separated first (map (fun x => entry (json_scalar x.1) (nested_json_text x.2)) s) ++ [rbrace])) as Hs.
  { rewrite separated_app, <- app_assoc.
    apply (json_entries_after json_serialize (fun v => quoted (json_scalar v))).
    - apply Forall_true. intros x. apply json_scalar_appends, _.
    - intros b ->. destruct d; apply Hs. }
  intros first. apply json_entries_after; [done|]. intros _ _. apply after_append.
Qed.
End json_appends.

(** ** What the parser recovers *)

Lemma special_escaped c : c = quote \/ c = backslash -> c ∈ characters_to_escape.
Proof. intros [-> | ->]; vm_compute; repeat (by left) || right. Qed.

(** The texts that a parser reads back: JSON's has no control characters. *)
Definition readable (strict : bool) (s : bytes) : Prop :=
  strict = true -> Forall (fun c => is_control c = false) s.

Lemma escaped_readable c :
  c ∈ characters_to_escape -> is_control c = false -> json_escape c = Some c.
Proof.
  intros Hc. unfold characters_to_escape in Hc. cbn [map] in Hc.
  repeat (apply elem_of_cons in Hc as [->|Hc]; [vm_compute; done|]). by apply elem_of_nil in Hc.
Qed.

Lemma parse_string_escaped strict s rest : readable strict s ->
  parse_string strict (escape_string s escape_character characters_to_escape ++ quote :: rest) = Some (s, rest).
Proof.
  unfold readable. induction s as [|c s IH]; [done|]. intros Hs. cbn [escape_string].
  assert (strict = true -> is_control c = false) as Hcc by (intros E; by apply Hs in E as [? _]%Forall_cons).
  specialize (IH (fun E => proj2 (proj1 (Forall_cons _ _ _) (Hs E)))).
  case_bool_decide as Hc.
  - cbn [app parse_string]. rewrite bool_decide_eq_false_2 by done.
    rewrite bool_decide_eq_true_2 by done.
    destruct strict; [rewrite escaped_readable by auto|]; cbn [mbind option_bind]; by rewrite IH.
  - cbn [app parse_string]. rewrite !bool_decide_eq_false_2 by (intros ->; apply Hc, special_escaped; auto).
    destruct strict; [rewrite Hcc by done|]; simpl; by rewrite IH.
Qed.

(** A member with the text and the value of what follows its key. *)
Definition member : Type := bytes * bytes * jvalue.
Definition member_text (x : member) : bytes := entry x.1.1 x.1.2.
Definition member_value (x : member) : bytes * jvalue := (x.1.1, x.2).

Lemma separated_member x l rest :
  separated true (map member_text (x :: l)) ++ rbrace :: rest =
  quote :: escape_string x.1.1 escape_character characters_to_escape ++
  quote :: colon :: x.1.2 ++
  (if l is [] then rbrace :: rest else comma :: separated true (map member_text l) ++ rbrace :: rest).
Proof.
  cbn [map separated]. unfold member_text at 1, entry, quoted. rewrite <- !app_assoc.
  cbn [app]. rewrite <- ?app_assoc. cbn [app]. by destruct l.
Qed.

Lemma parse_members_separated strict parse l : l <> [] ->
  Forall (fun x : member => readable strict x.1.1 /\ forall r, parse (x.1.2 ++ r) = Some (x.2, r)) l ->
  forall fuel rest, (length l <= fuel)%nat ->
  parse_members strict parse fuel (separated true (map member_text l) ++ rbrace :: rest) =
    Some (map member_value l, rest).
Proof.
  intros Hne Hl. induction Hl as [|[[k txt] v] l [Hk Hv] Hl IH]; [done|].
  intros [|fuel] rest Hf; [simpl in Hf; lia|].
  rewrite separated_member. cbn [parse_members fst snd].
  rewrite bool_decide_eq_true_2, parse_string_escaped by done. cbn [mbind option_bind].
  rewrite bool_decide_eq_true_2 by done. cbn [fst snd] in Hv. rewrite Hv. cbn [mbind option_bind].
  destruct l as [|y l]; [done|].
  rewrite bool_decide_eq_false_2, bool_decide_eq_true_2 by done.
  rewrite IH; [done|done|simpl in *; lia].
Qed.

Section parse.
Context {K V : Type} `{JsonScalar K, JsonScalar V}.

(** The members of an object, as [json_nested_appends] writes them. *)
Definition members (d : list (K * V)) (s : list (K * nested_map K V)) : list member :=
  map (fun x => (json_scalar x.1, quoted (json_scalar x.2), JString (json_scalar x.2))) d ++
  map (fun x => (json_scalar x.1, nested_json_text x.2, nested_json x.2)) s.

Lemma nested_json_text_members d s :
  nested_json_text (NestedMap d s) = [lbrace] ++ separated true (map member_text (members d s)) ++ [rbrace].
Proof. unfold members. by rewrite map_app, !map_map. Qed.

Lemma nested_json_members d s : nested_json (NestedMap d s) = JObject (map member_value (members d s)).
Proof. unfold members. by rewrite map_app, !map_map. Qed.

Lemma length_member l (x : member) first :
  x ∈ l -> (length (x.1.2) + 1 <= length (separated first (map member_text l)))%nat.
Proof.
  intros Hx. revert first. induction Hx as [x l|x y l Hx IH]; intros first; cbn [map separated];
    rewrite !length_app.
  - unfold member_text, entry, quoted. rewrite !length_app. simpl. lia.
  - specialize (IH false). lia.
Qed.

Lemma length_members (l : list member) first : (length l <= length (separated first (map member_text l)))%nat.
Proof.
  revert first. induction l as [|x l IH]; intros first; cbn [map separated]; [simpl; lia|].
  rewrite !length_app. specialize (IH false).
  unfold member_text at 1, entry, quoted. rewrite !length_app. simpl. lia.
Qed.

(** All keys and values of a nested map are texts that the parser reads back. *)
Inductive all_readable (strict : bool) : nested_map K V -> Prop :=
| all_readable_intro d s :
    Forall (fun x => readable strict (json_scalar x.1) /\ readable strict (json_scalar x.2)) d ->
    Forall (fun x => readable strict (json_scalar x.1)) s ->
    Forall (fun x => all_readable strict x.2) s ->
    all_readable strict (NestedMap d s).

Lemma all_readable_lenient (t : nested_map K V) : all_readable false t.
Proof. induction t as [d s IH] using nested_map_rec_all. constructor; [by apply Forall_true..|done]. Qed.

Lemma parse_value_nested strict (t : nested_map K V) fuel rest :
  all_readable strict t -> (length (nested_json_text t) < fuel)%nat ->
  parse_value strict fuel (nested_json_text t ++ rest) = Some (nested_json t, rest).
Proof.
  revert fuel rest. induction t as [d s IH] using nested_map_rec_all. intros fuel rest Ht.
  inversion Ht as [? ? Hrd Hrk Hrs]; subst. clear Ht. rewrite Forall_forall in Hrd. rewrite Forall_forall in Hrk. rewrite Forall_forall in Hrs.
  rewrite nested_json_text_members, nested_json_members. intros Hf.
  destruct fuel as [|fuel]; [lia|].
  rewrite <- !app_assoc. cbn [app parse_value].
  rewrite bool_decide_eq_false_2, bool_decide_eq_true_2 by done.
  rewrite !length_app in Hf. simpl in Hf.
  pose proof (length_members (members d s) true) as Hlen.
  destruct (members d s) as [|x l] eqn:Em; [done|]. rewrite <- Em in *.
  assert (exists r, separated true (map member_text (members d s)) ++ rbrace :: rest = quote :: r) as [r Er]
    by (rewrite Em; by eexists).
  rewrite Er. cbn. rewrite <- Er.
  rewrite parse_members_separated; [done|by rewrite Em| |lia].
  unfold members. apply Forall_app. split; apply Forall_map, Forall_forall.
  - intros y Hy. destruct (Hrd y Hy) as [Hk Hv]. split; [exact Hk|]. intros r'.
    cbn [fst snd]. destruct fuel as [|fuel]; [lia|].
    unfold quoted. rewrite <- !app_assoc. cbn [app parse_value].
    by rewrite bool_decide_eq_true_2, parse_string_escaped by done.
  - intros y Hy. split; [by apply Hrk|]. intros r'. cbn [fst snd]. rewrite Forall_forall in IH.
    apply (IH y Hy); [by apply Hrs|].
    enough (length (nested_json_text y.2) + 1 <=
            length (separated true (map member_text (members d s))))%nat by lia.
    apply (length_member (members d s) (json_scalar y.1, nested_json_text y.2, nested_json y.2)).
    unfold members. apply elem_of_app. right.
    apply (list_elem_of_fmap_2 (fun x => (json_scalar x.1, nested_json_text x.2, nested_json x.2)) s y Hy).
Qed.

(** Scalars and sub-objects are told apart, so the value determines the map. *)
Lemma nested_json_inj :
  Inj (=) (=) (json_scalar (T := K)) -> Inj (=) (=) (json_scalar (T := V)) ->
  forall t1 t2 : nested_map K V, nested_json t1 = nested_json t2 -> t1 = t2.
Proof.
  intros HK HV. induction t1 as [d1 s1 IH] using nested_map_rec_all. intros [d2 s2] [= E].
  revert d2 E. induction d1 as [|[k1 v1] d1 IHd]; intros d2 E.
  - destruct d2 as [|[k2 v2] d2].
    + f_equal. revert s2 E. induction IH as [|[k t] s1 Ht IH IHs]; intros [|[k' t'] s2] E;
        try discriminate E; [done|].
      simpl in E. injection E as Ek Et Es. apply HK in Ek as ->. apply Ht in Et. simpl in Et. subst t'.
      f_equal. by apply IHs.
    + destruct s1 as [|[k1 [d3 s3]] s1]; discriminate E.
  - destruct d2 as [|[k2 v2] d2].
    + destruct s2 as [|[k2 [d4 s4]] s2]; discriminate E.
    + simpl in E. injection E as Ek Ev Es. apply HK in Ek as ->. apply HV in Ev as ->.
      apply IHd in Es. by injection Es as -> ->.
Qed.

(** ** Properties *)

(** C29. The JSON text: serializing a nested map is defined, and when it returns,
    exactly [nested_json_text t] has been appended; if no key and no text of a
    value contains a control character, a parser of JSON reads it back, in front
    of any other bytes, as the object whose members are the values (as strings)
    followed by the sub-tables (as objects); and for key and value types whose
    text determines the value (strings, integers, booleans; not doubles), two
    nested maps with the same text are equal, with control characters or not. *)
Theorem json_nested_roundtrip {S} `{StreamLaws S} (t : nested_map K V) (s s' : S) :
  stream_wf s ->
  Z.of_nat (length (stream_contents s)) + Z.of_nat (length (nested_json_text t)) <= size_max ->
  (json_serialize t s).1 <> UB /\
  (json_serialize t s = (Ok tt, s') -> stream_contents s' = stream_contents s ++ nested_json_text t) /\
  (all_readable true t -> forall rest, parse_value true (1 + length (nested_json_text t)) (nested_json_text t ++ rest) =
     Some (nested_json t, rest)) /\
  (Inj (=) (=) (json_scalar (T := K)) -> Inj (=) (=) (json_scalar (T := V)) ->
   forall t' : nested_map K V, nested_json_text t' = nested_json_text t -> t' = t).
Proof.
  intros Hs Hl. pose proof (json_nested_appends t s Hs Hl) as Happ.
  change (json_serialize t s) with (json_nested_serialize t s).
  split; [by destruct (json_nested_serialize t s) as [[] ?]|]. split; [|split].
  - intros E. rewrite E in Happ. apply Happ.
  - intros Ht rest. apply parse_value_nested; [done|]. lia.
  - intros HK HV t' Ht. apply nested_json_inj; [done..|].
    pose proof (parse_value_nested false t' (1 + length (nested_json_text t)) [] (all_readable_lenient t') ltac:(rewrite Ht; lia)) as H1'.
    pose proof (parse_value_nested false t (1 + length (nested_json_text t)) [] (all_readable_lenient t) ltac:(lia)) as H2'.
    rewrite Ht in H1'. rewrite H1' in H2'. by injection H2'.
Qed.
End parse.

(** A newline is escaped as a backslash in front of the newline itself, where
    JSON requires the letter n: the text is no JSON. *)
Example newline_stays_raw :
  (escape_string [newline] escape_character characters_to_escape,
   map (fun strict => parse_value strict 20 (nested_json_text (NestedMap [(str "k", [newline])] [] : nested_map bytes bytes)))
     [true; false]) =
  ([backslash; newline], [None; Some (JObject [(str "k", JString [newline])], [])]).
Proof. vm_compute. reflexivity. Qed.

Definition json_sample : nested_map bytes Z :=
  NestedMap [(str "a" ++ [quote], -7)] [(str "b", NestedMap [(str "c", 1); (str "d", 2)] [])].

Lemma json_sample_readable : all_readable true json_sample.
Proof.
  constructor; [constructor; [split; intros _; repeat constructor|constructor]|..].
  - constructor; [intros _; repeat constructor|constructor].
  - constructor; [|constructor]. constructor; [|constructor..].
    repeat (constructor; [split; intros _; repeat constructor|]). constructor.
Defined.

Lemma json_nested_roundtrip_witness :
  exists (h : heap) (b : buf), @json_serialize _ json_nested _ (@buffer_stream moving) json_sample (∅, buf_default) = (Ok tt, (h, b)) /\
    buf_contents h b = nested_json_text json_sample /\
    parse_value true (1 + length (nested_json_text json_sample)) (nested_json_text json_sample) =
      Some (nested_json json_sample, []).
Proof.
  destruct (@json_serialize _ json_nested _ (@buffer_stream moving) json_sample (∅, buf_default)) as [o [h b]] eqn:E.
  assert (o = Ok tt) as -> by (vm_compute in E; congruence).
  destruct (json_nested_roundtrip (S := heap * buf) (H3 := @buffer_stream moving) json_sample (∅, buf_default) (h, b))
    as (_ & Hc & Hp & _).
  - split; [|by left]. split; [done|]. split; [vm_compute; split; congruence|by left].
  - vm_compute. congruence.
  - exists h, b. split; [done|]. split; [exact (Hc E)|].
    rewrite <- (app_nil_r (nested_json_text json_sample)) at 2. apply Hp.
    exact json_sample_readable.
Defined.
