(* ===== verification/CircularBuffer.v ===== *)
(** * CircularBuffer: [container/circular_buffer.hpp]

    A ring over an array of [S] elements.  The abstract view of a buffer is the
    list of its elements from the oldest to the newest; [push_back] appends to
    that list and drops the oldest element of a full one.  Indices are
    [std::size_t] and wrap. *)

From S2P Require Import Prelude Errors.

Section circular_buffer.
Context {T : Type} (S : Z).
Implicit Types (t : T).

(** The fields.  [_buffer] holds [S] elements from the start. *)
Record circular_buffer : Type := CircularBuffer {
  _buffer : list T;
  _i : Z;
  _full : bool;
}.
Implicit Types (b : circular_buffer).

(** [_buffer[pos]]: out of range is undefined. *)
Definition cb_get b (pos : Z) : outcome T :=
  match _buffer b !! Z.to_nat pos with
  | Some t => if bool_decide (0 <= pos) then Ok t else UB
  | None => UB
  end.

(** [x % S] is undefined for an empty array. *)
Definition cb_mod (x : Z) : outcome Z :=
  if bool_decide (S = 0) then UB else Ok (size_t x mod S).

(** The elements [begin()..end()] goes through, in that order. *)
Definition cb_range b : list T :=
  if _full b then _buffer b else take (Z.to_nat (_i b)) (_buffer b).

Definition cb_size b : Z := if _full b then S else _i b.
Definition cb_max_size b : Z := S.

Definition cb_push_back t b : outcome circular_buffer :=
  _ ← cb_get b (_i b);
  let buffer := <[Z.to_nat (_i b) := t]> (_buffer b) in
  i ← cb_mod (_i b + 1);
  Ok (CircularBuffer buffer i (if bool_decide (i = 0) then true else _full b)).

(** [emplace_back(args...)] builds the element and does the same. *)
Definition cb_emplace_back {Args} (make : Args -> T) (args : Args) b : outcome circular_buffer :=
  _ ← cb_get b (_i b);
  let buffer := <[Z.to_nat (_i b) := make args]> (_buffer b) in
  i ← cb_mod (_i b + 1);
  Ok (CircularBuffer buffer i (if bool_decide (i = 0) then true else _full b)).

Definition cb_empty b : bool := negb (_full b) && bool_decide (_i b = 0).

Definition cb_clear b : circular_buffer := CircularBuffer (_buffer b) 0 false.

(** [operator[](pos)], unchecked, and [at(pos)]. *)
Definition cb_index b (pos : Z) : outcome T :=
  i ← cb_mod (pos + (if _full b then _i b else 0));
  cb_get b i.

Definition cb_at b (pos : Z) : outcome T :=
  if bool_decide (cb_size b <= pos) then throw out_of_range "Position out of range"
  else
    i ← cb_mod (pos + (if _full b then _i b else 0));
    cb_get b i.

Definition cb_front b : outcome T := cb_get b (if _full b then _i b else 0).

Definition cb_back b : outcome T :=
  i ← cb_mod (size_t (_i b + S) - 1);
  cb_get b i.

(** ** The abstract view *)

Definition cb_view b : list T :=
  let i := Z.to_nat (_i b) in
  if _full b then drop i (_buffer b) ++ take i (_buffer b) else take i (_buffer b).

(** [push_back] on the view. *)
Definition bounded_push t (l : list T) : list T :=
  (if bool_decide (Z.of_nat (length l) = S) then tail l else l) ++ [t].

(** An array of [S] elements fits the address space, so [S <= 2^63]. *)
Record cb_wf b : Prop := {
  wf_S : 0 < S <= 2 ^ 63;
  wf_length : Z.of_nat (length (_buffer b)) = S;
  wf_i : 0 <= _i b < S;
}.

(** [push_back] of all elements of a list. *)
Fixpoint cb_push_all (l : list T) b : outcome circular_buffer :=
  match l with
  | [] => Ok b
  | t :: l => b ← cb_push_back t b; cb_push_all l b
  end.

Lemma cb_mod_small b x : cb_wf b -> 0 <= x < 2 ^ 64 -> cb_mod x = Ok (x mod S).
Proof.
  intros [HS _ _] Hx. unfold cb_mod. rewrite bool_decide_eq_false_2 by lia.
  unfold size_t. by rewrite (Z.mod_small x) by (unfold size_bits; lia).
Qed.

Lemma cb_get_lookup b pos :
  cb_wf b -> 0 <= pos < S -> exists t, _buffer b !! Z.to_nat pos = Some t /\ cb_get b pos = Ok t.
Proof.
  intros [_ Hl _] Hp. destruct (lookup_lt_is_Some_2 (_buffer b) (Z.to_nat pos)) as [t Ht]; [lia|].
  exists t. split; [done|]. unfold cb_get. by rewrite Ht, bool_decide_eq_true_2 by lia.
Qed.

Lemma length_cb_view b : cb_wf b -> Z.of_nat (length (cb_view b)) = cb_size b.
Proof.
  intros [HS Hl Hi]. unfold cb_view, cb_size. destruct (_full b).
  - rewrite length_app, length_drop, length_take. lia.
  - rewrite length_take. lia.
Qed.

(** The position in the array of the [pos]-th oldest element. *)
Lemma cb_view_lookup b pos :
  cb_wf b -> 0 <= pos < cb_size b ->
  cb_view b !! Z.to_nat pos =
  _buffer b !! Z.to_nat ((pos + (if _full b then _i b else 0)) mod S).
Proof.
  intros [HS Hl Hi]. unfold cb_view, cb_size. destruct (_full b); intros Hp.
  - destruct (decide (pos + _i b < S)).
    + rewrite lookup_app_l by (rewrite length_drop; lia).
      rewrite lookup_drop, Z.mod_small by lia. f_equal. lia.
    + rewrite lookup_app_r by (rewrite length_drop; lia).
      replace ((pos + _i b) mod S) with (pos + _i b - S)
        by (apply Z.mod_unique with 1; lia).
      rewrite length_drop, lookup_take_lt by lia. f_equal. lia.
  - rewrite lookup_take_lt by lia. rewrite Z.add_0_r, Z.mod_small by lia. done.
Qed.

Lemma cb_at_view b pos :
  cb_wf b -> 0 <= pos ->
  cb_at b pos = match cb_view b !! Z.to_nat pos with
                | Some t => Ok t
                | None => throw out_of_range "Position out of range"
                end.
Proof.
  intros Hb Hp. unfold cb_at. pose proof (length_cb_view b Hb) as Hlen.
  case_bool_decide as Hc.
  - rewrite lookup_ge_None_2 by lia. done.
  - pose proof Hb as [HS Hl Hi].
    assert (cb_size b <= S) by (unfold cb_size; destruct (_full b); lia).
    rewrite (cb_mod_small b) by (done || destruct (_full b); lia). cbn [mbind outcome_bind].
    rewrite cb_view_lookup by (done || lia).
    destruct (cb_get_lookup b ((pos + (if _full b then _i b else 0)) mod S)) as (t & -> & ->);
      [done|apply Z.mod_pos_bound; lia|done].
Qed.

Lemma cb_push_back_Ok t b :
  cb_wf b -> cb_push_back t b =
  Ok (CircularBuffer (<[Z.to_nat (_i b) := t]> (_buffer b)) ((_i b + 1) mod S)
        (if bool_decide ((_i b + 1) mod S = 0) then true else _full b)).
Proof.
  intros Hb. pose proof Hb as [HS Hl Hi]. unfold cb_push_back.
  destruct (cb_get_lookup b (_i b) Hb Hi) as (t0 & _ & ->). cbn [mbind outcome_bind].
  by rewrite (cb_mod_small b) by (done || lia).
Qed.

Lemma cb_push_back_refines t b :
  cb_wf b -> exists b', cb_push_back t b = Ok b' /\ cb_wf b' /\ cb_view b' = bounded_push t (cb_view b).
Proof.
  intros Hb. rewrite cb_push_back_Ok by done. eexists. split; [done|].
  pose proof (length_cb_view b Hb) as Hlen. destruct Hb as [HS Hl Hi]. split.
  { split; simpl; [done|by rewrite length_insert|apply Z.mod_pos_bound; lia]. }
  unfold bounded_push. rewrite Hlen. unfold cb_view, cb_size. simpl.
  destruct (decide (_i b + 1 = S)) as [HiS|HiS].
  - rewrite HiS, Z_mod_same_full, bool_decide_eq_true_2 by done.
    assert (take (length (_buffer b) - 1) (_buffer b) = take (Z.to_nat (_i b)) (_buffer b)) by (f_equal; lia).
    change (Z.to_nat 0) with O. rewrite drop_0, take_0, app_nil_r.
    rewrite insert_take_drop by lia. rewrite (drop_ge _ (Datatypes.S _)) by lia.
    destruct (_full b).
    + rewrite bool_decide_eq_true_2 by done.
      destruct (drop (Z.to_nat (_i b)) (_buffer b)) as [|x l] eqn:Ed.
      * apply (f_equal length) in Ed. rewrite length_drop in Ed. simpl in Ed. lia.
      * pose proof (f_equal length Ed) as Hl1. rewrite length_drop in Hl1. simpl in Hl1.
        destruct l; [done|simpl in Hl1; lia].
    + rewrite bool_decide_eq_false_2 by lia. done.
  - rewrite Z.mod_small, bool_decide_eq_false_2 by lia.
    replace (Z.to_nat (_i b + 1)) with (Datatypes.S (Z.to_nat (_i b))) by lia.
    rewrite insert_take_drop by lia.
    assert (length (take (Z.to_nat (_i b)) (_buffer b)) = Z.to_nat (_i b)) as Ht
      by (rewrite length_take; lia).
    destruct (_full b).
    + rewrite bool_decide_eq_true_2 by done.
      rewrite drop_S_app, take_S_app by done.
      destruct (lookup_lt_is_Some_2 (_buffer b) (Z.to_nat (_i b))) as [x Hx]; [lia|].
      rewrite (drop_S (_buffer b) x (Z.to_nat (_i b)) Hx). cbn [app tail]. by rewrite app_assoc.
    + rewrite bool_decide_eq_false_2 by lia. by rewrite take_S_app.
Qed.
End circular_buffer.
Arguments circular_buffer : clear implicits.
Arguments CircularBuffer {T} _buffer _i _full.
Arguments _buffer {T} c.
Arguments _i {T} c.
Arguments _full {T} c.

(** The last [n] elements of a list. *)
Definition last_n {T} (n : nat) (l : list T) : list T := drop (length l - n) l.

Section circular_buffer_properties.
Context {T : Type} (S : Z).
Implicit Types (b : circular_buffer T) (l : list T).

Lemma bounded_push_last_n (n : nat) t l :
  (0 < n)%nat -> bounded_push (Z.of_nat n) t (last_n n l) = last_n n (l ++ [t]).
Proof.
  intros Hn. unfold bounded_push, last_n. rewrite length_drop, length_app. simpl.
  case_bool_decide.
  - rewrite drop_app_le by lia. f_equal.
    replace (length l + 1 - n)%nat with (Datatypes.S (length l - n)) by lia.
    destruct (drop (length l - n) l) as [|x k] eqn:E.
    + apply (f_equal length) in E. rewrite length_drop in E. simpl in E. lia.
    + simpl. symmetry. rewrite <- Nat.add_1_r, <- drop_drop, E. done.
  - replace (length l - n)%nat with O by lia.
    replace (length l + 1 - n)%nat with O by lia. done.
Qed.

Lemma cb_empty_wf b : cb_wf S b -> cb_wf S (cb_clear b).
Proof. intros [? ? ?]. split; simpl; [done|done|lia]. Qed.

(** C27. The buffer keeps the newest [S] elements: pushing a list onto a
    cleared buffer never fails and leaves exactly its last [S] elements, oldest
    first, whatever the array held before; [emplace_back] does the same as
    [push_back]. *)
Theorem circular_buffer_keeps_last b l :
  cb_wf S b ->
  exists b', cb_push_all S l (cb_clear b) = Ok b' /\ cb_wf S b' /\
             cb_view b' = last_n (Z.to_nat S) l /\
             forall t, cb_emplace_back S id t b' = cb_push_back S t b'.
Proof.
  intros Hb. enough (forall l acc b0, cb_wf S b0 -> cb_view b0 = last_n (Z.to_nat S) acc ->
    exists b', cb_push_all S l b0 = Ok b' /\ cb_wf S b' /\ cb_view b' = last_n (Z.to_nat S) (acc ++ l))
    as Hgen.
  { destruct (Hgen l [] (cb_clear b)) as (b' & -> & Hwf & Hv); [by apply cb_empty_wf| |eauto 8].
    unfold cb_view. simpl. by rewrite take_0. }
  clear b l Hb. induction l as [|t l IH]; intros acc b0 Hb Hv; simpl.
  - exists b0. by rewrite app_nil_r.
  - destruct (cb_push_back_refines S t b0 Hb) as (b1 & -> & Hb1 & Hv1).
    cbn [mbind outcome_bind]. destruct (IH (acc ++ [t]) b1 Hb1) as (b' & ? & ? & Hv').
    + rewrite Hv1, Hv. pose proof Hb as [HS _ _].
      rewrite <- (Z2Nat.id S) at 1 by lia. apply bounded_push_last_n. lia.
    + exists b'. rewrite Hv'. by rewrite <- app_assoc.
Qed.

(** Every accessor agrees with the view: [size], [empty]; [at] returns the
    element at that distance from the oldest and throws [out_of_range] exactly
    beyond the end; [operator[]] agrees with [at] in range; [front] and [back] of
    a non-empty buffer are its oldest and newest elements. *)
Theorem circular_buffer_accessors b pos :
  cb_wf S b -> 0 <= pos ->
  cb_size S b = Z.of_nat (length (cb_view b)) /\
  cb_empty b = bool_decide (cb_view b = []) /\
  cb_at S b pos = match cb_view b !! Z.to_nat pos with
                  | Some t => Ok t
                  | None => throw out_of_range "Position out of range"
                  end /\
  (pos < cb_size S b -> cb_index S b pos = cb_at S b pos) /\
  (cb_empty b = false ->
     (exists t, head (cb_view b) = Some t /\ cb_front b = Ok t) /\
     (exists t, last (cb_view b) = Some t /\ cb_back S b = Ok t)).
Proof.
  intros Hb Hp. pose proof (length_cb_view S b Hb) as Hlen.
  pose proof Hb as [HS Hl Hi].
  assert (cb_empty b = bool_decide (cb_view b = [])) as He.
  { transitivity (bool_decide (cb_size S b = 0)).
    - unfold cb_empty, cb_size. destruct (_full b); simpl; [|done].
      symmetry. apply bool_decide_eq_false_2. lia.
    - apply bool_decide_ext. rewrite <- Hlen. destruct (cb_view b); simpl; split; (done || lia). }
  split; [done|]. split; [done|]. split; [by apply cb_at_view|]. split.
  { intros Hps. unfold cb_index, cb_at. rewrite bool_decide_eq_false_2 by lia. done. }
  rewrite He. intros Hne%bool_decide_eq_false. split.
  - destruct (cb_view b) as [|t l] eqn:Ev; [done|]. exists t. split; [done|].
    assert (0 < cb_size S b) by (simpl in Hlen; lia).
    pose proof (cb_view_lookup S b 0 Hb ltac:(lia)) as Hlk.
    rewrite Ev, Z.add_0_l in Hlk.
    change (Some t = _buffer b !! Z.to_nat ((if _full b then _i b else 0) mod S)) in Hlk.
    rewrite Z.mod_small in Hlk by (destruct (_full b); lia).
    destruct (cb_get_lookup S b (if _full b then _i b else 0) Hb) as (x & Hx & Hg);
      [destruct (_full b); lia|]. unfold cb_front. rewrite Hg. congruence.
  - assert (0 < cb_size S b) by (destruct (cb_view b); [done|simpl in Hlen; lia]).
    assert (cb_size S b <= S) by (unfold cb_size; destruct (_full b); lia).
    pose proof (cb_view_lookup S b (cb_size S b - 1) Hb ltac:(lia)) as Hlk.
    unfold cb_back. rewrite size_t_id by (unfold is_size_t, size_max, size_bits; lia).
    rewrite (cb_mod_small S b) by (done || lia). cbn [mbind outcome_bind].
    destruct (cb_get_lookup S b ((_i b + S - 1) mod S) Hb) as (x & Hx & ->);
      [apply Z.mod_pos_bound; lia|]. exists x. split; [|done].
    rewrite last_lookup. rewrite <- Hx.
    replace (Init.Nat.pred (length (cb_view b))) with (Z.to_nat (cb_size S b - 1)) by lia.
    rewrite Hlk. do 2 f_equal. unfold cb_size. destruct (_full b).
    + f_equal. lia.
    + replace (_i b + S - 1) with (_i b - 1 + 1 * S) by lia. rewrite Z_mod_plus_full.
      f_equal. lia.
Qed.

(** Range iteration visits the same elements as the view; in the same
    order when the buffer has not yet overwritten anything, or has just wrapped. *)
Theorem circular_buffer_iteration b :
  cb_wf S b ->
  cb_range b ≡ₚ cb_view b /\
  ((_full b = false \/ _i b = 0) -> cb_range b = cb_view b).
Proof.
  intros [HS Hl Hi]. unfold cb_range, cb_view. destruct (_full b); split; try done.
  - rewrite <- (take_drop (Z.to_nat (_i b)) (_buffer b)) at 1. apply Permutation_app_comm.
  - intros [?|Hz]; [done|]. rewrite Hz. simpl. by rewrite drop_0, app_nil_r.
Qed.
End circular_buffer_properties.

(** Iterating a full buffer after an overwrite starts with the newest element. *)
Definition ring : circular_buffer Z := CircularBuffer [0; 0; 0] 0 false.

Example ring_iterates_out_of_order :
  (b ← cb_push_all 3 [1; 2; 3; 4] ring; Ok (cb_range b, cb_view b)) = Ok ([4; 2; 3], [2; 3; 4]).
Proof. vm_compute. reflexivity. Qed.

Lemma ring_wf : cb_wf 3 ring.
Proof. split; simpl; lia. Defined.

Lemma circular_buffer_keeps_last_witness :
  exists b, cb_push_all 3 [1; 2; 3; 4; 5] (cb_clear ring) = Ok b /\ cb_view b = [3; 4; 5].
Proof.
  destruct (circular_buffer_keeps_last 3 ring [1; 2; 3; 4; 5] ring_wf) as (b & Hb & _ & Hv & _).
  exists b. split; [exact Hb|exact Hv].
Defined.

Lemma circular_buffer_accessors_witness :
  cb_at 3 (CircularBuffer [4; 2; 3] 1 true) 0 = Ok 2 /\
  cb_at 3 (CircularBuffer [4; 2; 3] 1 true) 3 = throw out_of_range "Position out of range".
Proof.
  assert (cb_wf 3 (CircularBuffer [4; 2; 3] 1 true)) as Hb by (split; simpl; lia).
  destruct (circular_buffer_accessors 3 _ 0 Hb) as (_ & _ & H0 & _); [lia|].
  destruct (circular_buffer_accessors 3 _ 3 Hb) as (_ & _ & H3 & _); [lia|].
  split; [exact H0|exact H3].
Defined.

Lemma circular_buffer_iteration_witness :
  cb_range (CircularBuffer [4; 2; 3] 1 true) ≡ₚ [2; 3; 4].
Proof.
  apply (circular_buffer_iteration 3 (CircularBuffer [4; 2; 3] 1 true)). split; simpl; lia.
Defined.
