(* ===== verification/ItemRegistry.v ===== *)
(** * ItemRegistry: [lifecycle/item_registry.hpp]

    Unique numbers: the lowest recycled number first, then (without a limit) the
    next new one.  The [std::set] of available numbers is an ordered map to
    [unit].  The client is modelled too: it holds the numbers it was given and
    deregisters only those; a client that deregisters a number it was never
    given breaks uniqueness ([registry_issues_twice]). *)

From S2P Require Import Prelude Errors Bytes StdMap Convert.

Record item_registry : Type := ItemRegistry {
  _max_number_of_items : Z;
  _next_item_number : Z;
  _available_numbers : list (Z * unit);
}.

Abbreviation RM := (M item_registry).

(** The constructor: in limited mode all numbers below the limit are available. *)
Definition registry_new (max_number_of_items : Z) : item_registry :=
  ItemRegistry max_number_of_items 0
    (fold_left (fun s i => (map_insert i tt s).1) (seqZ 0 max_number_of_items) []).

(** Take the lowest available number. *)
Definition take_available (it : Z * unit) : RM Z := fun r =>
  (Ok it.1, ItemRegistry (_max_number_of_items r) (_next_item_number r)
              (map_erase it.1 (_available_numbers r)).1).

Definition register_item : RM Z :=
  r ← get;
  if bool_decide (0 < _max_number_of_items r) then
    match _available_numbers r with
    | it :: _ => take_available it
    | [] => raise overflow_error "cbeam::lifecycle::item_registry::register_item: No more item slots available. increase the maximum number of items to register more."
    end
  else
    match _available_numbers r with
    | it :: _ => take_available it
    | [] =>
        if bool_decide (_next_item_number r = size_max) then
          raise overflow_error "cbeam::lifecycle::item_registry::register_item: Maximum item count reached."
        else
          _ ← put (ItemRegistry (_max_number_of_items r) (size_t (_next_item_number r + 1))
                     (_available_numbers r));
          mret (_next_item_number r)
    end.

(** The texts of [deregister_item], with [std::to_string(item_number)]. *)
Definition number_text (item_number : Z) : string := string_of_list_ascii (to_string_integer item_number).
Definition invalid_number (item_number : Z) : string :=
  ("cbeam::lifecycle::item_registry::deregister_item: Invalid item number " ++ number_text item_number ++
   " for deregistration.")%string.
Definition already_deregistered (item_number : Z) : string :=
  ("cbeam::lifecycle::item_registry::deregister_item: Item number " ++ number_text item_number ++
   " already deregistered.")%string.

Definition deregister_item (item_number : Z) : RM unit :=
  r ← get;
  if bool_decide (_max_number_of_items r <> 0 /\ _max_number_of_items r <= item_number) then
    raise runtime_error (invalid_number item_number)
  else match map_find item_number (_available_numbers r) with
  | Some _ =>
      raise runtime_error (already_deregistered item_number)
  | None =>
      put (ItemRegistry (_max_number_of_items r) (_next_item_number r)
             (map_insert item_number tt (_available_numbers r)).1)
  end.

(** ** The invariant *)

(** Numbers below this bound have been issued or are available. *)
Definition registry_bound (r : item_registry) : Z :=
  if bool_decide (0 < _max_number_of_items r) then _max_number_of_items r else _next_item_number r.

(** [live] are the numbers issued and not yet deregistered. *)
Record registry_inv (r : item_registry) (live : list Z) : Prop := {
  inv_max : is_size_t (_max_number_of_items r);
  inv_next : is_size_t (_next_item_number r);
  inv_wf : map_wf (_available_numbers r);
  inv_nodup : NoDup live;
  inv_range n : (is_Some (map_find n (_available_numbers r)) \/ n ∈ live) <-> 0 <= n < registry_bound r;
  inv_disjoint n : n ∈ live -> map_find n (_available_numbers r) = None;
}.

Lemma map_find_head (k : Z) (v : unit) m : map_find k ((k, v) :: m) = Some v.
Proof. simpl. by rewrite key_ltb_irrefl. Qed.

Lemma map_wf_head_least (k n : Z) (v : unit) m :
  map_wf ((k, v) :: m) -> is_Some (map_find n ((k, v) :: m)) -> k <= n.
Proof.
  intros _. simpl. unfold key_ltb, Z_order. destruct (k <? n) eqn:E1; [lia|].
  destruct (n <? k) eqn:E2; [by intros [? ?]|lia].
Qed.

Lemma take_available_inv r it rest live :
  registry_inv r live -> _available_numbers r = it :: rest ->
  exists r', take_available it r = (Ok it.1, r') /\ registry_inv r' (it.1 :: live) /\
             (it.1 ∉ live) /\ (forall m, 0 <= m -> (m ∉ live) -> it.1 <= m) /\ registry_bound r' = registry_bound r.
Proof.
  intros [Hmax Hnext Hwf Hnd Hr Hd] Ha. destruct it as [k []]. simpl.
  assert (is_Some (map_find k (_available_numbers r))) as Hk
    by (rewrite Ha, map_find_head; by eexists).
  assert (k ∉ live) as Hkl by (intros Hin; apply Hd in Hin; rewrite Hin in Hk; by destruct Hk).
  eexists. split; [done|]. split; [|split; [done|split; [|done]]].
  - split; simpl; [done|done|by apply map_erase_wf|by constructor|..].
    + intros n. rewrite <- Hr. rewrite elem_of_cons. destruct (decide (n = k)) as [->|Hne].
      * intuition.
      * rewrite map_find_erase_ne by done. intuition.
    + intros n [->|Hn]%elem_of_cons; [by apply map_find_erase_eq|].
      destruct (decide (n = k)) as [->|]; [done|]. rewrite map_find_erase_ne by done. by apply Hd.
  - intros m Hm Hml. destruct (decide (m < registry_bound r)).
    + assert (is_Some (map_find m (_available_numbers r))) as Hs by (destruct (proj2 (Hr m)); [lia|done|done]).
      rewrite Ha in Hs, Hwf. by eapply map_wf_head_least.
    + pose proof (proj1 (Hr k) (or_introl Hk)). lia.
Qed.

Lemma register_item_cases r live :
  registry_inv r live ->
  (exists n r', register_item r = (Ok n, r') /\ registry_inv r' (n :: live) /\ (n ∉ live) /\
                (forall m, 0 <= m -> (m ∉ live) -> n <= m) /\ _max_number_of_items r' = _max_number_of_items r) \/
  (exists e, register_item r = (Throw e, r) /\ exn_class e = overflow_error /\
     (forall n, 0 <= n < registry_bound r -> n ∈ live) /\
     (_max_number_of_items r = 0 -> _next_item_number r = size_max)).
Proof.
  intros Hinv. pose proof Hinv as [Hmax Hnext Hwf Hnd Hr Hd].
  unfold register_item, get, mbind, M_bind. unfold is_size_t in *.
  destruct (_available_numbers r) as [|it rest] eqn:Ea.
  - assert (forall n, 0 <= n < registry_bound r -> n ∈ live) as Hall.
    { intros n Hn. apply Hr in Hn as [Hn|Hn]; [by destruct Hn|done]. }
    case_bool_decide as Hm.
    + right. eexists. do 3 (split; [done|]). lia.
    + case_bool_decide as Hnx; [right; eexists; by do 3 (split; [done|])|].
      left. unfold registry_bound in *. rewrite bool_decide_eq_false_2 in * by lia.
      eexists _, _. split; [done|].
      assert (_next_item_number r ∉ live) as Hf.
      { intros Hin. assert (0 <= _next_item_number r < _next_item_number r) by (apply Hr; by right). lia. }
      rewrite size_t_id by (unfold is_size_t; lia).
      split; [split; simpl; unfold is_size_t; try done; try lia|split; [done|split]].
      * by constructor.
      * intros n. unfold registry_bound. simpl. rewrite bool_decide_eq_false_2 by lia.
        rewrite elem_of_cons. specialize (Hr n). simpl in Hr. split.
        -- intros [[? ?]|[->|Hn]]; [done|lia|]. assert (0 <= n < _next_item_number r) by (apply Hr; auto). lia.
        -- intros Hn. right. destruct (decide (n = _next_item_number r)); [by left|]. right. apply Hall. lia.
      * intros m Hm0 Hml. destruct (decide (m < _next_item_number r)); [|lia].
        destruct Hml. apply Hall. lia.
      * done.
  - left. destruct (take_available_inv r it rest live Hinv Ea) as (r' & Ht & Hi & Hn & Hl & _).
    assert (_max_number_of_items r' = _max_number_of_items r) as Hmx by (by injection Ht as <-).
    exists it.1, r'. case_bool_decide; (split; [exact Ht|]); auto 6.
Qed.

Lemma deregister_live r live n :
  registry_inv r live -> n ∈ live ->
  exists r', deregister_item n r = (Ok tt, r') /\ registry_inv r' (filter (fun x => x <> n) live) /\
             _max_number_of_items r' = _max_number_of_items r.
Proof.
  intros [Hmax Hnext Hwf Hnd Hr Hd] Hn. unfold deregister_item, get, mbind, M_bind, is_size_t in *.
  assert (0 <= n < registry_bound r) as Hb by (apply Hr; by right).
  pose proof (Hd n Hn) as Hf. rewrite Hf. unfold map_insert. rewrite Hf.
  rewrite bool_decide_eq_false_2 by (unfold registry_bound in Hb; case_bool_decide; lia).
  eexists. split; [done|]. split; [|done]. unfold registry_bound in *.
  split; simpl; [done|done|by apply map_assign_wf|by apply NoDup_filter|..].
  - intros m. unfold registry_bound in *. simpl. rewrite <- Hr, list_elem_of_filter.
    destruct (decide (m = n)) as [->|Hne].
    + rewrite map_find_assign_eq. split; [by right|left; by eexists].
    + rewrite map_find_assign_ne by done. intuition.
  - intros m [Hne Hm]%list_elem_of_filter. rewrite map_find_assign_ne by done. by apply Hd.
Qed.

Lemma deregister_dead r live n :
  registry_inv r live -> (n ∉ live) -> 0 <= n < registry_bound r \/ 0 < _max_number_of_items r /\ 0 <= n ->
  exists e, deregister_item n r = (Throw e, r) /\ exn_class e = runtime_error.
Proof.
  intros [Hmax Hnext Hwf Hnd Hr Hd] Hn Hb. unfold deregister_item, get, mbind, M_bind, is_size_t in *.
  case_bool_decide as Hc; [by eexists|].
  assert (0 <= n < registry_bound r) as Hr'.
  { destruct Hb as [?|[? ?]]; [done|]. unfold registry_bound. rewrite bool_decide_eq_true_2 by done. lia. }
  apply Hr in Hr' as [Hs|?]; [|done]. destruct Hs as [[] Hs]. rewrite Hs. by eexists.
Qed.

(** ** The constructor *)

Lemma registry_new_inv max : is_size_t max -> registry_inv (registry_new max) [].
Proof.
  intros Hmax. unfold registry_new.
  set (f := fun (s : list (Z * unit)) (i : Z) => (map_insert i tt s).1).
  assert (forall l s, map_wf s ->
    map_wf (fold_left f l s) /\
    forall n, is_Some (map_find n (fold_left f l s)) <-> is_Some (map_find n s) \/ n ∈ l) as Hfold.
  { induction l as [|i l IH]; intros s Hs; simpl.
    - split; [done|]. intros n. rewrite elem_of_nil. tauto.
    - assert (map_wf (f s i) /\ forall n, is_Some (map_find n (f s i)) <-> is_Some (map_find n s) \/ n = i)
        as [Hw Hf].
      { unfold f, map_insert. destruct (map_find i s) as [[]|] eqn:E; simpl.
        - split; [done|]. intros n. split; [auto|]. intros [?| ->]; [done|]. by rewrite E.
        - split; [by apply map_assign_wf|]. intros n. destruct (decide (n = i)) as [->|Hne].
          + rewrite map_find_assign_eq. split; [auto|by eexists].
          + rewrite map_find_assign_ne by done. intuition. }
      destruct (IH (f s i) Hw) as [Hw' Hf']. split; [done|]. intros n.
      rewrite Hf', Hf, elem_of_cons. tauto. }
  destruct (Hfold (seqZ 0 max) [] (map_wf_nil)) as [Hw Hf].
  split; simpl; [done|unfold is_size_t, size_max, size_bits; lia|done|constructor|..].
  - intros n. rewrite Hf, elem_of_nil, elem_of_seqZ. unfold registry_bound. simpl.
    unfold is_size_t in Hmax. split.
    + intros [[[? ?]|?]|?]; [done| |done]. rewrite bool_decide_eq_true_2 by lia. lia.
    + case_bool_decide; [|lia]. intros. left. right. lia.
  - by intros n ?%elem_of_nil.
Qed.

(** ** The client *)

(** A client that deregisters only numbers it holds; failing calls leave both
    sides as they are. *)
Inductive client_step : item_registry * list Z -> item_registry * list Z -> Prop :=
| client_register r live n r' :
    register_item r = (Ok n, r') -> client_step (r, live) (r', n :: live)
| client_deregister r live n r' :
    n ∈ live -> deregister_item n r = (Ok tt, r') ->
    client_step (r, live) (r', filter (fun x => x <> n) live).

(** ** Properties *)

(** C28. In every state that a client can reach that deregisters only numbers it
    holds, the numbers it holds are distinct and below the limit; the next [register_item] gives the least
    number it does not hold, and fails, with [overflow_error] and no effect, only
    when all numbers are held; [deregister_item] accepts every held number. *)
Theorem registry_unique max r live :
  is_size_t max -> rtc client_step (registry_new max, []) (r, live) ->
  NoDup live /\ Forall (fun n => 0 <= n <= size_max /\ (0 < max -> n < max)) live /\
  ((exists n r', register_item r = (Ok n, r') /\ (n ∉ live) /\
                 forall m, 0 <= m -> (m ∉ live) -> n <= m) \/
   (exists e, register_item r = (Throw e, r) /\ exn_class e = overflow_error /\
      forall n, 0 <= n < (if bool_decide (0 < max) then max else size_max) -> n ∈ live)) /\
  (forall n, n ∈ live -> exists r', deregister_item n r = (Ok tt, r')).
Proof.
  intros Hmax Hrtc.
  assert (registry_inv r live /\ _max_number_of_items r = max) as [Hinv Hm].
  { assert (registry_inv (registry_new max) [] /\ _max_number_of_items (registry_new max) = max) as Hi
      by (split; [by apply registry_new_inv|done]).
    remember (registry_new max, []) as x eqn:Ex. remember (r, live) as y eqn:Ey.
    replace (registry_new max) with x.1 in Hi by (by rewrite Ex).
    replace [] with x.2 in Hi by (by rewrite Ex). clear Ex.
    revert r live Ey. induction Hrtc as [x|x y z Hstep _ IH]; intros r live ->; [done|].
    eapply IH; [|done]. destruct Hi as [Hi Hm]. destruct Hstep as [r0 l0 n r1 Hr|r0 l0 n r1 Hn Hd]; simpl in *.
    - destruct (register_item_cases r0 l0 Hi) as [(n' & r' & Hr' & ? & _ & _ & ?)|(e & He & _)];
        [|congruence]. rewrite Hr in Hr'. injection Hr' as <- <-. split; [done|congruence].
    - destruct (deregister_live r0 l0 n Hi Hn) as (r' & Hd' & ? & ?).
      rewrite Hd in Hd'. injection Hd' as <-. split; [done|congruence]. }
  split; [apply Hinv|]. split; [|split].
  - apply Forall_forall. intros n Hn.
    assert (0 <= n < registry_bound r) as Hb by (apply (inv_range r live Hinv); by right).
    pose proof (inv_next r live Hinv). pose proof (inv_max r live Hinv).
    unfold registry_bound, is_size_t in *. rewrite Hm in *. case_bool_decide; lia.
  - destruct (register_item_cases r live Hinv) as [(n & r' & ? & _ & ? & ? & _)|(e & ? & ? & Hall & Hnx)];
      [left; eauto|right]. exists e. do 2 (split; [done|]). intros n Hn. apply Hall.
    unfold registry_bound. rewrite Hm in *. case_bool_decide; [done|].
    unfold is_size_t in Hmax. rewrite Hnx by lia. done.
  - intros n Hn. destruct (deregister_live r live n Hinv Hn) as (r' & ? & _). eauto.
Qed.

(** Without a limit a number that was never issued can be deregistered, and is
    then issued twice. *)
Example registry_issues_twice :
  (_ ← deregister_item 1; a ← register_item; b ← register_item; c ← register_item; mret [a; b; c])
    (registry_new 0) =
  (Ok [1; 0; 1], ItemRegistry 0 2 []).
Proof. vm_compute. reflexivity. Qed.

(** With a limit the same call throws. *)
Example registry_limited_rejects :
  deregister_item 1 (registry_new 3) =
  (throw runtime_error "cbeam::lifecycle::item_registry::deregister_item: Item number 1 already deregistered.",
   registry_new 3).
Proof. vm_compute. reflexivity. Qed.

Lemma registry_unique_witness :
  NoDup [0; 1] /\ exists e, register_item (ItemRegistry 2 0 []) = (Throw e, ItemRegistry 2 0 []) /\
                            exn_class e = overflow_error.
Proof.
  assert (rtc client_step (registry_new 2, []) (ItemRegistry 2 0 [], [0; 1])) as Hr.
  { eapply rtc_l; [by apply client_register|]. eapply rtc_l; [by apply client_register|].
    eapply rtc_l; [apply (client_deregister _ _ 0); [by right; left|reflexivity]|].
    eapply rtc_l; [by apply client_register|]. vm_compute. apply rtc_refl. }
  destruct (registry_unique 2 (ItemRegistry 2 0 []) [0; 1])
    as (Hnd & _ & [(n & r' & Hok & _)|(e & He & Hc & _)] & _); [vm_compute; split; congruence|exact Hr|..].
  - vm_compute in Hok. discriminate Hok.
  - split; [exact Hnd|]. exists e. split; [exact He|exact Hc].
Defined.
