(* ===== verification/InterprocessMap.v ===== *)
(** * InterprocessMap: [container/stable_interprocess_container.hpp] and
    [container/stable_interprocess_map.hpp]

    A container that lives serialized in a shared memory segment of fixed size:
    every operation deserializes the whole value, changes it, and serializes it
    back, under the segment's lock, so an operation is one atomic step on the
    bytes.  The segment is [None] when it has no data.  The file ends with the
    interface [SharedMap] that clients of the map use, and shows that the segment
    implements it. *)

From S2P Require Import Prelude Errors Bytes StdMap Heap Buffer Xpod NestedMap Convert Serialization.

Abbreviation segment := (option (list ascii)).

(** [capacity()]. *)
Definition capacity (w : segment) : Z := Z.of_nat (length (default [] w)).

Lemma capacity_Some it : capacity (Some it) = Z.of_nat (length it).
Proof. done. Qed.

Definition text_of (s : bytes) : string := string_of_list_ascii s.

Definition capacity_error (size cap : Z) : exn :=
  Exn runtime_error
    ("cbeam::stable_interprocess_container::serialize: size of serialized container (" ++
     text_of (to_string_integer size) ++ " bytes) exceeds shared memory size (" ++
     text_of (to_string_integer cap) ++
     " bytes). Set environment variable CBEAM_SRB_MAP_BYTES to configure a higher value.")%string.

(** ** The container *)

Section container.
Context {T : Type} `{Traits T} (T_default : T) (T_size : T -> Z).
(** The local [container::buffer] of [serialize]. *)
Context {B : Type} `{Stream B} (new_buffer : B).

(** [deserialize()]. *)
Definition ic_deserialize : M segment T := fun w =>
  match w with
  | Some it => match deserialize it with
               | Ok (result, _) => (Ok result, w)
               | Throw e => (Throw e, w)
               | UB => (UB, w)
               end
  | None => (Ok T_default, w)
  end.

(** [serialize(container)]: the segment changes only after the size check. *)
Definition ic_serialize (container : T) : M segment unit := fun w =>
  match serialize container new_buffer with
  | (Ok _, s) =>
      let d := stream_contents s in
      if bool_decide (capacity w < Z.of_nat (length d)) then
        (Throw (capacity_error (Z.of_nat (length d)) (capacity w)), w)
      else match w with
      | Some it => (Ok tt, Some (d ++ drop (length d) it))
      | None => (if bool_decide (d = []) then Ok tt else UB, w)
      end
  | (Throw e, _) => (Throw e, w)
  | (UB, _) => (UB, w)
  end.

Definition ic_clear : M segment unit := ic_serialize T_default.
Definition ic_size : M segment Z := c ← ic_deserialize; mret (T_size c).
Definition ic_empty : M segment bool := c ← ic_deserialize; mret (bool_decide (T_size c = 0)).
End container.

(** [foreach(func)]: the callback sees a copy and stops by returning false. *)
Fixpoint run_foreach {A} (func : A -> bool) (items : list A) : list A :=
  match items with
  | [] => []
  | x :: items => if func x then x :: run_foreach func items else [x]
  end.

Definition ic_foreach {A} `{Traits (list A)} (func : A -> bool) : M segment (list A) :=
  items ← ic_deserialize []; mret (run_foreach func items).

(** ** The map *)

Section map.
Context {K V : Type} `{Traits K, KeyOrder K, Traits V}.
Context {B : Type} `{Stream B} (new_buffer : B).
Implicit Types (key : K) (value : V).

Abbreviation im_deserialize := (@ic_deserialize (list (K * V)) _ []).
Abbreviation im_serialize := (ic_serialize (T := list (K * V)) new_buffer).

(** [operator=(list)]. *)
Definition im_assign (l : list (K * V)) : M segment unit :=
  im_serialize (fold_left (fun m x => map_assign x.1 x.2 m) l []).

Definition im_at key : M segment V :=
  m ← im_deserialize;
  match map_at key m with
  | Ok v => mret v
  | Throw e => if catches std_out_of_range e then raise out_of_range (exn_text e) else fun w => (Throw e, w)
  | UB => undefined
  end.

Definition im_at_or_default key (default_value : V) : M segment V :=
  m ← im_deserialize;
  mret (if bool_decide (map_count key m = 1) then default default_value (map_find key m) else default_value).

Definition im_insert key value : M segment unit :=
  m ← im_deserialize;
  im_serialize (map_assign key value m).

Definition im_erase key : M segment unit :=
  m ← im_deserialize;
  im_serialize (map_erase key m).1.

Definition im_count key : M segment Z :=
  m ← im_deserialize;
  mret (map_count key m).

Definition im_update_or_insert key (updater : V -> V) (default_value : V) : M segment unit :=
  m ← im_deserialize;
  im_serialize
    match map_find key m with
    | Some v => map_assign key (updater v) m
    | None => map_assign key default_value m
    end.

Definition im_update key (updater : V -> V) (error_string : string) : M segment V :=
  m ← im_deserialize;
  match map_find key m with
  | None => raise runtime_error error_string
  | Some v =>
      _ ← im_serialize (map_assign key (updater v) m);
      mret (updater v)
  end.
End map.

(** ** The interface

    What a client of a shared map relies on.  A reading operation answers as
    [std::map] would; a writing one either takes effect as on [std::map] or
    throws and changes nothing.  Values must be representable. *)

Class SharedMap (W K V : Type) := {
  sm_at : K -> M W V;
  sm_at_or_default : K -> V -> M W V;
  sm_insert : K -> V -> M W unit;
  sm_erase : K -> M W unit;
  sm_count : K -> M W Z;
  sm_update_or_insert : K -> (V -> V) -> V -> M W unit;
  sm_update : K -> (V -> V) -> string -> M W V;
  sm_items : M W (list (K * V));
}.

(** [writes holds ok op m m' a]: from [m], [op] returns [a] and leaves [m'], or
    throws and leaves the state as it was. *)
Definition writes {W K V A} (holds : W -> list (K * V) -> Prop) (op : M W A) (m m' : list (K * V)) (a : A) : Prop :=
  forall w, holds w m ->
    (exists w', op w = (Ok a, w') /\ holds w' m') \/ (exists e, op w = (Throw e, w)).

Definition reads {W K V A} (holds : W -> list (K * V) -> Prop) (op : M W A) (m : list (K * V)) (r : outcome A) : Prop :=
  forall w, holds w m -> op w = (r, w).

Class SharedMapLaws (W K V : Type) `{SharedMap W K V, KeyOrder K} := {
  sm_holds : W -> list (K * V) -> Prop;
  sm_key : K -> Prop;
  sm_value : V -> Prop;
  sm_holds_wf w m : sm_holds w m -> map_wf m /\ Forall (fun x => sm_key x.1 /\ sm_value x.2) m;
  sm_at_reads m k v : map_find k m = Some v -> reads sm_holds (sm_at k) m (Ok v);
  sm_at_or_default_reads m k d :
    reads sm_holds (sm_at_or_default k d) m (Ok (default d (map_find k m)));
  sm_count_reads m k : reads sm_holds (sm_count k) m (Ok (map_count k m));
  sm_items_reads m : reads sm_holds sm_items m (Ok m);
  sm_insert_writes m k v : sm_key k -> sm_value v ->
    writes sm_holds (sm_insert k v) m (map_assign k v m) tt;
  sm_erase_writes m k : writes sm_holds (sm_erase k) m (map_erase k m).1 tt;
  sm_update_or_insert_writes m k f d : sm_key k ->
    sm_value (match map_find k m with Some v => f v | None => d end) ->
    writes sm_holds (sm_update_or_insert k f d) m
      (map_assign k (match map_find k m with Some v => f v | None => d end) m) tt;
  sm_update_writes m k f e v : map_find k m = Some v -> sm_value (f v) ->
    writes sm_holds (sm_update k f e) m (map_assign k (f v) m) (f v);
  sm_update_missing m k f e : map_find k m = None ->
    reads sm_holds (sm_update k f e) m (throw runtime_error e);
}.

#[export] Instance segment_map {K V B} `{Traits K, KeyOrder K, Traits V, Stream B} (new_buffer : B) :
  SharedMap segment K V := {|
  sm_at := im_at;
  sm_at_or_default := im_at_or_default;
  sm_insert := im_insert new_buffer;
  sm_erase := im_erase new_buffer;
  sm_count := im_count;
  sm_update_or_insert := im_update_or_insert new_buffer;
  sm_update := im_update new_buffer;
  sm_items := ic_deserialize [] |}.

(** ** The segment implements the interface *)

Section segment_laws.
Context {K V : Type} `{KeyOrderLaws K} `{!Traits K} `{!TraitsLaws K} `{!Traits V} `{!TraitsLaws V}.
Context {B : Type} `{StreamLaws B} (new_buffer : B).
Hypothesis new_buffer_wf : stream_wf new_buffer.
Hypothesis new_buffer_empty : stream_contents new_buffer = [].
Implicit Types (m : list (K * V)) (w : segment).

(** Keys and values whose encoding is not longer than the address space. *)
Definition seg_key (k : K) : Prop := encodable k /\ Z.of_nat (length (encode k)) <= 2 ^ 60.
Definition seg_value (v : V) : Prop := encodable v /\ Z.of_nat (length (encode v)) <= 2 ^ 60.

Definition seg_map m : Prop :=
  map_wf m /\ is_size_t (map_size m) /\ Forall (fun x => seg_key x.1 /\ seg_value x.2) m.

(** The segment starts with the encoding of [m]; what follows is left over. *)
Definition seg_holds w m : Prop :=
  exists rest, w = Some (map_encode encode m ++ rest) /\ seg_map m /\ capacity w <= 2 ^ 62.

Lemma seg_map_encodable m : seg_map m -> map_encodable encodable m.
Proof.
  intros (? & ? & Hall). do 2 (split; [done|]).
  eapply Forall_impl; [exact Hall|]. by intros x [[? _] [? _]].
Qed.

Lemma seg_deserialize w m : seg_holds w m -> ic_deserialize [] w = (Ok m, w).
Proof.
  intros (rest & -> & Hm & _). unfold ic_deserialize.
  pose proof (deserialize_encode (T := list (K * V)) m rest (seg_map_encodable m Hm)) as Hd. cbn in Hd. cbn.
  by rewrite Hd.
Qed.

(** [serialize] into a segment: the new value when its encoding fits;
    otherwise, or when the local buffer cannot grow, a throw without effect. *)
Lemma seg_serialize w m m' :
  seg_holds w m -> seg_map m' ->
  Z.of_nat (length (map_encode encode m')) <= size_max ->
  (exists w', ic_serialize new_buffer m' w = (Ok tt, w') /\ seg_holds w' m' /\ capacity w' = capacity w /\
     Z.of_nat (length (map_encode encode m')) <= capacity w) \/
  (exists e, ic_serialize new_buffer m' w = (Throw e, w) /\
     (e = capacity_error (Z.of_nat (length (map_encode encode m'))) (capacity w) /\
      capacity w < Z.of_nat (length (map_encode encode m')) \/
      exists s, serialize m' new_buffer = (Throw e, s))).
Proof.
  intros (rest & -> & Hm & Hcap) Hm' Hsz. unfold ic_serialize.
  pose proof (serialize_appends (T := list (K * V)) B m' new_buffer new_buffer_wf) as Happ.
  rewrite new_buffer_empty in Happ. specialize (Happ Hsz).
  change (serialize m' new_buffer) with (map_serialize serialize m' new_buffer) in *.
  destruct (map_serialize serialize m' new_buffer) as [[u|e|] s] eqn:E; [| |done].
  - destruct Happ as [_ Hc]. rewrite Hc. change ([] ++ encode m') with (map_encode encode m').
    case_bool_decide as Hfit; [right; eauto|left]. eexists. split; [done|].
    set (it := map_encode encode m ++ rest) in *. rewrite !capacity_Some in *.
    assert (length (map_encode encode m' ++ drop (length (map_encode encode m')) it) = length it) as Hl
      by (rewrite length_app, length_drop; lia).
    rewrite Hl. split; [|split; [done|lia]]. eexists. split; [done|]. split; [done|].
    by rewrite capacity_Some, Hl.
  - right. exists e. split; [done|]. right. by exists s.
Qed.

(** Reading operations. *)
Lemma seg_reads {A} w m (f : list (K * V) -> M segment A) r :
  seg_holds w m -> f m w = (r, w) -> (x ← ic_deserialize []; f x) w = (r, w).
Proof. intros Hw Hf. step_with (seg_deserialize w m Hw). done. Qed.

(** ** Encodable results *)

Abbreviation entries m := (concat (map (fun x => encode x.1 ++ encode x.2) m)).

Lemma length_map_encode m : length (map_encode encode m) = (8 + length (entries m))%nat.
Proof. unfold map_encode. by rewrite length_app, length_le_encode. Qed.

Lemma length_assign k v m :
  (length (map_encode encode (map_assign k v m)) <=
   length (map_encode encode m) + length (encode k) + length (encode v))%nat.
Proof.
  rewrite !length_map_encode. induction m as [|[k' v'] m IH]; cbn [map_assign map concat fst snd].
  - rewrite !length_app. cbn [length]. lia.
  - repeat case_match; cbn [map concat fst snd]; rewrite !length_app in *; lia.
Qed.

Lemma length_erase k m :
  (length (map_erase k m).1 <= length m)%nat /\
  (length (map_encode encode (map_erase k m).1) <= length (map_encode encode m))%nat.
Proof.
  rewrite !length_map_encode. induction m as [|[k' v'] m IH]; cbn [map_erase map concat fst snd]; [lia|].
  destruct (map_erase k m) as [m' n]. repeat case_match; cbn [map concat fst snd length] in *;
    rewrite ?length_app in *; lia.
Qed.

Lemma size_le_encoding m : seg_map m -> map_size m <= Z.of_nat (length (map_encode encode m)).
Proof.
  intros (_ & _ & Hall). rewrite length_map_encode. unfold map_size.
  enough (length m <= length (entries m))%nat by lia. apply length_entries.
  eapply Forall_impl; [exact Hall|]. by intros x [[? _] _].
Qed.

Lemma seg_holds_encoding w m : seg_holds w m -> Z.of_nat (length (map_encode encode m)) <= 2 ^ 62.
Proof. intros (rest & -> & _ & Hc). rewrite capacity_Some, length_app in Hc. lia. Qed.

Lemma seg_map_assign w m k v :
  seg_holds w m -> seg_key k -> seg_value v ->
  seg_map (map_assign k v m) /\ Z.of_nat (length (map_encode encode (map_assign k v m))) <= size_max.
Proof.
  intros Hw Hk Hv. pose proof (seg_holds_encoding w m Hw) as Hl.
  destruct Hw as (_ & _ & Hm & _). pose proof (size_le_encoding m Hm) as Hle.
  destruct Hm as (Hwf & Hsz & Hall). split; [split; [by apply map_assign_wf|split]|].
  - unfold map_size, is_size_t, size_max, size_bits in *.
    rewrite map_assign_length by done. destruct (map_find k m); lia.
  - apply map_assign_Forall; [done| |done]. intros k' v' _ _ [? _]. done.
  - pose proof (length_assign k v m). destruct Hk, Hv. unfold size_max, size_bits. lia.
Qed.

Lemma seg_map_erase w m k :
  seg_holds w m ->
  seg_map (map_erase k m).1 /\ Z.of_nat (length (map_encode encode (map_erase k m).1)) <= size_max.
Proof.
  intros Hw. pose proof (seg_holds_encoding w m Hw) as Hl. destruct (length_erase k m) as [Hn He].
  destruct Hw as (_ & _ & (Hwf & Hsz & Hall) & _). split; [split; [by apply map_erase_wf|split]|].
  - unfold map_size, is_size_t in *. lia.
  - by apply map_erase_keys.
  - unfold size_max, size_bits. lia.
Qed.

(** A writing operation: read the map, serialize its new value. *)
Lemma seg_writes {A} m m' (a : A) (f : list (K * V) -> M segment A) :
  (forall w, seg_holds w m -> seg_map m' /\ Z.of_nat (length (map_encode encode m')) <= size_max) ->
  (forall w w', ic_serialize new_buffer m' w = (Ok tt, w') -> f m w = (Ok a, w')) ->
  (forall w e, ic_serialize new_buffer m' w = (Throw e, w) -> f m w = (Throw e, w)) ->
  writes seg_holds (x ← ic_deserialize []; f x) m m' a.
Proof.
  intros Hm Hok Hth w Hw. step_with (seg_deserialize w m Hw). destruct (Hm w Hw) as [Hm' Hl].
  destruct (seg_serialize w m m' Hw Hm' Hl) as [(w' & Hs & Hh & _)|(e & Hs & _)].
  - left. exists w'. split; [by apply Hok|done].
  - right. exists e. by apply Hth.
Qed.

#[export] Instance segment_map_laws :
  @SharedMapLaws segment K V (segment_map new_buffer) _.
Proof.
  exists seg_holds seg_key seg_value.
  - by intros w m (_ & _ & (? & _ & ?) & _).
  - intros m k v Hf w Hw. apply (seg_reads w m _ _ Hw). unfold map_at. by rewrite Hf.
  - intros m k d w Hw. apply (seg_reads w m _ _ Hw). unfold map_count.
    by destruct (map_find k m).
  - intros m k w Hw. by apply (seg_reads w m _ _ Hw).
  - intros m w Hw. by apply seg_deserialize.
  - intros m k v Hk Hv. apply seg_writes; [|done|done]. intros w Hw. by eapply seg_map_assign.
  - intros m k. apply seg_writes; [|done|done]. intros w Hw. by eapply seg_map_erase.
  - intros m k f d Hk Hv. apply seg_writes.
    + intros w Hw. by eapply seg_map_assign.
    + intros w w' Hs. by destruct (map_find k m).
    + intros w e Hs. by destruct (map_find k m).
  - intros m k f e v Hf Hv. apply seg_writes.
    + intros w Hw. eapply seg_map_assign; [done| |done].
      destruct Hw as (_ & _ & (Hwf & _ & Hall) & _). rewrite Forall_forall in Hall.
      apply (Hall (k, v)). by apply map_find_Some_elem.
    + intros w w' Hs. rewrite Hf. by step_with Hs.
    + intros w e' Hs. rewrite Hf. unfold mbind, M_bind. by rewrite Hs.
  - intros m k f e Hf w Hw. apply (seg_reads w m _ _ Hw). by rewrite Hf.
Defined.

(** A new value of the same encoded length takes no room. *)
Lemma length_assign_same k v v' m :
  map_find k m = Some v' -> length (encode v) = length (encode v') ->
  length (map_encode encode (map_assign k v m)) = length (map_encode encode m).
Proof.
  intros Hf Hl. rewrite !length_map_encode. f_equal. induction m as [|[k1 v1] m IH]; [done|].
  cbn [map_find] in Hf. cbn [map_assign]. repeat case_match; [|done|]; cbn [map concat fst snd];
    rewrite !length_app; [rewrite IH by done; lia|]. injection Hf as ->. lia.
Qed.

(** What is not longer than what is there fits, if the local buffer can be
    allocated. *)
Lemma seg_rewrite w m m' :
  seg_holds w m -> seg_map m' ->
  (length (map_encode encode m') <= length (map_encode encode m))%nat ->
  (forall e s, serialize m' new_buffer <> (Throw e, s)) ->
  exists w', ic_serialize new_buffer m' w = (Ok tt, w').
Proof.
  intros Hw Hm' Hl Hroom. pose proof (seg_holds_encoding w m Hw) as Hmax.
  destruct (seg_serialize w m m' Hw Hm') as [(w' & E & _)|(e & _ & [[_ Hc]|[s Hs]])].
  - unfold size_max, size_bits. lia.
  - by exists w'.
  - exfalso. destruct Hw as (rest & -> & _ & _). rewrite capacity_Some, length_app in Hc. lia.
  - by destruct (Hroom e s).
Qed.

(** A fresh segment, all zero, holds the empty map when it has room for its size. *)
Lemma seg_fresh n :
  (8 <= n)%nat -> Z.of_nat n <= 2 ^ 62 -> seg_holds (Some (replicate n Ascii.zero)) [].
Proof.
  intros Hn Hl. exists (replicate (n - 8) Ascii.zero). split; [|split].
  - unfold map_encode. rewrite app_nil_r.
    change (le_encode 8 (map_size [])) with (replicate 8 Ascii.zero).
    rewrite <- replicate_add. do 2 f_equal. lia.
  - split; [constructor|]. split; [vm_compute; split; congruence|constructor].
  - rewrite capacity_Some, length_replicate. done.
Qed.
End segment_laws.

(** ** Properties *)

Section segment_properties.
Context {K V : Type} `{KeyOrderLaws K} `{!Traits K} `{!TraitsLaws K} `{!Traits V} `{!TraitsLaws V}.
Context {B : Type} `{StreamLaws B} (new_buffer : B).
Hypothesis new_buffer_wf : stream_wf new_buffer.
Hypothesis new_buffer_empty : stream_contents new_buffer = [].
Implicit Types (m : list (K * V)) (w : segment).

(** C22. [insert] on the shared segment is atomic and respects the capacity:
    either the segment afterwards holds the map with the pair assigned, in a
    segment of the same size, and then the encoding fits; or it throws, the
    segment's bytes are untouched, and the error is the capacity error (the
    encoding does not fit) or the local buffer's own. *)
Theorem interprocess_insert_atomic w m k v :
  seg_holds w m -> seg_key k -> seg_value v ->
  let m' := map_assign k v m in
  let size := Z.of_nat (length (map_encode encode m')) in
  (exists w', im_insert new_buffer k v w = (Ok tt, w') /\ seg_holds w' m' /\
              capacity w' = capacity w /\ size <= capacity w) \/
  (exists e, im_insert new_buffer k v w = (Throw e, w) /\
     (e = capacity_error size (capacity w) /\ capacity w < size \/
      exists s, serialize m' new_buffer = (Throw e, s))).
Proof.
  intros Hw Hk Hv m' size. unfold im_insert. step_with (seg_deserialize w m Hw).
  destruct (seg_map_assign w m k v Hw Hk Hv) as [Hm' Hl].
  by apply (seg_serialize new_buffer new_buffer_wf new_buffer_empty w m).
Qed.

(** The reading operations answer like [std::map] and leave the segment
    alone; [at] of a missing key throws the library's own [out_of_range]. *)
Theorem interprocess_reads w m k dflt :
  seg_holds w m ->
  im_at k w = (match map_find k m with
               | Some v => Ok v
               | None => throw out_of_range "map::at" end, w) /\
  im_at_or_default k dflt w = (Ok (default dflt (map_find k m)), w) /\
  im_count (V := V) k w = (Ok (map_count k m), w) /\
  ic_size (T := list (K * V)) [] map_size w = (Ok (map_size m), w) /\
  ic_empty (T := list (K * V)) [] map_size w = (Ok (bool_decide (m = [])), w).
Proof.
  intros Hw.
  split; [|split; [|split; [|split]]]; apply (seg_reads w m _ _ Hw).
  - unfold map_at. by destruct (map_find k m).
  - unfold map_count. by destruct (map_find k m).
  - done.
  - done.
  - unfold mret, M_ret. do 2 f_equal. apply bool_decide_ext. destruct m; done.
Qed.

(** [update] applies the function to the value of an existing key and
    returns the new value, or throws and changes nothing; for a missing key it
    throws a [runtime_error] with the given text.  [erase] removes the key. *)
Theorem interprocess_update_erase w m k f text :
  seg_holds w m ->
  match map_find k m with
  | Some v =>
      seg_value (f v) ->
      (exists w', im_update new_buffer k f text w = (Ok (f v), w') /\ seg_holds w' (map_assign k (f v) m)) \/
      (exists e, im_update new_buffer k f text w = (Throw e, w))
  | None => im_update new_buffer k f text w = (throw runtime_error text, w)
  end /\
  ((exists w', im_erase new_buffer k w = (Ok tt, w') /\ seg_holds w' (map_erase k m).1) \/
   (exists e, im_erase new_buffer k w = (Throw e, w))).
Proof.
  intros Hw. set (L := segment_map_laws (K := K) (V := V) new_buffer new_buffer_wf new_buffer_empty).
  split; [destruct (map_find k m) as [v|] eqn:Hf|].
  - intros Hv. by apply (@sm_update_writes _ _ _ _ _ L m k f text v Hf Hv).
  - by apply (@sm_update_missing _ _ _ _ _ L m k f text Hf).
  - by apply (@sm_erase_writes _ _ _ _ _ L m k).
Qed.
End segment_properties.

(** ** Witnesses: a segment of 32 bytes has room for one entry of [long long]s *)

#[local] Instance segment_traits : Traits Z := @trivial_traits Z long_long_trivial.
#[local] Instance segment_traits_laws : TraitsLaws Z := @trivial_laws Z long_long_trivial long_long_laws.

Definition new_buffer_moving : heap * buf := (∅, buf_default).

Lemma new_buffer_moving_wf : @stream_wf _ (@buffer_stream moving) new_buffer_moving.
Proof. split; [|by left]. split; [done|]. split; [vm_compute; split; congruence|by left]. Defined.

Definition segment_32 : segment := Some (replicate 32 Ascii.zero).

Lemma segment_32_empty : seg_holds (K := Z) (V := Z) segment_32 [].
Proof. apply seg_fresh; lia. Defined.

Lemma small_value z : is_long_long z -> seg_key (K := Z) z /\ seg_value (V := Z) z.
Proof. intros Hz. split; (split; [exact Hz|vm_compute; congruence]). Defined.

Lemma interprocess_insert_atomic_witness :
  exists w, im_insert (B := heap * buf) (H2 := @buffer_stream moving) new_buffer_moving 7 (-1) segment_32 = (Ok tt, w) /\
            seg_holds w [(7, -1)].
Proof.
  destruct (interprocess_insert_atomic (H1 := @buffer_stream moving) new_buffer_moving
    new_buffer_moving_wf eq_refl segment_32 [] 7 (-1)) as [(w' & Hi & Hh & _)|(e & He & _)].
  - exact segment_32_empty.
  - apply small_value. unfold is_long_long. lia.
  - apply small_value. unfold is_long_long. lia.
  - exists w'. split; [exact Hi|exact Hh].
  - vm_compute in He. discriminate He.
Defined.

Lemma interprocess_reads_witness :
  im_at (V := Z) 7 segment_32 = (throw out_of_range "map::at", segment_32).
Proof. exact (proj1 (interprocess_reads segment_32 [] 7 0 segment_32_empty)). Defined.

Lemma interprocess_update_erase_witness :
  im_update (B := heap * buf) (H2 := @buffer_stream moving) new_buffer_moving 7 (Z.add 1) "missing" segment_32 =
  (throw runtime_error "missing", segment_32).
Proof.
  exact (proj1 (interprocess_update_erase (H1 := @buffer_stream moving) new_buffer_moving
    new_buffer_moving_wf eq_refl segment_32 [] 7 (Z.add 1) "missing" segment_32_empty)).
Defined.
