(* ===== verification/StableReferenceBuffer.v ===== *)
(** * StableReferenceBuffer: [container/stable_reference_buffer.hpp]

    Reference-counted buffers whose counts live in a shared map (the interface
    [SharedMap]), with the count of a block as the value of its address and the
    initial count of new blocks under the key [nullptr], and the scopes of
    [delay_deallocation], which raise that initial count and drop the extra
    reference of the blocks that appeared meanwhile when they end.

    The first half is the code, operation by operation; the second half is a
    system of instances and scopes with the invariant that a count is the number
    of instances and scopes that hold the block.  The map of the counts may be
    full; the segment of the source is shown to be such a map.  Logging is left
    out, and [assert] is taken as in a release build. *)

From S2P Require Import Prelude Errors Bytes StdMap Heap Buffer Xpod NestedMap Convert Serialization InterprocessMap.

Section srb.
Context `{Allocator} {C : Type} `{SharedMap C Z Z}.

(** The heap, the shared counts, and the fields of [*this]. *)
Abbreviation SM := (M (heap * C * buf)).

Definition on_buffer {A} (m : BM A) : SM A := fun '(h, c, b) =>
  let '(o, (h', b')) := m (h, b) in (o, (h', c, b')).
Definition on_counts {A} (m : M C A) : SM A := fun '(h, c, b) =>
  let '(o, c') := m c in (o, (h, c', b)).
Definition on_heap (f : heap -> outcome heap) : SM unit := fun '(h, c, b) =>
  match f h with
  | Ok h' => (Ok tt, (h', c, b))
  | Throw e => (Throw e, (h, c, b))
  | UB => (UB, (h, c, b))
  end.
Definition fields : SM buf := fun '(h, c, b) => (Ok b, (h, c, b)).
Definition set_fields (b' : buf) : SM unit := fun '(h, c, b) => (Ok tt, (h, c, b')).

Definition inc (c : Z) : Z := c + 1.
Definition dec (c : Z) : Z := c - 1.

(** The default [error_string] of [stable_interprocess_map::update]. *)
Definition key_not_found : string := "cbeam::stable_interprocess_map::update: key not found".

(** [get_initial_use_count()]. *)
Definition get_initial_use_count : M C Z := sm_at_or_default nullptr 1.

(** [is_known(address)]. *)
Definition is_known (address : addr) : M C bool :=
  if bool_decide (address = nullptr) then mret false
  else n ← sm_count address; mret (bool_decide (n = 1)).

(** [use_count()] converts the [int] to [size_t]. *)
Definition use_count : SM Z :=
  b ← fields;
  if bool_decide (_buffer b = nullptr) then mret 0
  else c ← on_counts (sm_at_or_default (_buffer b) 0); mret (size_t c).

(** [safe_get()]. *)
Definition safe_get : SM addr :=
  n ← use_count;
  b ← fields;
  mret (if bool_decide (n <= 1) then nullptr else _buffer b).

(** [reset()], also the destructor: a standard exception is swallowed, and then
    the fields keep their values. *)
Definition srb_reset : SM unit :=
  try_catch
    (b ← fields;
     known ← on_counts (is_known (_buffer b));
     _ ← (if known : bool then
            updated_value ← on_counts (sm_update (_buffer b) dec key_not_found);
            if bool_decide (updated_value = 0) then
              _ ← on_counts (sm_erase (_buffer b));
              on_buffer buffer_reset
            else mret tt
          else mret tt);
     set_fields buf_default)
    std_exception (fun _ => mret tt).

(** A throw out of a constructor's body destroys the base object. *)
Definition constructor_body (m : SM unit) : SM unit := fun w =>
  match m w with
  | (Throw e, w') =>
      match on_buffer buffer_reset w' with
      | (Ok _, w'') => (Throw e, w'')
      | (o, w'') => (match o with UB => UB | _ => Throw e end, w'')
      end
  | r => r
  end.

Definition count_new_block : SM unit :=
  b ← fields;
  initial ← on_counts get_initial_use_count;
  on_counts (sm_update_or_insert (_buffer b) inc initial).

(** [stable_reference_buffer(size, size_of_type)]. *)
Definition srb_new (size size_of_type : Z) : SM unit :=
  _ ← on_buffer (buffer_new size size_of_type);
  constructor_body count_new_block.

(** [stable_reference_buffer(const buffer& base)]. *)
Definition srb_from_buffer (base : buf) : SM unit :=
  _ ← on_buffer (buffer_copy base);
  constructor_body count_new_block.

(** [stable_reference_buffer(const void* address)]. *)
Definition srb_from_address (address : addr) : SM unit :=
  _ ← set_fields (Buf 0 address);
  constructor_body
    (_ ← on_counts (sm_update address inc
         "cbeam::container::container::stable_reference_buffer: memory address was not created by cbeam::stable_reference_buffer");
     mret tt).

(** The copy constructor. *)
Definition srb_copy (other : buf) : SM unit :=
  _ ← set_fields buf_default;
  constructor_body
    (if bool_decide (_buffer other = nullptr) then
       raise runtime_error "cbeam::container::container::stable_reference_buffer: copy constructor has been passed a default constructed (therefore invalid) instance of Memory"
     else
       _ ← set_fields other;
       _ ← on_counts (sm_update (_buffer other) inc key_not_found);
       mret tt).

(** [operator=(const stable_reference_buffer&)]. *)
Definition srb_assign (self : bool) (other : buf) : SM unit :=
  if self then mret tt
  else if bool_decide (_buffer other = nullptr) then
    raise runtime_error "cbeam::container::container::stable_reference_buffer: copy assignment operator has been passed a default constructed (therefore invalid) instance of Memory"
  else
    _ ← srb_reset;
    _ ← set_fields other;
    _ ← on_counts (sm_update (_buffer other) inc key_not_found);
    mret tt.

(** [operator=(const buffer&)]. *)
Definition srb_assign_buffer (self : bool) (other : buf) : SM unit :=
  if self then mret tt
  else
    _ ← srb_reset;
    _ ← on_buffer (buffer_assign false other);
    b ← fields;
    known ← on_counts (is_known (_buffer b));
    if known : bool then
      n ← on_counts (sm_at (_buffer b));
      on_counts (sm_insert (_buffer b) (inc n))
    else
      initial ← on_counts get_initial_use_count;
      on_counts (sm_insert (_buffer b) initial).

(** The copy-on-write branch of [append]. *)
Definition append_cow (data : bytes) : SM unit :=
  b ← fields;
  '(h, c, _) ← get;
  let new_size := size_t (_size b + Z.of_nat (length data)) in
  match malloc new_size h with
  | None => raise bad_alloc "std::bad_alloc"
  | Some (new_buf, h1) =>
      _ ← put (h1, c, b);
      match load (_buffer b) (_size b) h1 with
      | Ok old =>
          _ ← on_heap (memcpy_to new_buf 0 old);
          _ ← on_heap (memcpy_to new_buf (_size b) data);
          remaining ← try_all (on_counts (sm_update (_buffer b) dec key_not_found)) (mret 0);
          _ ← (if bool_decide (remaining = 0) then
                 _ ← on_heap (free (_buffer b));
                 on_counts (sm_erase (_buffer b))
               else mret tt);
          _ ← set_fields (Buf new_size new_buf);
          initial ← on_counts get_initial_use_count;
          on_counts (sm_insert new_buf initial)
      | _ => undefined
      end
  end.

(** The branch of [append] for an exclusive owner, or for no block yet. *)
Definition append_exclusive (data : bytes) : SM unit :=
  b ← fields;
  let old := _buffer b in
  old_count ← (if bool_decide (old = nullptr) then mret 0
               else initial ← on_counts get_initial_use_count;
                    on_counts (sm_at_or_default old initial));
  _ ← on_buffer (buffer_append data);
  b' ← fields;
  if bool_decide (_buffer b' = old) then mret tt
  else if bool_decide (old = nullptr) then
    initial ← on_counts get_initial_use_count;
    on_counts (sm_insert (_buffer b') initial)
  else
    _ ← on_counts (sm_insert (_buffer b') old_count);
    on_counts (sm_erase old).

(** [swap(other)]. *)
Definition srb_swap (a b : buf) : buf * buf := buffer_swap a b.

(** [append(data, len)]. *)
Definition srb_append (data : bytes) : SM unit :=
  b ← fields;
  if bool_decide (_size b = 0 /\ _buffer b <> nullptr) then
    raise logic_error "stable_reference_buffer::append: instance was created from a raw pointer without a known size"
  else
    n ← (if bool_decide (_buffer b = nullptr) then mret 0
         else on_counts (sm_at_or_default (_buffer b) 0));
    if bool_decide (_buffer b <> nullptr /\ 1 < n) then append_cow data
    else append_exclusive data.

(** ** [delay_deallocation] *)

Record scope : Type := Scope { _old_entries : list addr; _initial_on_entry : Z }.

(** The constructor. *)
Definition scope_enter : M C scope :=
  initial ← get_initial_use_count;
  items ← sm_items;
  _ ← sm_insert nullptr (initial + 1);
  mret (Scope (map fst items) initial).

(** One round of the destructor's loop: a vanished key is skipped. *)
Definition scope_release (ptr : addr) : M (heap * C) unit := fun '(h, c) =>
  match sm_update ptr dec key_not_found c with
  | (Ok updated, c1) =>
      if bool_decide (updated = 0) then
        match free ptr h with
        | Ok h' => let '(o, c2) := sm_erase ptr c1 in (o, (h', c2))
        | Throw e => (Throw e, (h, c1))
        | UB => (UB, (h, c1))
        end
      else (Ok tt, (h, c1))
  | (Throw _, c1) => (Ok tt, (h, c1))
  | (UB, c1) => (UB, (h, c1))
  end.

Fixpoint scope_release_all (ptrs : list addr) : M (heap * C) unit :=
  match ptrs with
  | [] => mret tt
  | ptr :: ptrs => _ ← scope_release ptr; scope_release_all ptrs
  end.

Definition new_entries (s : scope) (items : list (Z * Z)) : list addr :=
  filter (fun p => p <> nullptr /\ p ∉ _old_entries s) (map fst items).

(** The destructor: whatever is thrown is caught. *)
Definition scope_exit (s : scope) : M (heap * C) unit :=
  let lift {A} (m : M C A) : M (heap * C) A := fun '(h, c) => let '(o, c') := m c in (o, (h, c')) in
  try_all
    (items ← lift sm_items;
     _ ← scope_release_all (new_entries s items);
     lift (sm_insert nullptr (_initial_on_entry s)))
    (mret tt).
End srb.

(** The size of the shared map: [CBEAM_SRB_MAP_BYTES] when it is a number of at
    least 1024 ([strtoull], which negates a number with a minus sign and
    saturates), else 64 KiB. *)
Definition srb_map_bytes (env : option bytes) : Z :=
  match env with
  | None => 2 ^ 16
  | Some env =>
      let '(neg, s) := take_sign (skip_spaces env) in
      let '(v, n) := take_digits 10 0 0 s in
      let v := if bool_decide (size_max < v) then size_max else size_t (if (neg : bool) then - v else v) in
      let rest := if bool_decide (n = O) then env else drop n s in
      if bool_decide (rest = [] /\ 1024 <= v) then v else 2 ^ 16
  end.

(** ** Interface consequences

    A shared map is only looked at through its lookups: [upd m k x m'] says that
    [m'] is [m] with [x] at [k]. *)

Definition upd {V} (m : list (Z * V)) (k : Z) (x : option V) (m' : list (Z * V)) : Prop :=
  forall q, map_find q m' = if decide (q = k) then x else map_find q m.

Lemma upd_eq {V} (m : list (Z * V)) k x m' : upd m k x m' -> map_find k m' = x.
Proof. intros Hu. rewrite (Hu k). by rewrite decide_True. Qed.

Lemma upd_ne {V} (m : list (Z * V)) k x m' q : upd m k x m' -> q <> k -> map_find q m' = map_find q m.
Proof. intros Hu Hq. rewrite (Hu q). by rewrite decide_False. Qed.

Lemma upd_assign {V} (m : list (Z * V)) k v : map_wf m -> upd m k (Some v) (map_assign k v m).
Proof.
  intros Hm q. destruct (decide (q = k)) as [->|Hq]; [apply map_find_assign_eq|].
  by apply map_find_assign_ne.
Qed.

Lemma upd_erase {V} (m : list (Z * V)) k : map_wf m -> upd m k None (map_erase k m).1.
Proof.
  intros Hm q. destruct (decide (q = k)) as [->|Hq]; [by apply map_find_erase_eq|].
  by apply map_find_erase_ne.
Qed.

(** What a map of fixed capacity still promises: an entry that is there can be
    changed or erased.  Only a new entry may find no room.  The segment of
    InterprocessMap is an instance ([segment_updates]). *)
Class SharedMapUpdates (C : Type) `{!SharedMap C Z Z} `{!SharedMapLaws C Z Z} := {
  updates_insert c m k v v' e :
    sm_holds c m -> map_find k m = Some v' -> is_int v -> sm_insert k v c <> (Throw e, c);
  updates_erase c m k e : sm_holds c m -> sm_erase k c <> (Throw e, c);
  updates_update c m k f t v e :
    sm_holds c m -> map_find k m = Some v -> is_int (f v) -> sm_update k f t c <> (Throw e, c);
  (** Addresses and [int]s are keys and values. *)
  updates_key k : is_size_t k -> sm_key k;
  updates_value (v : Z) : is_int v -> sm_value v;
}.

Section counts.
Context {C : Type} `{!SharedMap C Z Z} `{!SharedMapLaws C Z Z} `{!SharedMapUpdates C}.
Implicit Types (m : list (Z * Z)) (c : C).

(** A new entry, when there is room. *)
Lemma c_insert c m k v :
  sm_holds c m -> is_size_t k -> is_int v ->
  (exists c' m', sm_insert k v c = (Ok tt, c') /\ sm_holds c' m' /\ upd m k (Some v) m') \/
  (exists e, sm_insert k v c = (Throw e, c)).
Proof.
  intros Hc Hk Hv. destruct (sm_holds_wf c m Hc) as [Hwf _].
  destruct (sm_insert_writes m k v (updates_key k Hk) (updates_value v Hv) c Hc)
    as [(c' & Hi & Hh)|[e He]]; [left|right; by exists e].
  exists c', (map_assign k v m). split; [done|]. split; [done|]. by apply upd_assign.
Qed.

(** An entry that is there. *)
Lemma c_assign c m k v v' :
  sm_holds c m -> map_find k m = Some v' -> is_size_t k -> is_int v ->
  exists c' m', sm_insert k v c = (Ok tt, c') /\ sm_holds c' m' /\ upd m k (Some v) m'.
Proof.
  intros Hc Hf Hk Hv. destruct (c_insert c m k v Hc Hk Hv) as [?|[e He]]; [done|].
  by destruct (updates_insert c m k v v' e Hc Hf Hv).
Qed.

Lemma c_erase c m k :
  sm_holds c m ->
  exists c' m', sm_erase k c = (Ok tt, c') /\ sm_holds c' m' /\ upd m k None m'.
Proof.
  intros Hc. destruct (sm_holds_wf c m Hc) as [Hwf _].
  destruct (sm_erase_writes m k c Hc) as [(c' & Hi & Hh)|[e He]]; [|by destruct (updates_erase c m k e Hc)].
  exists c', (map_erase k m).1. split; [done|]. split; [done|]. by apply upd_erase.
Qed.

Lemma c_update c m k f t v :
  sm_holds c m -> map_find k m = Some v -> is_int (f v) ->
  exists c' m', sm_update k f t c = (Ok (f v), c') /\ sm_holds c' m' /\ upd m k (Some (f v)) m'.
Proof.
  intros Hc Hf Hv. destruct (sm_holds_wf c m Hc) as [Hwf _].
  destruct (sm_update_writes m k f t v Hf (updates_value _ Hv) c Hc) as [(c' & Hi & Hh)|[e He]];
    [|by destruct (updates_update c m k f t v e Hc)].
  exists c', (map_assign k (f v) m). split; [done|]. split; [done|]. by apply upd_assign.
Qed.

Lemma c_update_or_insert c m k f d :
  sm_holds c m -> is_size_t k -> is_int (match map_find k m with Some v => f v | None => d end) ->
  (exists c' m', sm_update_or_insert k f d c = (Ok tt, c') /\ sm_holds c' m' /\
     upd m k (Some (match map_find k m with Some v => f v | None => d end)) m') \/
  (exists e, sm_update_or_insert k f d c = (Throw e, c)).
Proof.
  intros Hc Hk Hv. destruct (sm_holds_wf c m Hc) as [Hwf _].
  destruct (sm_update_or_insert_writes m k f d (updates_key k Hk) (updates_value _ Hv) c Hc)
    as [(c' & Hi & Hh)|[e He]]; [left|right; by exists e].
  eexists c', _. split; [done|]. split; [done|]. by apply upd_assign.
Qed.

Lemma c_initial c m : sm_holds c m -> get_initial_use_count c = (Ok (default 1 (map_find nullptr m)), c).
Proof. intros Hc. by apply (sm_at_or_default_reads m nullptr 1). Qed.

Lemma c_is_known c m p :
  sm_holds c m -> p <> nullptr ->
  is_known p c = (Ok (if map_find p m is Some _ then true else false), c).
Proof.
  intros Hc Hp. unfold is_known. rewrite bool_decide_eq_false_2 by done.
  step_with (sm_count_reads m p c Hc). unfold map_count. by destruct (map_find p m).
Qed.
End counts.

(** ** The operations on one instance *)

Section operations.
Context `{AllocatorLaws} {C : Type} `{!SharedMap C Z Z} `{!SharedMapLaws C Z Z} `{!SharedMapUpdates C}.
Implicit Types (m : list (Z * Z)) (c : C) (h : heap) (b : buf).

Lemma on_counts_step {A B} (f : M C A) (g : A -> M (heap * C * buf) B) h c b a c' :
  f c = (Ok a, c') -> (x ← on_counts f; g x) (h, c, b) = g a (h, c', b).
Proof. intros Hf. unfold mbind, M_bind, on_counts. by rewrite Hf. Qed.

Lemma on_buffer_step {A B} (f : BM A) (g : A -> M (heap * C * buf) B) h c b a h' b' :
  f (h, b) = (Ok a, (h', b')) -> (x ← on_buffer f; g x) (h, c, b) = g a (h', c, b').
Proof. intros Hf. unfold mbind, M_bind, on_buffer. by rewrite Hf. Qed.

Lemma on_buffer_throw {A B} (f : BM A) (g : A -> M (heap * C * buf) B) h c b e h' b' :
  f (h, b) = (Throw e, (h', b')) -> (x ← on_buffer f; g x) (h, c, b) = (Throw e, (h', c, b')).
Proof. intros Hf. unfold mbind, M_bind, on_buffer. by rewrite Hf. Qed.

Lemma on_heap_step {B} (f : heap -> outcome heap) (g : unit -> M (heap * C * buf) B) h c b h' :
  f h = Ok h' -> (x ← on_heap f; g x) (h, c, b) = g tt (h', c, b).
Proof. intros Hf. unfold mbind, M_bind, on_heap. by rewrite Hf. Qed.

Lemma fields_step {B} (g : buf -> M (heap * C * buf) B) h c b : (x ← fields; g x) (h, c, b) = g b (h, c, b).
Proof. done. Qed.

Lemma set_fields_step {B} (g : unit -> M (heap * C * buf) B) h c b b' :
  (x ← set_fields b'; g x) (h, c, b) = g tt (h, c, b').
Proof. done. Qed.

(** The count after one instance lets go, and the heap. *)
Definition release (n : option Z) : option Z :=
  match n with
  | Some n => if bool_decide (n = 1) then None else Some (n - 1)
  | None => None
  end.

Definition release_heap (n : option Z) (p : addr) h : heap :=
  if bool_decide (n = Some 1) then delete p h else h.

Lemma srb_reset_spec h c b m :
  sm_holds c m -> _buffer b <> nullptr ->
  (forall n, map_find (_buffer b) m = Some n -> is_int (n - 1)) ->
  (map_find (_buffer b) m = Some 1 -> is_Some (h !! _buffer b)) ->
  exists c' m', srb_reset (h, c, b) =
      (Ok tt, (release_heap (map_find (_buffer b) m) (_buffer b) h, c', buf_default)) /\
    sm_holds c' m' /\ upd m (_buffer b) (release (map_find (_buffer b) m)) m'.
Proof.
  intros Hc Hp Hint Hlive. unfold srb_reset, try_catch. rewrite fields_step.
  erewrite on_counts_step by (by apply c_is_known).
  destruct (map_find (_buffer b) m) as [n|] eqn:Ef.
  - destruct (c_update c m (_buffer b) dec key_not_found n Hc Ef (Hint n eq_refl)) as (c1 & m1 & E1 & H1 & U1).
    unfold mbind at 1, M_bind at 1. erewrite on_counts_step by exact E1.
    unfold release, release_heap, dec in *. destruct (decide (n = 1)) as [->|Hn].
    + rewrite !bool_decide_eq_true_2 by done.
      destruct (c_erase c1 m1 (_buffer b) H1) as (c2 & m2 & E2 & H2 & U2).
      erewrite on_counts_step by exact E2. destruct (Hlive eq_refl) as [blk Hblk].
      unfold on_buffer, buffer_reset, free. rewrite bool_decide_eq_false_2, Hblk by done.
      exists c2, m2. split; [done|]. split; [done|]. intros q. rewrite (U2 q).
      case_decide; [done|]. by apply (upd_ne _ _ _ _ _ U1).
    + rewrite !bool_decide_eq_false_2 by (congruence || lia). exists c1, m1. done.
  - exists c, m. split; [done|]. split; [done|]. intros q. simpl. case_decide; congruence.
Qed.

Lemma srb_reset_null h c b m :
  sm_holds c m -> _buffer b = nullptr -> srb_reset (h, c, b) = (Ok tt, (h, c, buf_default)).
Proof.
  intros Hc Hp. unfold srb_reset, try_catch. rewrite fields_step.
  unfold is_known. by rewrite bool_decide_eq_true_2.
Qed.

Lemma constructor_body_ok (f : M (heap * C * buf) unit) w w' :
  f w = (Ok tt, w') -> constructor_body f w = (Ok tt, w').
Proof. unfold constructor_body. by intros ->. Qed.

(** A new block starts with the initial count, and is not known before; without
    memory or without room for its count the constructor changes nothing. *)
Lemma srb_new_spec h c b m size :
  sm_holds c m -> 0 <= size <= size_max ->
  (forall p, is_fresh h p -> map_find p m = None) ->
  is_int (default 1 (map_find nullptr m)) ->
  (exists e b', srb_new size 1 (h, c, b) = (Throw e, (h, c, b'))) \/
  exists p blk c' m', srb_new size 1 (h, c, b) = (Ok tt, (<[p := blk]> h, c', Buf size p)) /\
    is_fresh h p /\ Z.of_nat (length blk) = size /\
    sm_holds c' m' /\ upd m p (Some (default 1 (map_find nullptr m))) m'.
Proof.
  intros Hc Hsz Hfresh Hint. unfold srb_new.
  assert (size_t (size * 1) = size) as Hs by (rewrite Z.mul_1_r; apply size_t_id; done).
  destruct (malloc size h) as [[p h1]|] eqn:Em.
  - apply malloc_Some in Em as Hm. destruct Hm as (Hf & blk & Hbl & ->).
    erewrite on_buffer_step by (unfold buffer_new; by rewrite Hs, Em).
    destruct (c_update_or_insert c m p inc (default 1 (map_find nullptr m)) Hc) as [(c1 & m1 & E1 & H1 & U1)|[e E1]];
      [destruct Hf; unfold is_size_t, nullptr in *; lia|by rewrite Hfresh| |].
    + right. exists p, blk, c1, m1. rewrite (Hfresh p Hf) in U1. split; [|repeat split; try done; try apply Hf; lia].
      apply constructor_body_ok. unfold count_new_block. rewrite fields_step.
      erewrite on_counts_step by (by apply c_initial). unfold on_counts. simpl. by rewrite E1.
    + left. exists e, buf_default. unfold constructor_body, count_new_block. rewrite fields_step.
      erewrite on_counts_step by (by apply c_initial). unfold on_counts at 1. cbn [_buffer]. rewrite E1.
      unfold on_buffer, buffer_reset, free. cbn [_buffer].
      rewrite bool_decide_eq_false_2, lookup_insert_eq, delete_insert_id by (apply Hf || by eapply fresh_not_null).
      done.
  - left. eexists _, _. by erewrite on_buffer_throw by (unfold buffer_new; by rewrite Hs, Em).
Qed.

(** A copy shares the block and adds one to its count. *)
Lemma srb_copy_spec h c b other m n :
  sm_holds c m -> _buffer other <> nullptr -> map_find (_buffer other) m = Some n -> is_int (n + 1) ->
  exists c' m', srb_copy other (h, c, b) = (Ok tt, (h, c', other)) /\
    sm_holds c' m' /\ upd m (_buffer other) (Some (n + 1)) m'.
Proof.
  intros Hc Hp Hf Hint.
  destruct (c_update c m (_buffer other) inc key_not_found n Hc Hf Hint) as (c1 & m1 & E1 & H1 & U1).
  exists c1, m1. split; [|done]. unfold srb_copy. rewrite set_fields_step.
  apply constructor_body_ok. rewrite bool_decide_eq_false_2 by done.
  rewrite set_fields_step. by erewrite on_counts_step by exact E1.
Qed.

Lemma srb_from_address_spec h c b p m n :
  sm_holds c m -> map_find p m = Some n -> is_int (n + 1) ->
  exists c' m', srb_from_address p (h, c, b) = (Ok tt, (h, c', Buf 0 p)) /\
    sm_holds c' m' /\ upd m p (Some (n + 1)) m'.
Proof.
  intros Hc Hf Hint. unfold srb_from_address. rewrite set_fields_step.
  edestruct (c_update c m p inc) as (c1 & m1 & E1 & H1 & U1); [done..|].
  exists c1, m1. split; [|done]. apply constructor_body_ok. by erewrite on_counts_step by exact E1.
Qed.

Lemma get_step {W B} (g : W -> M W B) w : (x ← get; g x) w = g w w.
Proof. done. Qed.

Lemma put_step {W B} (g : unit -> M W B) w w' : (x ← put w'; g x) w = g tt w'.
Proof. done. Qed.

Lemma mret_step {W A B} (g : A -> M W B) w a : (x ← mret a; g x) w = g a w.
Proof. done. Qed.

Lemma try_counts_step {A B} (f : M C A) k (g : A -> M (heap * C * buf) B) h c b a c' :
  f c = (Ok a, c') -> (x ← try_all (on_counts f) k; g x) (h, c, b) = g a (h, c', b).
Proof. intros Hf. unfold mbind, M_bind, try_all, on_counts. by rewrite Hf. Qed.

(** [append] to a shared block leaves it alone: the bytes go to a new block,
    whose count is the initial one, and the old count drops by one.  It throws
    without memory, or without room for the new count. *)
Lemma append_cow_spec h c b m n blk data :
  sm_holds c m -> _buffer b <> nullptr -> map_find (_buffer b) m = Some n -> 1 < n -> is_int n ->
  h !! _buffer b = Some blk -> Z.of_nat (length blk) = _size b ->
  _size b + Z.of_nat (length data) <= size_max ->
  is_int (default 1 (map_find nullptr m)) ->
  (exists e w, append_cow data (h, c, b) = (Throw e, w)) \/
  exists q c' m1 m', append_cow data (h, c, b) =
      (Ok tt, (<[q := blk ++ data]> h, c', Buf (_size b + Z.of_nat (length data)) q)) /\
    is_fresh h q /\ sm_holds c' m' /\
    upd m (_buffer b) (Some (n - 1)) m1 /\ upd m1 q (Some (default 1 (map_find nullptr m))) m'.
Proof.
  intros Hc Hp Hf Hn Hin Hblk Hlen Hmax Hint. unfold append_cow.
  rewrite fields_step, get_step, size_t_id by (unfold is_size_t; lia).
  destruct (malloc _ h) as [[q h1]|] eqn:Em; [|left; by eexists _, _].
  apply malloc_Some in Em as (Hq & fresh & Hfl & ->).
  assert (q <> _buffer b) as Hne by (intros ->; destruct Hq; congruence).
  destruct (c_update c m (_buffer b) dec key_not_found n Hc Hf) as (c1 & m1 & E1 & H1 & U1);
    [unfold is_int, dec in *; lia|].
  assert (map_find nullptr m1 = map_find nullptr m) as Hnull by (apply (upd_ne _ _ _ _ _ U1); done).
  rewrite put_step.
  replace (load (_buffer b) (_size b) (<[q:=fresh]> h)) with (Ok blk)
    by (symmetry; rewrite <- Hlen; apply load_all; by rewrite lookup_insert_ne).
  erewrite on_heap_step by (apply memcpy_to_start; [apply lookup_insert_eq|lia]).
  erewrite on_heap_step.
  2: { rewrite <- Hlen. eapply memcpy_to_end; [apply lookup_insert_eq|]. rewrite length_drop. lia. }
  rewrite !insert_insert_eq. erewrite try_counts_step by exact E1.
  unfold dec. rewrite bool_decide_eq_false_2 by lia.
  rewrite mret_step, set_fields_step.
  erewrite on_counts_step by (by apply c_initial). rewrite Hnull. unfold on_counts.
  destruct (c_insert c1 m1 q (default 1 (map_find nullptr m)) H1) as [(c2 & m2 & E2 & H2 & U2)|[e E2]];
    [destruct Hq; unfold is_size_t, nullptr in *; lia|done| |]; rewrite E2.
  - right. by exists q, c2, m1, m2.
  - left. by eexists _, _.
Qed.

(** [append] without a block: a new one, with the initial count. *)
Lemma append_first_spec h c b m data :
  sm_holds c m -> b = buf_default -> h !! nullptr = None -> data <> [] ->
  Z.of_nat (length data) <= size_max -> is_int (default 1 (map_find nullptr m)) ->
  (exists e w, append_exclusive data (h, c, b) = (Throw e, w)) \/
  exists q c' m', append_exclusive data (h, c, b) =
      (Ok tt, (<[q := data]> h, c', Buf (Z.of_nat (length data)) q)) /\
    is_fresh h q /\ sm_holds c' m' /\ upd m q (Some (default 1 (map_find nullptr m))) m'.
Proof.
  intros Hc -> Hnull Hd Hmax Hint. unfold append_exclusive. rewrite fields_step.
  rewrite bool_decide_eq_true_2 by done. cbn [_buffer buf_default]. rewrite mret_step.
  assert (buf_wf h buf_default) as Hwf by (split; [done|split; [vm_compute; split; congruence|by left]]).
  assert (0 < length data)%nat by (destruct data; [done|simpl; lia]).
  destruct (buffer_append data (h, buf_default)) as [o [h' b']] eqn:Ea.
  eapply buffer_append_cases in Ea as Ha; [|done|simpl; lia].
  destruct Ha as [(-> & -> & ->)|(-> & _ & _ & Hs & Hm & Hq & ->)].
  { left. eexists _, _. by erewrite on_buffer_throw by exact Ea. }
  erewrite on_buffer_step by exact Ea. rewrite fields_step.
  destruct b' as [sz q]. cbn [_buffer _size buf_default] in *.
  destruct Hm as [->|Hfr]; [done|].
  rewrite bool_decide_eq_false_2 by done.
  erewrite on_counts_step by (by apply c_initial). unfold on_counts.
  destruct (c_insert c m q (default 1 (map_find nullptr m)) Hc) as [(c2 & m2 & E2 & H2 & U2)|[e E2]];
    [destruct Hfr; unfold is_size_t, nullptr in *; lia|done| |]; rewrite E2; [|left; by eexists _, _].
  right. exists q, c2, m2. split; [|done].
  unfold buf_contents. cbn [_buffer buf_default]. rewrite Hnull, delete_id by done. cbn.
  do 2 f_equal. f_equal. lia.
Qed.

(** [append] by the only owner: the block grows, in place or at a new address
    that takes over the count. *)
Lemma append_owner_spec h c b m blk data :
  sm_holds c m -> _buffer b <> nullptr -> map_find (_buffer b) m = Some 1 ->
  h !! nullptr = None -> h !! _buffer b = Some blk -> Z.of_nat (length blk) = _size b -> 0 < _size b ->
  _size b + Z.of_nat (length data) <= size_max ->
  (exists e w, append_exclusive data (h, c, b) = (Throw e, w)) \/
  exists q c' m', append_exclusive data (h, c, b) =
      (Ok tt, (<[q := blk ++ data]> (delete (_buffer b) h), c', Buf (_size b + Z.of_nat (length data)) q)) /\
    sm_holds c' m' /\
    ((q = _buffer b /\ m' = m) \/
     (is_fresh h q /\ exists m1, upd m q (Some 1) m1 /\ upd m1 (_buffer b) None m')).
Proof.
  intros Hc Hp Hf Hnull Hblk Hlen Hpos Hmax. unfold append_exclusive. rewrite fields_step.
  rewrite bool_decide_eq_false_2 by done.
  assert ((initial ← on_counts get_initial_use_count;
           on_counts (sm_at_or_default (_buffer b) initial)) (h, c, b) = (Ok 1, (h, c, b))) as E0.
  { erewrite on_counts_step by (by apply c_initial). unfold on_counts.
    rewrite (sm_at_or_default_reads m (_buffer b) _ c Hc). by rewrite Hf. }
  step_with E0.
  assert (buf_wf h b) as Hwf.
  { split; [done|]. split; [unfold is_size_t; lia|]. right. split; [done|]. by exists blk. }
  destruct (buffer_append data (h, b)) as [o [h' b']] eqn:Ea.
  eapply buffer_append_cases in Ea as Ha; [|done|lia].
  destruct Ha as [(-> & -> & ->)|(-> & _ & _ & Hs & Hm & Hq & ->)].
  { left. eexists _, _. by erewrite on_buffer_throw by exact Ea. }
  erewrite on_buffer_step by exact Ea. rewrite fields_step.
  destruct b' as [sz q]. cbn [_buffer _size] in *. subst sz.
  assert (buf_contents h b = blk) as Hcont by (unfold buf_contents; by rewrite Hblk).
  rewrite Hcont. destruct (decide (q = _buffer b)) as [->|Hne].
  - rewrite bool_decide_eq_true_2 by done. right. exists (_buffer b), c, m. split; [done|]. split; [done|by left].
  - destruct Hm as [?|Hfr]; [done|]. rewrite !bool_decide_eq_false_2 by done.
    destruct (c_insert c m q 1 Hc) as [(c1 & m1 & E1 & H1 & U1)|[e E1]];
      [destruct Hfr; unfold is_size_t, nullptr in *; lia|unfold is_int; lia| |].
    2: { left. unfold on_counts, mbind, M_bind. rewrite E1. by eexists _, _. }
    right. destruct (c_erase c1 m1 (_buffer b) H1) as (c2 & m2 & E2 & H2 & U2).
    exists q, c2, m2. split; [|split; [done|right; eauto]].
    erewrite on_counts_step by exact E1. unfold on_counts. by rewrite E2.
Qed.
End operations.

(** ** Instances and scopes *)

(** The instances that hold the block at [p]. *)
Definition refs (p : addr) (o : gmap nat buf) : Z :=
  Z.of_nat (size (filter (fun x : nat * buf => _buffer x.2 = p) o)).

(** The open scopes that will drop a reference to [p] when they end. *)
Definition scopes_holding (p : addr) (sc : list scope) : Z :=
  Z.of_nat (length (filter (fun s => p ∉ _old_entries s) sc)).

Definition holds_it (p : addr) (b : buf) : Z := if bool_decide (_buffer b = p) then 1 else 0.

Lemma refs_insert p o i b : o !! i = None -> refs p (<[i := b]> o) = refs p o + holds_it p b.
Proof.
  intros Hi. unfold refs, holds_it. rewrite map_filter_insert.
  assert (filter (fun x : nat * buf => _buffer x.2 = p) o !! i = None) as Hf
    by (apply map_lookup_filter_None; by left).
  case_bool_decide as Hb; case_decide; try done.
  - rewrite map_size_insert_None by done. lia.
  - rewrite delete_id by done. lia.
Qed.

Lemma refs_delete p o i b : o !! i = Some b -> refs p (delete i o) = refs p o - holds_it p b.
Proof.
  intros Hi. rewrite <- (insert_delete_id o i b Hi) at 2.
  rewrite refs_insert by apply lookup_delete_eq. lia.
Qed.

Lemma refs_update p o i b b' :
  o !! i = Some b -> refs p (<[i := b']> o) = refs p o - holds_it p b + holds_it p b'.
Proof.
  intros Hi. rewrite <- insert_delete_eq, refs_insert by apply lookup_delete_eq.
  by rewrite (refs_delete p o i b).
Qed.

Lemma refs_bound p o : 0 <= refs p o <= Z.of_nat (size o).
Proof.
  unfold refs. pose proof (map_size_filter (fun x : nat * buf => _buffer x.2 = p) o). lia.
Qed.

Lemma refs_pos p o i b : o !! i = Some b -> _buffer b = p -> 0 < refs p o.
Proof.
  intros Hi Hb. pose proof (refs_delete p o i b Hi) as Hd. pose proof (refs_bound p (delete i o)).
  unfold holds_it in Hd. rewrite bool_decide_eq_true_2 in Hd by done. lia.
Qed.

Lemma refs_zero p o : refs p o = 0 -> forall i b, o !! i = Some b -> _buffer b <> p.
Proof. intros Hz i b Hi Hb. pose proof (refs_pos p o i b Hi Hb). lia. Qed.

Lemma scopes_holding_bound p sc : 0 <= scopes_holding p sc <= Z.of_nat (length sc).
Proof. unfold scopes_holding. pose proof (length_filter (fun s => p ∉ _old_entries s) sc). lia. Qed.

Lemma scopes_holding_all p sc :
  Forall (fun s => p ∉ _old_entries s) sc -> scopes_holding p sc = Z.of_nat (length sc).
Proof.
  unfold scopes_holding. induction 1 as [|s sc Hs Hall IH]; [done|].
  rewrite filter_cons_True by done. simpl. lia.
Qed.

Section system.
Context `{AllocatorLaws} {C : Type} `{!SharedMap C Z Z} `{!SharedMapLaws C Z Z} `{!SharedMapUpdates C}.
Implicit Types (m : list (Z * Z)) (c : C) (h : heap) (b : buf) (o : gmap nat buf) (sc : list scope) (p q : addr).

(** Every known block is live, was not allocated by anyone else, and has the
    count [t]; every other address is as in the heap [h0] of the rest of the
    program, and no instance refers to it. *)
Definition blocks_ok h0 h m (r t : addr -> Z) : Prop :=
  forall p, p <> nullptr ->
  match map_find p m with
  | None => r p = 0 /\ h !! p = h0 !! p
  | Some n => n = t p /\ 0 < n /\ is_Some (h !! p) /\ h0 !! p = None
  end.

Lemma blocks_ok_fresh h0 h m r t p : blocks_ok h0 h m r t -> is_fresh h p -> map_find p m = None.
Proof.
  intros Hb [Hp Hf]. specialize (Hb p ltac:(unfold nullptr in *; lia)).
  destruct (map_find p m); [|done]. destruct Hb as (_ & _ & [? ?] & _). congruence.
Qed.

Lemma blocks_ok_new h0 h m r t p blk n m' r' t' :
  blocks_ok h0 h m r t -> is_fresh h p -> upd m p (Some n) m' -> 0 < n -> t' p = n ->
  (forall q, q <> p -> r' q = r q /\ t' q = t q) ->
  blocks_ok h0 (<[p := blk]> h) m' r' t'.
Proof.
  intros Hb Hp Hu Hn Ht Hq q Hnull. pose proof (blocks_ok_fresh _ _ _ _ _ _ Hb Hp) as Hnone.
  specialize (Hb q Hnull). destruct (decide (q = p)) as [->|Hne].
  - rewrite (upd_eq _ _ _ _ Hu), lookup_insert_eq. rewrite Hnone in Hb. destruct Hp, Hb.
    split; [done|]. split; [done|]. split; [by eexists|congruence].
  - rewrite (upd_ne _ _ _ _ _ Hu), lookup_insert_ne by done. destruct (Hq q Hne) as [-> ->]. done.
Qed.

Lemma blocks_ok_count h0 h m r t p n n' m' r' t' :
  blocks_ok h0 h m r t -> map_find p m = Some n -> upd m p (Some n') m' -> 0 < n' -> t' p = n' ->
  (forall q, q <> p -> r' q = r q /\ t' q = t q) -> blocks_ok h0 h m' r' t'.
Proof.
  intros Hb Hf Hu Hn Ht Hq q Hnull. specialize (Hb q Hnull). destruct (decide (q = p)) as [->|Hne].
  - rewrite (upd_eq _ _ _ _ Hu). rewrite Hf in Hb. naive_solver.
  - rewrite (upd_ne _ _ _ _ _ Hu) by done. destruct (Hq q Hne) as [-> ->]. done.
Qed.

Lemma blocks_ok_release h0 h m r t p n m' r' t' :
  blocks_ok h0 h m r t -> p <> nullptr -> map_find p m = Some n -> upd m p (release (Some n)) m' ->
  t' p = n - 1 -> (n = 1 -> r' p = 0) ->
  (forall q, q <> p -> r' q = r q /\ t' q = t q) ->
  blocks_ok h0 (release_heap (Some n) p h) m' r' t'.
Proof.
  intros Hb Hp Hf Hu Ht Hr Hq. pose proof (Hb p Hp) as Hbp. rewrite Hf in Hbp.
  unfold release, release_heap in *. destruct (decide (n = 1)) as [->|Hn].
  - rewrite bool_decide_eq_true_2 in * by done. intros q Hnull. specialize (Hb q Hnull).
    destruct (decide (q = p)) as [->|Hne].
    + rewrite (upd_eq _ _ _ _ Hu), lookup_delete_eq. split; [by apply Hr|]. by destruct Hbp as (_ & _ & _ & ->).
    + rewrite (upd_ne _ _ _ _ _ Hu), lookup_delete_ne by done. destruct (Hq q Hne) as [-> ->]. done.
  - rewrite bool_decide_eq_false_2 in Hu by done. rewrite bool_decide_eq_false_2 by congruence.
    eapply blocks_ok_count; [done|done|done|lia|done|done].
Qed.

(** Changing the value under [nullptr], the totals of unknown blocks, or the
    bytes of a known block changes nothing. *)
Lemma blocks_ok_ext h0 h m r t h' m' r' t' :
  blocks_ok h0 h m r t ->
  (forall q, q <> nullptr -> map_find q m' = map_find q m) ->
  (forall q, q <> nullptr -> r' q = r q) ->
  (forall q n, q <> nullptr -> map_find q m = Some n -> t' q = t q /\ (is_Some (h !! q) -> is_Some (h' !! q))) ->
  (forall q, q <> nullptr -> map_find q m = None -> h' !! q = h !! q) ->
  blocks_ok h0 h' m' r' t'.
Proof.
  intros Hb Hm Hr Ht Hh q Hq. specialize (Hb q Hq). rewrite (Hm q Hq), (Hr q Hq).
  destruct (map_find q m) as [n|] eqn:E.
  - destruct (Ht q n Hq E) as [-> ?]. naive_solver.
  - by rewrite (Hh q Hq E).
Qed.

(** The fields of an instance fit its block; size 0 means that the size is
    unknown (or that there is nothing). *)
Definition obj_ok h b : Prop :=
  b = buf_default \/
  (_buffer b <> nullptr /\
   (_size b = 0 \/ 0 < _size b /\ exists blk, h !! _buffer b = Some blk /\ Z.of_nat (length blk) = _size b)).

Definition objs_ok h o : Prop := forall i b, o !! i = Some b -> obj_ok h b.

Lemma objs_ok_heap h h' o :
  objs_ok h o -> (forall p, p <> nullptr -> 0 < refs p o -> h' !! p = h !! p) -> objs_ok h' o.
Proof.
  intros Ho Hh i b Hi. destruct (Ho i b Hi) as [->|(Hp & Hs)]; [by left|right].
  split; [done|]. rewrite (Hh (_buffer b)); [done|done|]. by eapply refs_pos.
Qed.

Lemma objs_ok_insert h o i b : objs_ok h o -> obj_ok h b -> objs_ok h (<[i := b]> o).
Proof.
  intros Ho Hb j b'. destruct (decide (j = i)) as [->|Hj].
  - rewrite lookup_insert_eq. by intros [= <-].
  - rewrite lookup_insert_ne by done. apply Ho.
Qed.

Lemma objs_ok_delete h o i : objs_ok h o -> objs_ok h (delete i o).
Proof. intros Ho j b [_ Hj]%lookup_delete_Some. by eapply Ho. Qed.

(** Scopes nest: each remembers how many were open below it. *)
Fixpoint scope_levels sc : Prop :=
  match sc with
  | [] => True
  | s :: sc => _initial_on_entry s = 1 + Z.of_nat (length sc) /\ scope_levels sc
  end.

Record sys : Type := Sys { s_heap : heap; s_counts : C; s_objs : gmap nat buf; s_scopes : list scope }.

Definition total o sc p : Z := refs p o + scopes_holding p sc.

Record sys_ok h0 h m o sc : Prop := {
  ok_null : h !! nullptr = None;
  ok_blocks : blocks_ok h0 h m (fun p => refs p o) (total o sc);
  ok_initial : default 1 (map_find nullptr m) = 1 + Z.of_nat (length sc);
  ok_levels : scope_levels sc;
  ok_objs : objs_ok h o;
}.

Definition sys_inv h0 (s : sys) : Prop :=
  exists m, sm_holds (s_counts s) m /\ sys_ok h0 (s_heap s) m (s_objs s) (s_scopes s).

(** Counts are [int]s: fewer than 2^31 - 2 instances and scopes. *)
Definition within_int o sc : Prop := Z.of_nat (size o) + Z.of_nat (length sc) < 2 ^ 31 - 2.

Lemma total_bound o sc p : 0 <= total o sc p <= Z.of_nat (size o) + Z.of_nat (length sc).
Proof. unfold total. pose proof (refs_bound p o). pose proof (scopes_holding_bound p sc). lia. Qed.

Lemma ok_entry h0 h m o sc p n :
  sys_ok h0 h m o sc -> p <> nullptr -> map_find p m = Some n ->
  n = total o sc p /\ 0 < n /\ is_Some (h !! p).
Proof. intros Hok Hp Hf. pose proof (ok_blocks _ _ _ _ _ Hok p Hp) as Hb. rewrite Hf in Hb. naive_solver. Qed.

Lemma ok_known h0 h m o sc p :
  sys_ok h0 h m o sc -> p <> nullptr -> 0 < refs p o -> exists n, map_find p m = Some n.
Proof.
  intros Hok Hp Hr. pose proof (ok_blocks _ _ _ _ _ Hok p Hp) as Hb.
  destruct (map_find p m) as [n|]; [by exists n|]. destruct Hb. lia.
Qed.

Lemma within_int_entry h0 h m o sc p n :
  sys_ok h0 h m o sc -> within_int o sc -> p <> nullptr -> map_find p m = Some n ->
  is_int (n - 1) /\ is_int n /\ is_int (n + 1).
Proof.
  intros Hok Hw Hp Hf. destruct (ok_entry _ _ _ _ _ _ _ Hok Hp Hf) as (-> & ? & _).
  pose proof (total_bound o sc p). unfold within_int, is_int in *. lia.
Qed.

Lemma within_int_initial h0 h m o sc :
  sys_ok h0 h m o sc -> within_int o sc -> is_int (default 1 (map_find nullptr m)).
Proof. intros Hok Hw. rewrite (ok_initial _ _ _ _ _ Hok). unfold within_int, is_int in *. lia. Qed.

(** An instance takes a new block, known to no scope. *)
Lemma sys_new_block h0 h m o sc p blk m' o' :
  sys_ok h0 h m o sc -> is_fresh h p -> Forall (fun s => p ∉ _old_entries s) sc ->
  upd m p (Some (default 1 (map_find nullptr m))) m' ->
  (forall q, refs q o' = refs q o + (if bool_decide (p = q) then 1 else 0)) ->
  objs_ok (<[p := blk]> h) o' ->
  sys_ok h0 (<[p := blk]> h) m' o' sc.
Proof.
  intros Hok Hp Hsc Hu Hr Ho. pose proof (fresh_not_null _ _ Hp) as Hnn.
  pose proof (blocks_ok_fresh _ _ _ _ _ _ (ok_blocks _ _ _ _ _ Hok) Hp) as Hnone.
  pose proof (ok_blocks _ _ _ _ _ Hok p Hnn) as Hbp. rewrite Hnone in Hbp. destruct Hbp as [Hrp _].
  destruct Hok as [Hnull Hb Hi Hl _]. split; [by rewrite lookup_insert_ne|..|done|done].
  - eapply blocks_ok_new; [done|done|done|lia|..]; unfold total.
    + rewrite Hr, Hrp, scopes_holding_all, bool_decide_eq_true_2 by done. lia.
    + intros q Hq. rewrite Hr, bool_decide_eq_false_2 by done. lia.
  - by rewrite (upd_ne _ _ _ _ _ Hu) by done.
Qed.

(** An instance joins a known block. *)
Lemma sys_join h0 h m o sc p n m' o' :
  sys_ok h0 h m o sc -> p <> nullptr -> map_find p m = Some n -> upd m p (Some (n + 1)) m' ->
  (forall q, refs q o' = refs q o + (if bool_decide (p = q) then 1 else 0)) ->
  objs_ok h o' -> sys_ok h0 h m' o' sc.
Proof.
  intros Hok Hp Hf Hu Hr Ho. destruct (ok_entry _ _ _ _ _ _ _ Hok Hp Hf) as (Hn & ? & _).
  destruct Hok as [Hnull Hb Hi Hl _]. split; [done|..|done|done].
  - eapply blocks_ok_count; [done|done|done|lia|..]; unfold total in *.
    + rewrite Hr, bool_decide_eq_true_2 by done. lia.
    + intros q Hq. rewrite Hr, bool_decide_eq_false_2 by done. lia.
  - by rewrite (upd_ne _ _ _ _ _ Hu) by done.
Qed.

(** An instance leaves its block. *)
Lemma sys_leave h0 h m o sc p n m' o' :
  sys_ok h0 h m o sc -> p <> nullptr -> map_find p m = Some n -> upd m p (release (Some n)) m' ->
  (forall q, refs q o' = refs q o - (if bool_decide (p = q) then 1 else 0)) ->
  objs_ok h o' -> sys_ok h0 (release_heap (Some n) p h) m' o' sc.
Proof.
  intros Hok Hp Hf Hu Hr Ho. destruct (ok_entry _ _ _ _ _ _ _ Hok Hp Hf) as (Hn & ? & _).
  unfold total in Hn. pose proof (refs_bound p o') as Hb'. pose proof (scopes_holding_bound p sc).
  assert (refs p o' = refs p o - 1) as Hrp by (by rewrite Hr, bool_decide_eq_true_2).
  destruct Hok as [Hnull Hb Hi Hl _]. split; [..|done|].
  - unfold release_heap. case_bool_decide; [|done]. by rewrite lookup_delete_ne.
  - eapply blocks_ok_release; [done|done|done|done|..]; unfold total in *.
    + lia.
    + intros ->. lia.
    + intros q Hq. rewrite Hr, bool_decide_eq_false_2 by done. lia.
  - by rewrite (upd_ne _ _ _ _ _ Hu) by done.
  - apply (objs_ok_heap h); [done|]. intros q Hq Hrq. unfold release_heap.
    case_bool_decide as Hn1; [|done]. injection Hn1 as ->. rewrite lookup_delete_ne; [done|].
    intros ->. lia.
Qed.

(** ** Each operation that returns keeps the invariant *)

(** The address of a new block was not in use when an open scope began. *)
Definition fresh_in sc p : Prop := Forall (fun s => p ∉ _old_entries s) sc.

(** What the allocator did between two heaps: while scopes are open, a block
    appears only at an address that none of them found when it began, and no
    block goes when another one comes (a block does not move).  Without scopes
    the allocator is free. *)
Definition placed sc h h' : Prop := forall p,
  h !! p = None -> is_Some (h' !! p) ->
  fresh_in sc p /\ (sc = [] \/ forall q, is_Some (h !! q) -> is_Some (h' !! q)).

Lemma placed_fresh sc h h' p : placed sc h h' -> is_fresh h p -> is_Some (h' !! p) -> fresh_in sc p.
Proof. intros Hpl [_ Hp] Hs. by apply (Hpl p Hp Hs). Qed.

Lemma placed_shrink sc h h' : h' ⊆ h -> placed sc h h'.
Proof. intros Hs p Hp [blk Hb]. rewrite (lookup_weaken _ _ _ _ Hb Hs) in Hp. done. Qed.

Lemma placed_none h h' : placed [] h h'.
Proof. intros p _ _. split; [constructor|by left]. Qed.

Lemma refs_add o i b q :
  o !! i = None -> refs q (<[i := b]> o) = refs q o + (if bool_decide (_buffer b = q) then 1 else 0).
Proof. intros Hi. by rewrite refs_insert. Qed.

Lemma sys_new h0 h c m o sc i size :
  sm_holds c m -> sys_ok h0 h m o sc -> within_int o sc -> o !! i = None -> 0 <= size <= size_max ->
  match srb_new size 1 (h, c, buf_default) with
  | (Ok _, (h', c', b')) => placed sc h h' -> sys_inv h0 (Sys h' c' (<[i := b']> o) sc)
  | (Throw _, (h', c', _)) => h' = h /\ c' = c
  | (UB, _) => False
  end.
Proof.
  intros Hc Hok Hw Hi Hsz.
  destruct (srb_new_spec h c buf_default m size Hc Hsz) as [(e & b' & ->)|(p & blk & c' & m' & -> & Hp & Hl & Hh & Hu)].
  - intros p. by eapply blocks_ok_fresh, ok_blocks.
  - by eapply within_int_initial.
  - done.
  - intros Hpl. exists m'. split; [done|]. simpl.
    assert (fresh_in sc p) as Hsc by (eapply placed_fresh; [done|done|rewrite lookup_insert_eq; by eexists]).
    eapply sys_new_block; [done|done|done|done|intros q; by apply refs_add|].
    apply objs_ok_insert.
    + apply (objs_ok_heap h); [apply Hok|]. intros q Hq Hr. rewrite lookup_insert_ne; [done|].
      intros ->. destruct (ok_known _ _ _ _ _ _ Hok Hq Hr) as [n Hn].
      by rewrite (blocks_ok_fresh _ _ _ _ _ _ (ok_blocks _ _ _ _ _ Hok) Hp) in Hn.
    + right. split; [by eapply fresh_not_null|]. simpl. rewrite lookup_insert_eq.
      destruct (decide (size = 0)); [by left|right]. split; [lia|by exists blk].
Qed.

Lemma sys_copy h0 h c m o sc i j b :
  sm_holds c m -> sys_ok h0 h m o sc -> within_int o sc -> o !! i = None -> o !! j = Some b ->
  match srb_copy b (h, c, buf_default) with
  | (Ok _, (h', c', b')) => b' = b /\ sys_inv h0 (Sys h' c' (<[i := b']> o) sc)
  | (Throw _, (h', c', _)) => h' = h /\ c' = c
  | (UB, _) => False
  end.
Proof.
  intros Hc Hok Hw Hi Hj. destruct (decide (_buffer b = nullptr)) as [Hnull|Hp].
  - unfold srb_copy. rewrite set_fields_step. unfold constructor_body.
    rewrite bool_decide_eq_true_2 by done. done.
  - destruct (ok_known _ _ _ _ _ _ Hok Hp) as [n Hn]; [by eapply refs_pos|].
    destruct (within_int_entry _ _ _ _ _ _ _ Hok Hw Hp Hn) as (_ & _ & Hint).
    destruct (srb_copy_spec h c buf_default b m n Hc Hp Hn Hint) as (c' & m' & -> & Hh & Hu).
    split; [done|]. exists m'. split; [done|].
    eapply sys_join; [done|done|done|done|intros q; by apply refs_add|].
    apply objs_ok_insert; [apply Hok|]. by apply (ok_objs _ _ _ _ _ Hok j).
Qed.

Lemma sys_address h0 h c m o sc i p n :
  sm_holds c m -> sys_ok h0 h m o sc -> within_int o sc -> o !! i = None -> p <> nullptr ->
  map_find p m = Some n ->
  exists c' b', srb_from_address p (h, c, buf_default) = (Ok tt, (h, c', b')) /\
                sys_inv h0 (Sys h c' (<[i := b']> o) sc).
Proof.
  intros Hc Hok Hw Hi Hp Hn.
  destruct (within_int_entry _ _ _ _ _ _ _ Hok Hw Hp Hn) as (_ & _ & Hint).
  destruct (srb_from_address_spec h c buf_default p m n Hc Hn Hint) as (c' & m' & -> & Hh & Hu).
  exists c', (Buf 0 p). split; [done|]. exists m'. split; [done|].
  eapply sys_join; [done|done|done|done|intros q; by apply refs_add|].
  apply objs_ok_insert; [apply Hok|]. right. split; [done|by left].
Qed.

(** An instance without a block goes. *)
Lemma sys_forget h0 h m o sc i b :
  sys_ok h0 h m o sc -> o !! i = Some b -> _buffer b = nullptr -> sys_ok h0 h m (delete i o) sc.
Proof.
  intros [? Hb ? ? ?] Hi Hnull. split; [done| |done|done|by apply objs_ok_delete].
  assert (forall q, q <> nullptr -> refs q (delete i o) = refs q o) as Hr.
  { intros q Hq. rewrite (refs_delete q o i b) by done. unfold holds_it.
    rewrite bool_decide_eq_false_2; [lia|congruence]. }
  eapply blocks_ok_ext; [exact Hb|done|by apply Hr| |done].
  intros q n Hq _. unfold total. by rewrite Hr.
Qed.

(** Leaving a block, whatever the instance holds afterwards. *)
Lemma sys_reset h0 h c m o sc i b :
  sm_holds c m -> sys_ok h0 h m o sc -> within_int o sc -> o !! i = Some b ->
  exists h' c' m', srb_reset (h, c, b) = (Ok tt, (h', c', buf_default)) /\
    sm_holds c' m' /\ sys_ok h0 h' m' (delete i o) sc.
Proof.
  intros Hc Hok Hw Hi. destruct (decide (_buffer b = nullptr)) as [Hnull|Hp].
  - rewrite (srb_reset_null h c b m) by done. exists h, c, m. split; [done|]. split; [done|].
    by eapply sys_forget.
  - destruct (ok_known _ _ _ _ _ _ Hok Hp) as [n Hn]; [by eapply refs_pos|].
    destruct (within_int_entry _ _ _ _ _ _ _ Hok Hw Hp Hn) as (Hint & _).
    destruct (srb_reset_spec h c b m Hc Hp) as (c' & m' & -> & Hh & Hu).
    + intros n' Hn'. by simplify_eq.
    + intros _. by eapply ok_entry.
    + eexists _, c', m'. split; [done|]. split; [done|]. rewrite Hn in *.
      eapply sys_leave; [done|done|done|done| |by apply objs_ok_delete, Hok].
      intros q. by rewrite (refs_delete q o i b).
Qed.

Lemma obj_ok_sized h p blk n :
  p <> nullptr -> h !! p = Some blk -> Z.of_nat (length blk) = n -> 0 < n -> obj_ok h (Buf n p).
Proof. intros Hp Hh Hl Hn. right. split; [done|right]. split; [done|]. by exists blk. Qed.

(** The blocks of the other instances do not change when a fresh block appears. *)
Lemma objs_ok_new h0 h m o o' sc p blk :
  sys_ok h0 h m o sc -> is_fresh h p -> objs_ok h o' -> (forall q, refs q o' <= refs q o) ->
  objs_ok (<[p := blk]> h) o'.
Proof.
  intros Hok Hp Ho Hr. apply (objs_ok_heap h); [done|]. intros q Hq Hrq.
  rewrite lookup_insert_ne; [done|]. intros ->. specialize (Hr q).
  destruct (ok_known _ _ _ _ _ _ Hok Hq) as [n Hn]; [lia|].
  by rewrite (blocks_ok_fresh _ _ _ _ _ _ (ok_blocks _ _ _ _ _ Hok) Hp) in Hn.
Qed.

Lemma refs_delete_le q o i b : o !! i = Some b -> refs q (delete i o) <= refs q o.
Proof. intros Hi. rewrite (refs_delete q o i b) by done. unfold holds_it. case_bool_decide; lia. Qed.

Lemma default_obj b h : obj_ok h b -> _buffer b = nullptr -> b = buf_default.
Proof. intros [->|[? _]] ?; done. Qed.

(** The first [append] of an instance. *)
Lemma sys_append_first h0 h c m o sc i data :
  sm_holds c m -> sys_ok h0 h m o sc -> within_int o sc -> o !! i = Some buf_default ->
  data <> [] -> Z.of_nat (length data) <= size_max ->
  returns (append_exclusive data (h, c, buf_default)) (fun '(h', c', b') =>
    placed sc h h' -> sys_inv h0 (Sys h' c' (<[i := b']> o) sc)).
Proof.
  intros Hc Hok Hw Hi Hd Hmax.
  destruct (append_first_spec h c buf_default m data Hc) as [(e & w & ->)|(q & c' & m' & -> & Hq & Hh & Hu)];
    [done|apply Hok|done|done|by eapply within_int_initial|done|].
  intros Hpl. exists m'. split; [done|]. simpl.
  assert (fresh_in sc q) as Hsc by (eapply placed_fresh; [done|done|rewrite lookup_insert_eq; by eexists]).
  assert (0 < length data)%nat by (destruct data; [done|simpl; lia]).
  rewrite <- (insert_delete_eq o). pose proof (sys_forget _ _ _ _ _ _ _ Hok Hi eq_refl) as Hok'.
  eapply sys_new_block; [exact Hok'|done|done|done| |].
  - intros p. by apply refs_add, lookup_delete_eq.
  - apply objs_ok_insert.
    + eapply objs_ok_new; [exact Hok'|done|apply Hok'|done].
    + eapply obj_ok_sized; [by eapply fresh_not_null|apply lookup_insert_eq|done|lia].
Qed.

(** [append] to a shared block. *)
Lemma sys_append_cow h0 h c m o sc i b n blk data :
  sm_holds c m -> sys_ok h0 h m o sc -> within_int o sc -> o !! i = Some b ->
  _buffer b <> nullptr -> map_find (_buffer b) m = Some n -> 1 < n ->
  h !! _buffer b = Some blk -> Z.of_nat (length blk) = _size b -> 0 < _size b ->
  _size b + Z.of_nat (length data) <= size_max ->
  returns (append_cow data (h, c, b)) (fun '(h', c', b') =>
    placed sc h h' -> sys_inv h0 (Sys h' c' (<[i := b']> o) sc)).
Proof.
  intros Hc Hok Hw Hi Hp Hn Hn1 Hblk Hl Hpos Hmax.
  destruct (append_cow_spec h c b m n blk data Hc) as [(e & w & ->)|(q & c' & m1 & m' & -> & Hq & Hh & Hu1 & Hu)];
    [done|done|done|by eapply within_int_entry|done|done|done|by eapply within_int_initial|done|].
  intros Hpl. exists m'. split; [done|]. simpl. rewrite <- (insert_delete_eq o).
  assert (fresh_in sc q) as Hsc by (eapply placed_fresh; [done|done|rewrite lookup_insert_eq; by eexists]).
  assert (sys_ok h0 h m1 (delete i o) sc) as Hok'.
  { assert (release_heap (Some n) (_buffer b) h = h) as <-
      by (unfold release_heap; by rewrite bool_decide_eq_false_2 by (intros [= ->]; lia)).
    eapply sys_leave; [done|done|done| |intros p; by rewrite (refs_delete p o i b)|by apply objs_ok_delete, Hok].
    unfold release. by rewrite bool_decide_eq_false_2 by lia. }
  eapply sys_new_block; [exact Hok'|done|done| | |].
  - rewrite (upd_ne _ _ _ _ _ Hu1) by done. exact Hu.
  - intros p. by apply refs_add, lookup_delete_eq.
  - apply objs_ok_insert.
    + eapply objs_ok_new; [exact Hok'|done|apply Hok'|done].
    + eapply obj_ok_sized; [by eapply fresh_not_null|apply lookup_insert_eq|rewrite length_app; lia|lia].
Qed.

(** [append] by the only owner. *)
Lemma sys_append_owner h0 h c m o sc i b blk data :
  sm_holds c m -> sys_ok h0 h m o sc -> within_int o sc -> o !! i = Some b ->
  _buffer b <> nullptr -> map_find (_buffer b) m = Some 1 ->
  h !! _buffer b = Some blk -> Z.of_nat (length blk) = _size b -> 0 < _size b ->
  _size b + Z.of_nat (length data) <= size_max ->
  returns (append_exclusive data (h, c, b)) (fun '(h', c', b') =>
    placed sc h h' -> sys_inv h0 (Sys h' c' (<[i := b']> o) sc)).
Proof.
  intros Hc Hok Hw Hi Hp Hn Hblk Hl Hpos Hmax.
  destruct (ok_entry _ _ _ _ _ _ _ Hok Hp Hn) as (Ht & _ & _). unfold total in Ht.
  pose proof (refs_pos _ o i b Hi eq_refl) as Hrp. pose proof (scopes_holding_bound (_buffer b) sc) as Hsb.
  destruct (append_owner_spec h c b m blk data Hc Hp Hn) as [(e & w & ->)|(q & c' & m' & -> & Hh & Hcase)];
    [apply Hok|done|done|done|done|done|].
  intros Hpl. exists m'. split; [done|]. simpl in *.
  destruct Hcase as [[-> ->]|(Hq & m1 & Hu1 & Hu2)].
  - (* in place: only this instance sees the block *)
    rewrite insert_delete_eq.
    assert (forall p, refs p (<[i:=Buf (_size b + Z.of_nat (length data)) (_buffer b)]> o) = refs p o) as Hr.
    { intros p. rewrite (refs_update p o i b) by done. unfold holds_it. simpl. lia. }
    destruct Hok as [Hnull Hb Hini Hlv Ho]. split; [by rewrite lookup_insert_ne| |done|done|].
    + eapply blocks_ok_ext; [exact Hb|done|by intros; apply Hr|..].
      * intros p n Hpn _. unfold total. rewrite Hr. split; [done|]. intros Hs.
        destruct (decide (p = _buffer b)) as [->|]; [rewrite lookup_insert_eq; by eexists|by rewrite lookup_insert_ne].
      * intros p Hpn Hnone. rewrite lookup_insert_ne; [done|]. congruence.
    + rewrite <- (insert_delete_eq o). apply objs_ok_insert.
      * apply (objs_ok_heap h); [by apply objs_ok_delete|]. intros p Hpn Hrd.
        rewrite lookup_insert_ne; [done|]. intros <-.
        rewrite (refs_delete _ o i b) in Hrd by done. unfold holds_it in Hrd.
        rewrite bool_decide_eq_true_2 in Hrd by done. lia.
      * eapply obj_ok_sized; [done|apply lookup_insert_eq|rewrite length_app; lia|lia].
  - (* moved: the old block is gone, so no scope is open *)
    assert (q <> _buffer b) as Hne by (intros ->; destruct Hq; congruence).
    destruct (Hpl q) as (_ & [->|Hold]); [apply Hq|rewrite lookup_insert_eq; by eexists| |].
    2: { destruct (Hold (_buffer b)) as [? Hl']; [by eexists|]. by rewrite lookup_insert_ne, lookup_delete_eq in Hl'. }
    destruct (sm_holds_wf c m Hc) as [Hwf _]. rewrite <- (insert_delete_eq o).
    assert (sys_ok h0 (delete (_buffer b) h) (map_erase (_buffer b) m).1 (delete i o) []) as Hok'.
    { change (delete (_buffer b) h) with (release_heap (Some 1) (_buffer b) h).
      eapply sys_leave; [done|done|done|by apply upd_erase|intros p; by rewrite (refs_delete p o i b)|].
      by apply objs_ok_delete, Hok. }
    assert (is_fresh (delete (_buffer b) h) q) as Hq'
      by (destruct Hq; split; [done|by rewrite lookup_delete_ne]).
    eapply sys_new_block; [exact Hok'|done|constructor| | |].
    + rewrite (ok_initial _ _ _ _ _ Hok'). simpl. intros p. rewrite (Hu2 p).
      pose proof (upd_erase m (_buffer b) Hwf p) as He. rewrite He, (Hu1 p).
      repeat case_decide; first [congruence|done].
    + intros p. by apply refs_add, lookup_delete_eq.
    + apply objs_ok_insert.
      * eapply objs_ok_new; [exact Hok'|done|apply Hok'|done].
      * eapply obj_ok_sized; [by eapply fresh_not_null|apply lookup_insert_eq|rewrite length_app; lia|lia].
Qed.

Lemma sys_append h0 h c m o sc i b data :
  sm_holds c m -> sys_ok h0 h m o sc -> within_int o sc -> o !! i = Some b ->
  data <> [] \/ b <> buf_default -> _size b + Z.of_nat (length data) <= size_max ->
  returns (srb_append data (h, c, b)) (fun '(h', c', b') =>
    placed sc h h' -> sys_inv h0 (Sys h' c' (<[i := b']> o) sc)).
Proof.
  intros Hc Hok Hw Hi Hd Hmax. unfold srb_append. rewrite fields_step.
  case_bool_decide as Hraw; [done|]. destruct (ok_objs _ _ _ _ _ Hok i b Hi) as [->|(Hp & Hs)].
  - rewrite bool_decide_eq_true_2 by done. rewrite mret_step. rewrite bool_decide_eq_false_2 by (intros [? _]; done).
    destruct Hd as [Hd|Hd]; [|done].
    by apply (sys_append_first h0 h c m o sc i data Hc Hok Hw Hi Hd ltac:(simpl in Hmax; lia)).
  - destruct Hs as [Hs|(Hpos & blk & Hblk & Hl)]; [by destruct Hraw|].
    destruct (ok_known _ _ _ _ _ _ Hok Hp) as [n Hn]; [by eapply refs_pos|].
    rewrite bool_decide_eq_false_2 by done.
    assert (on_counts (sm_at_or_default (_buffer b) 0) (h, c, b) = (Ok n, (h, c, b))) as En.
    { unfold on_counts. rewrite (sm_at_or_default_reads m (_buffer b) 0 c Hc). by rewrite Hn. }
    step_with En. destruct (ok_entry _ _ _ _ _ _ _ Hok Hp Hn) as (_ & Hn0 & _).
    destruct (decide (1 < n)).
    + rewrite bool_decide_eq_true_2 by done.
      by apply (sys_append_cow h0 h c m o sc i b n blk data).
    + rewrite bool_decide_eq_false_2 by (intros [_ ?]; done). assert (n = 1) as -> by lia.
      by eapply sys_append_owner.
Qed.

Lemma sys_assign h0 h c m o sc i j bi bj :
  sm_holds c m -> sys_ok h0 h m o sc -> within_int o sc -> i <> j ->
  o !! i = Some bi -> o !! j = Some bj ->
  returns (srb_assign false bj (h, c, bi)) (fun '(h', c', b') =>
    b' = bj /\ sys_inv h0 (Sys h' c' (<[i := b']> o) sc)).
Proof.
  intros Hc Hok Hw Hij Hi Hj. unfold srb_assign. case_bool_decide as Hp; [done|].
  destruct (sys_reset h0 h c m o sc i bi Hc Hok Hw Hi) as (h1 & c1 & m1 & E1 & H1' & Hok1).
  step_with E1. rewrite set_fields_step.
  assert (delete i o !! j = Some bj) as Hj' by (by rewrite lookup_delete_ne).
  assert (within_int (delete i o) sc) as Hw1.
  { unfold within_int in *. rewrite map_size_delete_Some by done. lia. }
  destruct (ok_known _ _ _ _ _ _ Hok1 Hp) as [n Hn]; [by eapply refs_pos|].
  destruct (within_int_entry _ _ _ _ _ _ _ Hok1 Hw1 Hp Hn) as (_ & _ & Hint).
  destruct (c_update c1 m1 (_buffer bj) inc key_not_found n H1' Hn Hint) as (c2 & m2 & E2 & H2' & Hu2).
  erewrite on_counts_step by exact E2. split; [done|]. exists m2. split; [done|]. simpl.
  rewrite <- insert_delete_eq. eapply sys_join; [exact Hok1|done|done|exact Hu2|..].
  - intros q. by apply refs_add, lookup_delete_eq.
  - apply objs_ok_insert; [apply Hok1|]. by apply (ok_objs _ _ _ _ _ Hok1 j).
Qed.

(** ** Scopes *)

Lemma scopes_holding_cons p s sc :
  scopes_holding p (s :: sc) = (if bool_decide (p ∈ _old_entries s) then 0 else 1) + scopes_holding p sc.
Proof.
  unfold scopes_holding. case_bool_decide as Hp.
  - rewrite filter_cons_False by (intros Hn; by apply Hn). lia.
  - rewrite filter_cons_True by done. simpl. lia.
Qed.

Lemma sys_enter h0 h c m o sc :
  sm_holds c m -> sys_ok h0 h m o sc -> within_int o sc ->
  (exists s c', scope_enter c = (Ok s, c') /\ sys_inv h0 (Sys h c' o (s :: sc))) \/
  (exists e, scope_enter c = (Throw e, c)).
Proof.
  intros Hc Hok Hw. destruct (sm_holds_wf c m Hc) as [Hwf _].
  pose proof (ok_initial _ _ _ _ _ Hok) as Hini.
  unfold scope_enter. step_with (c_initial c m Hc). step_with (sm_items_reads m c Hc).
  destruct (c_insert c m nullptr (default 1 (map_find nullptr m) + 1) Hc) as [(c' & m' & E & Hh & Hu)|[e E]];
    [vm_compute; split; congruence|rewrite Hini; unfold within_int, is_int in *; lia| |].
  2: { right. exists e. unfold mbind, M_bind. by rewrite E. }
  left. eexists (Scope (map fst m) (default 1 (map_find nullptr m))), c'. split; [by step_with E|].
  exists m'. split; [done|]. destruct Hok as [Hnull Hb _ Hl Ho]. split; [done| | |done|done]; simpl.
  - eapply blocks_ok_ext; [exact Hb|by intros q Hq; apply (upd_ne _ _ _ _ _ Hu)|done| |done].
    intros q n Hq Hn. split; [|done]. unfold total. rewrite scopes_holding_cons.
    rewrite bool_decide_eq_true_2; [done|]. simpl. apply map_find_key; [done|by eexists].
  - rewrite (upd_eq _ _ _ _ Hu), Hini. simpl. lia.
Qed.

(** One round of the loop: the scope lets go of one block. *)
Lemma sys_release h0 h c m o sc s p n :
  sm_holds c m -> sys_ok h0 h m o (s :: sc) -> within_int o (s :: sc) -> p <> nullptr ->
  (p ∉ _old_entries s) -> map_find p m = Some n ->
  exists h' c' m', scope_release p (h, c) = (Ok tt, (h', c')) /\ sm_holds c' m' /\
    sys_ok h0 h' m' o (Scope (p :: _old_entries s) (_initial_on_entry s) :: sc) /\
    (forall q, q <> p -> map_find q m' = map_find q m) /\
    (forall q, 0 < scopes_holding q sc -> h' !! q = h !! q).
Proof.
  intros Hc Hok Hw Hp Hold Hn. destruct (within_int_entry _ _ _ _ _ _ _ Hok Hw Hp Hn) as (Hint & _).
  destruct (ok_entry _ _ _ _ _ _ _ Hok Hp Hn) as (Ht & Hpos & [blk Hblk]).
  unfold total in Ht. rewrite scopes_holding_cons, bool_decide_eq_false_2 in Ht by done.
  pose proof (refs_bound p o) as Hrb. pose proof (scopes_holding_bound p sc) as Hsb.
  destruct (c_update c m p dec key_not_found n Hc Hn Hint) as (c1 & m1 & E1 & H1' & U1).
  assert (exists c2 m2, scope_release p (h, c) = (Ok tt, (release_heap (Some n) p h, c2)) /\ sm_holds c2 m2 /\
            upd m p (release (Some n)) m2) as (c2 & m2 & E2 & H2' & U2).
  { unfold scope_release. rewrite E1. unfold dec, release, release_heap in *. destruct (decide (n = 1)) as [->|Hn1].
    - rewrite !bool_decide_eq_true_2 by done. unfold free.
      rewrite bool_decide_eq_false_2, Hblk by done.
      destruct (c_erase c1 m1 p H1') as (c2 & m2 & E2 & H2' & U2). rewrite E2. exists c2, m2.
      split; [done|]. split; [done|]. intros q. rewrite (U2 q).
      case_decide; [done|]. by apply (upd_ne _ _ _ _ _ U1).
    - rewrite !bool_decide_eq_false_2 by (congruence || lia). by exists c1, m1. }
  exists (release_heap (Some n) p h), c2, m2. split; [done|]. split; [done|].
  split; [|split; [intros q Hq; by apply (upd_ne _ _ _ _ _ U2)|]].
  2: { intros q Hq. unfold release_heap. case_bool_decide as Hn1; [|done]. injection Hn1 as ->.
       rewrite lookup_delete_ne; [done|]. intros ->. lia. }
  destruct Hok as [Hnull Hb Hi Hl Ho]. split; [..|done|].
  - unfold release_heap. case_bool_decide; [|done]. by rewrite lookup_delete_ne.
  - eapply blocks_ok_release; [exact Hb|done|done|exact U2|..]; unfold total.
    + rewrite scopes_holding_cons, bool_decide_eq_true_2 by (simpl; by left). lia.
    + intros ->. lia.
    + intros q Hq. rewrite !scopes_holding_cons. split; [done|]. do 2 f_equal. simpl.
      rewrite (bool_decide_ext (q ∈ p :: _old_entries s) (q ∈ _old_entries s)); [done|].
      rewrite elem_of_cons. naive_solver.
  - rewrite (upd_ne _ _ _ _ _ U2) by done. exact Hi.
  - apply (objs_ok_heap h); [done|]. intros q Hq Hrq. unfold release_heap.
    case_bool_decide as Hn1; [|done]. injection Hn1 as ->. rewrite lookup_delete_ne; [done|].
    intros ->. lia.
Qed.

Lemma sys_release_all h0 o sc ps : forall h c m s,
  sm_holds c m -> sys_ok h0 h m o (s :: sc) -> within_int o (s :: sc) -> NoDup ps ->
  Forall (fun p => p <> nullptr /\ (p ∉ _old_entries s) /\ is_Some (map_find p m)) ps ->
  exists h' c' m' old', scope_release_all ps (h, c) = (Ok tt, (h', c')) /\ sm_holds c' m' /\
    sys_ok h0 h' m' o (Scope old' (_initial_on_entry s) :: sc) /\
    (forall q, q ∈ old' <-> q ∈ ps \/ q ∈ _old_entries s) /\
    (forall q, q ∉ ps -> map_find q m' = map_find q m) /\
    (forall q, 0 < scopes_holding q sc -> h' !! q = h !! q).
Proof.
  induction ps as [|p ps IH]; intros h c m s Hc Hok Hw Hnd Hps.
  - exists h, c, m, (_old_entries s). split; [done|]. split; [done|]. split; [by destruct s|].
    split; [|done]. intros q. rewrite elem_of_nil. naive_solver.
  - apply NoDup_cons in Hnd as [Hp Hnd]. apply Forall_cons in Hps as [(Hnull & Hold & [n Hn]) Hps].
    destruct (sys_release h0 h c m o sc s p n Hc Hok Hw Hnull Hold Hn) as (h1 & c1 & m1 & E1 & H1' & Hok1 & Hne & Hk).
    edestruct (IH h1 c1 m1 (Scope (p :: _old_entries s) (_initial_on_entry s))) as (h' & c' & m' & old' & E' & H' & Hok' & Hold' & Hne' & Hk');
      [done|done|done|done|..].
    + rewrite Forall_forall in Hps |- *. intros q Hq. destruct (Hps q Hq) as (? & ? & ?).
      assert (q <> p) by (intros ->; done). split; [done|]. split; [simpl; by apply not_elem_of_cons|].
      by rewrite Hne.
    + exists h', c', m', old'. split; [simpl; by step_with E1|]. split; [done|]. split; [done|]. split.
      * intros q. rewrite Hold'. simpl. rewrite !elem_of_cons. naive_solver.
      * split; [|intros q Hq; by rewrite Hk', Hk].
        intros q Hq. apply not_elem_of_cons in Hq as [? ?]. rewrite Hne' by done. by apply Hne.
Qed.

Lemma sys_exit h0 h c m o s sc :
  sm_holds c m -> sys_ok h0 h m o (s :: sc) -> within_int o (s :: sc) ->
  exists h' c', scope_exit s (h, c) = (Ok tt, (h', c')) /\ sys_inv h0 (Sys h' c' o sc) /\
    (forall q, 0 < scopes_holding q sc -> h' !! q = h !! q).
Proof.
  intros Hc Hok Hw. destruct (sm_holds_wf c m Hc) as [Hwf _].
  destruct (sys_release_all h0 o sc (new_entries s m) h c m s) as (h' & c' & m' & old' & E & Hh & Hok' & Hold & Hne & Hk);
    [done|done|done|by apply NoDup_filter, map_wf_NoDup|..].
  { apply Forall_forall. intros p [[Hp Hpo] Hin]%list_elem_of_filter. split; [done|]. split; [done|].
    by apply map_find_key. }
  destruct (ok_levels _ _ _ _ _ Hok) as [Hini Hl].
  assert (exists n, map_find nullptr m' = Some n) as [n0 Hn0].
  { pose proof (ok_initial _ _ _ _ _ Hok') as Hi0. simpl in Hi0.
    destruct (map_find nullptr m') as [n0|]; [by exists n0|]. simpl in Hi0. lia. }
  destruct (c_assign c' m' nullptr (_initial_on_entry s) n0 Hh Hn0) as (c2 & m2 & E2 & H2' & U2);
    [vm_compute; split; congruence|rewrite Hini; unfold within_int, is_int in *; simpl in Hw; lia|].
  exists h', c2. split.
  { unfold scope_exit, try_all.
    match goal with |- context [(?a ≫= ?f) (h, c)] =>
      rewrite (M_bind_step a f (h, c) m (h, c)) by (by rewrite (sm_items_reads m c Hc)) end.
    step_with E. by rewrite E2. }
  split; [|done]. exists m2. split; [done|]. simpl. destruct Hok' as [Hnull Hb _ _ Ho]. split; [done| | |done|done].
  - eapply blocks_ok_ext; [exact Hb|by intros q Hq; apply (upd_ne _ _ _ _ _ U2)|done| |done].
    intros q n Hq Hn. split; [|done]. unfold total. rewrite scopes_holding_cons.
    rewrite bool_decide_eq_true_2; [done|]. simpl. rewrite Hold.
    destruct (decide (q ∈ _old_entries s)) as [|Hqo]; [by right|left].
    apply list_elem_of_filter. split; [done|]. apply map_find_key; [done|].
    destruct (decide (q ∈ new_entries s m)) as [Hin|Hnin].
    + apply list_elem_of_filter in Hin as [_ Hin]. by apply map_find_key in Hin.
    + rewrite <- (Hne q Hnin). by eexists.
  - by rewrite (upd_eq _ _ _ _ U2), Hini.
Qed.

(** ** The system *)

(** One operation on an instance or a scope that returns, whatever the allocator
    does.  Counts stay [int]s, and scopes end in the reverse order of their
    beginning. *)
Inductive sys_step : sys -> sys -> Prop :=
| step_default h c o sc i :
    within_int o sc -> o !! i = None ->
    sys_step (Sys h c o sc) (Sys h c (<[i := buf_default]> o) sc)
| step_new h c o sc i size u h' c' b' :
    within_int o sc -> o !! i = None -> 0 <= size <= size_max ->
    srb_new size 1 (h, c, buf_default) = (Ok u, (h', c', b')) ->
    sys_step (Sys h c o sc) (Sys h' c' (<[i := b']> o) sc)
| step_copy h c o sc i j b u h' c' b' :
    within_int o sc -> o !! i = None -> o !! j = Some b ->
    srb_copy b (h, c, buf_default) = (Ok u, (h', c', b')) ->
    sys_step (Sys h c o sc) (Sys h' c' (<[i := b']> o) sc)
| step_address h c o sc i p u h' c' b' :
    within_int o sc -> o !! i = None -> is_known p c = (Ok true, c) ->
    srb_from_address p (h, c, buf_default) = (Ok u, (h', c', b')) ->
    sys_step (Sys h c o sc) (Sys h' c' (<[i := b']> o) sc)
| step_append h c o sc i b data u h' c' b' :
    within_int o sc -> o !! i = Some b -> data <> [] -> _size b + Z.of_nat (length data) <= size_max ->
    srb_append data (h, c, b) = (Ok u, (h', c', b')) ->
    sys_step (Sys h c o sc) (Sys h' c' (<[i := b']> o) sc)
| step_assign h c o sc i j bi bj u h' c' b' :
    within_int o sc -> i <> j -> o !! i = Some bi -> o !! j = Some bj ->
    srb_assign false bj (h, c, bi) = (Ok u, (h', c', b')) ->
    sys_step (Sys h c o sc) (Sys h' c' (<[i := b']> o) sc)
| step_destroy h c o sc i b u h' c' b' :
    within_int o sc -> o !! i = Some b -> srb_reset (h, c, b) = (Ok u, (h', c', b')) ->
    sys_step (Sys h c o sc) (Sys h' c' (delete i o) sc)
| step_enter h c o sc s c' :
    within_int o sc -> scope_enter c = (Ok s, c') ->
    sys_step (Sys h c o sc) (Sys h c' o (s :: sc))
| step_exit h c o sc s u h' c' :
    within_int o (s :: sc) -> scope_exit s (h, c) = (Ok u, (h', c')) ->
    sys_step (Sys h c o (s :: sc)) (Sys h' c' o sc).

(** Joining a block leaves the heap alone. *)
Lemma from_address_heap p h c b u h' c' b' : srb_from_address p (h, c, b) = (Ok u, (h', c', b')) -> h' = h.
Proof.
  unfold srb_from_address, constructor_body, set_fields, on_counts, mbind, M_bind.
  destruct (sm_update _ _ _ _) as [[|e|] c1]; simpl; [by intros [= _ <- _ _]| |done].
  intros E. repeat (case_match; simplify_eq/=).
Qed.

Lemma copy_heap mem h c b u h' c' b' : srb_copy mem (h, c, b) = (Ok u, (h', c', b')) -> h' = h.
Proof.
  unfold srb_copy, constructor_body, set_fields, on_counts, mbind, M_bind, raise. simpl.
  case_bool_decide; simpl; [done|].
  destruct (sm_update _ _ _ _) as [[|e|] c1]; simpl; [by intros [= _ <- _ _]| |done].
  intros E. repeat (case_match; simplify_eq/=).
Qed.

(** Destruction only takes blocks away. *)
Lemma reset_heap h c b r h' c' b' : srb_reset (h, c, b) = (r, (h', c', b')) -> h' ⊆ h.
Proof.
  intros E. unfold srb_reset, try_catch in E. rewrite fields_step in E.
  unfold on_counts, on_buffer, buffer_reset, free, set_fields, mbind, M_bind, mret, M_ret in E.
  repeat (case_match; simplify_eq/=; try done; try apply delete_subseteq).
Qed.

(** A step in which the allocator respects the open scopes ([placed]).  Without
    an open scope every step is one ([run_step_free]); the examples at the end
    of the file show what happens to the others. *)
Definition addresses_kept (s s' : sys) : Prop := placed (s_scopes s) (s_heap s) (s_heap s').
Definition run_step (s s' : sys) : Prop := sys_step s s' /\ addresses_kept s s'.

Lemma run_step_free s s' : s_scopes s = [] -> sys_step s s' -> run_step s s'.
Proof. intros E Hs. split; [done|]. unfold addresses_kept. rewrite E. apply placed_none. Qed.

Lemma run_step_shrink s s' : s_heap s' ⊆ s_heap s -> sys_step s s' -> run_step s s'.
Proof. intros Hh Hs. split; [done|]. by apply placed_shrink. Qed.

Lemma run_step_inv h0 s s' : sys_inv h0 s -> run_step s s' -> sys_inv h0 s'.
Proof.
  intros (m & Hc & Hok) [Hstep Hpl]. unfold addresses_kept in Hpl.
  destruct Hstep; cbn [s_heap s_counts s_objs s_scopes] in *.
  - exists m. split; [done|]. simpl. destruct Hok as [? Hb ? ? ?].
    split; [done| |done|done|apply objs_ok_insert; [done|by left]].
    assert (forall q, q <> nullptr -> refs q (<[i := buf_default]> o) = refs q o) as Hr.
    { intros q Hq. rewrite refs_insert by done. unfold holds_it. simpl.
      rewrite bool_decide_eq_false_2 by done. lia. }
    eapply blocks_ok_ext; [exact Hb|done|by apply Hr| |done].
    intros q n Hq _. unfold total. by rewrite Hr.
  - pose proof (sys_new h0 h c m o sc i size Hc Hok ltac:(done) ltac:(done) ltac:(done)) as Hn.
    match goal with E : srb_new _ _ _ = _ |- _ => rewrite E in Hn end. by apply Hn.
  - pose proof (sys_copy h0 h c m o sc i j b Hc Hok ltac:(done) ltac:(done) ltac:(done)) as Hn.
    match goal with E : srb_copy _ _ = _ |- _ => rewrite E in Hn end. by apply Hn.
  - match goal with E : is_known p c = _ |- _ => rename E into Hk end.
    assert (p <> nullptr) as Hp by (intros ->; unfold is_known in Hk; by rewrite bool_decide_eq_true_2 in Hk).
    rewrite (c_is_known c m p Hc Hp) in Hk. destruct (map_find p m) as [n|] eqn:Hn; [|done].
    destruct (sys_address h0 h c m o sc i p n Hc Hok) as (c1 & b1 & E1 & Hi1); [done..|].
    match goal with E : srb_from_address _ _ = _ |- _ => rewrite E1 in E; by injection E as <- <- <- <- end.
  - pose proof (sys_append h0 h c m o sc i b data Hc Hok ltac:(done) ltac:(done) ltac:(by left) ltac:(done)) as Hn.
    match goal with E : srb_append _ _ = _ |- _ => rewrite E in Hn end. by apply Hn.
  - pose proof (sys_assign h0 h c m o sc i j bi bj Hc Hok ltac:(done) ltac:(done) ltac:(done) ltac:(done)) as Hn.
    match goal with E : srb_assign _ _ _ = _ |- _ => rewrite E in Hn end. by apply Hn.
  - destruct (sys_reset h0 h c m o sc i b Hc Hok ltac:(done) ltac:(done)) as (h1 & c1 & m1 & E1 & Hh & Hok1).
    match goal with E : srb_reset _ = _ |- _ => rewrite E1 in E; injection E as <- <- <- <- end.
    by exists m1.
  - match goal with E : scope_enter _ = _ |- _ => rename E into He end.
    destruct (sys_enter h0 h c m o sc Hc Hok ltac:(done)) as [(s1 & c1 & E1 & Hi1)|[e E1]]; [|congruence].
    rewrite E1 in He. by injection He as <- <-.
  - destruct (sys_exit h0 h c m o s sc Hc Hok ltac:(done)) as (h1 & c1 & E1 & Hi1 & _).
    match goal with E : scope_exit _ _ = _ |- _ => rewrite E1 in E; by injection E as <- <- <- end.
Qed.

Definition sys_start h0 c0 : sys := Sys h0 c0 ∅ [].

Lemma sys_reachable_inv h0 c0 s :
  h0 !! nullptr = None -> sm_holds c0 [] -> rtc run_step (sys_start h0 c0) s -> sys_inv h0 s.
Proof.
  intros Hnull Hc Hrtc. assert (sys_inv h0 (sys_start h0 c0)) as Hi.
  { exists []. split; [done|]. split; simpl; [done| |done|done|by intros i b ?%lookup_empty_Some].
    intros p Hp. simpl. split; [|done]. unfold refs. by rewrite map_filter_empty, map_size_empty. }
  induction Hrtc as [s|s1 s2 s3 Hstep _ IH]; [done|]. apply IH. by eapply run_step_inv.
Qed.

Lemma use_count_spec h0 h c m o sc i b :
  sm_holds c m -> sys_ok h0 h m o sc -> within_int o sc -> o !! i = Some b ->
  use_count (h, c, b) = (Ok (if bool_decide (_buffer b = nullptr) then 0 else total o sc (_buffer b)), (h, c, b)).
Proof.
  intros Hc Hok Hw Hi. unfold use_count. rewrite fields_step. case_bool_decide as Hp; [done|].
  destruct (ok_known _ _ _ _ _ _ Hok Hp) as [n Hn]; [by eapply refs_pos|].
  assert (on_counts (sm_at_or_default (_buffer b) 0) (h, c, b) = (Ok n, (h, c, b))) as En.
  { unfold on_counts. rewrite (sm_at_or_default_reads m (_buffer b) 0 c Hc). by rewrite Hn. }
  step_with En. destruct (ok_entry _ _ _ _ _ _ _ Hok Hp Hn) as (-> & Hpos & _).
  pose proof (total_bound o sc (_buffer b)).
  rewrite size_t_id; [done|]. unfold is_size_t, size_max, size_bits, within_int in *. lia.
Qed.

(** The bytes an instance sees. *)
Definition view h b : option bytes :=
  if bool_decide (_buffer b = nullptr) then Some [] else h !! _buffer b.

Lemma append_effect h0 h c m o sc i b data u h' c' b' :
  sm_holds c m -> sys_ok h0 h m o sc -> within_int o sc -> o !! i = Some b ->
  data <> [] \/ b <> buf_default -> _size b + Z.of_nat (length data) <= size_max ->
  srb_append data (h, c, b) = (Ok u, (h', c', b')) ->
  _size b' = _size b + Z.of_nat (length data) /\
  (exists old, view h b = Some old /\ view h' b' = Some (old ++ data)) /\
  (forall p n, p <> nullptr -> map_find p m = Some n -> p <> _buffer b \/ 1 < n -> h' !! p = h !! p).
Proof.
  intros Hc Hok Hw Hi Hd Hmax. unfold srb_append. rewrite fields_step.
  case_bool_decide as Hraw; [done|]. pose proof (ok_blocks _ _ _ _ _ Hok) as Hblocks.
  assert (forall q p n, is_fresh h q -> map_find p m = Some n -> q <> p) as Hnew.
  { intros q p n Hq Hn ->. by rewrite (blocks_ok_fresh _ _ _ _ _ _ Hblocks Hq) in Hn. }
  unfold view. destruct (ok_objs _ _ _ _ _ Hok i b Hi) as [->|(Hp & Hs)].
  - rewrite !bool_decide_eq_true_2 by done. rewrite mret_step, bool_decide_eq_false_2 by (intros [? _]; done).
    destruct Hd as [Hd|Hd]; [|done].
    destruct (append_first_spec h c buf_default m data Hc) as [(e & w & ->)|(q & c1 & m1 & -> & Hq & _)];
      [done|apply Hok|done|simpl in Hmax; lia|by eapply within_int_initial|done|].
    intros [= _ <- <- <-]. split; [done|]. split; [|intros p n _ Hn _; apply lookup_insert_ne; by eapply Hnew]. exists []. split; [done|]. simpl.
    rewrite bool_decide_eq_false_2, lookup_insert_eq by (by eapply fresh_not_null). done.
  - destruct Hs as [Hs|(Hpos & blk & Hblk & Hl)]; [by destruct Hraw|].
    destruct (ok_known _ _ _ _ _ _ Hok Hp) as [n Hn]; [by eapply refs_pos|].
    rewrite !(bool_decide_eq_false_2 (_buffer b = nullptr)) by done.
    assert (on_counts (sm_at_or_default (_buffer b) 0) (h, c, b) = (Ok n, (h, c, b))) as En.
    { unfold on_counts. rewrite (sm_at_or_default_reads m (_buffer b) 0 c Hc). by rewrite Hn. }
    step_with En. destruct (ok_entry _ _ _ _ _ _ _ Hok Hp Hn) as (Ht & Hn0 & _).
    destruct (decide (1 < n)).
    + rewrite bool_decide_eq_true_2 by done.
      destruct (append_cow_spec h c b m n blk data Hc) as [(e & w & ->)|(q & c1 & m1 & m' & -> & Hq & _)];
        [done|done|done|by eapply within_int_entry|done|done|done|by eapply within_int_initial|done|].
      intros [= _ <- <- <-]. split; [done|]. split; [|intros p k _ Hk _; apply lookup_insert_ne; by eapply Hnew]. exists blk. split; [done|]. simpl.
      rewrite bool_decide_eq_false_2, lookup_insert_eq by (by eapply fresh_not_null). done.
    + rewrite bool_decide_eq_false_2 by (intros [_ ?]; done). assert (n = 1) as -> by lia.
      destruct (append_owner_spec h c b m blk data Hc Hp Hn) as [(e & w & ->)|(q & c1 & m' & -> & _ & Hcase)];
        [apply Hok|done|done|done|done|done|].
      intros [= _ <- <- <-]. simpl. split; [done|]. split.
      * exists blk. split; [done|]. rewrite lookup_insert_eq, bool_decide_eq_false_2; [done|].
        destruct Hcase as [[-> _]|[Hq _]]; [done|by eapply fresh_not_null].
      * intros p k Hpn Hk Hor. assert (p <> _buffer b) by (intros ->; simplify_eq; destruct Hor; [done|lia]).
        destruct Hcase as [[-> _]|[Hq _]]; [by rewrite lookup_insert_ne, lookup_delete_ne|].
        rewrite lookup_insert_ne by (by eapply Hnew). by rewrite lookup_delete_ne.
Qed.

(** A block with an instance besides [i] is not [i]'s alone. *)
Lemma shared_count h0 h m o sc i b j bj n :
  sys_ok h0 h m o sc -> o !! i = Some b -> i <> j -> o !! j = Some bj -> _buffer bj <> nullptr ->
  map_find (_buffer bj) m = Some n -> _buffer bj <> _buffer b \/ 1 < n.
Proof.
  intros Hok Hi Hij Hj Hp Hn. destruct (decide (_buffer bj = _buffer b)) as [E|]; [right|by left].
  destruct (ok_entry _ _ _ _ _ _ _ Hok Hp Hn) as (-> & _). unfold total.
  pose proof (refs_delete (_buffer bj) o i b Hi) as Hd. unfold holds_it in Hd. rewrite bool_decide_eq_true_2 in Hd by done.
  assert (0 < refs (_buffer bj) (delete i o)) by (apply (refs_pos _ _ j bj); [by rewrite lookup_delete_ne|done]).
  pose proof (scopes_holding_bound (_buffer bj) sc). lia.
Qed.

(** Without instances and scopes nothing is known, and the heap is as before. *)
Lemma sys_empty h0 h m :
  h0 !! nullptr = None -> sys_ok h0 h m ∅ [] -> h = h0 /\ forall p, p <> nullptr -> map_find p m = None.
Proof.
  intros Hnull Hok. assert (forall p, p <> nullptr -> map_find p m = None) as Hnone.
  { intros p Hp. destruct (map_find p m) as [n|] eqn:Hn; [|done].
    destruct (ok_entry _ _ _ _ _ _ _ Hok Hp Hn) as (Ht & Hpos & _).
    unfold total, refs in Ht. rewrite map_filter_empty, map_size_empty in Ht.
    unfold scopes_holding in Ht. simpl in Ht. lia. }
  split; [|done].
  apply map_eq. intros p. destruct (decide (p = nullptr)) as [->|Hp]; [by rewrite Hnull, (ok_null _ _ _ _ _ Hok)|].
  pose proof (ok_blocks _ _ _ _ _ Hok p Hp) as Hb. rewrite (Hnone p Hp) in Hb. apply Hb.
Qed.

(** ** Properties *)

(** C1. After every run of operations that return, in which the allocator, while
    scopes are open, gives no new block an address that one of them found when
    it began and moves no block ([run_step]; without scopes every operation that
    returns qualifies), with fewer than 2^31 - 2 instances and scopes, the
    reference count is exact and memory is safe: the use count of an instance is
    the number of instances on its block plus the number of open scopes that
    will release it; the block is live and as long as the instance says; and the
    next operation, whatever the allocator does in it, is not undefined
    behaviour (destruction and the end of the innermost scope return; append,
    copy and assignment return or throw, for want of memory or of room in the
    map of the counts, which is of fixed capacity). *)
Theorem srb_counts_exact h0 c0 h c o sc i b :
  h0 !! nullptr = None -> sm_holds c0 [] ->
  rtc run_step (sys_start h0 c0) (Sys h c o sc) -> within_int o sc -> o !! i = Some b ->
  use_count (h, c, b) =
    (Ok (if bool_decide (_buffer b = nullptr) then 0 else total o sc (_buffer b)), (h, c, b)) /\
  (b = buf_default \/
   exists blk, h !! _buffer b = Some blk /\ (_size b = 0 \/ Z.of_nat (length blk) = _size b)) /\
  (exists w, srb_reset (h, c, b) = (Ok tt, w)) /\
  (forall data, data <> [] -> _size b + Z.of_nat (length data) <= size_max ->
     (srb_append data (h, c, b)).1 <> UB) /\
  (forall j, o !! j = None -> (srb_copy b (h, c, buf_default)).1 <> UB) /\
  (forall j bj, i <> j -> o !! j = Some bj -> (srb_assign false bj (h, c, b)).1 <> UB) /\
  (forall s sc', sc = s :: sc' -> exists w, scope_exit s (h, c) = (Ok tt, w)).
Proof.
  intros Hnull Hc0 Hrtc Hw Hi. destruct (sys_reachable_inv h0 c0 _ Hnull Hc0 Hrtc) as (m & Hc & Hok).
  cbn [s_heap s_counts s_objs s_scopes] in *. split; [by eapply use_count_spec|]. split.
  { destruct (ok_objs _ _ _ _ _ Hok i b Hi) as [->|(Hp & Hs)]; [by left|right].
    destruct (ok_known _ _ _ _ _ _ Hok Hp) as [n Hn]; [by eapply refs_pos|].
    destruct (ok_entry _ _ _ _ _ _ _ Hok Hp Hn) as (_ & _ & [blk Hblk]). exists blk.
    split; [done|]. destruct Hs as [?|(_ & blk' & Hblk' & ?)]; [by left|right]. congruence. }
  split; [destruct (sys_reset h0 h c m o sc i b Hc Hok Hw Hi) as (h1 & c1 & m1 & -> & _); eauto|].
  split; [|split; [|split]].
  - intros data Hd Hmax. pose proof (sys_append h0 h c m o sc i b data Hc Hok Hw Hi (or_introl Hd) Hmax) as Ha.
    destruct (srb_append data (h, c, b)) as [[?|?|] ?]; simpl; [done|done|destruct Ha].
  - intros j Hj. pose proof (sys_copy h0 h c m o sc j i b Hc Hok Hw Hj Hi) as Ha.
    destruct (srb_copy b (h, c, buf_default)) as [[?|?|] [[? ?] ?]]; simpl; [done|done|destruct Ha].
  - intros j bj Hij Hj. pose proof (sys_assign h0 h c m o sc i j b bj Hc Hok Hw Hij Hi Hj) as Ha.
    destruct (srb_assign false bj (h, c, b)) as [[?|?|] ?]; simpl; [done|done|destruct Ha].
  - intros s sc' ->. destruct (sys_exit h0 h c m o s sc' Hc Hok Hw) as (h1 & c1 & -> & _). eauto.
Qed.

(** C2. No leaks and no double frees: after a run of operations that return, in
    which, while scopes are open, the allocator reuses no address that one of them
    found and moves no block ([run_step]), once all instances are
    gone and all scopes have ended, no address is known any more, the initial
    count is back to 1, and the heap is exactly what it was before. *)
Theorem srb_no_leak h0 c0 h c :
  h0 !! nullptr = None -> sm_holds c0 [] ->
  rtc run_step (sys_start h0 c0) (Sys h c ∅ []) ->
  h = h0 /\ get_initial_use_count c = (Ok 1, c) /\ forall p, is_known p c = (Ok false, c).
Proof.
  intros Hnull Hc0 Hrtc. destruct (sys_reachable_inv h0 c0 _ Hnull Hc0 Hrtc) as (m & Hc & Hok).
  cbn [s_heap s_counts s_objs s_scopes] in *.
  destruct (sys_empty h0 h m Hnull Hok) as [Hh Hnone]. split; [done|split].
  - rewrite (c_initial c m Hc). by rewrite (ok_initial _ _ _ _ _ Hok).
  - intros p. destruct (decide (p = nullptr)) as [->|Hp]; [done|].
    rewrite (c_is_known c m p Hc Hp). by rewrite Hnone.
Qed.

(** C3. Copy on write: after a run of operations that return, in which, while
    scopes are open, the allocator reuses no address that one of them found and
    moves no block ([run_step]), with fewer than 2^31 - 2 instances and scopes, an
    [append] that returns extends the bytes
    the instance sees by exactly the bytes given, and changes what no other
    instance sees. *)
Theorem srb_append_copy_on_write h0 c0 h c o sc i b data u h' c' b' :
  h0 !! nullptr = None -> sm_holds c0 [] ->
  rtc run_step (sys_start h0 c0) (Sys h c o sc) -> within_int o sc -> o !! i = Some b ->
  data <> [] -> _size b + Z.of_nat (length data) <= size_max ->
  srb_append data (h, c, b) = (Ok u, (h', c', b')) ->
  (exists old, view h b = Some old /\ view h' b' = Some (old ++ data)) /\
  (forall j bj, i <> j -> o !! j = Some bj -> view h' bj = view h bj).
Proof.
  intros Hnull Hc0 Hrtc Hw Hi Hd Hmax Ha.
  destruct (sys_reachable_inv h0 c0 _ Hnull Hc0 Hrtc) as (m & Hc & Hok).
  cbn [s_heap s_counts s_objs s_scopes] in *.
  destruct (append_effect h0 h c m o sc i b data u h' c' b' Hc Hok Hw Hi (or_introl Hd) Hmax Ha) as (_ & Hown & Hrest).
  split; [done|]. intros j bj Hij Hj. unfold view. case_bool_decide as Hp; [done|].
  destruct (ok_known _ _ _ _ _ _ Hok Hp) as [n Hn]; [by eapply refs_pos|].
  apply (Hrest _ n); [done|done|]. by eapply shared_count.
Qed.
End system.

(** ** A stream for the serializers

    An instance of a system without open scopes is a [Stream]: serializing into
    a [stable_reference_buffer], as [serialization::serialize] does, gives the
    same bytes as serializing into a plain buffer. *)

Section srb_stream.
Context `{AllocatorLaws} {C : Type} `{!SharedMap C Z Z} `{!SharedMapLaws C Z Z} `{!SharedMapUpdates C}.

#[export] Instance srb_stream : Stream (heap * C * buf) := {|
  stream_append := srb_append;
  stream_contents '(h, c, b) := default [] (view h b);
  stream_wf '(h, c, b) :=
    (_buffer b <> nullptr -> _size b <> 0) /\
    exists h0 m o i, sm_holds c m /\ sys_ok h0 h m o [] /\ within_int o [] /\ o !! i = Some b |}.

#[export] Instance srb_stream_laws : StreamLaws (heap * C * buf).
Proof.
  intros d [[h c] b] [Hraw (h0 & m & o & i & Hc & Hok & Hw & Hi)] Hl Hne. simpl in Hl, Hne.
  assert (Z.of_nat (length (default [] (view h b))) = _size b) as Hlen.
  { destruct (ok_objs _ _ _ _ _ Hok i b Hi) as [->|(Hp & [Hs|(_ & blk & Hblk & Hs)])]; [done|by destruct (Hraw Hp)|].
    unfold view. rewrite bool_decide_eq_false_2, Hblk by done. done. }
  assert (d <> [] \/ b <> buf_default) as Hd.
  { destruct Hne as [?|Hne]; [by left|right]. intros ->. by apply Hne. }
  pose proof (sys_append h0 h c m o [] i b d Hc Hok Hw Hi Hd ltac:(lia)) as Ha.
  change (stream_append d (h, c, b)) with (srb_append d (h, c, b)).
  destruct (srb_append d (h, c, b)) as [[u|e|] [[h' c'] b']] eqn:E; [|done|done].
  destruct (append_effect h0 h c m o [] i b d u h' c' b' Hc Hok Hw Hi Hd ltac:(lia) E) as (Hsz & (old & Ho & Hn) & _).
  destruct (Ha (placed_none h h')) as (m' & Hc' & Hok'). cbn [s_heap s_counts s_objs s_scopes] in *.
  split; [split|simpl; by rewrite Ho, Hn].
  - intros Hp' Hz. rewrite Hz in Hsz.
    assert (_size b = 0) as Hb0 by (destruct (ok_objs _ _ _ _ _ Hok i b Hi) as [->|(_ & [?|[? _]])]; simpl in *; lia).
    destruct Hd as [Hd|Hd]; [destruct d; [done|simpl in *; lia]|].
    destruct (ok_objs _ _ _ _ _ Hok i b Hi) as [?|(Hp & _)]; [done|by apply (Hraw Hp)].
  - exists h0, m', (<[i := b']> o), i. split; [done|]. split; [done|]. split; [|apply lookup_insert_eq].
    unfold within_int in *. by rewrite map_size_insert_Some by (by eexists).
Qed.
End srb_stream.

(** ** A shared map that never fails: [std::map] in local memory *)

#[export] Instance local_map : SharedMap (list (Z * Z)) Z Z := {|
  sm_at k := fun m => (map_at k m, m);
  sm_at_or_default k d := fun m => (Ok (default d (map_find k m)), m);
  sm_insert k v := fun m => (Ok tt, map_assign k v m);
  sm_erase k := fun m => (Ok tt, (map_erase k m).1);
  sm_count k := fun m => (Ok (map_count k m), m);
  sm_update_or_insert k f d := fun m =>
    (Ok tt, map_assign k (match map_find k m with Some v => f v | None => d end) m);
  sm_update k f e := fun m =>
    match map_find k m with
    | Some v => (Ok (f v), map_assign k (f v) m)
    | None => (throw runtime_error e, m)
    end;
  sm_items := fun m => (Ok m, m) |}.

Definition local_holds (w m : list (Z * Z)) : Prop :=
  w = m /\ map_wf m /\ Forall (fun x => is_size_t x.1 /\ is_int x.2) m.

Lemma local_assign m k v : local_holds m m -> is_size_t k -> is_int v ->
  local_holds (map_assign k v m) (map_assign k v m).
Proof.
  intros (_ & Hwf & Hall) Hk Hv. split; [done|]. split; [by apply map_assign_wf|].
  apply map_assign_Forall; [done| |done]. intros k' v' _ _ [? _]. done.
Qed.

#[export] Instance local_map_laws : SharedMapLaws (list (Z * Z)) Z Z.
Proof.
  exists local_holds is_size_t is_int.
  - by intros w m (_ & ? & ?).
  - intros m k v Hf w [-> _]. simpl. unfold map_at. by rewrite Hf.
  - by intros m k d w [-> _].
  - by intros m k w [-> _].
  - by intros m w [-> _].
  - intros m k v Hk Hv w [-> Hw]. left. eexists. split; [done|]. by apply local_assign.
  - intros m k w [-> [Hwf Hall]]. left. eexists. split; [done|]. split; [done|].
    split; [by apply map_erase_wf|by apply map_erase_keys].
  - intros m k f d Hk Hv w [-> Hw]. left. eexists. split; [done|]. by apply local_assign.
  - intros m k f e v Hf Hv w [-> Hw]. left. simpl. rewrite Hf. eexists. split; [done|].
    apply local_assign; [done| |done]. destruct Hw as [Hwf Hall]. rewrite Forall_forall in Hall.
    apply (Hall (k, v)). by apply map_find_Some_elem.
  - intros m k f e Hf w [-> Hw]. simpl. by rewrite Hf.
Defined.

#[export] Instance local_map_updates : SharedMapUpdates (list (Z * Z)).
Proof.
  split; try done. intros c m k f t v e [-> _] Hf _. simpl. by rewrite Hf.
Qed.

(** ** The map of the source: a segment of fixed capacity

    Addresses of 8 bytes with [int] counts: the encoding of a count has always
    the same length, so a count that is in the segment can be changed whatever
    its capacity.  Assumed is that the local buffer of [serialize] can be
    allocated. *)

Section segment_updates.
Context {B : Type} `{StreamLaws B} (new_buffer : B).
Hypothesis new_buffer_wf : stream_wf new_buffer.
Hypothesis new_buffer_empty : stream_contents new_buffer = [].

Definition address_traits : Traits Z := @trivial_traits Z size_t_trivial.
Definition count_traits : Traits Z := @trivial_traits Z int_trivial.
Definition address_laws : @TraitsLaws Z address_traits := @trivial_laws Z size_t_trivial size_t_laws.
Definition count_laws : @TraitsLaws Z count_traits := @trivial_laws Z int_trivial int_laws.

Definition counts_segment : SharedMap segment Z Z :=
  @segment_map Z Z B address_traits _ count_traits _ new_buffer.
Definition counts_segment_laws : @SharedMapLaws segment Z Z counts_segment _ :=
  @segment_map_laws Z Z _ _ address_traits address_laws count_traits count_laws B _ _ new_buffer
    new_buffer_wf new_buffer_empty.

Hypothesis local_buffer_room : forall (m : list (Z * Z)) e s,
  @serialize _ (@map_traits Z Z address_traits _ count_traits) _ _ m new_buffer <> (Throw e, s).

Abbreviation counts_hold := (@seg_holds Z Z _ address_traits address_laws count_traits count_laws).

Lemma seg_address k : is_size_t k -> @seg_key Z address_traits address_laws k.
Proof. intros Hk. split; [exact Hk|]. vm_compute. congruence. Qed.

Lemma seg_count v : is_int v -> @seg_value Z count_traits count_laws v.
Proof. intros Hv. split; [exact Hv|]. vm_compute. congruence. Qed.

(** A count that is there can be written. *)
Lemma segment_rewrites w m k v v' :
  counts_hold w m -> map_find k m = Some v' -> is_int v ->
  exists w', @ic_serialize _ (@map_traits Z Z address_traits _ count_traits) _ _ new_buffer (map_assign k v m) w = (Ok tt, w').
Proof.
  intros Hw Hf Hv. assert (@seg_key Z address_traits address_laws k) as Hk.
  { destruct Hw as (_ & _ & (Hwf & _ & Hall) & _). rewrite Forall_forall in Hall.
    destruct (Hall (k, v')) as [? _]; [|done]. by eapply map_find_Some_elem. }
  destruct (seg_map_assign w m k v Hw Hk (seg_count v Hv)) as [Hm' _].
  apply (seg_rewrite new_buffer new_buffer_wf new_buffer_empty w m _ Hw Hm'); [|by intros; apply local_buffer_room].
  by rewrite (length_assign_same k v v' m Hf).
Qed.

Lemma segment_updates : @SharedMapUpdates segment counts_segment counts_segment_laws.
Proof.
  pose proof (@seg_deserialize Z Z _ address_traits address_laws count_traits count_laws) as Hd.
  split.
  - intros c m k v v' e Hw Hf Hv. destruct (segment_rewrites _ _ k v v' Hw Hf Hv) as [w' E].
    change (@im_insert Z Z address_traits _ count_traits B _ new_buffer k v c <> (Throw e, c)). unfold im_insert. step_with (Hd c m Hw). congruence.
  - intros c m k e Hw. change (@im_erase Z Z address_traits _ count_traits B _ new_buffer k c <> (Throw e, c)). unfold im_erase. step_with (Hd c m Hw).
    destruct (seg_map_erase c m k Hw) as [Hm' _].
    destruct (seg_rewrite new_buffer new_buffer_wf new_buffer_empty c m _ Hw Hm') as [w' E];
      [apply length_erase|by intros; apply local_buffer_room|congruence].
  - intros c m k f t v e Hw Hf Hv. destruct (segment_rewrites _ _ k (f v) v Hw Hf Hv) as [w' E].
    change (@im_update Z Z address_traits _ count_traits B _ new_buffer k f t c <> (Throw e, c)). unfold im_update. step_with (Hd c m Hw). rewrite Hf.
    step_with E. done.
  - apply seg_address.
  - apply seg_count.
Qed.
End segment_updates.

(** A local buffer that can always be allocated: the bytes themselves. *)
Definition plain_stream : Stream bytes := {|
  stream_append d := fun s => (Ok tt, s ++ d);
  stream_contents s := s;
  stream_wf _ := True |}.

Lemma plain_stream_laws : @StreamLaws bytes plain_stream.
Proof. by intros d s _ _ _. Qed.

Lemma plain_entries_return (m : list (Z * Z)) : forall s,
  exists s', @serialize_entries Z address_traits bytes plain_stream Z (@serialize Z count_traits bytes plain_stream) m s = (Ok tt, s').
Proof. induction m as [|[k v] m IH]; intros s; [by exists s|]. apply IH. Qed.

Lemma plain_stream_room (m : list (Z * Z)) e s :
  @serialize _ (@map_traits Z Z address_traits _ count_traits) _ plain_stream m [] <> (Throw e, s).
Proof.
  change (@serialize _ (@map_traits Z Z address_traits _ count_traits) _ plain_stream m [])
    with (@serialize_entries Z address_traits bytes plain_stream Z (@serialize Z count_traits bytes plain_stream) m
            (le_encode 8 (map_size m))).
  by destruct (plain_entries_return m (le_encode 8 (map_size m))) as [s' ->].
Qed.

Definition plain_segment : SharedMap segment Z Z := @counts_segment bytes plain_stream [].
Definition plain_segment_laws : @SharedMapLaws segment Z Z plain_segment _ :=
  @counts_segment_laws bytes plain_stream plain_stream_laws [] I eq_refl.
Lemma plain_segment_updates : @SharedMapUpdates segment plain_segment plain_segment_laws.
Proof. apply (@segment_updates bytes plain_stream plain_stream_laws [] I eq_refl plain_stream_room). Qed.

(** ** Runs on the [moving] allocator and the local map *)

Abbreviation lsys := (@sys (list (Z * Z))).

Definition fst_of (r : outcome unit * (heap * list (Z * Z) * buf)) : heap * list (Z * Z) := r.2.1.
Definition buf_of (r : outcome unit * (heap * list (Z * Z) * buf)) : buf := r.2.2.

(** One instance of one byte. *)
Definition run1 := @srb_new moving _ local_map 1 1 (∅, [], buf_default).
(** A second instance on its block. *)
Definition run2 := @srb_copy _ local_map (buf_of run1) (fst_of run1, buf_default).

Definition state1 : lsys := Sys (fst_of run1).1 (fst_of run1).2 {[ 0%nat := buf_of run1 ]} [].
Definition state2 : lsys :=
  Sys (fst_of run2).1 (fst_of run2).2 (<[1%nat := buf_of run2]> {[ 0%nat := buf_of run1 ]}) [].

Lemma local_start : sm_holds (W := list (Z * Z)) [] [].
Proof. split; [done|]. split; constructor. Defined.

Lemma state1_reached : rtc (@run_step moving _ local_map) (sys_start ∅ []) state1.
Proof.
  eapply rtc_l; [|apply rtc_refl]. apply run_step_free; [done|].
  apply (@step_new moving _ local_map ∅ [] ∅ [] 0%nat 1 tt).
  - vm_compute. reflexivity.
  - done.
  - vm_compute. split; congruence.
  - vm_compute. reflexivity.
Defined.

Lemma state2_reached : rtc (@run_step moving _ local_map) (sys_start ∅ []) state2.
Proof.
  eapply rtc_r; [exact state1_reached|]. apply run_step_free; [done|].
  apply (@step_copy moving _ local_map _ _ _ _ 1%nat 0%nat (buf_of run1) tt).
  - vm_compute. reflexivity.
  - vm_compute. reflexivity.
  - vm_compute. reflexivity.
  - vm_compute. reflexivity.
Defined.

Lemma srb_counts_exact_witness :
  use_count (H0 := local_map) (s_heap state2, s_counts state2, buf_of run1) =
    (Ok 2, (s_heap state2, s_counts state2, buf_of run1)).
Proof.
  rewrite (proj1 (srb_counts_exact (H := moving) ∅ [] (s_heap state2) (s_counts state2) (s_objs state2) [] 0%nat (buf_of run1)
    (lookup_empty nullptr) local_start state2_reached ltac:(vm_compute; reflexivity) ltac:(vm_compute; reflexivity))).
  vm_compute. reflexivity.
Defined.

(** Appending through the second instance leaves the first alone. *)
Definition run3 := @srb_append moving _ local_map (str "xy") (fst_of run2, buf_of run2).

Lemma srb_append_copy_on_write_witness :
  view (fst_of run3).1 (buf_of run1) = Some [Ascii.zero] /\
  view (fst_of run3).1 (buf_of run3) = Some (Ascii.zero :: str "xy").
Proof.
  destruct (srb_append_copy_on_write (H := moving) ∅ [] (s_heap state2) (s_counts state2) (s_objs state2) []
    1%nat (buf_of run2) (str "xy") tt (fst_of run3).1 (fst_of run3).2 (buf_of run3)) as [(old & Ho & Hn) Hrest].
  - apply lookup_empty.
  - exact local_start.
  - exact state2_reached.
  - vm_compute. reflexivity.
  - vm_compute. reflexivity.
  - discriminate.
  - vm_compute. congruence.
  - vm_compute. reflexivity.
  - assert (old = [Ascii.zero]) as -> by (vm_compute in Ho; injection Ho as <-; reflexivity). split; [|exact Hn].
    rewrite (Hrest 0%nat (buf_of run1)); [vm_compute; reflexivity|discriminate|vm_compute; reflexivity].
Defined.

(** Destroying the only instance. *)
Definition run4 := @srb_reset _ local_map (fst_of run1, buf_of run1).

Lemma srb_no_leak_witness : (fst_of run4).1 = ∅ /\ is_known 16 (fst_of run4).2 = (Ok false, (fst_of run4).2).
Proof.
  destruct (srb_no_leak (H := moving) ∅ [] (fst_of run4).1 (fst_of run4).2) as (Hh & _ & Hk).
  - apply lookup_empty.
  - exact local_start.
  - eapply rtc_r; [exact state1_reached|].
    apply run_step_free; [done|].
    replace (∅ : gmap nat buf) with (delete 0%nat ({[ 0%nat := buf_of run1 ]} : gmap nat buf)) by (vm_compute; reflexivity).
    apply (@step_destroy moving _ local_map _ _ _ _ 0%nat (buf_of run1) tt _ _ buf_default);
      vm_compute; reflexivity.
  - split; [exact Hh|apply Hk].
Defined.

(** ** What is not a run: the allocator and the scopes, and a full segment *)

(** An exclusive owner appends inside a scope, and [realloc] moves its block:
    the new address looks like a block of the scope, whose end frees it under
    the living instance. *)
Definition append_in_scope : option (option bytes * option bytes) :=
  match scope_enter (H0 := local_map) (fst_of run1).2 with
  | (Ok s, c) =>
      let r := @srb_append moving _ local_map (str "x") ((fst_of run1).1, c, buf_of run1) in
      let e := @scope_exit _ local_map s (fst_of r) in
      Some (view (fst_of r).1 (buf_of r), view e.2.1 (buf_of r))
  | _ => None
  end.

Example scope_frees_live_block : append_in_scope = Some (Some (Ascii.zero :: str "x"), None).
Proof. vm_compute. reflexivity. Qed.

(** A block is destroyed inside a scope and a new one gets its address, which
    the scope takes for the old one: the new block keeps a count of one after
    its instance is gone. *)
Definition reuse_in_scope : option (outcome Z * bool) :=
  match scope_enter (H0 := local_map) (fst_of run1).2 with
  | (Ok s, c) =>
      let r := @srb_reset _ local_map ((fst_of run1).1, c, buf_of run1) in
      let r2 := @srb_new moving _ local_map 1 1 (fst_of r, buf_default) in
      let r3 := @srb_reset _ local_map (fst_of r2, buf_of r2) in
      let e := @scope_exit _ local_map s (fst_of r3) in
      Some ((sm_at_or_default (_buffer (buf_of r2)) 0 e.2.2).1,
            bool_decide (is_Some (e.2.1 !! _buffer (buf_of r2))))
  | _ => None
  end.

Example scope_leaks_reused_address : reuse_in_scope = Some (Ok 1, true).
Proof. vm_compute. reflexivity. Qed.

(** Two instances share a block, and the segment, of 20 bytes, has room for one
    count.  An append through the second needs a second count: the insertion
    throws after the bytes are copied and the old count is lowered, and the
    instance is left with a block that is not counted, which nobody frees. *)
Definition counts_20 : segment := Some (replicate 20 Ascii.zero).
Definition full_1 := @srb_new moving _ plain_segment 1 1 (∅, counts_20, buf_default).
Definition full_2 := @srb_copy _ plain_segment full_1.2.2 (full_1.2.1, buf_default).
Definition full_append := @srb_append moving _ plain_segment (str "x") full_2.2.
Definition full_gone := @srb_reset _ plain_segment full_append.2.
Definition throws {A W} (r : outcome A * W) : bool := if r.1 is Throw _ then true else false.

Example append_without_room :
  (full_2.1, throws full_append, _buffer full_append.2.2,
   map (fun p => (@use_count _ plain_segment (full_append.2.1, p)).1) [full_1.2.2; full_append.2.2],
   full_gone.1, bool_decide (is_Some (full_gone.2.1.1 !! _buffer full_append.2.2))) =
  (Ok tt, true, 17, [Ok 1; Ok 0], Ok tt, true).
Proof. vm_compute. reflexivity. Qed.

(** A constructor without room for the count gives its block back. *)
Example new_without_room :
  let r := @srb_new moving _ plain_segment 1 1 (full_1.2.1, buf_default) in
  (throws r, bool_decide (r.2.1 = full_1.2.1)) = (true, true).
Proof. vm_compute. reflexivity. Qed.

(** Constructing from an address that is not managed throws, and on the way out
    the base destructor frees that address. *)
Example unknown_address_freed :
  @srb_from_address _ local_map 16 ({[ 16 := str "mine" ]}, [], buf_default) =
  (throw runtime_error "cbeam::container::container::stable_reference_buffer: memory address was not created by cbeam::stable_reference_buffer",
   (∅, [], buf_default)).
Proof. vm_compute. reflexivity. Qed.

Example srb_map_bytes_values :
  (srb_map_bytes None, srb_map_bytes (Some (str "4096")), srb_map_bytes (Some (str "1000")),
   srb_map_bytes (Some (str "4096k")), srb_map_bytes (Some (str "-1"))) =
  (65536, 4096, 65536, 65536, size_max).
Proof. vm_compute. reflexivity. Qed.
