(* ===== verification/MessageManager.v ===== *)
(** * MessageManager: [concurrency/message_manager.hpp] and
    [concurrency/threaded_object.hpp]

    One message queue with its handler threads, its senders, and the threads in
    [wait_until_empty], as a step relation.  A step is one critical section of
    the queue's mutex (its body is executable), or one action outside of it: the
    test of [_running], the user's handler, the atomic decrement of the busy
    count, a notification.  A condition variable's sleepers wake by a
    notification or spuriously, and then run their critical section again.

    [sent], [popped], [done] and [lost] are histories that the code does not
    keep: they record the messages pushed, popped, handled, and dropped. *)

From S2P Require Import Prelude Errors.

Inductive order_type := FIFO | FILO | RANDOM.

Section message_manager.
Context {Msg : Type}.

(** ** Threads *)

(** Where a handler thread stands in [worker()]. *)
Inductive worker_pc : Type :=
| WLoop                      (* at [while (_running)] *)
| WEnter                     (* about to lock the mutex *)
| WAsleep                    (* in [_cv->wait] *)
| WWoken                     (* woken, about to test the predicate again *)
| WGot (m : option Msg)      (* mutex released, before the second test of [_running] *)
| WHandle (m : Msg)          (* in the user's [on_message] *)
| WDone                      (* handler finished, before [busy_count.fetch_sub] *)
| WSub (still_busy : Z)      (* before the second critical section of [on_message] *)
| WExit.                     (* [worker()] has returned *)

(** [w_alive]: the [message_handler] part of the object is not yet destroyed;
    [w_catches]: an [on_exception] was given. *)
Record worker : Type := Worker {
  w_pc : worker_pc;
  w_order : order_type;
  w_running : bool;
  w_alive : bool;
  w_catches : bool;
}.

Definition set_pc (pc : worker_pc) (w : worker) : worker :=
  Worker pc (w_order w) (w_running w) (w_alive w) (w_catches w).

Inductive sender_pc : Type :=
| SEnter (m : Msg) (max_queued_messages : Z)
| SAsleep (m : Msg) (max_queued_messages : Z)
| SWoken (m : Msg) (max_queued_messages : Z)
| SNotify
| SReturned.

Inductive waiter_pc : Type := EEnter | EAsleep | EWoken | EReturned.

(** [message_queue] and the threads that use it; [stop_notify] counts the
    destructors between setting [_running] and their [notify_all]. *)
Record message_queue : Type := MessageQueue {
  queue : list Msg;
  busy_count : Z;
  workers : list worker;
  senders : list sender_pc;
  waiters : list waiter_pc;
  stop_notify : nat;
  sent : list Msg;
  popped : list Msg;
  done_ : list Msg;
  lost : list Msg;
}.
Implicit Types (s : message_queue) (w : worker).

Definition set_workers (ws : list worker) s : message_queue :=
  MessageQueue (queue s) (busy_count s) ws (senders s) (waiters s) (stop_notify s)
    (sent s) (popped s) (done_ s) (lost s).
Definition set_senders (xs : list sender_pc) s : message_queue :=
  MessageQueue (queue s) (busy_count s) (workers s) xs (waiters s) (stop_notify s)
    (sent s) (popped s) (done_ s) (lost s).
Definition set_waiters (xs : list waiter_pc) s : message_queue :=
  MessageQueue (queue s) (busy_count s) (workers s) (senders s) xs (stop_notify s)
    (sent s) (popped s) (done_ s) (lost s).

Definition set_worker (t : nat) (w : worker) s : message_queue := set_workers (<[t := w]> (workers s)) s.

(** ** The queue *)

(** [is_message_available()]; during destruction the call reaches the base
    class, which knows no messages. *)
Definition is_message_available w s : bool :=
  w_alive w && negb (bool_decide (queue s = [])).

(** [get_message()], the choice of the message; [rnd] is the random index. *)
Definition get_message (order : order_type) (rnd : nat) (q : list Msg) : option (Msg * list Msg) :=
  match order with
  | FIFO => match q with m :: q => Some (m, q) | [] => None end
  | FILO => match last q with Some m => Some (m, take (length q - 1) q) | None => None end
  | RANDOM => match q !! rnd with Some m => Some (m, delete rnd q) | None => None end
  end.

(** The critical section of [worker()], entered or re-entered after a wakeup. *)
Definition worker_section (rnd : nat) (t : nat) w s : option message_queue :=
  if negb (is_message_available w s) && w_running w then Some (set_worker t (set_pc WAsleep w) s)
  else if w_running w then
    match get_message (w_order w) rnd (queue s) with
    | Some (m, q) =>
        Some (MessageQueue q (size_t (busy_count s + 1)) (<[t := set_pc (WGot (Some m)) w]> (workers s))
                (senders s) (waiters s) (stop_notify s) (sent s) (popped s ++ [m]) (done_ s) (lost s))
    | None => None
    end
  else Some (set_worker t (set_pc (WGot None) w) s).

(** [queue_cv->notify_all()] wakes handlers and senders. *)
Definition wake_worker w : worker :=
  match w_pc w with WAsleep => set_pc WWoken w | _ => w end.
Definition wake_sender (x : sender_pc) : sender_pc :=
  match x with SAsleep m n => SWoken m n | _ => x end.
Definition notify_queue s : message_queue :=
  set_workers (map wake_worker (workers s)) (set_senders (map wake_sender (senders s)) s).

(** [queue_cv_empty.notify_all()] wakes the threads in [wait_until_empty]. *)
Definition wake_waiter (x : waiter_pc) : waiter_pc := match x with EAsleep => EWoken | _ => x end.
Definition notify_empty s : message_queue := set_waiters (map wake_waiter (waiters s)) s.

(** The second critical section of [on_message]. *)
Definition finish_section (t : nat) (still_busy : Z) w s : message_queue :=
  let s := set_worker t (set_pc WLoop w) s in
  if bool_decide (queue s = [] /\ still_busy = 0) then notify_empty s else s.

(** [busy_count.fetch_sub(1) - 1], an unsigned counter. *)
Definition fetch_sub (t : nat) w s : message_queue :=
  let n := size_t (busy_count s - 1) in
  MessageQueue (queue s) n (<[t := set_pc (WSub n) w]> (workers s)) (senders s) (waiters s)
    (stop_notify s) (sent s) (popped s) (done_ s) (lost s).

(** The handler returns, or throws and [on_exception] returns. *)
Definition handled (t : nat) (m : Msg) w s : message_queue :=
  MessageQueue (queue s) (busy_count s) (<[t := set_pc WDone w]> (workers s)) (senders s) (waiters s)
    (stop_notify s) (sent s) (popped s) (done_ s ++ [m]) (lost s).

(** The popped message is dropped. *)
Definition dropped (t : nat) (m : Msg) w s : message_queue :=
  MessageQueue (queue s) (busy_count s) (<[t := set_pc WLoop w]> (workers s)) (senders s) (waiters s)
    (stop_notify s) (sent s) (popped s) (done_ s) (lost s ++ [m]).

(** The critical section of [send_message]. *)
Definition send_section (t : nat) (m : Msg) (max_queued_messages : Z) s : message_queue :=
  if bool_decide (max_queued_messages = 0 \/ Z.of_nat (length (queue s)) < max_queued_messages) then
    MessageQueue (queue s ++ [m]) (busy_count s) (workers s) (<[t := SNotify]> (senders s)) (waiters s)
      (stop_notify s) (sent s ++ [m]) (popped s) (done_ s) (lost s)
  else set_senders (<[t := SAsleep m max_queued_messages]> (senders s)) s.

(** The critical section of [wait_until_empty]. *)
Definition wait_section (t : nat) s : message_queue :=
  set_waiters
    (<[t := if bool_decide (queue s = [] /\ busy_count s = 0) then EReturned else EAsleep]> (waiters s)) s.

(** [add_handler]: a new thread at the head of its loop. *)
Definition add_handler (order : order_type) (catches : bool) s : message_queue :=
  set_workers (workers s ++ [Worker WLoop order true true catches]) s.

(** [dispose]: the destructor of the derived part, then of [threaded_object]:
    [_running = false] under the mutex, [notify_all], and [join]. *)
Definition destroy_derived (t : nat) w s : message_queue :=
  set_worker t (Worker (w_pc w) (w_order w) (w_running w) false (w_catches w)) s.
Definition stop_worker (t : nat) w s : message_queue :=
  MessageQueue (queue s) (busy_count s)
    (<[t := Worker (w_pc w) (w_order w) false (w_alive w) (w_catches w)]> (workers s))
    (senders s) (waiters s) (S (stop_notify s)) (sent s) (popped s) (done_ s) (lost s).
Definition stop_notified s : message_queue :=
  notify_queue (MessageQueue (queue s) (busy_count s) (workers s) (senders s) (waiters s)
    (pred (stop_notify s)) (sent s) (popped s) (done_ s) (lost s)).

(** ** Steps *)

(** The actions of handler thread [t]. *)
Inductive worker_step (t : nat) : worker -> message_queue -> message_queue -> Prop :=
| worker_loop w s :
    w_pc w = WLoop ->
    worker_step t w s (set_worker t (set_pc (if w_running w then WEnter else WExit) w) s)
| worker_lock w s rnd s' :
    w_pc w = WEnter \/ w_pc w = WWoken -> worker_section rnd t w s = Some s' -> worker_step t w s s'
| worker_test w s m :
    w_pc w = WGot (Some m) -> w_running w = true -> w_alive w = true ->
    worker_step t w s (set_worker t (set_pc (WHandle m) w) s)
| worker_drop w s m :
    w_pc w = WGot (Some m) -> w_running w = false \/ w_alive w = false ->
    worker_step t w s (dropped t m w s)
| worker_none w s :
    w_pc w = WGot None -> worker_step t w s (set_worker t (set_pc WLoop w) s)
| worker_handle w s m :
    w_pc w = WHandle m -> worker_step t w s (handled t m w s)
| worker_fetch_sub w s :
    w_pc w = WDone -> w_alive w = true -> worker_step t w s (fetch_sub t w s)
| worker_finish w s n :
    w_pc w = WSub n -> w_alive w = true -> worker_step t w s (finish_section t n w s).

(** What the library's threads do on their own, once they are running ... *)
Inductive internal_step : message_queue -> message_queue -> Prop :=
| step_worker t w s s' : workers s !! t = Some w -> worker_step t w s s' -> internal_step s s'
| step_send t m n s :
    senders s !! t = Some (SEnter m n) \/ senders s !! t = Some (SWoken m n) ->
    internal_step s (send_section t m n s)
| step_send_notify t s :
    senders s !! t = Some SNotify ->
    internal_step s (notify_queue (set_senders (<[t := SReturned]> (senders s)) s))
| step_wait t s :
    waiters s !! t = Some EEnter \/ waiters s !! t = Some EWoken -> internal_step s (wait_section t s)
| step_stop_notify s : stop_notify s <> O -> internal_step s (stop_notified s).

(** ... and what comes from outside: calls, destructions, spurious wakeups. *)
Inductive external_step : message_queue -> message_queue -> Prop :=
| step_worker_spurious t w s :
    workers s !! t = Some w -> w_pc w = WAsleep -> external_step s (set_worker t (set_pc WWoken w) s)
| step_send_spurious t m n s :
    senders s !! t = Some (SAsleep m n) -> external_step s (set_senders (<[t := SWoken m n]> (senders s)) s)
| step_wait_spurious t s :
    waiters s !! t = Some EAsleep -> external_step s (set_waiters (<[t := EWoken]> (waiters s)) s)
| step_send_call m n s : external_step s (set_senders (senders s ++ [SEnter m n]) s)
| step_wait_call s : external_step s (set_waiters (waiters s ++ [EEnter]) s)
| step_add_handler order catches s : external_step s (add_handler order catches s)
| step_destroy t w s : workers s !! t = Some w -> external_step s (destroy_derived t w s)
| step_stop t w s : workers s !! t = Some w -> w_alive w = false -> external_step s (stop_worker t w s).

Definition step s s' : Prop := internal_step s s' \/ external_step s s'.

(** Steps that leave the program: a handler that throws without [on_exception]
    calls an empty function inside a [noexcept] function; a thread inside
    [on_message] of a destroyed object uses its dead members. *)
Inductive terminates : message_queue -> Prop :=
| terminates_throw t w m s :
    workers s !! t = Some w -> w_pc w = WHandle m -> w_catches w = false -> terminates s.
Inductive undefined_use : message_queue -> Prop :=
| undefined_members t w s :
    workers s !! t = Some w -> w_alive w = false ->
    w_pc w = WDone \/ (exists n, w_pc w = WSub n) \/ (exists m, w_pc w = WHandle m) -> undefined_use s.

Definition mq_start : message_queue := MessageQueue [] 0 [] [] [] O [] [] [] [].
Definition reachable s : Prop := rtc step mq_start s.

(** ** Auxiliary notions *)

(** The popped message that a thread still has to handle, and its contribution
    to [busy_count]. *)
Definition w_msgs w : list Msg :=
  match w_pc w with WGot (Some m) | WHandle m => [m] | _ => [] end.
Definition w_busy w : list unit :=
  match w_pc w with WGot (Some _) | WHandle _ | WDone => [tt] | _ => [] end.
Definition in_flight s : list Msg := flat_map w_msgs (workers s).
Definition busy s : list unit := flat_map w_busy (workers s).

Definition live w : Prop := w_alive w = true /\ w_running w = true.
Definition all_live s : Prop := Forall live (workers s).
Definition all_fifo s : Prop := Forall (fun w => w_order w = FIFO) (workers s).

(** A [notify_all] on [queue_cv] is about to come. *)
Definition notify_pending s : Prop := SNotify ∈ senders s \/ stop_notify s <> O.

(** ** Invariants *)

Lemma flat_map_insert {A} (f : worker -> list A) ws t w w' :
  ws !! t = Some w -> f w ++ flat_map f (<[t := w']> ws) ≡ₚ f w' ++ flat_map f ws.
Proof.
  revert t. induction ws as [|u ws IH]; intros [|t] H; simplify_eq/=.
  - rewrite !app_assoc. apply Permutation_app_tail, Permutation_app_comm.
  - rewrite Permutation_app_swap_app, (IH t H). apply Permutation_app_swap_app.
Qed.

Lemma flat_map_insert_same {A} (f : worker -> list A) ws t w w' :
  ws !! t = Some w -> f w' = f w -> flat_map f (<[t := w']> ws) ≡ₚ flat_map f ws.
Proof. intros H E. apply (Permutation_app_inv_l (f w)). rewrite (flat_map_insert _ _ _ _ _ H), E. done. Qed.

Lemma flat_map_wake {A} (f : worker -> list A) ws :
  (forall w, f (wake_worker w) = f w) -> flat_map f (map wake_worker ws) = flat_map f ws.
Proof. intros H. induction ws as [|w ws IH]; simpl; [done|]. by rewrite H, IH. Qed.

Lemma w_msgs_wake w : w_msgs (wake_worker w) = w_msgs w.
Proof. by destruct w as [[] ????]. Qed.
Lemma w_busy_wake w : w_busy (wake_worker w) = w_busy w.
Proof. by destruct w as [[] ????]. Qed.

Lemma get_message_perm order rnd q m q' :
  get_message order rnd q = Some (m, q') -> q ≡ₚ m :: q'.
Proof.
  destruct order; simpl.
  - by destruct q; intros; simplify_eq.
  - destruct (last q) as [x|] eqn:E; intros; simplify_eq.
    apply last_Some in E as [l ->]. rewrite length_app, Nat.add_sub, take_app_length. by rewrite Permutation_app_comm.
  - destruct (q !! rnd) as [x|] eqn:E; intros; simplify_eq. by apply delete_Permutation.
Qed.

Lemma get_message_some order q : q <> [] -> exists rnd m q', get_message order rnd q = Some (m, q').
Proof.
  destruct q as [|x q]; [done|]. intros _. exists O. destruct order; simpl; eauto.
  destruct (last (x :: q)) eqn:E; [eauto|]. by apply last_None in E.
Qed.

(** The message a thread takes leaves the queue for the thread. *)
Definition pop (t : nat) (m : Msg) (q : list Msg) w s : message_queue :=
  MessageQueue q (size_t (busy_count s + 1)) (<[t := set_pc (WGot (Some m)) w]> (workers s))
    (senders s) (waiters s) (stop_notify s) (sent s) (popped s ++ [m]) (done_ s) (lost s).

Lemma worker_section_inv rnd t w s s' :
  worker_section rnd t w s = Some s' ->
  (s' = set_worker t (set_pc WAsleep w) s /\ is_message_available w s = false /\ w_running w = true) \/
  (exists m q, s' = pop t m q w s /\ live w /\ get_message (w_order w) rnd (queue s) = Some (m, q)) \/
  (s' = set_worker t (set_pc (WGot None) w) s /\ w_running w = false).
Proof.
  unfold worker_section, live. destruct (is_message_available w s) eqn:A, (w_running w) eqn:R; simpl; intros H; simplify_eq; auto.
  destruct (get_message _ _ _) as [[m q]|]; simplify_eq. right; left. exists m, q.
  unfold is_message_available in A. by apply andb_true_iff in A as [-> _].
Qed.

(** A step, by its effect. *)
Ltac step_cases H :=
  destruct H as [H|H];
  [ destruct H as [t w s s' Hw H | t m n s Ht | t s Ht | t s Ht | s Hn];
    [ destruct H as [w s Hpc | w s rnd s' Hpc Hsec | w s m Hpc Hr Ha | w s m Hpc Hd | w s Hpc
                    | w s m Hpc | w s Hpc Ha | w s n Hpc Ha];
      [ | apply worker_section_inv in Hsec as [(-> & Hav & Hr)|[(m & q & -> & [Ha Hr] & Hget)|[-> Hr]]] | .. ]
    | unfold send_section; case_bool_decide as Hroom | | | ]
  | destruct H as [t w s Hw Hpc | t m n s Ht | t s Ht | m n s | s | order catches s | t w s Hw | t w s Hw Ha] ].

Lemma step_sent s s' :
  step s s' -> sent s ≡ₚ popped s ++ queue s -> sent s' ≡ₚ popped s' ++ queue s'.
Proof.
  intros H I. step_cases H; try done; simpl.
  - apply get_message_perm in Hget. rewrite <- app_assoc. simpl. by rewrite <- Hget.
  - unfold finish_section. by case_bool_decide.
  - by rewrite I, app_assoc.
Qed.

(** No step changes the order of a thread, or brings a stopped one to life. *)
Definition kept (w w' : worker) : Prop :=
  w_order w' = w_order w /\ (w_alive w' = true -> w_alive w = true) /\ (w_running w' = true -> w_running w = true).

Lemma kept_set_pc pc w : kept w (set_pc pc w).
Proof. done. Qed.
Lemma kept_wake w : kept w (wake_worker w).
Proof. by destruct w as [[] ????]. Qed.
Lemma kept_refl w : kept w w.
Proof. done. Qed.
#[local] Hint Resolve kept_set_pc kept_wake kept_refl : core.

Lemma kept_insert (ws : list worker) (t : nat) w w' (i : nat) u :
  ws !! t = Some w -> kept w w' -> ws !! i = Some u -> exists u', <[t := w']> ws !! i = Some u' /\ kept u u'.
Proof.
  intros Ht K Hi. destruct (decide (t = i)) as [->|]; simplify_eq.
  - exists w'. rewrite list_lookup_insert_eq by eauto using lookup_lt_Some. done.
  - exists u. by rewrite list_lookup_insert_ne.
Qed.

Lemma kept_map (ws : list worker) (i : nat) u : ws !! i = Some u -> exists u', map wake_worker ws !! i = Some u' /\ kept u u'.
Proof. intros H. exists (wake_worker u). rewrite list_lookup_fmap, H. auto. Qed.
#[local] Hint Resolve kept_insert kept_map : core.

Lemma step_kept s s' (i : nat) u :
  step s s' -> workers s !! i = Some u -> exists u', workers s' !! i = Some u' /\ kept u u'.
Proof.
  intros H Hi. step_cases H; simpl; eauto using lookup_app_l_Some.
  - unfold finish_section. case_bool_decide; simpl; eauto.
  - eapply kept_insert; eauto. by split.
  - eapply kept_insert; eauto. by split.
Qed.

(** A thread in the user's handler stays there until the handler returns. *)
Definition handling (m : Msg) w' : Prop := w_pc w' = WHandle m \/ w_pc w' = WDone.

Lemma handling_insert m (ws : list worker) (t : nat) w w' (i : nat) u :
  ws !! t = Some w -> (w_pc w = WHandle m -> handling m w') -> ws !! i = Some u -> w_pc u = WHandle m ->
  exists u', <[t := w']> ws !! i = Some u' /\ handling m u'.
Proof.
  intros Ht K Hi Hu. destruct (decide (t = i)) as [->|]; simplify_eq.
  - exists w'. rewrite list_lookup_insert_eq by eauto using lookup_lt_Some. auto.
  - exists u. rewrite list_lookup_insert_ne by done. by repeat split; [|left].
Qed.

Lemma handling_wake m (ws : list worker) (i : nat) u :
  ws !! i = Some u -> w_pc u = WHandle m -> exists u', map wake_worker ws !! i = Some u' /\ handling m u'.
Proof. intros H E. exists (wake_worker u). rewrite list_lookup_fmap, H. split; [done|]. left. unfold wake_worker. by rewrite E. Qed.

Lemma step_handling s s' (i : nat) u m0 :
  step s s' -> workers s !! i = Some u -> w_pc u = WHandle m0 ->
  exists u', workers s' !! i = Some u' /\ handling m0 u'.
Proof.
  intros H Hi E. step_cases H; simpl; try (by eapply handling_wake; eauto);
    try (eapply handling_insert; eauto; unfold handling; destruct w as [[] ????]; simpl in *; destruct_or?; by auto);
    try (exists u; split; [by try apply lookup_app_l_Some|by left]).
  unfold finish_section. case_bool_decide; simpl;
    eapply handling_insert; eauto; unfold handling; destruct w as [[] ????]; simpl in *; by auto.
Qed.

Lemma step_fifo_back s s' : step s s' -> all_fifo s' -> all_fifo s.
Proof.
  unfold all_fifo. rewrite !Forall_lookup. intros H F i u Hi.
  destruct (step_kept _ _ _ _ H Hi) as (u' & Hu & <- & _). by apply (F i).
Qed.

Lemma step_live_back s s' : step s s' -> all_live s' -> all_live s.
Proof.
  unfold all_live. rewrite !Forall_lookup. intros H F i u Hi.
  destruct (step_kept _ _ _ _ H Hi) as (u' & Hu & _ & Ha & Hr). destruct (F _ _ Hu). split; auto.
Qed.

Lemma step_fifo s s' :
  step s s' -> (all_fifo s -> sent s = popped s ++ queue s) ->
  all_fifo s' -> sent s' = popped s' ++ queue s'.
Proof.
  intros H I F. pose proof (step_fifo_back _ _ H F) as F'. specialize (I F').
  step_cases H; try done; simpl.
  - assert (w_order w = FIFO) as E by by eapply (proj1 (Forall_lookup _ _) F').
    rewrite E in Hget. simpl in Hget. rewrite I.
    destruct (queue s); simplify_eq. by rewrite <- app_assoc.
  - unfold finish_section. by case_bool_decide.
  - by rewrite I, app_assoc.
Qed.

Lemma step_lost s s' : step s s' -> (all_live s -> lost s = []) -> all_live s' -> lost s' = [].
Proof.
  intros H I F. pose proof (step_live_back _ _ H F) as F'. specialize (I F').
  step_cases H; try done; simpl.
  - pose proof (proj1 (Forall_lookup _ _) F' _ _ Hw) as [? ?]. destruct Hd; congruence.
  - unfold finish_section. by case_bool_decide.
Qed.

(** The messages popped are handled, with a thread, or dropped. *)
Definition accounted s : Prop := popped s ≡ₚ done_ s ++ in_flight s ++ lost s.
Definition busy_total s : nat := length (busy s) + length (lost s).

Lemma step_accounted s s' : step s s' -> accounted s -> accounted s'.
Proof.
  unfold accounted, in_flight.
  intros H I. step_cases H; simpl; rewrite ?flat_map_app, ?flat_map_wake by exact w_msgs_wake;
    simpl; rewrite ?app_nil_r; try exact I.
  10: unfold finish_section; case_bool_decide; simpl.
  all: try solve [rewrite I; apply Permutation_app_head, Permutation_app_tail; symmetry; apply (flat_map_insert_same w_msgs _ _ _ _ Hw);
    destruct w as [[] ????]; simpl in *; destruct_or?; simplify_eq; by repeat case_match].
  - pose proof (flat_map_insert w_msgs _ _ _ (set_pc (WGot (Some m)) w) Hw) as E.
    rewrite I. destruct w as [[] ????], Hpc; simplify_eq/=; rewrite E;
      (rewrite <- Permutation_cons_append; apply (Permutation_middle (done_ s) (_ ++ _))).
  - pose proof (flat_map_insert w_msgs _ _ _ (set_pc WLoop w) Hw) as E.
    destruct w as [pc ????]; simplify_eq/=. rewrite I, <- E. apply Permutation_app_head.
    rewrite (app_assoc _ (lost s)). apply Permutation_cons_append.
  - pose proof (flat_map_insert w_msgs _ _ _ (set_pc WDone w) Hw) as E.
    destruct w as [pc ????]; simplify_eq/=. rewrite I, <- E. by rewrite <- app_assoc.
Qed.

(** [busy_count] counts the threads with a message, and the messages dropped. *)
Definition counted s : Prop :=
  busy_count s = size_t (Z.of_nat (busy_total s)) /\ (busy_total s <= length (popped s))%nat.

Lemma size_t_add a b : size_t (size_t a + b) = size_t (a + b).
Proof. unfold size_t. by rewrite Zplus_mod_idemp_l. Qed.

Lemma length_insert_busy s t w w' :
  workers s !! t = Some w ->
  (length (w_busy w) + length (flat_map w_busy (<[t := w']> (workers s))) = length (w_busy w') + length (busy s))%nat.
Proof. intros H. rewrite <- !length_app. by apply Permutation_length, flat_map_insert. Qed.

Lemma step_counted s s' : step s s' -> counted s -> counted s'.
Proof.
  unfold counted, busy_total, busy.
  intros H [I B]. step_cases H; simpl; rewrite ?flat_map_app, ?flat_map_wake by exact w_busy_wake;
    simpl; rewrite ?app_nil_r, ?length_app; try (split; [exact I|exact B]).
  all: try (unfold finish_section; case_bool_decide; simpl).
  all: match goal with
    | |- context [flat_map w_busy (<[?t := ?w']> _)] => pose proof (length_insert_busy s t w w' Hw) as E
    end; unfold busy in E; destruct w as [[| | | |[?|]| | | |] ????]; simpl in *; destruct_or?; simplify_eq;
    repeat case_match; unfold Z.sub in *; rewrite ?I, ?size_t_add in E; rewrite I, ?size_t_add;
    simpl in E; (split; [apply (f_equal size_t)|]; lia).
Qed.

(** A sleeping thread with something to do will be notified. *)
Definition sleep_ok s : Prop := forall (t : nat) w,
  workers s !! t = Some w -> w_pc w = WAsleep ->
  is_message_available w s = true \/ w_running w = false -> notify_pending s.

(** The state changes that keep it: one thread moves and does not fall asleep,
    or a notification is now pending, or nobody sleeps. *)
Lemma sleep_ok_insert s s' t w' :
  sleep_ok s -> workers s' = <[t := w']> (workers s) ->
  (queue s' <> [] -> queue s <> []) -> (notify_pending s -> notify_pending s') ->
  (w_pc w' = WAsleep -> is_message_available w' s' = true \/ w_running w' = false -> notify_pending s') ->
  sleep_ok s'.
Proof.
  intros I Hw Hq Hn Hs u x Hu Hp Ho. rewrite Hw in Hu. destruct (decide (t = u)) as [->|].
  - apply list_lookup_insert_Some in Hu as [(_ & <- & _)|[? _]]; [|done]. auto.
  - rewrite list_lookup_insert_ne in Hu by done. apply Hn, (I u x Hu Hp).
    revert Ho. unfold is_message_available. intros [Ho|]; [left|by right].
    apply andb_true_iff in Ho as [-> Ho%negb_true_iff%bool_decide_eq_false]. simpl.
    apply negb_true_iff, bool_decide_eq_false. auto.
Qed.

Lemma sleep_ok_pending s : notify_pending s -> sleep_ok s.
Proof. by intros ? ?. Qed.

Lemma sleep_ok_notified s : sleep_ok (notify_queue s).
Proof.
  intros t w Hw. simpl in Hw. apply list_lookup_fmap_Some in Hw as (u & -> & _). by destruct u as [[] ????].
Qed.

Lemma notify_insert s s' t x y :
  senders s !! t = Some x -> x <> SNotify -> senders s' = <[t := y]> (senders s) ->
  stop_notify s' = stop_notify s -> notify_pending s -> notify_pending s'.
Proof.
  intros Hx Hn E1 E2 [P|P]; [left|right; by rewrite E2].
  rewrite E1. apply list_elem_of_lookup in P as [i Hi]. apply list_elem_of_lookup. exists i.
  rewrite list_lookup_insert_ne; [done|]. intros ->. congruence.
Qed.

Lemma step_sleep s s' : step s s' -> sleep_ok s -> sleep_ok s'.
Proof.
  intros H I. step_cases H; try exact I; try apply sleep_ok_notified;
   try (eapply sleep_ok_insert; [exact I|reflexivity|done|done|]; simpl); try done.
  - by destruct (w_running w).
  - intros _ [Ho|]; [|congruence]. unfold is_message_available in *; simpl in *. congruence.
  - eapply sleep_ok_insert; [exact I|reflexivity| |done|done]. simpl. intros _ E. rewrite E in Hget. by destruct (w_order w).
  - unfold finish_section. case_bool_decide; (eapply sleep_ok_insert; [exact I|reflexivity|done..]).
  - apply sleep_ok_pending. left. apply list_elem_of_lookup. exists t. simpl. apply list_lookup_insert_eq.
    destruct Ht as [Ht|Ht]; eauto using lookup_lt_Some.
  - intros u x Hu Hp Ho. pose proof (I u x Hu Hp Ho) as Hn.
    destruct Ht as [Ht|Ht]; by eapply notify_insert.
  - intros u x Hu Hp Ho. pose proof (I u x Hu Hp Ho) as Hn. by eapply notify_insert.
  - intros u x Hu Hp Ho. destruct (I u x Hu Hp Ho) as [Hn|Hn]; [left|by right].
    simpl. set_solver.
  - intros u x Hu Hp Ho. apply lookup_app_Some in Hu as [Hu|[_ Hu]].
    + exact (I u x Hu Hp Ho).
    + by apply list_lookup_singleton_Some in Hu as [_ <-].
  - intros Hp [|Hr]; [done|]. exact (I t w Hw Hp (or_intror Hr)).
  - apply sleep_ok_pending. by right.
Qed.

(** A sleeping waiter has something to wait for. *)
Definition wait_ok s : Prop :=
  EAsleep ∈ waiters s ->
  queue s <> [] \/ busy_total s <> O \/ exists (t : nat) w, workers s !! t = Some w /\ w_pc w = WSub 0.

(** A thread that is not at [WSub] leaves the reasons of the others in place. *)
Lemma wait_ok_insert s s' t w w' :
  wait_ok s -> workers s !! t = Some w -> workers s' = <[t := w']> (workers s) ->
  w_pc w <> WSub 0 \/ w_pc w' = WSub 0 ->
  waiters s' = waiters s -> (queue s <> [] -> queue s' <> []) ->
  (length (w_busy w) + length (lost s) <= length (w_busy w') + length (lost s'))%nat ->
  wait_ok s'.
Proof.
  intros I Ht Hw Hp Ew Hq Hb. unfold wait_ok. rewrite Ew. intros Hs.
  pose proof (length_insert_busy _ _ _ w' Ht) as E. rewrite <- Hw in E.
  destruct (I Hs) as [?|[?|(u & x & Hu & Hx)]]; [auto|right; left; unfold busy_total, busy in *; lia|right; right].
  destruct (decide (u = t)) as [->|].
  - exists t, w'. rewrite Hw, list_lookup_insert_eq by eauto using lookup_lt_Some.
    simplify_eq. by destruct Hp.
  - exists u, x. rewrite Hw, list_lookup_insert_ne by done. done.
Qed.

Lemma wake_waiter_asleep (xs : list waiter_pc) : EAsleep ∉ map wake_waiter xs.
Proof. intros H. apply list_elem_of_fmap in H as ([] & ? & _); done. Qed.

Lemma wait_ok_none s : EAsleep ∉ waiters s -> wait_ok s.
Proof. by intros ? ?. Qed.

Lemma wait_ok_reason s :
  queue s <> [] \/ busy_total s <> O \/ (exists (t : nat) w, workers s !! t = Some w /\ w_pc w = WSub 0) -> wait_ok s.
Proof. by intros ? ?. Qed.

Lemma wait_ok_waiters s s' :
  wait_ok s -> workers s' = workers s -> queue s' = queue s -> lost s' = lost s ->
  (EAsleep ∈ waiters s' -> EAsleep ∈ waiters s) -> wait_ok s'.
Proof. unfold wait_ok, busy_total, busy. intros I -> -> -> H Hs. auto. Qed.

Lemma wait_ok_notified s : wait_ok s -> wait_ok (notify_queue s).
Proof.
  unfold wait_ok, busy_total, busy. simpl. rewrite flat_map_wake by exact w_busy_wake.
  intros I Hs. destruct (I Hs) as [?|[?|(t & w & Hw & Hp)]]; auto. right; right.
  exists t, (wake_worker w). rewrite list_lookup_fmap, Hw. by destruct w as [[] ????].
Qed.

Lemma asleep_insert (xs : list waiter_pc) (t : nat) x :
  x <> EAsleep -> EAsleep ∈ <[t := x]> xs -> EAsleep ∈ xs.
Proof.
  intros Hx [i Hi]%list_elem_of_lookup. apply list_elem_of_lookup.
  apply list_lookup_insert_Some in Hi as [(_ & -> & _)|[_ Hi]]; [done|eauto].
Qed.

Lemma wsub0 (w w' : worker) : w_pc w' = w_pc w -> w_pc w <> WSub 0 \/ w_pc w' = WSub 0.
Proof. intros ->. destruct (w_pc w) as [| | | | | | |n|]; try (by left). destruct (decide (n = 0)); naive_solver. Qed.

Lemma step_wait_ok s s' : step s s' -> counted s -> counted s' -> wait_ok s -> wait_ok s'.
Proof.
  intros H [C _] [C' _] I.
  step_cases H; try exact I; try (apply wait_ok_notified; exact I).
  all: try solve [eapply (wait_ok_insert s _ _ w); [exact I|exact Hw|reflexivity|left|reflexivity|done|]; 
    destruct w as [[] ????]; simpl in *; destruct_or?; simplify_eq; rewrite ?length_app; simpl; repeat case_match; simpl; try done; lia].
  - apply wait_ok_reason. right; left. unfold busy_total, busy. simpl.
    pose proof (length_insert_busy _ _ _ (set_pc (WGot (Some m)) w) Hw) as E.
    destruct w as [[] ????]; simpl in *; destruct_or?; simplify_eq; lia.
  - destruct (decide (busy_total (fetch_sub t w s) = 0%nat)) as [E|]; [|apply wait_ok_reason; auto].
    apply wait_ok_reason. right; right. simpl in *. rewrite E in C'. rewrite C'.
    exists t. eexists. rewrite list_lookup_insert_eq by eauto using lookup_lt_Some. done.
  - unfold finish_section. simpl. case_bool_decide as Hq; [apply wait_ok_none, wake_waiter_asleep|].
    destruct (decide (n = 0)) as [->|Hn].
    + apply wait_ok_reason. left. simpl. naive_solver.
    + eapply (wait_ok_insert s _ _ w); [exact I|exact Hw|reflexivity|left|reflexivity|done|];
        destruct w as [[] ????]; simpl in *; simplify_eq; simpl; try done; congruence.
  - apply wait_ok_reason. left. simpl. by destruct (queue s).
  - unfold wait_section. case_bool_decide as Hq.
    + eapply wait_ok_waiters; [exact I|done..|]. simpl. apply asleep_insert; done.
    + apply wait_ok_reason. simpl. destruct (decide (queue s = [])); [|auto]. right; left.
      intros E. change (busy_total s = 0%nat) in E. rewrite E in C. by destruct Hq.
  - eapply wait_ok_waiters; [exact I|done..|]. simpl. by apply asleep_insert.
  - eapply wait_ok_waiters; [exact I|done..|]. simpl. set_solver.
  - unfold wait_ok, busy_total, busy. simpl. rewrite flat_map_app, length_app. intros Hs.
    destruct (I Hs) as [?|[?|(u & x & Hu & Hx)]]; [auto|right; left; unfold busy_total, busy in *; lia|].
    right; right. eauto using lookup_app_l_Some.
  - eapply (wait_ok_insert s _ _ w); [exact I|exact Hw|reflexivity|by apply wsub0|reflexivity|done|]; by destruct w as [[] ????].
  - eapply (wait_ok_insert s _ _ w); [exact I|exact Hw|reflexivity|by apply wsub0|reflexivity|done|]; by destruct w as [[] ????].
Qed.

(** Only a stopped thread has left its loop. *)
Definition exit_ok w : Prop := w_pc w = WExit -> w_running w = false.

Lemma step_exit s s' : step s s' -> Forall exit_ok (workers s) -> Forall exit_ok (workers s').
Proof.
  intros H I. step_cases H; simpl; try exact I; try apply Forall_app_2; try apply Forall_insert; try exact I; try done;
    try solve [apply Forall_fmap; eapply Forall_impl; [exact I|]; by intros [[] ????]].
  - unfold exit_ok. simpl. by destruct (w_running w).
  - unfold finish_section. case_bool_decide; simpl; by apply Forall_insert.
  - by apply Forall_singleton.
  - exact (proj1 (Forall_lookup _ _) I _ _ Hw).
Qed.

(** A thread is stopped only after the derived part of its object is gone. *)
Definition stopped_dead w : Prop := w_running w = false -> w_alive w = false.

Lemma step_stopped_dead s s' : step s s' -> Forall stopped_dead (workers s) -> Forall stopped_dead (workers s').
Proof.
  intros H I.
  assert (forall (t : nat) w pc, workers s !! t = Some w -> stopped_dead (set_pc pc w)) as Hpc'
    by (intros t w pc Hw; exact (proj1 (Forall_lookup _ _) I _ _ Hw)).
  step_cases H; simpl; try exact I; try (apply Forall_insert; [exact I|by eapply Hpc']);
    try solve [apply Forall_fmap; eapply Forall_impl; [exact I|]; by intros [[] ????]].
  - unfold finish_section. case_bool_decide; simpl; apply Forall_insert; try exact I; by eapply Hpc'.
  - apply Forall_app_2; [exact I|by apply Forall_singleton].
  - apply Forall_insert; [exact I|by intros _].
  - apply Forall_insert; [exact I|by intros _].
Qed.

(** A sender waits only when it has a bound. *)
Definition bounded (x : sender_pc) : Prop := match x with SAsleep _ n => n <> 0 | _ => True end.

Lemma step_bounded s s' : step s s' -> Forall bounded (senders s) -> Forall bounded (senders s').
Proof.
  intros H I. step_cases H; simpl; try exact I; try apply Forall_app_2; try apply Forall_insert; try exact I; try done;
    try solve [apply Forall_fmap; first [eapply Forall_impl; [exact I|]|apply Forall_insert; [eapply Forall_impl; [exact I|]|done]]; by intros []].
  - unfold finish_section. by case_bool_decide.
  - simpl. naive_solver.
  - by apply Forall_singleton.
Qed.

(** All of it, in every reachable state. *)
Record mq_inv s : Prop := {
  inv_sent : sent s ≡ₚ popped s ++ queue s;
  inv_fifo : all_fifo s -> sent s = popped s ++ queue s;
  inv_accounted : accounted s;
  inv_counted : counted s;
  inv_lost : all_live s -> lost s = [];
  inv_sleep : sleep_ok s;
  inv_wait : wait_ok s;
  inv_exit : Forall exit_ok (workers s);
  inv_bounded : Forall bounded (senders s);
}.

Lemma reachable_inv s : reachable s -> mq_inv s.
Proof.
  revert s. apply (rtc_ind_r mq_inv); [|intros s1 s2 _ H I].
  - constructor; unfold accounted, counted, sleep_ok; try done. by apply wait_ok_none, not_elem_of_nil.
  - pose proof (step_counted _ _ H (inv_counted _ I)) as C. destruct I. constructor;
      eauto using step_sent, step_fifo, step_accounted, step_lost, step_sleep, step_wait_ok, step_exit, step_bounded.
Qed.

(** [on_exit()] is called after the loop: by then the derived part of the object
    is destroyed, and the call reaches the empty method of the base class. *)
Lemma on_exit_of_base s (t : nat) w :
  reachable s -> workers s !! t = Some w -> w_pc w = WExit -> w_alive w = false.
Proof.
  intros R Hw Hp.
  assert (Forall stopped_dead (workers s)) as I
    by (revert R; apply (rtc_ind_r (fun s => Forall stopped_dead (workers s))); [done|]; intros s1 s2 _ H I; by eapply step_stopped_dead).
  apply (proj1 (Forall_lookup _ _) I _ _ Hw), (proj1 (Forall_lookup _ _) (inv_exit _ (reachable_inv _ R)) _ _ Hw Hp).
Qed.

(** A waiter returns only when everything that was sent has been handled. *)
Lemma wait_returned s t :
  (t < length (waiters s))%nat -> waiters (wait_section t s) !! t = Some EReturned ->
  queue s = [] /\ busy_count s = 0.
Proof.
  intros Hl. unfold wait_section. simpl. rewrite list_lookup_insert_eq by done. by case_bool_decide.
Qed.

Lemma in_flight_busy s : busy s = [] -> in_flight s = [].
Proof.
  unfold busy, in_flight. induction (workers s) as [|w ws IH]; simpl; [done|].
  intros [E1 E2]%app_eq_nil. rewrite IH by done. by destruct w as [[| | | |[?|]| | | |] ????].
Qed.

Lemma busy_total_zero s :
  counted s -> Z.of_nat (length (popped s)) <= size_max -> busy_count s = 0 -> busy s = [] /\ lost s = [].
Proof.
  intros [C B] Hm Hz. rewrite Hz, size_t_id in C by (unfold is_size_t; lia).
  unfold busy_total in C. by split; apply nil_length_inv; lia.
Qed.

(** ** Termination of the internal steps *)

Lemma sum_insert {A} (f : A -> nat) (l : list A) (t : nat) x y :
  l !! t = Some x -> (sum_list_with f (<[t := y]> l) + f x = sum_list_with f l + f y)%nat.
Proof.
  revert t. induction l as [|z l IH]; intros [|t] H; simplify_eq/=; [lia|]. specialize (IH t H). lia.
Qed.

Lemma sum_map {A} (f g : A -> nat) (h : A -> A) (l : list A) (k : nat) :
  (forall x, f (h x) <= f x + k)%nat -> (sum_list_with f (map h l) <= sum_list_with f l + k * length l)%nat.
Proof. intros H. induction l as [|x l IH]; simpl; [lia|]. specialize (H x). lia. Qed.

(** The steps a thread can still take, where a message in the queue, a sender
    and a notification carry the steps that they cause.  A handler thread that
    was stopped leaves its loop once it is woken; a running one sleeps again. *)
Section weights.
Context (n_workers n_senders n_waiters message_weight notify_weight : nat).
Context (message_weight_eq : message_weight = (7 + n_waiters)%nat).
Context (notify_weight_eq : notify_weight = (1 + n_workers + n_senders)%nat).

Definition worker_weight w : nat :=
  match w_pc w with
  | WExit => 0
  | WAsleep => if w_running w then 0 else 4
  | WWoken | WEnter => if w_running w then 1 else 5
  | WLoop => 2
  | WGot None => 3
  | WSub _ => 3 + n_waiters
  | WDone => 4 + n_waiters
  | WHandle _ => 5 + n_waiters
  | WGot (Some _) => 6 + n_waiters
  end.

Definition sender_weight (x : sender_pc) : nat :=
  match x with
  | SReturned => 0
  | SNotify => notify_weight
  | SAsleep _ _ => 1 + notify_weight + message_weight
  | SEnter _ _ | SWoken _ _ => 2 + notify_weight + message_weight
  end.

Definition waiter_weight (x : waiter_pc) : nat :=
  match x with EReturned | EAsleep => 0 | EEnter | EWoken => 1 end.

Definition weight s : nat :=
  sum_list_with worker_weight (workers s) + sum_list_with sender_weight (senders s) +
  sum_list_with waiter_weight (waiters s) + message_weight * length (queue s) + notify_weight * stop_notify s.

Lemma weight_notify s :
  length (workers s) = n_workers -> length (senders s) = n_senders ->
  (weight (notify_queue s) < weight s + notify_weight)%nat.
Proof.
  intros Hw Hs. unfold weight. simpl.
  pose proof (sum_map worker_weight worker_weight wake_worker (workers s) 1) as A.
  pose proof (sum_map sender_weight sender_weight wake_sender (senders s) 1) as B.
  assert (forall w, worker_weight (wake_worker w) <= worker_weight w + 1)%nat as HA
    by (intros [[] ? [] ??]; unfold worker_weight; simpl; lia).
  assert (forall x, sender_weight (wake_sender x) <= sender_weight x + 1)%nat as HB
    by (intros []; simpl; lia).
  specialize (A HA). specialize (B HB). lia.
Qed.

Lemma weight_insert s t w w' :
  workers s !! t = Some w ->
  (sum_list_with worker_weight (<[t := w']> (workers s)) + worker_weight w = sum_list_with worker_weight (workers s) + worker_weight w')%nat.
Proof. apply sum_insert. Qed.

Ltac moved w Hw pc E Hpc :=
  pose proof (weight_insert _ _ w (set_pc pc w) Hw) as E; unfold worker_weight in E at 2 4; simpl in E;
  rewrite Hpc in E; unfold weight; simpl; destruct (w_running w); lia.

Lemma worker_weight_step t w s s' :
  length (waiters s) = n_waiters -> workers s !! t = Some w -> worker_step t w s s' -> (weight s' < weight s)%nat.
Proof.
  intros Kv Hw H.
  destruct H as [w s Hpc | w s rnd s' Hpc Hsec | w s m Hpc Hr Ha | w s m Hpc Hd | w s Hpc
                | w s m Hpc | w s Hpc Ha | w s n Hpc Ha].
  - pose proof (weight_insert s t w (set_pc (if w_running w then WEnter else WExit) w) Hw) as E.
    unfold worker_weight in E at 2 4. simpl in E. rewrite Hpc in E.
    unfold weight. simpl. destruct (w_running w); simpl in *; lia.
  - apply worker_section_inv in Hsec as [(-> & Hav & Hr)|[(m & q & -> & [Ha Hr] & Hget)|[-> Hr]]].
    + pose proof (weight_insert s t w (set_pc WAsleep w) Hw) as E. unfold worker_weight in E at 2 4. simpl in E.
      unfold weight. simpl. destruct Hpc as [Hpc|Hpc]; rewrite Hpc, Hr in E; lia.
    + pose proof (weight_insert s t w (set_pc (WGot (Some m)) w) Hw) as E. unfold worker_weight in E at 2 4. simpl in E.
      apply get_message_perm, Permutation_length in Hget. simpl in Hget.
      unfold weight. simpl. rewrite Hget, Nat.mul_succ_r.
      destruct Hpc as [Hpc|Hpc]; rewrite Hpc, Hr in E; lia.
    + pose proof (weight_insert s t w (set_pc (WGot None) w) Hw) as E. unfold worker_weight in E at 2 4. simpl in E.
      unfold weight. simpl. destruct Hpc as [Hpc|Hpc]; rewrite Hpc, Hr in E; lia.
  - moved w Hw (WHandle m) E Hpc.
  - moved w Hw WLoop E Hpc.
  - moved w Hw WLoop E Hpc.
  - moved w Hw WDone E Hpc.
  - moved w Hw (WSub (size_t (busy_count s - 1))) E Hpc.
  - pose proof (sum_map waiter_weight waiter_weight wake_waiter (waiters s) 1) as B.
    assert (forall x, waiter_weight (wake_waiter x) <= waiter_weight x + 1)%nat as HB by (intros []; simpl; lia).
    specialize (B HB). unfold finish_section. case_bool_decide; simpl;
    pose proof (weight_insert s t w (set_pc WLoop w) Hw) as E; unfold worker_weight in E at 2 4; simpl in E;
    rewrite Hpc in E; unfold weight; simpl; lia.
Qed.

Lemma internal_weight s s' :
  length (workers s) = n_workers -> length (senders s) = n_senders -> length (waiters s) = n_waiters ->
  internal_step s s' -> (weight s' < weight s)%nat.
Proof.
  intros Kw Ks Kv H.
  destruct H as [t w s s' Hw H | t m n s Ht | t s Ht | t s Ht | s Hn].
  - by apply (worker_weight_step t w).
  - assert (sum_list_with sender_weight (<[t := SNotify]> (senders s)) + (2 + notify_weight + message_weight) =
      sum_list_with sender_weight (senders s) + notify_weight)%nat as E
      by (destruct Ht as [Ht|Ht]; apply (@sum_insert _ sender_weight _ _ _ SNotify Ht)).
    assert (sum_list_with sender_weight (<[t := SAsleep m n]> (senders s)) + (2 + notify_weight + message_weight) =
      sum_list_with sender_weight (senders s) + (1 + notify_weight + message_weight))%nat as E'
      by (destruct Ht as [Ht|Ht]; apply (@sum_insert _ sender_weight _ _ _ (SAsleep m n) Ht)).
    unfold weight, send_section. case_bool_decide; simpl;
      rewrite ?length_app, ?Nat.mul_add_distr_l; simpl; lia.
  - pose proof (sum_insert sender_weight _ _ _ SReturned Ht) as E.
    pose proof (weight_notify (set_senders (<[t := SReturned]> (senders s)) s)) as N. simpl in N.
    rewrite length_insert in N. specialize (N Kw Ks). unfold weight in *. simpl in *. lia.
  - assert (sum_list_with waiter_weight (<[t := EReturned]> (waiters s)) + 1 = sum_list_with waiter_weight (waiters s) + 0)%nat as E
      by (destruct Ht as [Ht|Ht]; apply (@sum_insert _ waiter_weight _ _ _ EReturned Ht)).
    assert (sum_list_with waiter_weight (<[t := EAsleep]> (waiters s)) + 1 = sum_list_with waiter_weight (waiters s) + 0)%nat as E'
      by (destruct Ht as [Ht|Ht]; apply (@sum_insert _ waiter_weight _ _ _ EAsleep Ht)).
    unfold weight, wait_section. simpl. case_bool_decide; lia.
  - match goal with |- context [stop_notified s] => idtac end. unfold stop_notified.
    match goal with |- context [notify_queue ?s0] => pose proof (weight_notify s0 Kw Ks) as N end.
    unfold weight in *. simpl in *. destruct (stop_notify s); simpl in *; [done|].
    rewrite Nat.mul_succ_r. lia.
Qed.
End weights.

Definition mq_weight s : nat :=
  let n := length (workers s) in let k := length (senders s) in let v := length (waiters s) in
  weight v (7 + v) (1 + n + k) s.

(** Internal steps start and stop no thread. *)
Definition same_threads s s' : Prop :=
  length (workers s') = length (workers s) /\ length (senders s') = length (senders s) /\
  length (waiters s') = length (waiters s).

Lemma internal_threads s s' : internal_step s s' -> same_threads s s'.
Proof.
  unfold same_threads.
  intros [t w s1 s1' Hw H | t m n s1 Ht | t s1 Ht | t s1 Ht | s1 Hn].
  - destruct H as [| w s0 rnd s2 Hpc Hsec | | | | | | w s0 n Hpc Ha].
    2: apply worker_section_inv in Hsec as [(-> & _)|[(m & q & -> & _)|[-> _]]].
    10: unfold finish_section; case_bool_decide.
    all: simpl; by rewrite ?length_insert, ?length_map.
  - unfold send_section. case_bool_decide; simpl; by rewrite ?length_insert.
  - simpl. by rewrite !length_map, length_insert.
  - simpl. by rewrite length_insert.
  - simpl. by rewrite !length_map.
Qed.

Lemma mq_weight_decreases s s' : internal_step s s' -> (mq_weight s' < mq_weight s)%nat.
Proof.
  intros H. destruct (internal_threads _ _ H) as (E1 & E2 & E3).
  unfold mq_weight. rewrite E1, E2, E3.
  apply (internal_weight (length (workers s)) (length (senders s)) (length (waiters s))); done.
Qed.

(** Nothing is left to do: every thread sleeps or has returned. *)
Definition quiescent s : Prop := forall s', ~ internal_step s s'.

Lemma quiescent_worker s t w :
  quiescent s -> workers s !! t = Some w -> live w -> w_pc w = WAsleep \/ w_pc w = WExit.
Proof.
  intros Q Hw [La Lr]. destruct (w_pc w) as [| | | |[m|]|m| |n|] eqn:E; auto; exfalso.
  1: eapply Q, step_worker, worker_loop; eauto.
  1, 2: destruct (decide (queue s = [])) as [Hq|Hq];
    [|destruct (get_message_some (w_order w) _ Hq) as (rnd & m & q & Hg)].
  1, 3: eapply Q, step_worker, (worker_lock _ _ _ O); eauto; unfold worker_section, is_message_available;
     rewrite Hq, La, Lr; simpl; done.
  1, 2: eapply Q, step_worker, (worker_lock _ _ _ rnd); eauto; unfold worker_section, is_message_available;
     rewrite La, Lr, bool_decide_eq_false_2 by done; simpl; rewrite Hg; done.
  - eapply Q, step_worker, worker_test; eauto.
  - eapply Q, step_worker, worker_none; eauto.
  - eapply Q, step_worker, worker_handle; eauto.
  - eapply Q, step_worker, worker_fetch_sub; eauto.
  - eapply Q, step_worker, worker_finish; eauto.
Qed.

Lemma quiescent_sender s t x : quiescent s -> senders s !! t = Some x -> (exists m n, x = SAsleep m n) \/ x = SReturned.
Proof.
  intros Q Hx. destruct x as [m n|m n|m n| |]; eauto; exfalso.
  - eapply Q, (step_send t). by left.
  - eapply Q, (step_send t). by right.
  - by eapply Q, (step_send_notify t).
Qed.

Lemma quiescent_not_pending s : quiescent s -> ~ notify_pending s.
Proof.
  intros Q [[t Ht]%list_elem_of_lookup|Hn].
  - by eapply Q, (step_send_notify t).
  - by eapply Q, step_stop_notify.
Qed.

Lemma quiescent_waiter s t x : quiescent s -> waiters s !! t = Some x -> x = EAsleep \/ x = EReturned.
Proof.
  intros Q Hx. destruct x; auto; exfalso; eapply Q, (step_wait t); auto.
Qed.

(** With a live thread, rest means that all the work is done. *)
Lemma quiescent_asleep s :
  mq_inv s -> all_live s -> quiescent s -> Forall (fun w => w_pc w = WAsleep) (workers s).
Proof.
  intros I L Q. apply Forall_lookup. intros t w Hw.
  pose proof (proj1 (Forall_lookup _ _) L _ _ Hw) as [La Lr].
  destruct (quiescent_worker _ _ _ Q Hw (conj La Lr)) as [|E]; [done|].
  pose proof (proj1 (Forall_lookup _ _) (inv_exit _ I) _ _ Hw E). congruence.
Qed.

Lemma asleep_flat {A} (f : worker -> list A) ws :
  (forall w, w_pc w = WAsleep -> f w = []) -> Forall (fun w => w_pc w = WAsleep) ws -> flat_map f ws = [].
Proof. intros Hf. induction 1 as [|w ws Hw _ IH]; simpl; [done|]. by rewrite IH, Hf. Qed.

Lemma quiescent_queue s :
  mq_inv s -> all_live s -> workers s <> [] -> quiescent s ->
  queue s = [] /\ in_flight s = [] /\ busy_total s = O.
Proof.
  intros I L Hne Q. pose proof (quiescent_asleep _ I L Q) as S. split; [|split].
  - destruct (workers s) as [|w ws] eqn:E; [done|].
    destruct (decide (queue s = [])) as [|Hq]; [done|].
    exfalso. apply (quiescent_not_pending _ Q), (inv_sleep _ I O w).
    + by rewrite E.
    + by inversion S.
    + left. unfold is_message_available. rewrite bool_decide_eq_false_2 by done.
      unfold all_live in L. rewrite E in L. inversion L as [|? ? [La _]]; subst. by rewrite La.
  - apply asleep_flat; [|done]. intros w Hw. unfold w_msgs. by rewrite Hw.
  - unfold busy_total. rewrite (inv_lost _ I L).
    replace (busy s) with (@nil unit); [done|]. symmetry. apply asleep_flat; [|done].
    intros w Hw. unfold w_busy. by rewrite Hw.
Qed.

(** With one thread there is one order. *)
Definition single_ok s : Prop :=
  (length (workers s) <= 1)%nat -> all_live s -> popped s = done_ s ++ in_flight s.

Lemma single_flat {A} (f : worker -> list A) ws t w w' :
  (length ws <= 1)%nat -> ws !! t = Some w -> flat_map f ws = f w /\ flat_map f (<[t := w']> ws) = f w'.
Proof.
  intros Hl Hw. destruct ws as [|u [|]]; simpl in *; [done| |lia].
  destruct t; simplify_eq/=. by rewrite !app_nil_r.
Qed.

Lemma step_length s s' : step s s' -> (length (workers s) <= length (workers s'))%nat.
Proof.
  intros H. step_cases H; simpl; rewrite ?length_insert, ?length_map, ?length_app; try lia.
  unfold finish_section. case_bool_decide; simpl; rewrite length_insert; lia.
Qed.

Lemma step_single s s' : step s s' -> single_ok s -> single_ok s'.
Proof.
  intros H I Hl L. pose proof (step_live_back _ _ H L) as L'. pose proof (step_length _ _ H).
  specialize (I ltac:(lia) L'). unfold in_flight in *.
  assert (forall t w w', workers s !! t = Some w ->
    flat_map w_msgs (workers s) = w_msgs w /\ flat_map w_msgs (<[t := w']> (workers s)) = w_msgs w') as F
    by (intros; apply single_flat; [lia|done]).
  assert (forall t w, workers s !! t = Some w -> live w) as F2 by by apply Forall_lookup.
  step_cases H; simpl in *; rewrite ?flat_map_wake in * by exact w_msgs_wake; try exact I.
  all: try (unfold finish_section; case_bool_decide; simpl).
  all: try match goal with
    | |- context [<[_ := ?w']> (workers _)] => destruct (F t w w' Hw) as [E1 E2], (F2 _ _ Hw); rewrite E1 in I; rewrite E2, I;
        destruct w as [[] ????]; simpl in *; destruct_or?; simplify_eq; simpl; rewrite ?app_nil_r, <- ?app_assoc; by repeat case_match
    end.
  by rewrite flat_map_app, app_nil_r.
Qed.

Lemma reachable_single s : reachable s -> single_ok s.
Proof. revert s. apply (rtc_ind_r single_ok); [done|]. intros ???. apply step_single. Qed.

Lemma inv_popped s : mq_inv s -> popped s ≡ₚ done_ s ++ in_flight s ++ lost s.
Proof. apply inv_accounted. Qed.

(** A sender past its push stays there, and a thread in the user's handler stays
    there until the handler ends. *)
Definition pushed s (t : nat) : Prop := senders s !! t = Some SNotify \/ senders s !! t = Some SReturned.
Definition in_handler s (t : nat) (m : Msg) : Prop := exists w, workers s !! t = Some w /\ w_pc w = WHandle m.

Lemma pushed_insert s s' t u x y :
  pushed s t -> senders s' = <[u := y]> (senders s) -> senders s !! u = Some x ->
  (x = SNotify \/ x = SReturned -> y = SNotify \/ y = SReturned) -> pushed s' t.
Proof.
  unfold pushed. intros Ht -> Hu Hy. destruct (decide (u = t)) as [->|]; [|by rewrite list_lookup_insert_ne].
  rewrite list_lookup_insert_eq by eauto using lookup_lt_Some. rewrite Hu in Ht.
  destruct Hy as [-> | ->]; auto; destruct Ht; simplify_eq; auto.
Qed.

Lemma pushed_notify s t : pushed s t -> pushed (notify_queue s) t.
Proof. unfold pushed. simpl. rewrite list_lookup_fmap. intros [-> | ->]; simpl; auto. Qed.

Lemma step_pushed s s' i : step s s' -> pushed s i -> pushed s' i.
Proof.
  intros H P. step_cases H; try exact P; try (by apply (pushed_notify s)).
  - unfold finish_section. by case_bool_decide.
  - destruct Ht as [Ht|Ht]; eapply pushed_insert; eauto; intros [|]; done.
  - destruct Ht as [Ht|Ht]; eapply pushed_insert; eauto; intros [|]; done.
  - apply pushed_notify. eapply pushed_insert; eauto.
  - eapply pushed_insert; eauto. intros [|]; done.
  - destruct P as [P|P]; [left|right]; simpl; by apply lookup_app_l_Some.
Qed.

Lemma in_handler_insert s s' t u w w' m :
  in_handler s t m -> workers s' = <[u := w']> (workers s) -> workers s !! u = Some w ->
  (w_pc w = WHandle m -> w_pc w' = WHandle m) -> in_handler s' t m.
Proof.
  intros (x & Hx & Hp) E Hu Hw. unfold in_handler. rewrite E. destruct (decide (u = t)) as [->|]; [|exists x; by rewrite list_lookup_insert_ne].
  exists w'. rewrite list_lookup_insert_eq by eauto using lookup_lt_Some. simplify_eq. auto.
Qed.

Lemma in_handler_notify s t m : in_handler s t m -> in_handler (notify_queue s) t m.
Proof.
  intros (w & Hw & Hp). exists (wake_worker w). simpl. rewrite list_lookup_fmap, Hw. split; [done|]. unfold wake_worker. by rewrite Hp.
Qed.

Lemma step_in_handler s s' i x : step s s' -> done_ s' = done_ s -> in_handler s i x -> in_handler s' i x.
Proof.
  intros H D P.
  step_cases H; try exact P; try (by apply (in_handler_notify s)); try (by apply in_handler_notify);
    try solve [eapply in_handler_insert; [exact P|reflexivity|exact Hw|]; simpl; destruct_or?; congruence].
  - by apply (f_equal length) in D; simpl in D; rewrite length_app in D; simpl in D; lia.
  - unfold finish_section. case_bool_decide; (eapply in_handler_insert; [exact P|reflexivity|exact Hw|]); simpl; congruence.
  - destruct P as (w & Hw & Hp). exists w. split; [|done]. simpl. by apply lookup_app_l_Some.
Qed.

(** ** Properties *)

(** C9. Conservation: in every reachable state each message sent is in
    exactly one place (handled, with a handler thread, dropped, or queued);
    FIFO threads take the messages in the order in which they were sent; and
    while no handler is destroyed, none is dropped. *)
Theorem mq_conservation s :
  reachable s ->
  sent s ≡ₚ done_ s ++ in_flight s ++ lost s ++ queue s /\
  (all_fifo s -> sent s = popped s ++ queue s) /\
  (all_live s -> lost s = []).
Proof.
  intros I%reachable_inv. split; [|split; apply I]. rewrite (inv_sent _ I), (inv_popped _ I).
  by rewrite <- !app_assoc.
Qed.

(** One FIFO handler handles the messages in the order in which they were
    sent: what it has handled is a prefix of what was sent. *)
Theorem mq_fifo_order s :
  reachable s -> all_fifo s -> all_live s -> (length (workers s) <= 1)%nat ->
  sent s = done_ s ++ in_flight s ++ queue s.
Proof.
  intros R F L H. rewrite (inv_fifo _ (reachable_inv _ R) F), (reachable_single _ R H L). by rewrite <- app_assoc.
Qed.

(** C8. No lost wakeup: a handler thread asleep on the queue's condition
    variable has no message to take, or is about to be notified; a thread
    asleep in [wait_until_empty] has a message to wait for, or a handler is
    about to notify it. *)
Theorem mq_no_lost_wakeup s :
  reachable s ->
  (forall (t : nat) w, workers s !! t = Some w -> w_pc w = WAsleep ->
     (queue s = [] \/ w_alive w = false) /\ w_running w = true \/ notify_pending s) /\
  (EAsleep ∈ waiters s ->
     queue s <> [] \/ busy_total s <> O \/ exists (t : nat) w, workers s !! t = Some w /\ w_pc w = WSub 0).
Proof.
  intros I%reachable_inv. split; [|apply I]. intros t w Hw Hp.
  destruct (w_running w) eqn:Hr; [|right; eapply (inv_sleep _ I); eauto].
  destruct (is_message_available w s) eqn:Ha; [right; eapply (inv_sleep _ I); eauto|left].
  unfold is_message_available in Ha. apply andb_false_iff in Ha as [|Ha]; [auto|].
  apply negb_false_iff, bool_decide_eq_true in Ha. auto.
Qed.

(** C6. [wait_until_empty] returns only when every message sent has been
    handled, exactly once, and no handler runs (the [busy_count] did not wrap
    as long as fewer than 2^64 messages were taken). *)
Theorem mq_wait_until_empty s t :
  reachable s -> Z.of_nat (length (popped s)) <= size_max ->
  (t < length (waiters s))%nat -> waiters (wait_section t s) !! t = Some EReturned ->
  done_ s ≡ₚ sent s /\ in_flight s = [] /\ queue s = [].
Proof.
  intros I%reachable_inv Hm Ht Hr. destruct (wait_returned _ _ Ht Hr) as [Hq Hb].
  destruct (busy_total_zero _ (inv_counted _ I) Hm Hb) as [Hz Hl]. apply in_flight_busy in Hz.
  split; [|done]. rewrite (inv_sent _ I), (inv_popped _ I), Hq, Hl, Hz. by rewrite !app_nil_r.
Qed.

(** C10. The library's threads come to rest: from any state, with handlers
    stopped or destroyed or not, the number of steps they take without a call
    from outside (or a spurious wakeup) is bounded by the weight of the state. *)
Theorem mq_internal_terminates s s' n :
  nsteps internal_step n s s' -> (n + mq_weight s' <= mq_weight s)%nat.
Proof.
  intros H. induction H as [s|n s1 s2 s3 H _ IH]; [lia|].
  pose proof (mq_weight_decreases _ _ H). lia.
Qed.

(** C7. At rest, with at least one handler and when no handler was ever stopped
    or destroyed, all work is done: the queue is empty, every
    message sent was handled exactly once, every [wait_until_empty] and every
    unbounded [send_message] has returned. *)
Theorem mq_rest_all_handled s :
  reachable s -> all_live s -> workers s <> [] -> quiescent s ->
  queue s = [] /\ done_ s ≡ₚ sent s /\ Forall (fun x => x = EReturned) (waiters s) /\
  Forall (fun x => x = SReturned \/ exists m n, x = SAsleep m n /\ n <> 0) (senders s).
Proof.
  intros I%reachable_inv L Hne Q. destruct (quiescent_queue _ I L Hne Q) as (Hq & Hf & Hb).
  split; [done|split; [|split; apply Forall_lookup; intros t x Hx]].
  - rewrite (inv_sent _ I), (inv_popped _ I), Hq, Hf, (inv_lost _ I L). by rewrite !app_nil_r.
  - destruct (quiescent_waiter _ _ _ Q Hx) as [->|]; [|done]. exfalso.
    destruct (inv_wait _ I) as [?|[?|(u & w & Hw & Hp)]]; [by apply list_elem_of_lookup; eauto|done..|].
    pose proof (proj1 (Forall_lookup _ _) (quiescent_asleep _ I L Q) _ _ Hw) as E. simpl in E. congruence.
  - destruct (quiescent_sender _ _ _ Q Hx) as [(m & n & ->)|]; [right|by left].
    exists m, n. split; [done|]. exact (proj1 (Forall_lookup _ _) (inv_bounded _ I) _ _ Hx).
Qed.
End message_manager.

(** ** Runs *)

(** One step of a run, and the state it leads to, computed. *)
Ltac compute_state :=
  match goal with |- rtc _ ?s _ => let s' := eval vm_compute in s in
    replace s with s' by (vm_compute; reflexivity) end.
Ltac go_worker c :=
  eapply rtc_l; [left; eapply (step_worker 0); [reflexivity|eapply c; simpl; auto]|compute_state].
Ltac go_lock :=
  eapply rtc_l; [left; eapply (step_worker 0); [reflexivity|eapply (worker_lock 0 _ _ 0); [simpl; auto|vm_compute; reflexivity]]|compute_state].
Ltac go_internal c := eapply rtc_l; [left; eapply c; simpl; eauto|compute_state].
Ltac go_external c := eapply rtc_l; [right; eapply c; simpl; eauto|compute_state].

(** The one worker takes a message, handles it, and goes to sleep. *)
Ltac go_message :=
  go_worker @worker_loop; go_lock; go_worker @worker_test; go_worker @worker_handle;
  go_worker @worker_fetch_sub; go_worker @worker_finish; go_worker @worker_loop;
  go_lock.

Ltac solve_quiescent :=
  intros s' H; inversion H as [t w ? ? Hw Hs|t ? ? ? Ht|t ? Ht|t ? Ht|]; subst; try done;
  destruct t as [|[|t]]; simplify_eq/=; destruct_or?; simplify_eq/=;
  inversion Hs; subst; simplify_eq/=; destruct_or?; simplify_eq/=.

Definition handler_asleep : worker (Msg := nat) := Worker WAsleep FIFO true true true.

(** A message sent and handled, and a thread about to test [wait_until_empty]. *)
Definition handled_state : message_queue (Msg := nat) :=
  MessageQueue [] 0 [handler_asleep] [SReturned] [EEnter] 0 [7%nat] [7%nat] [7%nat] [].
Definition rest_state : message_queue (Msg := nat) :=
  MessageQueue [] 0 [handler_asleep] [SReturned] [EReturned] 0 [7%nat] [7%nat] [7%nat] [].

Lemma handled_state_reachable : reachable handled_state.
Proof.
  go_external (@step_add_handler nat FIFO true). go_external (@step_send_call nat 7%nat 0).
  go_internal (@step_send nat 0%nat). go_internal (@step_send_notify nat 0%nat).
  go_message. go_external @step_wait_call. apply rtc_refl.
Qed.

Lemma rest_state_reachable : reachable rest_state.
Proof.
  eapply rtc_r; [exact handled_state_reachable|]. left. by apply (step_wait 0); left.
Qed.

Lemma rest_state_quiescent : quiescent rest_state.
Proof. solve_quiescent. Qed.

Lemma mq_conservation_witness :
  sent handled_state ≡ₚ done_ handled_state ++ in_flight handled_state ++ lost handled_state ++ queue handled_state.
Proof. exact (proj1 (mq_conservation handled_state handled_state_reachable)). Defined.

Lemma mq_fifo_order_witness : sent handled_state = done_ handled_state ++ in_flight handled_state ++ queue handled_state.
Proof.
  apply (mq_fifo_order handled_state handled_state_reachable); [by repeat constructor|by repeat constructor|simpl; lia].
Defined.

Lemma mq_no_lost_wakeup_witness :
  (queue handled_state = [] \/ w_alive handler_asleep = false) /\ w_running handler_asleep = true \/ notify_pending handled_state.
Proof. apply (proj1 (mq_no_lost_wakeup handled_state handled_state_reachable) 0%nat); reflexivity. Defined.

Lemma mq_wait_until_empty_witness : done_ handled_state ≡ₚ sent handled_state.
Proof.
  apply (mq_wait_until_empty handled_state 0 handled_state_reachable); [done|simpl; lia|reflexivity].
Defined.

Lemma mq_internal_terminates_witness : (1 + mq_weight rest_state <= mq_weight handled_state)%nat.
Proof.
  apply (mq_internal_terminates handled_state).
  eapply nsteps_l; [apply (step_wait 0); by left|apply nsteps_O].
Defined.

Lemma mq_rest_all_handled_witness : done_ rest_state ≡ₚ sent rest_state.
Proof.
  apply (mq_rest_all_handled rest_state rest_state_reachable); [by repeat constructor|done|exact rest_state_quiescent].
Defined.

(** ** What is not guaranteed *)

(** A bounded sender is not woken when room appears: handlers do not notify
    [queue_cv] after taking a message.  Here the queue is empty, the bound is
    1, and no thread has anything left to do. *)
Definition stuck_sender : message_queue (Msg := nat) :=
  MessageQueue [] 0 [handler_asleep] [SReturned; SAsleep 8%nat 1] [] 0 [7%nat] [7%nat] [7%nat] [].

Example bounded_sender_never_wakes : reachable stuck_sender /\ quiescent stuck_sender.
Proof.
  split; [|solve_quiescent].
  go_external (@step_send_call nat 7%nat 1). go_internal (@step_send nat 0%nat). go_internal (@step_send_notify nat 0%nat).
  go_external (@step_send_call nat 8%nat 1). go_internal (@step_send nat 1%nat).
  go_external (@step_add_handler nat FIFO true). go_message. apply rtc_refl.
Qed.

(** [dispose] while a handler holds a message: the message is dropped, the busy
    count stays 1, and [wait_until_empty] waits forever. *)
Definition lost_message : message_queue (Msg := nat) :=
  MessageQueue [] 1 [Worker WExit FIFO false false true] [SReturned] [EAsleep] 0 [7%nat] [7%nat] [] [7%nat].

Example disposed_message_lost : reachable lost_message /\ quiescent lost_message.
Proof.
  split; [|solve_quiescent].
  go_external (@step_add_handler nat FIFO true). go_external (@step_send_call nat 7%nat 0).
  go_internal (@step_send nat 0%nat). go_internal (@step_send_notify nat 0%nat).
  go_worker @worker_loop. go_lock.
  go_external (@step_destroy nat 0%nat). go_external (@step_stop nat 0%nat). go_internal @step_stop_notify.
  go_worker @worker_drop. go_worker @worker_loop.
  go_external @step_wait_call. go_internal (@step_wait nat 0%nat). apply rtc_refl.
Qed.
