(* ===== verification/MessageLog.v ===== *)
(** * MessageLog: the message logger of [concurrency/message_manager.hpp]

    A logger set for a queue is told of each message twice: by the thread that
    sends it, after it has notified the handlers ([true]), and by the handler
    thread, before the user's function ([false]); [message_logger_mutex] makes
    each call one step.  The steps here are those of MessageManager with these
    calls in between: a sender has returned only when it holds no message any
    more, and a handler ends only after it has told the logger. *)

From S2P Require Import Prelude Errors MessageManager.

Section message_log.
Context {Msg : Type}.
Implicit Types (q : message_queue (Msg := Msg)) (w : worker (Msg := Msg)).

(** [held]: senders that have pushed their message and not told the logger;
    [told]: handler threads that have, and are in the user's function. *)
Record logged_queue : Type := Logged {
  l_queue : message_queue (Msg := Msg);
  held : gmap nat Msg;
  told : gmap nat Msg;
  log : list (Msg * bool);
}.
Implicit Types (s : logged_queue) (h d : gmap nat Msg) (l : list (Msg * bool)).

(** The queue has room for a message of this sender. *)
Definition queue_room (max_queued_messages : Z) q : Prop :=
  max_queued_messages = 0 \/ Z.of_nat (length (queue q)) < max_queued_messages.

Inductive logged_internal : logged_queue -> logged_queue -> Prop :=
| log_other q q' h d l :
    internal_step q q' -> sent q' = sent q -> done_ q' = done_ q -> logged_internal (Logged q h d l) (Logged q' h d l)
| log_push t m n q h d l :
    senders q !! t = Some (SEnter m n) \/ senders q !! t = Some (SWoken m n) -> queue_room n q ->
    logged_internal (Logged q h d l) (Logged (send_section t m n q) (<[t := m]> h) d l)
| log_sent t m q h d l :
    senders q !! t = Some SReturned -> h !! t = Some m ->
    logged_internal (Logged q h d l) (Logged q (delete t h) d (l ++ [(m, true)]))
| log_received t w m q h d l :
    workers q !! t = Some w -> w_pc w = WHandle m -> d !! t = None ->
    logged_internal (Logged q h d l) (Logged q h (<[t := m]> d) (l ++ [(m, false)]))
| log_handled t w m q h d l :
    workers q !! t = Some w -> w_pc w = WHandle m -> d !! t = Some m ->
    logged_internal (Logged q h d l) (Logged (handled t m w q) h (delete t d) l).

Definition logged_step s s' : Prop :=
  logged_internal s s' \/ exists q', external_step (l_queue s) q' /\ s' = Logged q' (held s) (told s) (log s).

Definition logged_start : logged_queue := Logged mq_start ∅ ∅ [].
Definition logged_reachable s : Prop := rtc logged_step logged_start s.
Definition logged_quiescent s : Prop := forall s', ~ logged_internal s s'.

(** The messages the logger has heard of from senders, or from handlers. *)
Definition heard (sending : bool) l : list Msg :=
  omap (fun e => if Bool.eqb e.2 sending then Some e.1 else None) l.
Definition messages (h : gmap nat Msg) : list Msg := (map_to_list h).*2.

(** ** The queue is a queue of MessageManager *)

Lemma logged_internal_queue s s' : logged_internal s s' -> internal_step (l_queue s) (l_queue s') \/ l_queue s' = l_queue s.
Proof.
  destruct 1 as [| t m n q h d l Ht _| | |t w m q h d l Hw Hp _]; simpl; auto; left.
  - by apply step_send.
  - by eapply step_worker, worker_handle.
Qed.

Lemma logged_queue_reachable s : logged_reachable s -> reachable (l_queue s).
Proof.
  revert s. apply (rtc_ind_r (fun s => reachable (l_queue s))); [apply rtc_refl|].
  intros s s' _ [H|(q' & H & ->)] R; [|by eapply rtc_r; [|right]].
  destruct (logged_internal_queue _ _ H) as [?| ->]; [by eapply rtc_r; [|left]|done].
Qed.

(** ** What the logger hears *)

(** Each message sent is with its sender or was told; each message handled, or
    in a handler that has told, was told. *)
Record log_inv s : Prop := {
  log_pushed t m : held s !! t = Some m -> pushed (l_queue s) t;
  log_in_handler t m : told s !! t = Some m -> in_handler (l_queue s) t m;
  log_sending : sent (l_queue s) ≡ₚ heard true (log s) ++ messages (held s);
  log_receiving : heard false (log s) ≡ₚ done_ (l_queue s) ++ messages (told s);
}.

Lemma heard_app b l l' : heard b (l ++ l') = heard b l ++ heard b l'.
Proof. apply omap_app. Qed.

Lemma messages_insert h t m : h !! t = None -> messages (<[t := m]> h) ≡ₚ m :: messages h.
Proof. intros H. unfold messages. by rewrite map_to_list_insert. Qed.

Lemma messages_delete h t m : h !! t = Some m -> messages h ≡ₚ m :: messages (delete t h).
Proof. intros H. unfold messages. by rewrite <- (map_to_list_delete h t m H). Qed.

Lemma not_pushed q t m n : senders q !! t = Some (SEnter m n) \/ senders q !! t = Some (SWoken m n) -> ~ pushed q t.
Proof. unfold pushed. intros [-> | ->] [|]; done. Qed.

Lemma log_inv_quiet q q' h d l :
  step q q' -> sent q' = sent q -> done_ q' = done_ q -> log_inv (Logged q h d l) -> log_inv (Logged q' h d l).
Proof.
  intros H Es Ed [Ip Ih Is Ir]. simpl in *. split; simpl; intros.
  - by eapply step_pushed, Ip.
  - by eapply step_in_handler, Ih.
  - by rewrite Es.
  - by rewrite Ed.
Qed.

Lemma external_quiet q q' : external_step q q' -> sent q' = sent q /\ done_ q' = done_ q.
Proof. by destruct 1. Qed.

Lemma log_inv_internal s s' : logged_internal s s' -> log_inv s -> log_inv s'.
Proof.
  intros H I. destruct H as [q q' h d l H Es Ed|t m n q h d l Ht Hr|t m q h d l Ht Hm|t w m q h d l Hw Hp Hm|t w m q h d l Hw Hp Hm];
    [by eapply log_inv_quiet; [left|..]|..]; destruct I as [Ip Ih Is Ir]; simpl in *.
  - assert (step q (send_section t m n q)) as Hstep by (left; by apply step_send).
    assert (h !! t = None) as Hn by (apply eq_None_not_Some; intros [m' Hm]; by eapply not_pushed, Ip).
    assert (send_section t m n q = MessageQueue (queue q ++ [m]) (busy_count q) (workers q) (<[t := SNotify]> (senders q))
      (waiters q) (stop_notify q) (sent q ++ [m]) (popped q) (done_ q) (lost q)) as E
      by (unfold send_section; by rewrite bool_decide_eq_true_2).
    split; simpl; [|intros u m' Hu; eapply step_in_handler; [exact Hstep|by rewrite E|by apply Ih]|..]; rewrite ?E; simpl; [| |done].
    + intros u m' [[-> _]|[_ Hu]]%lookup_insert_Some; [|rewrite <- E; by eapply step_pushed, Ip].
      left. simpl. rewrite list_lookup_insert_eq; [done|]. destruct Ht; by eapply lookup_lt_Some.
    + rewrite (messages_insert h t m Hn), Is, <- app_assoc. apply Permutation_app_head. by rewrite Permutation_app_comm.
  - split; simpl; [|done|..].
    + intros u m' [_ Hu]%lookup_delete_Some. by eapply Ip.
    + rewrite heard_app. simpl. rewrite Is, (messages_delete h t m Hm), <- app_assoc. done.
    + rewrite heard_app. simpl. by rewrite app_nil_r.
  - split; simpl; [done| |..].
    + intros u m' [[-> <-]|[_ Hu]]%lookup_insert_Some; [by exists w|by apply Ih].
    + rewrite heard_app. simpl. by rewrite app_nil_r.
    + rewrite heard_app. simpl. rewrite Ir, (messages_insert d t m Hm), <- app_assoc.
      apply Permutation_app_head. by rewrite Permutation_app_comm.
  - split; simpl; [done| |done|].
    + intros u m' [Hne Hu]%lookup_delete_Some. destruct (Ih u m' Hu) as (x & Hx & Hpx). exists x. simpl.
      by rewrite list_lookup_insert_ne.
    + rewrite Ir, (messages_delete d t m Hm), <- app_assoc. done.
Qed.

Lemma logged_reachable_inv s : logged_reachable s -> log_inv s.
Proof.
  revert s. apply (rtc_ind_r log_inv); [by split; simpl; intros; rewrite ?lookup_empty in *|].
  intros [q h d l] s' _ [H|(q' & H & ->)] I; [by eapply log_inv_internal|].
  destruct (external_quiet _ _ H). by eapply log_inv_quiet; [right|..].
Qed.

(** ** At rest *)

Lemma logged_quiescent_queue s : log_inv s -> logged_quiescent s -> quiescent (l_queue s).
Proof.
  destruct s as [q h d l]. intros I Q q' H. simpl in *. pose proof (fun E1 E2 => Q _ (log_other q q' h d l H E1 E2)) as Qo.
  destruct H as [t w q q' Hw H|t m n q Ht|t q Ht|t q Ht|q Hn]; try by apply Qo.
  - destruct H as [| w q rnd q' _ Hsec| | | | w q m Hp| |w q n]; try by apply Qo.
    + apply worker_section_inv in Hsec as [(-> & _)|[(? & ? & -> & _)|[-> _]]]; by apply Qo.
    + destruct (d !! t) as [m'|] eqn:Hd; [|by eapply Q, log_received].
      destruct (log_in_handler _ I t m' Hd) as (x & Hx & Hpx). simpl in Hx. simplify_eq.
      eapply Q, log_handled; [exact Hw|exact Hp|congruence].
    + apply Qo; unfold finish_section; by case_bool_decide.
  - destruct (decide (queue_room n q)); [by eapply Q, log_push|].
    apply Qo; unfold send_section; by rewrite bool_decide_eq_false_2.
Qed.

Lemma logged_quiescent_empty s : log_inv s -> logged_quiescent s -> held s = ∅ /\ told s = ∅.
Proof.
  intros I Q. pose proof (logged_quiescent_queue s I Q) as Qq. destruct s as [q h d l]. simpl in *.
  split; apply map_eq; intros t; rewrite lookup_empty; apply eq_None_not_Some; intros [m Hm].
  - destruct (log_pushed _ I t m Hm) as [Hs|Hs]; simpl in Hs.
    + by eapply Qq, (step_send_notify t).
    + by eapply Q, log_sent.
  - destruct (log_in_handler _ I t m Hm) as (w & Hw & Hp). simpl in Hw. by eapply Q, log_handled.
Qed.

(** ** Property *)

(** C11. The logger hears of every message twice.  At any time, from the senders it
    has heard of the messages sent except those of senders that are about to tell
    it, and from the handlers of the messages handled and those being handled;
    at rest, with a handler and none destroyed, of every message sent exactly once
    from each side. *)
Theorem message_logger_hears s :
  logged_reachable s ->
  sent (l_queue s) ≡ₚ heard true (log s) ++ messages (held s) /\
  heard false (log s) ≡ₚ done_ (l_queue s) ++ messages (told s) /\
  (all_live (l_queue s) -> workers (l_queue s) <> [] -> logged_quiescent s ->
   heard true (log s) ≡ₚ sent (l_queue s) /\ heard false (log s) ≡ₚ sent (l_queue s)).
Proof.
  intros R. pose proof (logged_reachable_inv s R) as I. pose proof (log_sending s I) as Hs. pose proof (log_receiving s I) as Hr.
  split; [done|split; [done|]]. intros L Hne Q. destruct (logged_quiescent_empty s I Q) as [Eh Ed].
  pose proof (reachable_inv _ (logged_queue_reachable s R)) as Iq.
  destruct (quiescent_queue _ Iq L Hne (logged_quiescent_queue s I Q)) as (Hq & Hf & _).
  rewrite Eh, app_nil_r in Hs. rewrite Ed, app_nil_r in Hr. split; [done|].
  rewrite Hr, (inv_sent _ Iq), (inv_popped _ Iq), Hq, Hf, (inv_lost _ Iq L). by rewrite !app_nil_r.
Qed.
End message_log.

(** ** A run *)

(** One step of a run, and the state it leads to, computed. *)
Ltac run_other c := eapply rtc_l; [left; eapply log_other; [eapply c; simpl; eauto|reflexivity|reflexivity]|compute_state].
Ltac run_worker c := eapply rtc_l;
  [left; eapply log_other; [eapply (step_worker 0); [reflexivity|eapply c; simpl; auto]|reflexivity|reflexivity]|compute_state].
Ltac run_lock := eapply rtc_l; [left; eapply log_other;
  [eapply (step_worker 0); [reflexivity|eapply (worker_lock 0 _ _ 0); [simpl; auto|vm_compute; reflexivity]]|reflexivity|reflexivity]|compute_state].
Ltac run_log c := eapply rtc_l; [left; eapply c; simpl; reflexivity|compute_state].
Ltac run_external c := eapply rtc_l; [right; eexists; split; [eapply c; simpl; eauto|reflexivity]|compute_state].

(** The handler is quicker than the sender: the logger hears that the message was
    received before it hears that it was sent. *)
Definition received_first : logged_queue (Msg := nat) :=
  Logged (MessageQueue [] 0 [handler_asleep] [SReturned] [] 0 [7%nat] [7%nat] [7%nat] []) ∅ ∅ [(7%nat, false); (7%nat, true)].

Lemma received_first_reachable : logged_reachable received_first.
Proof.
  run_external (@step_add_handler nat FIFO true). run_external (@step_send_call nat 7%nat 0).
  eapply rtc_l; [left; eapply (log_push 0); simpl; [eauto|by left]|compute_state].
  run_other (@step_send_notify nat 0%nat). run_worker @worker_loop. run_lock. run_worker @worker_test.
  run_log (@log_received nat 0%nat).
  run_log (@log_sent nat 0%nat).
  run_log (@log_handled nat 0%nat).
  run_worker @worker_fetch_sub. run_worker @worker_finish. run_worker @worker_loop. run_lock. apply rtc_refl.
Qed.

Lemma received_first_quiescent : logged_quiescent received_first.
Proof.
  assert (quiescent (l_queue received_first)) as Q by solve_quiescent.
  intros s' H. inversion H as [q q' h d l Hi| | | |]; subst; simplify_eq/=; destruct_or?;
    try (destruct t as [|[|t]]; simplify_eq/=; destruct_or?; simplify_eq/=; fail).
  by eapply Q.
Qed.

Lemma message_logger_hears_witness :
  heard true (log received_first) ≡ₚ sent (l_queue received_first) /\ heard false (log received_first) ≡ₚ sent (l_queue received_first).
Proof.
  apply (message_logger_hears received_first received_first_reachable); [by repeat constructor|done|exact received_first_quiescent].
Defined.
