(* ===== verification/Manager.v ===== *)
(** * Manager: the maps of [concurrency/message_manager.hpp]

    [message_manager] keeps a queue per message id and the handlers of each id.
    Its methods look the queue up under the mutexes of the two maps and then act
    on that queue, whose behaviour is the step relation of MessageManager; a
    step here is such a call, or a step of one queue.  [dispose] destroys the
    handlers of an id one after the other and joins each thread, with both
    mutexes held until it is done: meanwhile no other call gets past its lookup,
    those of the handlers included.  [calls m] says that the handler of message
    [m] calls the manager before it returns. *)

From S2P Require Import Prelude Errors MessageManager.

Section manager.
Context {Msg : Type} (calls : Msg -> bool).
Implicit Types (id : Z) (q : message_queue (Msg := Msg)).

(** What [dispose] does next with a handler: destroy its derived part, stop the
    thread, join it. *)
Inductive destructor_pc := DDerived | DStop | DJoin.

(** [_message_queues], and [_threads] as the indices of the handlers in their
    queue; [m_loggers] is whether a logger is set; [disposing] is the id, the
    next action and the handlers left of a [dispose] that holds the mutexes. *)
Record manager := Manager {
  _message_queues : gmap Z (message_queue (Msg := Msg));
  _threads : gmap Z (list nat);
  m_loggers : gmap Z bool;
  disposing : option (Z * destructor_pc * list nat);
}.
Implicit Types (s : manager).

Definition manager_start : manager := Manager ∅ ∅ ∅ None.

Definition set_queue id q s : manager :=
  Manager (<[id := q]> (_message_queues s)) (_threads s) (m_loggers s) (disposing s).
Definition set_disposing d s : manager := Manager (_message_queues s) (_threads s) (m_loggers s) d.

(** The queue of an id, created on first use. *)
Definition queue_of id s : message_queue := default mq_start (_message_queues s !! id).

(** ** The methods, up to what the queue does with them *)

Definition send_message id (message_data : Msg) (max_queued_messages : Z) s : manager :=
  let queue := queue_of id s in
  set_queue id (set_senders (senders queue ++ [SEnter message_data max_queued_messages]) queue) s.

Definition manager_add_handler id (on_exception : bool) (order : order_type) s : manager :=
  let queue := queue_of id s in
  Manager (<[id := add_handler order on_exception queue]> (_message_queues s))
    (<[id := default [] (_threads s !! id) ++ [length (workers queue)]]> (_threads s)) (m_loggers s) (disposing s).

Definition wait_until_empty id s : manager :=
  match _message_queues s !! id with
  | None => s
  | Some queue => set_queue id (set_waiters (waiters queue ++ [EEnter]) queue) s
  end.

Definition dispose id s : manager := set_disposing (Some (id, DDerived, default [] (_threads s !! id))) s.

(** One action of the loop in [_threads[message_id].clear()]; joining waits for
    the thread to leave [worker()]. *)
Definition dispose_action s : option manager :=
  match disposing s with
  | Some (id, _, []) =>
      Some (Manager (_message_queues s) (<[id := []]> (_threads s)) (m_loggers s) None)
  | Some (id, pc, t :: ts) =>
      q ← _message_queues s !! id; w ← workers q !! t;
      match pc with
      | DDerived => Some (set_disposing (Some (id, DStop, t :: ts)) (set_queue id (destroy_derived t w q) s))
      | DStop => Some (set_disposing (Some (id, DJoin, t :: ts)) (set_queue id (stop_worker t w q) s))
      | DJoin => match w_pc w with WExit => Some (set_disposing (Some (id, DDerived, ts)) s) | _ => None end
      end
  | None => None
  end.

(** [set_logger] creates a null entry for an unknown id and dereferences it. *)
Definition set_logger id (on_message : bool) : M manager unit := fun s =>
  match _message_queues s !! id with
  | Some _ => (Ok tt, Manager (_message_queues s) (_threads s) (<[id := on_message]> (m_loggers s)) (disposing s))
  | None => (UB, s)
  end.

(** ** Steps *)

(** Spurious wakeups of the three condition variables' sleepers. *)
Inductive spurious_step : message_queue (Msg := Msg) -> message_queue -> Prop :=
| spurious_worker t w q : workers q !! t = Some w -> w_pc w = WAsleep ->
    spurious_step q (set_worker t (set_pc WWoken w) q)
| spurious_sender t m n q : senders q !! t = Some (SAsleep m n) ->
    spurious_step q (set_senders (<[t := SWoken m n]> (senders q)) q)
| spurious_waiter t q : waiters q !! t = Some EAsleep ->
    spurious_step q (set_waiters (<[t := EWoken]> (waiters q)) q).

(** A handler that calls the manager returns in this step. *)
Definition calling_returns q q' : Prop :=
  exists (t : nat) w w' m, workers q !! t = Some w /\ workers q' !! t = Some w' /\
    w_pc w = WHandle m /\ w_pc w' = WDone /\ calls m = true.

Inductive manager_step : manager -> manager -> Prop :=
| call_send id m n s : disposing s = None -> manager_step s (send_message id m n s)
| call_add_handler id catches order s : disposing s = None -> manager_step s (manager_add_handler id catches order s)
| call_wait id s : disposing s = None -> manager_step s (wait_until_empty id s)
| call_dispose id s : disposing s = None -> manager_step s (dispose id s)
| call_set_logger id on_message s s' : set_logger id on_message s = (Ok tt, s') -> manager_step s s'
| in_dispose s s' : dispose_action s = Some s' -> manager_step s s'
| in_queue id q q' s :
    _message_queues s !! id = Some q -> internal_step q q' -> (disposing s = None \/ ~ calling_returns q q') ->
    manager_step s (set_queue id q' s)
| in_queue_spurious id q q' s :
    _message_queues s !! id = Some q -> spurious_step q q' -> manager_step s (set_queue id q' s).

Definition manager_reachable s : Prop := rtc manager_step manager_start s.

(** ** The queues of a manager are queues *)

Lemma spurious_is_step q q' : spurious_step q q' -> step q q'.
Proof. right. destruct H; by econstructor. Qed.

Lemma queue_of_reachable id s :
  (forall id q, _message_queues s !! id = Some q -> reachable q) -> reachable (queue_of id s).
Proof.
  intros I. unfold queue_of. destruct (_message_queues s !! id) eqn:E; [by eapply I|apply rtc_refl].
Qed.

(** What a step does to the queues: one id's queue takes at most one step. *)
Definition one_queue_steps s s' : Prop :=
  _message_queues s' = _message_queues s \/
  exists id q', step (queue_of id s) q' /\ _message_queues s' = <[id := q']> (_message_queues s).

(** The handler that is being stopped has lost its derived part. *)
Definition dispose_ok s : Prop :=
  match disposing s with
  | Some (id, DStop, t :: _) | Some (id, DJoin, t :: _) =>
      exists w, workers (queue_of id s) !! t = Some w /\ w_alive w = false
  | _ => True
  end.

Lemma queue_of_some id q s : _message_queues s !! id = Some q -> queue_of id s = q.
Proof. unfold queue_of. by intros ->. Qed.

Lemma step_queues s s' : dispose_ok s -> manager_step s s' -> one_queue_steps s s'.
Proof.
  unfold one_queue_steps. intros Hok.
  destruct 1 as [id m n s Hd|id catches order s Hd|id s Hd|id s Hd|id b s s' Hs|s s' Ha|id q q' s Hs Hi Hc|id q q' s Hs Hi].
  - right. eexists id, _. split; [right; apply step_send_call|done].
  - right. eexists id, _. split; [right; apply step_add_handler|done].
  - unfold wait_until_empty. destruct (_message_queues s !! id) as [q|] eqn:E; [|by left].
    right. eexists id, _. split; [right; apply step_wait_call|]. by rewrite (queue_of_some _ _ _ E).
  - by left.
  - unfold set_logger in Hs. destruct (_message_queues s !! id); simplify_eq. by left.
  - unfold dispose_action in Ha. unfold dispose_ok in Hok.
    destruct (disposing s) as [[[id pc] [|t ts]]|] eqn:Ed; simplify_eq/=; [by left|].
    destruct (_message_queues s !! id) as [q|] eqn:E; simplify_eq/=. destruct (workers q !! t) as [w|] eqn:Ew; simplify_eq/=.
    destruct pc; simplify_eq/=.
    + right. eexists id, _. split; [right; eapply step_destroy|]; rewrite (queue_of_some _ _ _ E); [exact Ew|done].
    + destruct Hok as (w' & Hw & Hal). rewrite (queue_of_some _ _ _ E), Ew in Hw. simplify_eq.
      right. eexists id, _. split; [right; eapply step_stop; [|exact Hal]|]; rewrite (queue_of_some _ _ _ E); [exact Ew|done].
    + destruct (w_pc w); simplify_eq. by left.
  - right. exists id, q'. rewrite (queue_of_some _ _ _ Hs). split; [by left|done].
  - right. exists id, q'. rewrite (queue_of_some _ _ _ Hs). split; [by apply spurious_is_step|done].
Qed.

Lemma one_queue_lookup s s' id :
  one_queue_steps s s' -> queue_of id s' = queue_of id s \/ step (queue_of id s) (queue_of id s').
Proof.
  unfold queue_of. intros [->|(id' & q' & Hq & ->)]; [by left|]. destruct (decide (id' = id)) as [->|].
  - right. by rewrite lookup_insert_eq.
  - left. by rewrite lookup_insert_ne.
Qed.

(** A dead handler stays dead. *)
Lemma dead_stays s s' id t w :
  one_queue_steps s s' -> workers (queue_of id s) !! t = Some w -> w_alive w = false ->
  exists w', workers (queue_of id s') !! t = Some w' /\ w_alive w' = false.
Proof.
  intros [->|H]%(one_queue_lookup _ _ id) Hw Hal; [by exists w|].
  destruct (step_kept _ _ _ _ H Hw) as (w' & Hw' & _ & Ha & _). exists w'. split; [done|].
  destruct (w_alive w'); [|done]. rewrite Ha in Hal; done.
Qed.

Lemma step_dispose_ok s s' : dispose_ok s -> manager_step s s' -> dispose_ok s'.
Proof.
  intros Hok H. pose proof (step_queues _ _ Hok H) as Hq. revert Hok. unfold dispose_ok.
  assert (disposing s' = disposing s ->
    match disposing s with
    | Some (id, DStop, t :: _) | Some (id, DJoin, t :: _) => exists w, workers (queue_of id s) !! t = Some w /\ w_alive w = false
    | _ => True end ->
    match disposing s' with
    | Some (id, DStop, t :: _) | Some (id, DJoin, t :: _) => exists w, workers (queue_of id s') !! t = Some w /\ w_alive w = false
    | _ => True end) as Hsame.
  { intros ->. destruct (disposing s) as [[[id []] [|t ts]]|]; try done; intros (w & Hw & Hal); by eapply dead_stays. }
  destruct H as [id m n s Hd|id catches order s Hd|id s Hd|id s Hd|id b s s' Hs|s s' Ha|id q q' s Hs Hi Hc|id q q' s Hs Hi];
    try (by apply Hsame).
  - apply Hsame. unfold wait_until_empty. by destruct (_message_queues s !! id).
  - done.
  - apply Hsame. unfold set_logger in Hs. destruct (_message_queues s !! id); by simplify_eq.
  - clear Hsame. unfold dispose_action in Ha. destruct (disposing s) as [[[id pc] [|t ts]]|] eqn:Ed; simplify_eq/=; [done|].
    destruct (_message_queues s !! id) as [q|] eqn:E; simplify_eq/=. destruct (workers q !! t) as [w|] eqn:Ew; simplify_eq/=.
    pose proof (lookup_lt_Some _ _ _ Ew) as Hlt.
    destruct pc; simplify_eq/=; [intros _|intros (w' & Hw & Hal)|destruct (w_pc w); simplify_eq/=; by destruct ts].
    + eexists. rewrite (queue_of_some _ (destroy_derived t w q)) by apply lookup_insert_eq.
      split; [by apply list_lookup_insert_eq|done].
    + rewrite (queue_of_some _ _ _ E), Ew in Hw. simplify_eq.
      eexists. rewrite (queue_of_some _ (stop_worker t w' q)) by apply lookup_insert_eq.
      split; [by apply list_lookup_insert_eq|done].
Qed.

Lemma manager_inv s :
  manager_reachable s -> dispose_ok s /\ forall id, reachable (queue_of id s).
Proof.
  revert s. apply (rtc_ind_r (fun s => dispose_ok s /\ forall id, reachable (queue_of id s))).
  { split; [done|]. intros id. apply rtc_refl. }
  intros s s' _ Hs [Hok I].
  split; [by eapply step_dispose_ok|]. intros id.
  destruct (one_queue_lookup _ _ id (step_queues _ _ Hok Hs)) as [->|Hq]; [apply I|]. eapply rtc_r; [apply I|exact Hq].
Qed.

(** [dispose] joins a handler whose function calls the manager: the handler
    cannot return, and [dispose] never ends. *)
Definition join_blocked id (t : nat) (ts : list nat) (m : Msg) s : Prop :=
  disposing s = Some (id, DJoin, t :: ts) /\
  exists w, workers (queue_of id s) !! t = Some w /\ w_pc w = WHandle m.

Lemma join_blocked_step id t ts m s s' :
  calls m = true -> dispose_ok s -> join_blocked id t ts m s -> manager_step s s' -> join_blocked id t ts m s'.
Proof.
  intros Hc Hok (Hd & w & Hw & Hp) H.
  destruct H as [id' m' n s Hn|id' catches order s Hn|id' s Hn|id' s Hn|id' b s s' Hs|s s' Ha|id' q q' s Hs Hi Hg|id' q q' s Hs Hi];
    try congruence.
  - unfold set_logger in Hs. destruct (_message_queues s !! id'); simplify_eq. split; [done|]. by exists w.
  - unfold dispose_action in Ha. rewrite Hd in Ha. unfold queue_of in Hw.
    destruct (_message_queues s !! id) as [q|]; simplify_eq/=. rewrite Hw in Ha. simpl in Ha. by rewrite Hp in Ha.
  - split; [done|]. destruct (decide (id' = id)) as [->|Hne].
    2:{ exists w. split; [|done]. unfold queue_of, set_queue in *. simpl. by rewrite lookup_insert_ne. }
    rewrite (queue_of_some _ _ _ Hs) in Hw. rewrite (queue_of_some _ q') by apply lookup_insert_eq.
    destruct (step_handling q q' t w m) as (w' & Hw' & [Hp'|Hp']); [by left|done|done|by exists w'|].
    destruct Hg as [|Hg]; [congruence|]. destruct Hg. by exists t, w, w', m.
  - split; [done|]. destruct (decide (id' = id)) as [->|Hne].
    2:{ exists w. split; [|done]. unfold queue_of, set_queue in *. simpl. by rewrite lookup_insert_ne. }
    rewrite (queue_of_some _ _ _ Hs) in Hw. rewrite (queue_of_some _ q') by apply lookup_insert_eq.
    destruct Hi as [t' u q Hu Hpu|t' m' n q Ht|t' q Ht]; simpl; try by exists w.
    exists w. destruct (decide (t' = t)) as [->|]; [congruence|]. by rewrite list_lookup_insert_ne.
Qed.

Lemma dispose_waits_forever id t ts m s s' :
  calls m = true -> manager_reachable s -> join_blocked id t ts m s -> rtc manager_step s s' ->
  disposing s' = Some (id, DJoin, t :: ts).
Proof.
  intros Hc [Hok _]%manager_inv Hb H. enough (join_blocked id t ts m s' /\ dispose_ok s') as [[] _] by done.
  revert s' H. apply (rtc_ind_r (fun s' => join_blocked id t ts m s' /\ dispose_ok s')); [done|].
  intros s1 s2 _ Hs [Hb1 Hok1]. split; [by eapply join_blocked_step|by eapply step_dispose_ok].
Qed.

(** ** Properties *)

(** C12. The message ids do not interact: in every reachable state of a manager,
    the queue of each id is a reachable queue, so that all that is shown of one
    queue holds of each of them; a step moves at most one id's queue, by at most
    one step of its own; and an id without a queue has nothing to wait for. *)
Theorem manager_queues s s' :
  manager_reachable s -> manager_step s s' ->
  (forall id, reachable (queue_of id s)) /\
  (exists id, (queue_of id s' = queue_of id s \/ step (queue_of id s) (queue_of id s')) /\
     forall id', id' <> id -> _message_queues s' !! id' = _message_queues s !! id') /\
  (forall id, _message_queues s !! id = None -> wait_until_empty id s = s).
Proof.
  intros [Hok I]%manager_inv H. pose proof (step_queues _ _ Hok H) as Hq. split_and!; [done| |].
  - pose proof (fun id => one_queue_lookup _ _ id Hq) as Hl.
    destruct Hq as [->|(id & q' & Hs & E)]; [by exists 0|]. exists id. split; [done|].
    intros id' Hne. by rewrite E, lookup_insert_ne.
  - intros id E. unfold wait_until_empty. by rewrite E.
Qed.
End manager.

(** A message sent to an id that nobody has used. *)
Lemma manager_queues_witness :
  reachable (queue_of 7 (manager_start (Msg := nat))) /\
  exists id, (queue_of id (send_message 7 1%nat 0 manager_start) = queue_of id (manager_start (Msg := nat)) \/
              step (queue_of id manager_start) (queue_of id (send_message 7 1%nat 0 manager_start))).
Proof.
  destruct (manager_queues (fun _ : nat => false) manager_start (send_message 7 1%nat 0 manager_start)) as (HR & (id & Hs & _) & _).
  - apply rtc_refl.
  - by apply call_send.
  - split; [apply HR|]. by exists id.
Defined.

(** [set_logger] before the first use of an id. *)
Example set_logger_unknown_id : (set_logger 1 true (manager_start (Msg := nat))).1 = UB.
Proof. reflexivity. Qed.

(** [dispose] of an id whose handler is in a function that sends: the join waits
    for the handler and the handler for the mutex. *)
Ltac compute_manager :=
  match goal with |- rtc _ ?s _ => let s' := eval vm_compute in s in
    replace s with s' by (vm_compute; reflexivity) end.
Ltac go_call c := eapply rtc_l; [eapply c; reflexivity|compute_manager].
Ltac go_queue tac := eapply rtc_l; [eapply (in_queue _ 7); [reflexivity|tac|by left]|compute_manager].
Ltac go_dispose := eapply rtc_l; [eapply in_dispose; reflexivity|compute_manager].

Example dispose_deadlock :
  exists s, manager_reachable (fun _ : nat => true) s /\
    forall s', rtc (manager_step (fun _ : nat => true)) s s' -> disposing s' = Some (7, DJoin, [0%nat]).
Proof.
  enough (exists s, manager_reachable (fun _ : nat => true) s /\ join_blocked 7 0 [] 1%nat s) as (s & R & B).
  { exists s. split; [done|]. intros s' H. apply (dispose_waits_forever (fun _ => true) 7 0 [] 1%nat s s'); [reflexivity|exact R|exact B|exact H]. }
  eexists. split.
  - unfold manager_reachable. go_call (@call_add_handler nat (fun _ => true) 7 true FIFO).
    go_call (@call_send nat (fun _ => true) 7 1%nat 0).
    go_queue ltac:(eapply (step_send 0); left; reflexivity).
    go_queue ltac:(eapply (step_worker 0); [reflexivity|by eapply worker_loop]).
    go_queue ltac:(eapply (step_worker 0); [reflexivity|eapply (worker_lock 0 _ _ 0); [by left|reflexivity]]).
    go_queue ltac:(eapply (step_worker 0); [reflexivity|by eapply worker_test]).
    go_call (@call_dispose nat (fun _ => true) 7). go_dispose. go_dispose. apply rtc_refl.
  - split; [reflexivity|]. eexists. split; reflexivity.
Qed.
