(* ===== verification/SharedPtr.v ===== *)
(** * SharedPtr: [std::shared_ptr]

    The strong counts of the shared objects by identity, as far as the source
    uses them: [make_shared], copying a pointer, and dropping one, which
    destroys the object with the last pointer to it.  [counted] relates the
    counts to the list of the pointers that exist. *)

From S2P Require Import Prelude.

(** The counts of the live objects, and the identity of the next one. *)
Record shared : Type := Shared { strong : gmap Z Z; next_id : Z }.

Definition shared_none : shared := Shared ∅ 0.

Definition make_shared (s : shared) : Z * shared :=
  (next_id s, Shared (<[next_id s := 1]> (strong s)) (next_id s + 1)).

Definition copy_shared (p : option Z) (s : shared) : shared :=
  match p with
  | Some id => Shared (alter (Z.add 1) id (strong s)) (next_id s)
  | None => s
  end.

(** The second component says whether the object was destroyed. *)
Definition drop_shared (p : option Z) (s : shared) : shared * bool :=
  match p with
  | Some id =>
      match strong s !! id with
      | Some n => if bool_decide (n = 1) then (Shared (delete id (strong s)) (next_id s), true)
                  else (Shared (<[id := n - 1]> (strong s)) (next_id s), false)
      | None => (s, false)
      end
  | None => (s, false)
  end.

(** ** Pointers and counts *)

Definition occ (id : Z) (l : list Z) : Z := Z.of_nat (length (filter (fun x => x = id) l)).

Lemma occ_nil id : occ id [] = 0.
Proof. done. Qed.

Lemma occ_app id l k : occ id (l ++ k) = occ id l + occ id k.
Proof. unfold occ. rewrite filter_app, length_app. lia. Qed.

Lemma occ_cons id x l : occ id (x :: l) = (if decide (x = id) then 1 else 0) + occ id l.
Proof. unfold occ. rewrite filter_cons. case_decide; simpl; lia. Qed.

Lemma occ_nonneg id l : 0 <= occ id l.
Proof. unfold occ. lia. Qed.

#[export] Instance occ_proper id : Proper (Permutation ==> eq) (occ id).
Proof. intros l k E. unfold occ. by rewrite E. Qed.

Lemma occ_pos id l : 0 < occ id l <-> id ∈ l.
Proof.
  induction l as [|x l IH]; rewrite ?occ_nil, ?occ_cons, ?elem_of_nil, ?elem_of_cons; [lia|].
  pose proof (occ_nonneg id l). case_decide; rewrite <- ?IH; naive_solver lia.
Qed.

(** [l] lists the pointers that exist, one entry per pointer. *)
Record counted (s : shared) (l : list Z) : Prop := {
  counted_strong id : strong s !! id = if decide (0 < occ id l) then Some (occ id l) else None;
  counted_next id : id ∈ l -> 0 <= id < next_id s;
  counted_nonneg : 0 <= next_id s;
}.

Lemma counted_none : counted shared_none [].
Proof. split; [|by intros ? ?%elem_of_nil|done]. intros id. simpl. by rewrite lookup_empty. Qed.

Lemma counted_perm s l k : l ≡ₚ k -> counted s l -> counted s k.
Proof.
  intros E [A B C]. split; [|intros id Hi; apply B; by rewrite E|done].
  intros id. by rewrite A, (occ_proper id l k E).
Qed.

Lemma counted_make s l : counted s l -> counted (make_shared s).2 ((make_shared s).1 :: l).
Proof.
  intros [A B C]. assert (occ (next_id s) l = 0) as Hz.
  { pose proof (occ_nonneg (next_id s) l). destruct (decide (0 < occ (next_id s) l)) as [Hp|]; [|lia].
    apply occ_pos, B in Hp. lia. }
  split; simpl; [|intros id [->|Hi]%elem_of_cons; [lia|apply B in Hi; lia]|lia].
  intros id. rewrite occ_cons. destruct (decide (next_id s = id)) as [<-|Hid].
  - rewrite lookup_insert_eq, Hz. done.
  - by rewrite lookup_insert_ne, Z.add_0_l.
Qed.

Lemma counted_copy s l id : counted s l -> id ∈ l -> counted (copy_shared (Some id) s) (id :: l).
Proof.
  intros [A B C] Hin. pose proof Hin as Hp. apply occ_pos in Hp.
  split; simpl; [|intros i [->|Hi]%elem_of_cons; auto|done].
  intros i. rewrite occ_cons. destruct (decide (id = i)) as [<-|Hid].
  - rewrite lookup_alter_eq, A. rewrite !decide_True by lia. done.
  - by rewrite lookup_alter_ne, Z.add_0_l.
Qed.

(** Dropping a pointer destroys the object exactly when it was the last. *)
Lemma counted_drop s l id :
  counted s (id :: l) -> counted (drop_shared (Some id) s).1 l /\ ((drop_shared (Some id) s).2 = true <-> id ∉ l).
Proof.
  intros [A B C]. pose proof (occ_nonneg id l) as Hn.
  assert (occ id (id :: l) = 1 + occ id l) as E by (by rewrite occ_cons, decide_True).
  simpl. rewrite A, E, decide_True by lia.
  assert (forall i, i ∈ l -> 0 <= i < next_id s) as B' by (intros i Hi; apply B; by right).
  case_bool_decide as H1; simpl.
  - split; [|split; [|done]; intros _; rewrite <- occ_pos; lia]. split; simpl; [|done|done].
    intros i. destruct (decide (i = id)) as [->|Hi].
    + rewrite lookup_delete_eq, decide_False by lia. done.
    + rewrite lookup_delete_ne, A, occ_cons, (decide_False (P := id = i)), Z.add_0_l by done. done.
  - split; [|split; [done|]; intros Hni; exfalso; apply Hni, occ_pos; lia]. split; simpl; [|done|done].
    intros i. destruct (decide (i = id)) as [->|Hi].
    + rewrite lookup_insert_eq, decide_True by lia. f_equal. lia.
    + rewrite lookup_insert_ne, A, occ_cons, (decide_False (P := id = i)), Z.add_0_l by done. done.
Qed.

Lemma counted_empty s : counted s [] -> strong s = ∅.
Proof. intros [A _ _]. apply map_eq. intros id. by rewrite A, lookup_empty, occ_nil. Qed.

(** The same for a pointer that may be null. *)
Lemma counted_copy_opt s l p :
  counted s l -> (forall id, p = Some id -> id ∈ l) -> counted (copy_shared p s) (option_list p ++ l).
Proof. destruct p as [id|]; [|done]. intros Hc Hp. by apply counted_copy; [|apply Hp]. Qed.

Lemma counted_drop_opt s l p : counted s (option_list p ++ l) -> counted (drop_shared p s).1 l.
Proof. destruct p as [id|]; [|done]. apply counted_drop. Qed.
