(* ===== verification/Singleton.v ===== *)
(** * Singleton: [lifecycle/singleton.hpp]

    The global map of [singleton_control] with the shared objects its entries
    and the program's own pointers keep alive.  A resource type is a number
    (what [dynamic_cast] compares).  The constructor of a resource, and its
    destructor when the control drops the last pointer to it, are user code and
    run with the mutex held.  [std::mutex] is not recursive: locking it again in
    the thread that holds it is undefined behaviour.  [get] tests [_shutdown]
    before it takes the mutex, so the two parts are separate steps. *)

From S2P Require Import Prelude Errors StdMap SharedPtr.

(** A [singleton<T, Args...>] object. *)
Record single : Type := Single { s_type : Z; _name : bytes; _instance : option Z }.

(** [_instances] maps a name to a [std::unique_ptr], which may be null. *)
Record control : Type := Control {
  _instances : list (bytes * option single);
  _mutex : bool;
  _shutdown : bool;
  objects : shared;
}.

Definition set_instances (m : list (bytes * option single)) (w : control) : control :=
  Control m (_mutex w) (_shutdown w) (objects w).
Definition set_mutex (b : bool) (w : control) : control :=
  Control (_instances w) b (_shutdown w) (objects w).
Definition set_shutdown (b : bool) (w : control) : control :=
  Control (_instances w) (_mutex w) b (objects w).
Definition set_objects (s : shared) (w : control) : control :=
  Control (_instances w) (_mutex w) (_shutdown w) s.

Definition control_start : control := Control [] false false shared_none.

(** [std::lock_guard] around [m]: the mutex is released on every way out. *)
Definition with_lock {A} (m : M control A) : M control A := fun w =>
  if _mutex w then (UB, w)
  else let '(r, w') := m (set_mutex true w) in (r, set_mutex false w').

Definition incompatible : string :=
  "cbeam::lifecycle::singleton: incompatible singleton type requested.".

(** The part of [get(name, args...)] under the mutex; [ctor] is the constructor
    of [T] on the arguments. *)
Definition singleton_get_locked (type : Z) (name : bytes) (ctor : M control unit) : M control (option Z) :=
  with_lock (
    w ← get;
    let base_instance := default None (map_find name (_instances w)) in
    let create_base_instance := bool_decide (base_instance = None) in
    _ ← modify (set_instances (map_assign name base_instance (_instances w)));
    _ ← (if create_base_instance then
           _ ← ctor;
           w ← get;
           let '(id, s) := make_shared (objects w) in
           _ ← modify (set_objects s);
           modify (set_instances (map_assign name (Some (Single type name (Some id))) (_instances w)))
         else mret tt);
    w ← get;
    match default None (map_find name (_instances w)) with
    | Some s =>
        if bool_decide (s_type s = type) then
          _ ← modify (set_objects (copy_shared (_instance s) (objects w)));
          mret (_instance s)
        else
          _ ← (if create_base_instance then modify (set_instances (map_assign name None (_instances w))) else mret tt);
          raise runtime_error incompatible
    | None => raise runtime_error incompatible
    end).

(** [get(name, args...)], when nothing happens between the test and the lock. *)
Definition singleton_get (type : Z) (name : bytes) (ctor : M control unit) : M control (option Z) :=
  w ← get;
  if _shutdown w then mret None else singleton_get_locked type name ctor.

Section destructors.
(** The destructor of the resource [id]. *)
Context (dtor : Z -> M control unit).

(** Dropping the pointer of an entry: the last pointer destroys the resource. *)
Definition drop_instance (p : option Z) : M control unit :=
  w ← get;
  let '(s, last) := drop_shared p (objects w) in
  _ ← modify (set_objects s);
  match p with
  | Some id => if last : bool then dtor id else mret tt
  | None => mret tt
  end.

(** Destroying a [std::unique_ptr<singleton_control>]. *)
Definition destroy_entry (e : option single) : M control unit :=
  match e with
  | Some s => drop_instance (_instance s)
  | None => mret tt
  end.

(** [release(name)]. *)
Definition singleton_release (name : bytes) : M control unit :=
  with_lock (
    w ← get;
    match map_find name (_instances w) with
    | Some e =>
        _ ← destroy_entry e;
        modify (fun w => set_instances (map_erase name (_instances w)).1 w)
    | None => mret tt
    end).

(** The loop of [reset()]: [release_instance()] through a null pointer is
    undefined. *)
Fixpoint release_instances (l : list (bytes * option single)) : M control unit :=
  match l with
  | [] => mret tt
  | (_, Some s) :: l => _ ← drop_instance (_instance s); release_instances l
  | (_, None) :: _ => undefined
  end.

(** [singleton_control::reset()] and [set_operational()]. *)
Definition singleton_reset : M control unit :=
  with_lock (
    _ ← modify (set_shutdown true);
    w ← get;
    _ ← release_instances (_instances w);
    modify (set_instances [])).
End destructors.

Definition singleton_set_operational : M control unit := modify (set_shutdown false).

(** ** The program: the control and the pointers that the program holds *)

Definition entry_ptr (e : bytes * option single) : list Z :=
  match e.2 with Some s => option_list (_instance s) | None => [] end.
Definition map_ptrs (w : control) : list Z := flat_map entry_ptr (_instances w).

#[export] Instance single_eq_dec : EqDecision single.
Proof. solve_decision. Defined.

(** User constructors and destructors that do not use singletons themselves. *)
Definition plain_ctor (o : outcome unit) : M control unit := fun w => (o, w).
Definition plain_dtor (id : Z) : M control unit := mret tt.

Lemma drop_plain p w : drop_instance plain_dtor p w = (Ok tt, set_objects (drop_shared p (objects w)).1 w).
Proof.
  unfold drop_instance, mbind, M_bind, get, modify. destruct (drop_shared p (objects w)) as [s last].
  simpl. destruct p as [id|]; [by destruct last|done].
Qed.

(** The actions of the program, and what they do.  A thread may have tested
    [_shutdown] long before it takes the mutex, at the start of the program even,
    so the locked part of [get] may run in any state. *)
Inductive action : Type :=
| AGet (type : Z) (name : bytes)
| ARelease (name : bytes)
| AReset
| ASetOperational
| ACopy
| ADrop.

Inductive program_step : action -> control * list Z -> control * list Z -> Prop :=
| step_get_refused w ps type name :
    _shutdown w = true -> program_step (AGet type name) (w, ps) (w, ps)
| step_get w ps type name p w' :
    singleton_get_locked type name (plain_ctor (Ok tt)) w = (Ok p, w') ->
    program_step (AGet type name) (w, ps) (w', option_list p ++ ps)
| step_get_throws w ps type name o e w' :
    o <> UB -> singleton_get_locked type name (plain_ctor o) w = (Throw e, w') ->
    program_step (AGet type name) (w, ps) (w', ps)
| step_release w ps name w' :
    singleton_release plain_dtor name w = (Ok tt, w') -> program_step (ARelease name) (w, ps) (w', ps)
| step_reset w ps w' :
    singleton_reset plain_dtor w = (Ok tt, w') -> program_step AReset (w, ps) (w', ps)
| step_operational w ps w' :
    singleton_set_operational w = (Ok tt, w') -> program_step ASetOperational (w, ps) (w', ps)
| step_copy w ps id :
    id ∈ ps -> program_step ACopy (w, ps) (set_objects (copy_shared (Some id) (objects w)) w, id :: ps)
| step_drop w ps ps' id :
    ps ≡ₚ id :: ps' -> program_step ADrop (w, ps) (set_objects (drop_shared (Some id) (objects w)).1 w, ps').

(** A run in which every action satisfies [P]. *)
Definition run (P : action -> Prop) : relation (control * list Z) :=
  rtc (fun x y => exists a, P a /\ program_step a x y).
Definition program (x : control * list Z) : Prop := run (fun _ => True) (control_start, []) x.

(** ** The invariant *)

Definition entry_ok (e : bytes * option single) : Prop :=
  match e.2 with Some s => _name s = e.1 /\ is_Some (_instance s) | None => True end.

Record control_inv (w : control) (ps : list Z) : Prop := {
  control_wf : map_wf (_instances w);
  control_mutex : _mutex w = false;
  control_entries : Forall entry_ok (_instances w);
  control_counts : counted (objects w) (map_ptrs w ++ ps);
  control_distinct : NoDup (map_ptrs w);
}.

Lemma map_ptrs_perm m m' : m ≡ₚ m' -> flat_map entry_ptr m ≡ₚ flat_map entry_ptr m'.
Proof. intros E. by apply Permutation_flat_map. Qed.

(** What [get] does, by the state of the entry. *)
Lemma get_shutdown type name ctor w :
  _shutdown w = true -> singleton_get type name ctor w = (Ok None, w).
Proof. intros E. unfold singleton_get, mbind, M_bind, get. by rewrite E. Qed.

Lemma get_existing type name ctor w s :
  map_wf (_instances w) -> _mutex w = false -> map_find name (_instances w) = Some (Some s) ->
  singleton_get_locked type name ctor w =
    if bool_decide (s_type s = type) then (Ok (_instance s), set_objects (copy_shared (_instance s) (objects w)) w)
    else (throw runtime_error incompatible, w).
Proof.
  intros Hwf Hm Hf. destruct w as [m b sh ob]; simpl in *; subst.
  unfold singleton_get_locked, with_lock, mbind, M_bind, get, modify, raise. simpl. rewrite Hf. simpl.
  rewrite map_assign_same, Hf by done. simpl. by case_bool_decide.
Qed.

Lemma get_missing type name o w :
  map_wf (_instances w) -> _mutex w = false ->
  default None (map_find name (_instances w)) = None ->
  singleton_get_locked type name (plain_ctor o) w =
    match o with
    | Ok _ =>
        let '(id, s) := make_shared (objects w) in
        (Ok (Some id), set_objects (copy_shared (Some id) s)
           (set_instances (map_assign name (Some (Single type name (Some id))) (_instances w)) w))
    | Throw e => (Throw e, set_instances (map_assign name None (_instances w)) w)
    | UB => (UB, set_instances (map_assign name None (_instances w)) w)
    end.
Proof.
  intros Hwf Hm Hf. destruct w as [m b sh ob]; simpl in *; subst.
  unfold singleton_get_locked, with_lock, mbind, M_bind, get, modify, raise, plain_ctor. simpl. rewrite Hf. simpl.
  destruct o as [[]|e|]; [|done..]. simpl.
  rewrite map_find_assign_eq. simpl. rewrite bool_decide_eq_true_2 by done. simpl.
  by rewrite map_assign_twice.
Qed.

Lemma entry_ptr_some name s id : _instance s = Some id -> entry_ptr (name, Some s) = [id].
Proof. unfold entry_ptr. simpl. by intros ->. Qed.

Lemma release_instances_spec l w ps :
  Forall entry_ok l -> counted (objects w) (flat_map entry_ptr l ++ ps) ->
  if decide (Forall (fun e => e.2 <> None) l)
  then exists s, release_instances plain_dtor l w = (Ok tt, set_objects s w) /\ counted s ps
  else exists w', release_instances plain_dtor l w = (UB, w').
Proof.
  intros He. revert w. induction He as [|[name e] l He _ IH]; intros w Hc; simpl in *.
  - exists (objects w). by destruct w.
  - destruct e as [s|]; [|rewrite decide_False by (inversion 1; done); by eexists].
    destruct He as [_ [id Hid]]. rewrite (entry_ptr_some _ _ _ Hid) in Hc. simpl in *. rewrite Hid.
    rewrite (M_bind_step _ _ _ _ _ (drop_plain (Some id) w)).
    destruct (counted_drop _ _ _ Hc) as [Hc' _]. specialize (IH (set_objects (drop_shared (Some id) (objects w)).1 w) Hc').
    destruct (decide (Forall _ l)) as [Hf|Hf].
    + rewrite decide_True by by constructor. destruct IH as (s' & Hr & Hs). exists s'. split; [exact Hr|done].
    + rewrite decide_False by (by inversion 1). exact IH.
Qed.

Lemma reset_spec w ps :
  control_inv w ps ->
  if decide (Forall (fun e => e.2 <> None) (_instances w))
  then exists s, singleton_reset plain_dtor w = (Ok tt, Control [] false true s) /\ counted s ps
  else exists w', singleton_reset plain_dtor w = (UB, w').
Proof.
  intros [Hwf Hm He Hc _]. destruct w as [m b sh ob]. simpl in *. subst b.
  pose proof (release_instances_spec m (Control m true true ob) ps He Hc) as Hr.
  unfold singleton_reset, with_lock, mbind, M_bind, get, modify. simpl. unfold set_shutdown. simpl.
  destruct (decide _) as [Hf|Hf].
  - destruct Hr as (s & -> & Hs). exists s. split; [done|exact Hs].
  - destruct Hr as (w' & ->). by eexists.
Qed.

Lemma release_spec name w ps :
  control_inv w ps ->
  exists w', singleton_release plain_dtor name w = (Ok tt, w') /\ control_inv w' ps /\
    _shutdown w' = _shutdown w /\ _instances w' = (map_erase name (_instances w)).1.
Proof.
  intros I. pose proof I as [Hwf Hm He Hc Hd]. destruct w as [m b sh ob]. simpl in *. subst b.
  unfold singleton_release, with_lock, mbind, M_bind, get. simpl.
  destruct (map_find name m) as [e|] eqn:Hf; simpl.
  2: { eexists. split; [done|]. simpl. by rewrite map_erase_absent. }
  pose proof (map_erase_perm _ _ _ Hwf Hf) as Ep. pose proof (map_ptrs_perm _ _ Ep) as Eq. simpl in Eq.
  assert (Forall entry_ok (map_erase name m).1) as He' by by apply map_erase_keys.
  assert (entry_ok (name, e)) as Hee by (rewrite Forall_forall in He; apply He; rewrite Ep; left).
  unfold map_ptrs in *. simpl in *. rewrite Eq in Hd.
  apply (counted_perm _ _ ((entry_ptr (name, e) ++ flat_map entry_ptr (map_erase name m).1) ++ ps)) in Hc; [|by rewrite Eq].
  apply NoDup_app in Hd as (_ & _ & Hd).
  destruct e as [s|]; simpl; [rewrite drop_plain; simpl|]; (eexists; split; [done|]); (split; [|done]).
  - destruct Hee as [_ [id Hid]]. rewrite (entry_ptr_some _ _ _ Hid) in Hc. simpl in *.
    destruct (counted_drop _ _ _ Hc) as [Hc' _].
    split; simpl; [by apply map_erase_wf|done|done| |done]. unfold map_ptrs. simpl. by rewrite Hid.
  - split; simpl; [by apply map_erase_wf|done|done|exact Hc|done].
Qed.

Lemma entry_assign_inv w ps name e s ps' :
  control_inv w ps -> default None (map_find name (_instances w)) = None -> entry_ok (name, e) ->
  counted s (entry_ptr (name, e) ++ map_ptrs w ++ ps') -> NoDup (entry_ptr (name, e) ++ map_ptrs w) ->
  control_inv (set_objects s (set_instances (map_assign name e (_instances w)) w)) ps'.
Proof.
  intros [Hwf Hm He _ _] Hf Hee Hc Hd.
  assert (flat_map entry_ptr (map_assign name e (_instances w)) ≡ₚ entry_ptr (name, e) ++ map_ptrs w) as E.
  { rewrite (map_ptrs_perm _ _ (map_assign_perm name e _ Hwf)). simpl. apply Permutation_app_head.
    unfold map_ptrs. destruct (map_find name (_instances w)) as [o|] eqn:Hf'; simpl in Hf.
    - subst o. by rewrite (map_ptrs_perm _ _ (map_erase_perm _ _ _ Hwf Hf')).
    - by rewrite map_erase_absent. }
  split; unfold map_ptrs; simpl; [by apply map_assign_wf|done| | |by rewrite E].
  - rewrite (map_assign_perm name e _ Hwf). constructor; [done|]. by apply map_erase_keys.
  - eapply counted_perm; [|exact Hc]. by rewrite E, app_assoc.
Qed.

Lemma objects_inv w ps s ps' :
  control_inv w ps -> counted s (map_ptrs w ++ ps') -> control_inv (set_objects s w) ps'.
Proof. by intros [? ? ? _ ?] ?. Qed.

Lemma get_bound_ptr name s w :
  map_wf (_instances w) -> Forall entry_ok (_instances w) -> map_find name (_instances w) = Some (Some s) ->
  exists id, _instance s = Some id /\ id ∈ map_ptrs w.
Proof.
  intros Hwf He Hf. apply map_find_Some_elem in Hf; [|done]. rewrite Forall_forall in He.
  destruct (He _ Hf) as [_ [id Hid]]. exists id. split; [done|].
  unfold map_ptrs. apply list_elem_of_In, in_flat_map. exists (name, Some s).
  split; [by apply list_elem_of_In|]. rewrite (entry_ptr_some _ _ _ Hid). by left.
Qed.

Lemma get_inv type name o w ps r w' :
  control_inv w ps -> o <> UB -> singleton_get_locked type name (plain_ctor o) w = (r, w') ->
  match r with Ok p => control_inv w' (option_list p ++ ps) | Throw _ => control_inv w' ps | UB => False end.
Proof.
  intros I Ho Hg. pose proof I as [Hwf Hm He Hc Hd].
  destruct (default None (map_find name (_instances w))) as [s|] eqn:Hf.
  - destruct (map_find name (_instances w)) as [[s'|]|] eqn:Hf'; simplify_eq/=.
    rewrite (get_existing _ _ _ _ _ Hwf Hm Hf') in Hg. case_bool_decide; simplify_eq; [|done].
    destruct (get_bound_ptr _ _ _ Hwf He Hf') as (id & -> & Hin). simpl. apply objects_inv with ps; [done|].
    apply (counted_perm _ (id :: map_ptrs w ++ ps)); [by rewrite <- Permutation_middle|].
    apply counted_copy; [done|]. apply elem_of_app. by left.
  - rewrite (get_missing _ _ _ _ Hwf Hm Hf) in Hg. destruct o as [[]|e|]; [..|done].
    + destruct (make_shared (objects w)) as [id s] eqn:Em. simplify_eq/=.
      pose proof (counted_make _ _ Hc) as Hc2. rewrite Em in Hc2. simpl in Hc2.
      apply entry_assign_inv with ps; [done|done|by eexists| |].
      * rewrite (entry_ptr_some _ _ id) by done.
        apply (counted_perm _ (id :: id :: map_ptrs w ++ ps));
          [by rewrite (Permutation_middle (map_ptrs w) ps id)|].
        apply counted_copy; [done|by left].
      * rewrite (entry_ptr_some _ _ id) by done. constructor; [|done]. intros Hin.
        destruct (counted_next _ _ Hc id) as [_ Hn]; [by apply elem_of_app; left|].
        unfold make_shared in Em. simplify_eq. lia.
    + simplify_eq/=. pose proof (entry_assign_inv w ps name None (objects w) ps I Hf) as Ha. by apply Ha.
Qed.

Lemma step_inv a x y : control_inv x.1 x.2 -> program_step a x y -> control_inv y.1 y.2.
Proof.
  intros I H. destruct H as [w ps type name H|w ps type name p w' H|w ps type name o e w' Ho H|w ps name w' H|w ps w' H|w ps w' H
                            |w ps id H|w ps ps' id H]; simpl in *.
  - done.
  - by apply (get_inv type name (Ok tt) w ps (Ok p) w').
  - by apply (get_inv type name o w ps (Throw e) w').
  - destruct (release_spec name _ _ I) as (w1 & E & I' & _). rewrite E in H. by simplify_eq.
  - pose proof (reset_spec _ _ I) as Hr. destruct (decide _).
    + destruct Hr as (s & E & Hs). rewrite E in H. simplify_eq. split; unfold map_ptrs; simpl; [constructor|done|constructor|exact Hs|constructor].
    + destruct Hr as (? & ?). congruence.
  - unfold singleton_set_operational, modify in H. simplify_eq. by destruct I.
  - apply objects_inv with ps; [done|]. apply (counted_perm _ (id :: map_ptrs w ++ ps)); [by rewrite <- Permutation_middle|].
    apply counted_copy; [apply I|]. apply elem_of_app. by right.
  - apply objects_inv with ps; [done|].
    apply (counted_drop (objects w) (map_ptrs w ++ ps') id).
    apply (counted_perm _ (map_ptrs w ++ ps)); [|apply I]. rewrite H. by rewrite <- Permutation_middle.
Qed.

Lemma run_inv P x y : control_inv x.1 x.2 -> run P x y -> control_inv y.1 y.2.
Proof. intros I. induction 1 as [|x y z (a & _ & H) _ IH]; [done|]. apply IH. by eapply step_inv. Qed.

Lemma program_inv x : program x -> control_inv x.1 x.2.
Proof. apply run_inv. split; simpl; [constructor|done|constructor|exact counted_none|constructor]. Qed.

(** ** Properties *)

(** C13. Lifetimes are exact: in a program whose resources do not use singletons
    in their constructors and destructors, where every thread may have tested
    [_shutdown] long before it takes the mutex, and no [reset()] meets the null
    entry of a constructor that threw, a resource is alive exactly while an entry
    of the control or a pointer of the program refers to it; getting (whether the
    constructor returns or throws) and releasing are defined; and [reset()], if
    no entry is null, is defined, leaves no entry, leaves alive only what the
    program itself still holds, and sets [_shutdown], so that a [get] that tests
    it afterwards returns null and changes nothing. *)
Theorem singleton_lifetimes w ps :
  program (w, ps) ->
  (forall id, id ∈ dom (strong (objects w)) <-> id ∈ map_ptrs w \/ id ∈ ps) /\
  (forall type name o, o <> UB ->
     (singleton_get type name (plain_ctor o) w).1 <> UB /\
     (singleton_get_locked type name (plain_ctor o) w).1 <> UB) /\
  (forall name, exists w', singleton_release plain_dtor name w = (Ok tt, w')) /\
  ((forall name, map_find name (_instances w) <> Some None) ->
     exists w', singleton_reset plain_dtor w = (Ok tt, w') /\ _instances w' = [] /\
       (forall id, id ∈ dom (strong (objects w')) <-> id ∈ ps) /\
       (forall type name o, singleton_get type name (plain_ctor o) w' = (Ok None, w'))).
Proof.
  intros I%program_inv. simpl in I.
  assert (forall s l, counted s l -> forall id, id ∈ dom (strong s) <-> id ∈ l) as Hdom.
  { intros s l [A _ _] id. rewrite elem_of_dom, A, <- occ_pos. destruct (decide _); split; try done; by intros [? ?]. }
  split; [|split; [|split]].
  - intros id. rewrite (Hdom _ _ (control_counts _ _ I)). apply elem_of_app.
  - intros type name o Ho.
    assert ((singleton_get_locked type name (plain_ctor o) w).1 <> UB) as Hl.
    { intros Hu. destruct (singleton_get_locked type name (plain_ctor o) w) as [r w'] eqn:E.
      simpl in Hu. subst r. by apply (get_inv _ _ _ _ _ _ _ I Ho E). }
    split; [|done]. unfold singleton_get, mbind, M_bind, get. by destruct (_shutdown w).
  - intros name. destruct (release_spec name _ _ I) as (w' & E & _). eauto.
  - intros Hn. pose proof (reset_spec _ _ I) as Hr. rewrite decide_True in Hr.
    + destruct Hr as (s & E & Hs). eexists. split; [exact E|]. simpl. split; [done|split; [by apply Hdom|]].
      intros type name o. by apply get_shutdown.
    + apply Forall_forall. intros [name e] Hin. simpl. intros ->.
      apply (Hn name), map_find_Some_elem; [apply I|done].
Qed.

Definition bound (name : bytes) (type id : Z) (w : control) : Prop :=
  exists s, map_find name (_instances w) = Some (Some s) /\ s_type s = type /\ _instance s = Some id.

(** What neither releases the name nor resets. *)
Definition keeps (name : bytes) (a : action) : Prop := a <> ARelease name /\ a <> AReset.

Lemma step_bound name type id a x y :
  control_inv x.1 x.2 -> program_step a x y -> keeps name a -> bound name type id x.1 -> bound name type id y.1.
Proof.
  intros I H [K1 K2] (s & Hf & Ht & Hi). pose proof I as [Hwf Hm He _ _].
  assert (forall o r w' type' name', singleton_get_locked type' name' (plain_ctor o) x.1 = (r, w') ->
            map_find name (_instances w') = Some (Some s)) as Hget.
  { intros o r w' type' name' Hg.
    destruct (default None (map_find name' (_instances x.1))) as [s'|] eqn:Hf'.
    - destruct (map_find name' (_instances x.1)) as [[s''|]|] eqn:Hf2; simplify_eq/=.
      rewrite (get_existing _ _ _ _ _ Hwf Hm Hf2) in Hg. by case_bool_decide; simplify_eq.
    - assert (name' <> name) as Hne by (intros ->; by rewrite Hf in Hf').
      rewrite (get_missing _ _ _ _ Hwf Hm Hf') in Hg.
      destruct o as [[]|e|]; [destruct (make_shared (objects x.1))|..]; simplify_eq/=; by rewrite map_find_assign_ne. }
  exists s. split; [|done].
  destruct H as [w ps type' name' H|w ps type' name' p w' H|w ps type' name' o e w' Ho H|w ps name' w' H|w ps w' H|w ps w' H
                |w ps i H|w ps ps' i H]; simpl in *; eauto.
  - destruct (release_spec name' _ _ I) as (w1 & E & _ & _ & E2). rewrite E in H. simplify_eq. rewrite E2.
    rewrite map_find_erase_ne; [done|done|]. intros ->. done.
  - done.
  - unfold singleton_set_operational, modify in H. by simplify_eq.
Qed.

(** One instance per name: once [get] has returned a resource for a name,
    every later [get] of that name and type returns the same resource, and does
    not construct another (whatever the constructor would do), until the name is
    released or everything is reset; a [get] of the name with another type
    throws; and other names never share the resource. *)
Theorem singleton_same_instance w ps type name id w1 w2 ps2 :
  program (w, ps) ->
  singleton_get_locked type name (plain_ctor (Ok tt)) w = (Ok (Some id), w1) ->
  run (keeps name) (w1, id :: ps) (w2, ps2) ->
  (forall o, (singleton_get_locked type name (plain_ctor o) w2).1 = Ok (Some id)) /\
  (forall type' o, type' <> type ->
     singleton_get_locked type' name (plain_ctor o) w2 = (throw runtime_error incompatible, w2)) /\
  (forall type' name' id', name' <> name -> bound name' type' id' w2 -> id' <> id).
Proof.
  intros I%program_inv Hg Hr. simpl in I. pose proof I as [Hwf Hm He _ _].
  pose proof (get_inv type name (Ok tt) w ps _ w1 I ltac:(done) Hg) as I1. simpl in I1.
  assert (bound name type id w1) as B1.
  { destruct (default None (map_find name (_instances w))) as [s'|] eqn:Hf'.
    - destruct (map_find name (_instances w)) as [[s''|]|] eqn:Hf2; simplify_eq/=.
      rewrite (get_existing _ _ _ _ _ Hwf Hm Hf2) in Hg. case_bool_decide; simplify_eq. by exists s'.
    - rewrite (get_missing _ _ _ _ Hwf Hm Hf') in Hg. simpl in Hg. simplify_eq/=.
      eexists. simpl. by rewrite map_find_assign_eq. }
  assert (forall x y, run (keeps name) x y -> control_inv x.1 x.2 -> bound name type id x.1 -> bound name type id y.1) as Hb.
  { induction 1 as [|x y z (a & Ka & H) _ IH]; [done|]. intros Ix Bx. apply IH; [by eapply step_inv|by eapply step_bound]. }
  pose proof (run_inv _ _ _ (I1 : control_inv (w1, id :: ps).1 (w1, id :: ps).2) Hr) as I2. simpl in I2.
  destruct (Hb _ _ Hr I1 B1) as (s & Hf & Ht & Hi). simpl in *. pose proof I2 as [Hwf2 Hm2 He2 _ Hd2].
  split; [|split].
  - intros o. rewrite (get_existing _ _ _ _ _ Hwf2 Hm2 Hf), bool_decide_eq_true_2 by done. by rewrite Hi.
  - intros type' o Hne. rewrite (get_existing _ _ _ _ _ Hwf2 Hm2 Hf), bool_decide_eq_false_2 by congruence. done.
  - intros type' name' id' Hne (s' & Hf' & _ & Hi') ->. unfold map_ptrs in Hd2.
    rewrite (map_ptrs_perm _ _ (map_erase_perm _ _ _ Hwf2 Hf)) in Hd2. simpl in Hd2.
    rewrite (entry_ptr_some _ _ _ Hi) in Hd2. simpl in Hd2. apply NoDup_cons in Hd2 as [Hnin _]. apply Hnin.
    apply list_elem_of_In, in_flat_map. exists (name', Some s'). split.
    + apply list_elem_of_In, map_find_Some_elem; [by apply map_erase_wf|]. by rewrite map_find_erase_ne.
    + rewrite (entry_ptr_some _ _ _ Hi'). by left.
Qed.

(** ** Runs *)

Definition one_entry : control :=
  Control [(str "Example", Some (Single 1 (str "Example") (Some 0)))] false false (Shared {[ 0 := 2 ]} 1).

Lemma get_one : singleton_get_locked 1 (str "Example") (plain_ctor (Ok tt)) control_start = (Ok (Some 0), one_entry).
Proof. vm_compute. reflexivity. Defined.

Lemma one_entry_program : program (one_entry, [0]).
Proof.
  eapply rtc_l; [|apply rtc_refl]. exists (AGet 1 (str "Example")). split; [done|].
  apply (step_get _ [] 1 (str "Example") (Some 0)), get_one.
Qed.

Lemma singleton_lifetimes_witness :
  exists w', singleton_reset plain_dtor one_entry = (Ok tt, w') /\ forall id, id ∈ dom (strong (objects w')) <-> id ∈ [0].
Proof.
  destruct (singleton_lifetimes one_entry [0] one_entry_program) as (_ & _ & _ & Hr).
  destruct Hr as (w' & E & _ & Hd & _).
  - intros name. simpl. by repeat case_match.
  - exists w'. split; [exact E|exact Hd].
Defined.

Lemma singleton_same_instance_witness :
  (singleton_get_locked 1 (str "Example") (plain_ctor (throw std_exception "no second construction")) one_entry).1 = Ok (Some 0).
Proof.
  apply (singleton_same_instance control_start [] 1 (str "Example") 0 one_entry one_entry [0]).
  - apply rtc_refl.
  - exact get_one.
  - apply rtc_refl.
Defined.

(** A constructor that throws leaves a null entry behind, which a later
    [reset()] dereferences. *)
Example reset_after_throwing_constructor :
  (_ ← try_all (_ ← singleton_get 1 (str "x") (plain_ctor (throw std_exception "failed")); mret tt) (mret tt);
   singleton_reset plain_dtor) control_start =
  (UB, Control [(str "x", None)] false true shared_none).
Proof. vm_compute. reflexivity. Qed.

(** A resource whose constructor uses another singleton locks the mutex that
    [get] already holds. *)
Example get_inside_constructor :
  (singleton_get 1 (str "outer")
     (_ ← singleton_get 2 (str "inner") (plain_ctor (Ok tt)); mret tt) control_start).1 = UB.
Proof. vm_compute. reflexivity. Qed.

(** A resource whose destructor uses singletons: under [release] the mutex is
    locked again, but under [reset()] [get] returns null before it gets there. *)
Definition dtor_gets (id : Z) : M control unit :=
  _ ← singleton_get 2 (str "inner") (plain_ctor (Ok tt)); mret tt.
Definition only_entry : control :=
  Control [(str "Example", Some (Single 1 (str "Example") (Some 0)))] false false (Shared {[ 0 := 1 ]} 1).

Example get_inside_destructor :
  ((singleton_release dtor_gets (str "Example") only_entry).1, (singleton_reset dtor_gets only_entry).1) = (UB, Ok tt).
Proof. vm_compute. reflexivity. Qed.

(** A thread that tested [_shutdown] before the reset creates its singleton
    after it. *)
Example late_get_survives_reset :
  match singleton_reset plain_dtor only_entry with
  | (Ok _, w) => (singleton_get_locked 1 (str "late") (plain_ctor (Ok tt)) w).1
  | _ => Ok None
  end = Ok (Some 1).
Proof. vm_compute. reflexivity. Qed.
