(* ===== verification/ThreadSafe.v ===== *)
(** * ThreadSafe: [container/thread_safe_container.hpp], [thread_safe_map.hpp],
    [thread_safe_set.hpp] and [lifecycle/scoped_set.hpp]

    The wrappers around [std::map] and [std::set]: a recursive mutex and the flag
    [_is_being_modified], which rejects calls that come from inside a
    modification (from a comparison, a copy or a destructor of an element).

    That user code is an argument of every operation.  It runs inside a call of
    the standard container, and the standard does not say what happens when the
    container is entered again there: the model makes that undefined. *)

From S2P Require Import Prelude Errors StdMap.

(** [_mutex]: the thread that holds the recursive mutex, and how often. *)
Record thread_safe (C : Type) : Type := ThreadSafe {
  _container : C;
  _is_being_modified : bool;
  owner : option nat;
  depth : nat;
  in_call : bool; (* inside a function of [_container] *)
}.
Arguments ThreadSafe {C}.
Arguments _container {C}.
Arguments _is_being_modified {C}.
Arguments owner {C}.
Arguments depth {C}.
Arguments in_call {C}.

Section thread_safe_container.
Context {C : Type}.
Abbreviation TS := (M (thread_safe C)).
Implicit Types (s : thread_safe C).

Definition set_container (c : C) s : thread_safe C :=
  ThreadSafe c (_is_being_modified s) (owner s) (depth s) (in_call s).
Definition set_modified (b : bool) s : thread_safe C :=
  ThreadSafe (_container s) b (owner s) (depth s) (in_call s).
Definition set_in_call (b : bool) s : thread_safe C :=
  ThreadSafe (_container s) (_is_being_modified s) (owner s) (depth s) b.

(** The recursive mutex; a thread that may not lock waits, and takes no step. *)
Definition can_lock (t : nat) s : Prop := owner s = None \/ owner s = Some t.
Definition lock (t : nat) s : thread_safe C :=
  ThreadSafe (_container s) (_is_being_modified s) (Some t) (Datatypes.S (depth s)) (in_call s).
Definition unlock s : thread_safe C :=
  ThreadSafe (_container s) (_is_being_modified s)
    (if bool_decide (depth s = 1%nat) then None else owner s) (depth s - 1) (in_call s).

(** [std::lock_guard<std::recursive_mutex> lock(_mutex)] around [m]. *)
Definition locked {A} (t : nat) (m : TS A) : TS A := fun s =>
  let '(r, s') := m (lock t s) in (r, unlock s').

(** [scoped_set modifying(_is_being_modified, true)] around [m]: the old value
    comes back on every way out. *)
Definition scoped_set {A} (new_val : bool) (m : TS A) : TS A := fun s =>
  let old_value := _is_being_modified s in
  let '(r, s') := m (set_modified new_val s) in (r, set_modified old_value s').

(** [scoped_set(_is_being_modified, true);]: a temporary, gone at once. *)
Definition scoped_set_temporary (new_val : bool) : TS unit := scoped_set new_val (mret tt).

Definition reject_if_modified (text : string) : TS unit :=
  s ← get; if _is_being_modified s then raise runtime_error text else mret tt.

(** A call of the standard container that runs [user] on the way. *)
Definition std_call {A} (user : TS unit) (f : C -> C * outcome A) : TS A := fun s =>
  if in_call s then (UB, s)
  else match user (set_in_call true s) with
  | (Ok _, s') => let '(c, r) := f (_container s') in (r, set_in_call false (set_container c s'))
  | (Throw e, s') => (Throw e, set_in_call false s')
  | (UB, s') => (UB, s')
  end.

(** User code that uses nothing. *)
Definition no_code : TS unit := mret tt.

(** ** [thread_safe_container] *)

(** [get_lock_guard()] tests the flag before it waits for the mutex; the guard
    returned holds it. *)
Definition get_lock_guard (t : nat) : TS unit :=
  _ ← reject_if_modified "cbeam::container::thread_safe_container::get_lock_guard: not allowed during destruction of the container.";
  modify (lock t).
Definition release_guard : TS unit := modify unlock.

Definition ts_clear (t : nat) (empty : C) (user : TS unit) : TS unit :=
  locked t (
    _ ← reject_if_modified "cbeam::container::thread_safe_container::clear: not allowed during modification of the container.";
    scoped_set true (std_call user (fun _ => (empty, Ok tt)))).
Definition ts_empty (t : nat) (is_empty : C -> bool) : TS bool :=
  locked t (std_call no_code (fun c => (c, Ok (is_empty c)))).
Definition ts_size (t : nat) (size : C -> Z) : TS Z :=
  locked t (std_call no_code (fun c => (c, Ok (size c)))).
(** [begin()] and [end()]: what the iterators run over. *)
Definition ts_range (t : nat) : TS C := locked t (std_call no_code (fun c => (c, Ok c))).
(** The destructor, with assertions compiled out. *)
Definition ts_destroy : TS unit := modify (set_modified true).
Definition is_being_modified : TS bool := s ← get; mret (_is_being_modified s).
End thread_safe_container.

(** ** [thread_safe_map] *)

Section thread_safe_map.
Context {K V : Type} `{KeyOrder K} (V_default : V).
Abbreviation TM := (M (thread_safe (list (K * V)))).

Definition tm_at (t : nat) (key : K) (what_arg : string) (user : TM unit) : TM V :=
  locked t (
    _ ← reject_if_modified "cbeam::container::thread_safe_map::at: not allowed during destruction of the map.";
    try_catch (std_call user (fun m => (m, map_at key m))) std_out_of_range
      (fun _ => raise out_of_range what_arg)).

(** An iterator is the entry it points to; [None] is [end()]. *)
Definition tm_find (t : nat) (key : K) (what_arg : string) (user : TM unit) : TM (option V) :=
  locked t (
    _ ← reject_if_modified "cbeam::container::thread_safe_map::find: not allowed during modification of the map.";
    it ← std_call user (fun m => (m, Ok (map_find key m)));
    if bool_decide (what_arg <> ""%string) && (if it is None then true else false)
    then raise out_of_range what_arg else mret it).

(** [operator[]], with the value behind the reference returned. *)
Definition tm_index (t : nat) (key : K) (user : TM unit) : TM V :=
  locked t (
    _ ← reject_if_modified "cbeam::container::thread_safe_map::operator[]: not allowed during modification of the map.";
    std_call user (fun m => match map_find key m with
                            | Some v => (m, Ok v)
                            | None => (map_assign key V_default m, Ok V_default)
                            end)).

(** [erase(key)]: the flag is restored before the erasure. *)
Definition tm_erase (t : nat) (key : K) (user : TM unit) : TM Z :=
  locked t (
    _ ← reject_if_modified "cbeam::container::thread_safe_map::erase: not allowed during modification of the map.";
    _ ← scoped_set_temporary true;
    std_call user (fun m => let '(m, n) := map_erase key m in (m, Ok n))).

(** [erase(position)]; the iterator returned is the first entry behind it. *)
Definition tm_erase_at (t : nat) (position : K) (user : TM unit) : TM (option (K * V)) :=
  locked t (
    _ ← reject_if_modified "cbeam::container::thread_safe_map::erase: not allowed during modification of the map.";
    scoped_set true
      (std_call user (fun m =>
         match map_find position m with
         | Some _ => ((map_erase position m).1, Ok (head (filter (fun e => key_ltb position e.1 = true) m)))
         | None => (m, UB)
         end))).

Definition tm_count (t : nat) (key : K) (user : TM unit) : TM Z :=
  locked t (std_call user (fun m => (m, Ok (map_count key m)))).

(** Both forms of [insert], [insert(key, value)] and [insert(pair)], which have the
    same body: [std::map::insert], which leaves an element alone that is there.
    The flag returned says whether the insertion took place. *)
Definition tm_insert (t : nat) (key : K) (value : V) (user : TM unit) : TM (option V * bool) :=
  locked t (
    _ ← reject_if_modified "cbeam::container::thread_safe_map::insert: not allowed during modification of the map.";
    scoped_set true
      (std_call user (fun m => let '(m, b) := map_insert key value m in (m, Ok (map_find key m, b))))).
End thread_safe_map.

(** ** [thread_safe_set] *)

Section thread_safe_set.
Context {T : Type} `{KeyOrder T}.
Abbreviation TE := (M (thread_safe (list (T * unit)))).

Definition te_emplace (t : nat) (value : T) (user : TE unit) : TE bool :=
  locked t (
    _ ← reject_if_modified "cbeam::container::thread_safe_set::emplace: not allowed during modification of the set.";
    scoped_set true (std_call user (fun m => let '(m, b) := map_insert value tt m in (m, Ok b)))).

(** [insert] and [erase]: the flag is restored before the modification. *)
Definition te_insert (t : nat) (value : T) (user : TE unit) : TE bool :=
  locked t (
    _ ← reject_if_modified "cbeam::container::thread_safe_set::insert: not allowed during modification of the set.";
    _ ← scoped_set_temporary true;
    std_call user (fun m => let '(m, b) := map_insert value tt m in (m, Ok b))).
Definition te_erase (t : nat) (value : T) (user : TE unit) : TE bool :=
  locked t (
    _ ← reject_if_modified "cbeam::container::thread_safe_set::erase: not allowed during modification of the set.";
    _ ← scoped_set_temporary true;
    std_call user (fun m => let '(m, n) := map_erase value m in (m, Ok (bool_decide (0 < n))))).

Definition te_contains (t : nat) (value : T) (user : TE unit) : TE bool :=
  locked t (std_call user (fun m => (m, Ok (if map_find value m is Some _ then true else false)))).
End thread_safe_set.

(** ** Laws *)

Section laws.
Context {C : Type} (t : nat).
Abbreviation TS := (M (thread_safe C)).
Implicit Types (s : thread_safe C) (user : TS unit).

(** Between operations: nobody modifies, and the mutex is free or held by [t]. *)
Record idle s : Prop := {
  idle_lock : can_lock t s;
  idle_depth : owner s = None <-> depth s = O;
  idle_modified : _is_being_modified s = false;
  idle_call : in_call s = false;
}.

(** Inside a modification by [t]. *)
Record modifying s : Prop := {
  modifying_owner : owner s = Some t;
  modifying_depth : depth s <> O;
  modifying_modified : _is_being_modified s = true;
}.

(** User code that, inside a modification, leaves the container alone, and is
    defined. *)
Definition harmless user : Prop := forall s, modifying s -> exists r, r <> UB /\ user s = (r, s).

Lemma unlock_lock s : can_lock t s -> (owner s = None <-> depth s = O) -> unlock (lock t s) = s.
Proof.
  destruct s as [c b o d i]. unfold can_lock, unlock, lock. simpl. intros Hl Hd.
  replace (d - 0)%nat with d by lia. f_equal. case_bool_decide as E.
  - symmetry. apply Hd. lia.
  - destruct Hl as [->|]; [|done]. destruct Hd as [Hd _]. specialize (Hd eq_refl). lia.
Qed.

Lemma unlock_lock_owner s : owner s = Some t -> depth s <> O -> unlock (lock t s) = s.
Proof. intros Ho Hd. apply unlock_lock; [by right|]. rewrite Ho. split; congruence. Qed.

(** A guarded operation inside a modification throws and changes nothing. *)
Lemma reject_throws {A} text (m : TS A) s :
  modifying s -> locked t (_ ← reject_if_modified text; m) s = (throw runtime_error text, s).
Proof.
  intros [Ho Hd Hm]. unfold locked, reject_if_modified, mbind, M_bind, get, raise. simpl. rewrite Hm. simpl.
  by rewrite unlock_lock_owner.
Qed.

Lemma harmless_none : harmless no_code.
Proof. intros s _. by exists (Ok tt). Qed.
Lemma harmless_throw c text : harmless (raise c text).
Proof. intros s _. by exists (throw c text). Qed.
Lemma harmless_then user user' : harmless user -> harmless user' -> harmless (_ ← user; user').
Proof.
  intros H1 H2 s Hs. unfold mbind, M_bind. destruct (H1 s Hs) as (r & Hr & ->).
  destruct r as [[]|e|]; [apply H2, Hs|by exists (Throw e)|done].
Qed.
Lemma harmless_try user h user' : harmless user -> harmless user' -> harmless (try_catch user h (fun _ => user')).
Proof.
  intros H1 H2 s Hs. unfold try_catch. destruct (H1 s Hs) as (r & Hr & ->).
  destruct r as [[]|e|]; [by exists (Ok tt)|case_match; [by apply H2|by exists (Throw e)]|done].
Qed.
(** Code that only attempts a guarded operation, whatever comes of it. *)
Lemma harmless_guarded {A} text (m : TS A) : harmless (_ ← locked t (_ ← reject_if_modified text; m); mret tt).
Proof.
  intros s Hs. exists (throw runtime_error text). split; [done|].
  unfold mbind at 1, M_bind at 1. by rewrite reject_throws.
Qed.

(** What user code sees inside a modification by [t]. *)
Definition inside s : thread_safe C := set_in_call true (set_modified true (lock t s)).

(** The guarded modifications, on every branch. *)
Lemma modification_spec {A} text user (f : C -> C * outcome A) s :
  idle s -> harmless user ->
  (user (inside s)).1 <> UB /\
  locked t (_ ← reject_if_modified text; scoped_set true (std_call user f)) s =
    match (user (inside s)).1 with
    | Ok _ => ((f (_container s)).2, set_container (f (_container s)).1 s)
    | Throw e => (Throw e, s)
    | UB => (UB, s)
    end.
Proof.
  intros [Hl Hd Hm Hc] Hu. destruct s as [c b o d i]; simpl in *; subst.
  destruct (Hu (ThreadSafe c true (Some t) (Datatypes.S d) true)) as (r & Hr & E); [done|].
  unfold inside, lock, set_modified, set_in_call. simpl. rewrite E. split; [done|].
  unfold locked, reject_if_modified, scoped_set, std_call, mbind, M_bind, get. simpl.
  unfold set_modified, set_in_call, lock. simpl. rewrite E. simpl.
  pose proof (unlock_lock (ThreadSafe c false o d false) Hl Hd) as Ul. unfold lock in Ul. simpl in Ul.
  destruct r as [[]|e|]; [|simpl; by rewrite Ul|done]. simpl.
  destruct (f c) as [c' r]. simpl. f_equal.
  unfold unlock, set_container in *. simpl in *. by injection Ul as -> ->.
Qed.

Lemma open_idle s :
  idle s -> exists c o d, s = ThreadSafe c false o d false /\
    (if bool_decide (Datatypes.S d = 1%nat) then None else Some t) = o /\ (d - 0)%nat = d.
Proof.
  intros [Hl Hd Hm Hc]. destruct s as [c b o d i]; simpl in *; subst. exists c, o, d. split; [done|].
  pose proof (unlock_lock (ThreadSafe c false o d false) Hl Hd) as Ul. by injection Ul.
Qed.

(** Operations whose container call runs without user code. *)
Lemma call_spec {A} text (f : C -> C * outcome A) s :
  idle s ->
  locked t (_ ← reject_if_modified text; std_call no_code f) s =
    ((f (_container s)).2, set_container (f (_container s)).1 s) /\
  locked t (_ ← reject_if_modified text; _ ← scoped_set_temporary true; std_call no_code f) s =
    ((f (_container s)).2, set_container (f (_container s)).1 s) /\
  locked t (std_call no_code f) s = ((f (_container s)).2, set_container (f (_container s)).1 s).
Proof.
  intros [Hl Hd Hm Hc]. destruct s as [c b o d i]; simpl in *; subst.
  pose proof (unlock_lock (ThreadSafe c false o d false) Hl Hd) as Ul. unfold lock in Ul. simpl in Ul.
  unfold unlock in Ul. simpl in Ul. injection Ul as E1 E2.
  unfold locked, reject_if_modified, scoped_set_temporary, scoped_set, std_call, mbind, M_bind, get. simpl.
  destruct (f c) as [c' r]. simpl. unfold unlock, set_container. simpl. by rewrite E1, E2.
Qed.
End laws.

(** ** Properties *)

Section properties.
Context {K V : Type} `{KeyOrder K} (V_default : V) (t : nat).
Implicit Types (s : thread_safe (list (K * V))) (user : M (thread_safe (list (K * V))) unit).

(** C25. Calls from inside a modification: for user code of the elements that,
    inside a modification, is defined and leaves the container as it is
    ([harmless]: code that attempts guarded operations, [insert], [erase], is,
    code that calls an unguarded one such as [size()] is not), [insert],
    [erase(position)] and [clear] are defined, and either have exactly their
    effect on the map or pass on the exception of the user code, with map, flag
    and mutex as before; and a guarded operation attempted inside a modification
    throws a [runtime_error] and changes nothing.  [erase(key)] is not among the
    former: it restores the flag too early ([erase_is_reentered]). *)
Theorem thread_safe_reentrance s user k v what_arg :
  harmless t user ->
  (idle t s ->
     let finish {A} (r : outcome A) m := match (user (inside t s)).1 with
                      | Ok _ => (r, set_container m s) | Throw e => (Throw e, s) | UB => (UB, s) end in
     (user (inside t s)).1 <> UB /\
     tm_insert t k v user s =
       finish (Ok (map_find k (map_insert k v (_container s)).1, (map_insert k v (_container s)).2))
              (map_insert k v (_container s)).1 /\
     ts_clear t [] user s = finish (Ok tt) [] /\
     (forall v', map_find k (_container s) = Some v' ->
        tm_erase_at t k user s =
          finish (Ok (head (filter (fun e => key_ltb k e.1 = true) (_container s)))) (map_erase k (_container s)).1)) /\
  (modifying t s ->
     (exists text, tm_insert t k v user s = (throw runtime_error text, s)) /\
     (exists text, tm_erase t k user s = (throw runtime_error text, s)) /\
     (exists text, tm_erase_at t k user s = (throw runtime_error text, s)) /\
     (exists text, ts_clear t [] user s = (throw runtime_error text, s)) /\
     (exists text, tm_at t k what_arg user s = (throw runtime_error text, s)) /\
     (exists text, tm_find t k what_arg user s = (throw runtime_error text, s)) /\
     (exists text, tm_index V_default t k user s = (throw runtime_error text, s)) /\
     (exists text, get_lock_guard t s = (throw runtime_error text, s))) /\
  harmless t (_ ← tm_insert t k v user; mret tt) /\ harmless t (_ ← tm_erase t k user; mret tt).
Proof.
  intros Hu. split; [|split; [|split; apply harmless_guarded]].
  - intros Hs finish. subst finish. simpl. split; [|split; [|split]].
    + by apply (modification_spec t "" user (fun m => (m, Ok tt)) s).
    + unfold tm_insert. destruct (modification_spec t "cbeam::container::thread_safe_map::insert: not allowed during modification of the map."
        user (fun m => let '(m, b) := map_insert k v m in (m, Ok (map_find k m, b))) s Hs Hu) as [_ ->].
      by destruct (map_insert k v (_container s)).
    + by apply modification_spec.
    + intros v' Hf. unfold tm_erase_at. destruct (modification_spec t
        "cbeam::container::thread_safe_map::erase: not allowed during modification of the map." user
        (fun m => match map_find k m with
         | Some _ => ((map_erase k m).1, Ok (head (filter (fun e => key_ltb k e.1 = true) m)))
         | None => (m, UB) end) s Hs Hu) as [_ ->]. by rewrite Hf.
  - intros Hs. do 7 (split; [eexists; by apply reject_throws|]).
    eexists. unfold get_lock_guard, reject_if_modified, mbind, M_bind, get, raise.
    destruct Hs as [_ _ Hm]. by rewrite Hm.
Qed.

(** C26. Outside of modifications, and with elements whose comparisons, copies
    and destructors use nothing, the wrapper is the map: every operation returns
    what the [std::map] operation returns (with the library's error for a
    missing key), has its effect, and leaves the flag and the mutex as they
    were.  In particular [insert], in both forms, leaves the value of a key that
    is there, as [std::map::insert] does. *)
Theorem thread_safe_refines_map s k v what_arg :
  idle t s ->
  let m := _container s in
  tm_at t k what_arg no_code s = (match map_find k m with Some v => Ok v | None => throw out_of_range what_arg end, s) /\
  tm_find t k what_arg no_code s =
    (match map_find k m with
     | Some v => Ok (Some v)
     | None => if bool_decide (what_arg = ""%string) then Ok None else throw out_of_range what_arg end, s) /\
  tm_index V_default t k no_code s =
    (Ok (default V_default (map_find k m)),
     set_container (if map_find k m is Some _ then m else map_assign k V_default m) s) /\
  tm_erase t k no_code s = (Ok (map_erase k m).2, set_container (map_erase k m).1 s) /\
  tm_count t k no_code s = (Ok (map_count k m), s) /\
  tm_insert t k v no_code s =
    (Ok (map_find k (map_insert k v m).1, (map_insert k v m).2), set_container (map_insert k v m).1 s) /\
  ts_clear t [] no_code s = (Ok tt, set_container [] s) /\
  ts_empty t (fun m => bool_decide (m = [])) s = (Ok (bool_decide (m = [])), s) /\
  ts_size t map_size s = (Ok (map_size m), s) /\ is_being_modified s = (Ok false, s).
Proof.
  intros Hs m. pose proof (harmless_none (C := list (K * V)) t) as Hn. subst m. split; [|split; [|split; [|split; [|split; [|split; [|split; [|split; [|split]]]]]]]].
  - destruct (open_idle t s Hs) as (c & o & d & -> & E1 & E2). unfold tm_at, locked. simpl.
    unfold reject_if_modified, try_catch, std_call, no_code, mbind, M_bind, get, raise, mret, M_ret, unlock, set_container, set_in_call, map_at.
    simpl. destruct (map_find k c); simpl; by rewrite E1, E2.
  - destruct (open_idle t s Hs) as (c & o & d & -> & E1 & E2). unfold tm_find, locked. simpl.
    unfold reject_if_modified, try_catch, std_call, no_code, mbind, M_bind, get, raise, mret, M_ret, unlock, set_container, set_in_call.
    simpl. destruct (map_find k c); simpl; [rewrite andb_false_r; simpl; by rewrite E1, E2|].
    rewrite andb_true_r. destruct (decide (what_arg = ""%string)) as [->|Hw]; [simpl; by rewrite E1, E2|].
    rewrite (bool_decide_eq_true_2 (what_arg <> _)), (bool_decide_eq_false_2 (what_arg = _)) by done. simpl. by rewrite E1, E2.
  - unfold tm_index. destruct (call_spec t "cbeam::container::thread_safe_map::operator[]: not allowed during modification of the map."
      (fun m => match map_find k m with Some v => (m, Ok v) | None => (map_assign k V_default m, Ok V_default) end) s Hs) as [-> _].
    by destruct (map_find k _).
  - unfold tm_erase. destruct (call_spec t "cbeam::container::thread_safe_map::erase: not allowed during modification of the map."
      (fun m => let '(m, n) := map_erase k m in (m, Ok n)) s Hs) as (_ & -> & _). by destruct (map_erase k _).
  - unfold tm_count. destruct (call_spec t "" (fun m => (m, Ok (map_count k m))) s Hs) as (_ & _ & ->). simpl. by destruct s.
  - unfold tm_insert. destruct (modification_spec t "cbeam::container::thread_safe_map::insert: not allowed during modification of the map."
      no_code (fun m => let '(m, b) := map_insert k v m in (m, Ok (map_find k m, b))) s Hs Hn) as [_ ->].
    simpl. by destruct (map_insert k v _).
  - unfold ts_clear. destruct (modification_spec t "cbeam::container::thread_safe_container::clear: not allowed during modification of the container."
      no_code (fun _ => ([], Ok tt)) s Hs Hn) as [_ ->]. done.
  - unfold ts_empty. destruct (call_spec t "" (fun m => (m, Ok (bool_decide (m = [])))) s Hs) as (_ & _ & ->). simpl. by destruct s.
  - unfold ts_size. destruct (call_spec t "" (fun m => (m, Ok (map_size m))) s Hs) as (_ & _ & ->). simpl. by destruct s.
  - unfold is_being_modified, mbind, M_bind, get, mret, M_ret. by rewrite (idle_modified _ _ Hs).
Qed.
End properties.

(** ** Runs *)

Definition fruits : thread_safe (list (Z * Z)) := ThreadSafe [(1, 10); (2, 20)] false None 0 false.

Lemma fruits_idle : idle 0 fruits.
Proof. split; [by left|done|done|done]. Defined.

(** A value whose destructor erases another key, ignoring exceptions. *)
Definition cascading : M (thread_safe (list (Z * Z))) unit :=
  try_all (_ ← tm_erase 0 2 no_code; mret tt) (mret tt).

Lemma cascading_harmless : harmless 0 cascading.
Proof.
  intros s Hs. exists (Ok tt). split; [done|]. unfold cascading, try_all, tm_erase.
  unfold mbind at 1, M_bind at 1. by rewrite reject_throws.
Defined.

Lemma thread_safe_reentrance_witness :
  tm_erase_at 0 1 cascading fruits = (Ok (Some (2, 20)), set_container [(2, 20)] fruits).
Proof.
  destruct (thread_safe_reentrance 0 0 fruits cascading 1 7 "" cascading_harmless) as (Hi & _).
  destruct (Hi fruits_idle) as (_ & _ & _ & He). exact (He 10 eq_refl).
Defined.

Lemma thread_safe_refines_map_witness :
  tm_at 0 3 "no such fruit" no_code fruits = (throw out_of_range "no such fruit", fruits).
Proof. exact (proj1 (thread_safe_refines_map 0 0 fruits 3 0 "no such fruit" fruits_idle)). Defined.

(** [erase(key)] restores the flag before it erases: the same destructor enters
    the map again in the middle of the erasure. *)
Example erase_is_reentered : (tm_erase 0 1 cascading fruits).1 = UB.
Proof. vm_compute. reflexivity. Qed.

(** So do [insert] and [erase] of the set. *)
Definition set_of_two : thread_safe (list (Z * unit)) := ThreadSafe [(1, tt); (2, tt)] false None 0 false.
Example set_erase_is_reentered :
  (te_erase 0 1 (_ ← te_erase 0 2 no_code; mret tt) set_of_two).1 = UB /\
  (te_insert 0 3 (_ ← te_erase 0 2 no_code; mret tt) set_of_two).1 = UB /\
  (te_emplace 0 3 (_ ← te_erase 0 2 no_code; mret tt) set_of_two).1 =
    throw runtime_error "cbeam::container::thread_safe_set::erase: not allowed during modification of the set.".
Proof. vm_compute. auto. Qed.
