(* ===== verification/Pointer.v ===== *)
(** * Pointer: [memory/pointer.hpp]

    The pointer class on top of [stable_reference_buffer]: a [pointer] to known
    memory shares, through a [std::shared_ptr], an instance that keeps the block
    alive.  The world is the instances of the system of StableReferenceBuffer
    (those of pointers at the even indices) and the counts of two kinds of
    shared pointers: to those instances, and to the program's own objects. *)

From S2P Require Import Prelude Errors Bytes StdMap Heap Buffer Convert Serialization InterprocessMap.
From S2P Require Import StableReferenceBuffer SharedPtr.

Record pointer : Type := Pointer { _ptr : addr; _mem : option Z; _holder : option Z }.

(** [pointer()]. *)
Definition pointer_default : pointer := Pointer nullptr None None.

(** The index of the instance behind a shared pointer. *)
Definition mem_key (id : Z) : nat := (2 * Z.to_nat id)%nat.
#[local] Arguments mem_key : simpl never.

Section pointer.
Context {C : Type} `{SharedMap C Z Z}.

Record memory : Type := Memory { m_sys : sys (C := C); m_mem : shared; m_hold : shared }.
Abbreviation PM := (M memory).

(** [std::make_shared<stable_reference_buffer>(...)]; [init] is the constructor. *)
Definition make_mem (init : M (heap * C * buf) unit) : PM Z := fun w =>
  let '(Sys h c o sc) := m_sys w in
  let '(r, (h', c', b)) := init (h, c, buf_default) in
  match r with
  | Ok _ =>
      let '(id, s) := make_shared (m_mem w) in
      (Ok id, Memory (Sys h' c' (<[mem_key id := b]> o) sc) s (m_hold w))
  | Throw e => (Throw e, Memory (Sys h' c' o sc) (m_mem w) (m_hold w))
  | UB => (UB, Memory (Sys h' c' o sc) (m_mem w) (m_hold w))
  end.

(** Dropping a shared pointer: the last one destroys the instance. *)
Definition drop_mem (p : option Z) : PM unit := fun w =>
  let '(s, last) := drop_shared p (m_mem w) in
  match p with
  | Some id =>
      if last : bool then
        let '(Sys h c o sc) := m_sys w in
        match o !! mem_key id with
        | Some b =>
            let '(r, (h', c', _)) := srb_reset (h, c, b) in
            (r, Memory (Sys h' c' (delete (mem_key id) o) sc) s (m_hold w))
        | None => (UB, w)
        end
      else (Ok tt, Memory (m_sys w) s (m_hold w))
  | None => (Ok tt, w)
  end.
Definition copy_mem (p : option Z) : PM unit :=
  modify (fun w => Memory (m_sys w) (copy_shared p (m_mem w)) (m_hold w)).
Definition drop_holder (p : option Z) : PM unit :=
  modify (fun w => Memory (m_sys w) (m_mem w) (drop_shared p (m_hold w)).1).
Definition copy_holder (p : option Z) : PM unit :=
  modify (fun w => Memory (m_sys w) (m_mem w) (copy_shared p (m_hold w))).

(** The instance behind a shared pointer. *)
Definition mem_instance (id : Z) : PM buf := fun w =>
  match s_objs (m_sys w) !! mem_key id with Some b => (Ok b, w) | None => (UB, w) end.

Definition on_known (address : addr) : PM bool := fun w =>
  let '(Sys h c o sc) := m_sys w in
  let '(r, c') := is_known address c in (r, Memory (Sys h c' o sc) (m_mem w) (m_hold w)).

(** ** Constructors *)

(** [pointer(void* ptr)]. *)
Definition pointer_from_void (ptr : addr) : PM pointer :=
  known ← on_known ptr;
  if known : bool then id ← make_mem (srb_from_address ptr); mret (Pointer ptr (Some id) None)
  else mret (Pointer ptr None None).

(** [pointer(const std::string& str_ptr)]. *)
Definition pointer_from_string (str_ptr : bytes) : PM pointer :=
  ptr ← (fun w => (from_string_pointer str_ptr, w)); pointer_from_void ptr.

(** [pointer(const stable_reference_buffer& mem)]. *)
Definition pointer_from_srb (mem : buf) : PM pointer :=
  id ← make_mem (srb_copy mem); mret (Pointer (_buffer mem) (Some id) None).

(** [pointer(const std::shared_ptr<T>& ptr)], with [ptr.get()] and its count. *)
Definition pointer_from_shared (get : addr) (ptr : option Z) : PM pointer :=
  _ ← copy_holder ptr; mret (Pointer get None ptr).

(** The implicit copy constructor shares both. *)
Definition pointer_copy (other : pointer) : PM pointer :=
  _ ← copy_mem (_mem other); _ ← copy_holder (_holder other); mret other.

(** The implicit destructor. *)
Definition pointer_destroy (p : pointer) : PM unit :=
  _ ← drop_holder (_holder p); drop_mem (_mem p).

(** ** Members *)

Definition is_managed (p : pointer) : bool := if _mem p is Some _ then true else false.
Definition to_void (p : pointer) : addr := _ptr p.
Definition pointer_to_string (p : pointer) : bytes := to_string_pointer (_ptr p).

(** [operator=], with [*this] in the state: when the copy of the other's
    instance throws, [_ptr] and [_holder] are already replaced. *)
Definition pointer_assign (self : bool) (other : pointer) : M (memory * pointer) unit := fun '(w, this) =>
  if self then (Ok tt, (w, this))
  else
    match (_ ← copy_holder (_holder other); drop_holder (_holder this)) w with
    | (Ok _, w) =>
        let this := Pointer (_ptr other) (_mem this) (_holder other) in
        match _mem other with
        | Some id =>
            match (b ← mem_instance id; make_mem (srb_copy b)) w with
            | (Ok id', w) =>
                let '(r, w) := drop_mem (_mem this) w in
                (r, (w, Pointer (_ptr this) (Some id') (_holder this)))
            | (Throw e, w) => (Throw e, (w, this))
            | (UB, w) => (UB, (w, this))
            end
        | None => let '(r, w) := drop_mem (_mem this) w in (r, (w, Pointer (_ptr this) None (_holder this)))
        end
    | (r, w) => (r, (w, this))
    end.

(** [operator stable_reference_buffer()], building the copy at index [i]. *)
Definition not_a_buffer (p : pointer) : string :=
  string_of_list_ascii (str "cbeam::pointer(" ++ [byte_of 34] ++ pointer_to_string p ++ [byte_of 34] ++
    str ") is not an cbeam::container::stable_reference_buffer").
Definition copy_out (i : nat) (b : buf) : PM unit := fun w =>
  let '(Sys h c o sc) := m_sys w in
  let '(r, (h', c', b')) := srb_copy b (h, c, buf_default) in
  (r, Memory (Sys h' c' (match r with Ok _ => <[i := b']> o | _ => o end) sc) (m_mem w) (m_hold w)).
Definition pointer_to_srb (p : pointer) (i : nat) : PM unit :=
  match _mem p with
  | Some id => b ← mem_instance id; copy_out i b
  | None => raise runtime_error (not_a_buffer p)
  end.
End pointer.

(** ** Comparisons *)

Definition pointer_eq (lhs rhs : pointer) : bool := to_void lhs =? to_void rhs.
Definition pointer_ne (lhs rhs : pointer) : bool := negb (pointer_eq lhs rhs).
Definition pointer_lt (lhs rhs : pointer) : bool := to_void lhs <? to_void rhs.
Definition pointer_le (lhs rhs : pointer) : bool := pointer_eq lhs rhs || pointer_lt lhs rhs.
Definition pointer_gt (lhs rhs : pointer) : bool := negb (pointer_le lhs rhs).
Definition pointer_ge (lhs rhs : pointer) : bool := negb (pointer_lt lhs rhs).

(** ** The program: the memory, its pointers, and its own shared pointers *)

Section program.
Context `{AllocatorLaws} {C : Type} `{!SharedMap C Z Z} `{!SharedMapLaws C Z Z} `{!SharedMapUpdates C}.
Implicit Types (w : memory (C := C)) (s : sys (C := C)) (ps : list pointer) (hs : list Z).

(** Room for two more counts. *)
Definition room (s : sys (C := C)) : Prop :=
  Z.of_nat (size (s_objs s)) + Z.of_nat (length (s_scopes s)) < 2 ^ 31 - 4.

Definition own_index (i : nat) : Prop := exists k, i = (2 * k + 1)%nat.

Inductive pointer_step : memory (C := C) * list pointer * list Z -> memory (C := C) * list pointer * list Z -> Prop :=
| step_default_pointer w ps hs : pointer_step (w, ps, hs) (w, pointer_default :: ps, hs)
| step_from_void w ps hs ptr p w' :
    room (m_sys w) -> pointer_from_void ptr w = (Ok p, w') -> pointer_step (w, ps, hs) (w', p :: ps, hs)
| step_from_srb w ps hs i mem p w' :
    room (m_sys w) -> own_index i -> s_objs (m_sys w) !! i = Some mem -> pointer_from_srb mem w = (Ok p, w') ->
    pointer_step (w, ps, hs) (w', p :: ps, hs)
| step_from_shared w ps hs get id p w' :
    id ∈ hs -> pointer_from_shared get (Some id) w = (Ok p, w') -> pointer_step (w, ps, hs) (w', p :: ps, hs)
| step_copy_pointer w ps hs other p w' :
    other ∈ ps -> pointer_copy other w = (Ok p, w') -> pointer_step (w, ps, hs) (w', p :: ps, hs)
| step_assign_pointer w ps ps' hs this other this' w' :
    room (m_sys w) -> ps ≡ₚ this :: ps' -> other ∈ ps' ->
    pointer_assign false other (w, this) = (Ok tt, (w', this')) -> pointer_step (w, ps, hs) (w', this' :: ps', hs)
| step_destroy_pointer w ps ps' hs p w' :
    room (m_sys w) -> ps ≡ₚ p :: ps' -> pointer_destroy p w = (Ok tt, w') -> pointer_step (w, ps, hs) (w', ps', hs)
| step_to_srb w ps hs p i w' :
    room (m_sys w) -> p ∈ ps -> own_index i -> s_objs (m_sys w) !! i = None -> pointer_to_srb p i w = (Ok tt, w') ->
    pointer_step (w, ps, hs) (w', ps, hs)
(** What the program does with its own instances and scopes ... *)
| step_instances w ps hs s' :
    sys_step (m_sys w) s' -> (forall id, s_objs s' !! mem_key id = s_objs (m_sys w) !! mem_key id) ->
    pointer_step (w, ps, hs) (Memory s' (m_mem w) (m_hold w), ps, hs)
(** ... and with its own shared pointers. *)
| step_make_holder w ps hs :
    pointer_step (w, ps, hs) (Memory (m_sys w) (m_mem w) (make_shared (m_hold w)).2, ps, (make_shared (m_hold w)).1 :: hs)
| step_drop_holder w ps hs hs' id :
    hs ≡ₚ id :: hs' ->
    pointer_step (w, ps, hs) (Memory (m_sys w) (m_mem w) (drop_shared (Some id) (m_hold w)).1, ps, hs').

(** ** The invariant *)

Definition mem_ids ps : list Z := omap _mem ps.
Definition holder_ids ps : list Z := omap _holder ps.

Definition pointer_ok (o : gmap nat buf) (p : pointer) : Prop :=
  match _mem p with
  | Some id => exists b, o !! mem_key id = Some b /\ _buffer b = _ptr p
  | None => True
  end.

(** A step of the program in which the allocator respects the open scopes. *)
Definition pointer_run_step (x y : memory (C := C) * list pointer * list Z) : Prop :=
  pointer_step x y /\ addresses_kept (m_sys x.1.1) (m_sys y.1.1).

Lemma pointer_run_free x y : s_scopes (m_sys x.1.1) = [] -> pointer_step x y -> pointer_run_step x y.
Proof. intros E Hs. split; [done|]. unfold addresses_kept. rewrite E. apply placed_none. Qed.

Lemma pointer_run_shrink x y :
  s_heap (m_sys y.1.1) ⊆ s_heap (m_sys x.1.1) -> pointer_step x y -> pointer_run_step x y.
Proof. intros Hh Hs. split; [done|]. by apply placed_shrink. Qed.

(** An operation of a system that leaves its scopes open. *)
Definition quiet (s s' : sys (C := C)) : Prop := run_step s s' /\ s_scopes s' = s_scopes s.

(** [l] lists the shared pointers to instances; no scope began or ended since
    [s]. *)
Record mem_inv h0 c0 s w (l : list Z) : Prop := {
  inv_reached : rtc run_step (sys_start h0 c0) s;
  inv_since : rtc quiet s (m_sys w);
  inv_mem : counted (m_mem w) l;
  inv_keys id : 0 <= id -> is_Some (s_objs (m_sys w) !! mem_key id) <-> id ∈ l;
}.

Record pointer_inv h0 c0 s w ps hs : Prop := {
  inv_memory : mem_inv h0 c0 s w (mem_ids ps);
  inv_hold : counted (m_hold w) (holder_ids ps ++ hs);
  inv_pointers : Forall (pointer_ok (s_objs (m_sys w))) ps;
}.

Lemma quiet_steps s s' : rtc quiet s s' -> rtc run_step s s' /\ s_scopes s' = s_scopes s.
Proof.
  induction 1 as [s|s s2 s3 [Hs E] _ [Hr E']]; [done|]. split; [by eapply rtc_l|congruence].
Qed.

Lemma mem_reached h0 c0 s w l : mem_inv h0 c0 s w l -> rtc run_step (sys_start h0 c0) (m_sys w).
Proof. intros [Hr Hq _ _]. apply quiet_steps in Hq as [Hq _]. by etrans. Qed.

Lemma mem_key_inj i j : 0 <= i -> 0 <= j -> mem_key i = mem_key j -> i = j.
Proof. unfold mem_key. lia. Qed.

Lemma mem_key_own i id : own_index i -> i <> mem_key id.
Proof. intros [k ->]. unfold mem_key. lia. Qed.

(** A new instance behind a new shared pointer. *)
Lemma make_mem_inv h0 c0 s w l init id w' :
  mem_inv h0 c0 s w l -> make_mem init w = (Ok id, w') ->
  (forall i u h' c' b', s_objs (m_sys w) !! i = None ->
     init (s_heap (m_sys w), s_counts (m_sys w), buf_default) = (Ok u, (h', c', b')) ->
     run_step (m_sys w) (Sys h' c' (<[i := b']> (s_objs (m_sys w))) (s_scopes (m_sys w)))) ->
  mem_inv h0 c0 s w' (id :: l) /\ m_hold w' = m_hold w /\ (id ∉ l) /\ 0 <= id /\
  exists u h' c' b', init (s_heap (m_sys w), s_counts (m_sys w), buf_default) = (Ok u, (h', c', b')) /\
    s_objs (m_sys w') = <[mem_key id := b']> (s_objs (m_sys w)) /\ s_scopes (m_sys w') = s_scopes (m_sys w).
Proof.
  intros [Hr0 Hr Hm Hk] Hmk Hstep. destruct w as [[h c o sc] sm sh]. unfold make_mem in Hmk. cbn in *.
  destruct (init _) as [[u|e|] [[h' c'] b']] eqn:Ei; [|done..].
  injection Hmk as <- <-. pose proof (counted_make _ _ Hm) as Hm'. pose proof (counted_nonneg _ _ Hm) as Hn.
  unfold make_shared in Hm'. simpl in Hm'.
  assert (next_id sm ∉ l) as Hni by (intros Hin; apply (counted_next _ _ Hm) in Hin; lia).
  assert (o !! mem_key (next_id sm) = None) as Hnone.
  { destruct (o !! mem_key (next_id sm)) eqn:E; [|done]. destruct Hni. apply Hk; [done|]. simpl. rewrite E. by eexists. }
  split; [|split; [done|split; [done|split; [done|by exists u, h', c', b']]]].
  split; simpl; [exact Hr0| |exact Hm'|].
  - eapply rtc_r; [exact Hr|]. split; [by eapply Hstep|done].
  - intros id Hid. rewrite elem_of_cons, <- Hk by done. destruct (decide (id = next_id sm)) as [->|Hne].
    + rewrite lookup_insert_eq. split; [by left|by eexists].
    + rewrite lookup_insert_ne by (intros E; by apply mem_key_inj in E). naive_solver.
Qed.

(** Dropping a shared pointer, and the instance with the last one. *)
Lemma drop_mem_inv h0 c0 s w l id w' :
  mem_inv h0 c0 s w (id :: l) -> within_int (s_objs (m_sys w)) (s_scopes (m_sys w)) -> drop_mem (Some id) w = (Ok tt, w') ->
  mem_inv h0 c0 s w' l /\ m_hold w' = m_hold w /\
  (forall i, i <> mem_key id \/ id ∈ l -> s_objs (m_sys w') !! i = s_objs (m_sys w) !! i).
Proof.
  intros [Hr0 Hr Hm Hk] Hroom Hd. destruct (counted_drop _ _ _ Hm) as [Hm' Hlast].
  destruct (counted_next _ _ Hm id) as [Hid _]; [by left|].
  destruct w as [[h c o sc] sm sh]. unfold drop_mem in Hd. cbn in *.
  destruct (match strong sm !! id with Some n => _ | None => _ end) as [s' last] eqn:Es. simpl in *.
  destruct last; [|injection Hd as <-; split; [|done]; split; simpl; [done|done|done|]; intros i Hi; rewrite Hk by done;
    destruct (decide (id ∈ l)) as [|Hn]; [set_solver|by apply Hlast in Hn]].
  assert (id ∉ l) as Hni by by apply Hlast.
  destruct (o !! mem_key id) as [b|] eqn:Eb; [|done].
  destruct (srb_reset (h, c, b)) as [r [[h' c'] b']] eqn:Er. injection Hd as -> <-. simpl.
  split; [|split; [done|]].
  - split; simpl; [exact Hr0| |done|].
    + eapply rtc_r; [exact Hr|]. split; [|done].
      apply run_step_shrink; [by eapply reset_heap|eapply step_destroy; [exact Hroom|exact Eb|exact Er]].
    + intros i Hi. destruct (decide (i = id)) as [->|Hne].
      * rewrite lookup_delete_eq. split; [by intros [? ?]|done].
      * rewrite lookup_delete_ne by (intros E; by apply mem_key_inj in E). rewrite Hk by done. set_solver.
  - intros i [Hi|Hi]; [by rewrite lookup_delete_ne|done].
Qed.

Lemma mem_inv_perm h0 c0 s w l k : l ≡ₚ k -> mem_inv h0 c0 s w l -> mem_inv h0 c0 s w k.
Proof. intros E [A S B D]. split; [done|done|by eapply counted_perm|]. intros id Hid. by rewrite D, E. Qed.

Lemma pointers_ok_ext o o' ps :
  Forall (pointer_ok o) ps -> (forall id, id ∈ mem_ids ps -> o' !! mem_key id = o !! mem_key id) ->
  Forall (pointer_ok o') ps.
Proof.
  rewrite !Forall_forall. intros Hps Ho p Hp. specialize (Hps p Hp). unfold pointer_ok in *.
  destruct (_mem p) as [id|] eqn:Em; [|done]. rewrite Ho; [done|].
  apply list_elem_of_omap. by exists p.
Qed.

Lemma from_address_fields p h c b u h' c' b' :
  srb_from_address p (h, c, b) = (Ok u, (h', c', b')) -> b' = Buf 0 p.
Proof.
  unfold srb_from_address, constructor_body, set_fields, on_counts, mbind, M_bind.
  destruct (sm_update _ _ _ _) as [[|e|] c1]; simpl; [by intros [= _ _ _ <-]| |done].
  intros E. repeat (case_match; simplify_eq/=).
Qed.

Lemma copy_fields mem h c b u h' c' b' : srb_copy mem (h, c, b) = (Ok u, (h', c', b')) -> b' = mem.
Proof.
  unfold srb_copy, constructor_body, set_fields, on_counts, mbind, M_bind, raise. simpl.
  case_bool_decide; simpl; [done|].
  destruct (sm_update _ _ _ _) as [[|e|] c1]; simpl; [by intros [= _ _ _ <-]| |done].
  intros E. repeat (case_match; simplify_eq/=).
Qed.

Lemma on_known_spec h0 c0 s w l ptr :
  h0 !! nullptr = None -> sm_holds c0 [] -> mem_inv h0 c0 s w l ->
  exists b, on_known ptr w = (Ok b, w) /\ is_known ptr (s_counts (m_sys w)) = (Ok b, s_counts (m_sys w)).
Proof.
  intros Hn Hc I. destruct (sys_reachable_inv h0 c0 _ Hn Hc (mem_reached _ _ _ _ _ I)) as (m & Hm & _).
  destruct w as [[h c o sc] sm sh]. unfold on_known. simpl in *.
  destruct (decide (ptr = nullptr)) as [->|Hp].
  - exists false. unfold is_known. by rewrite bool_decide_eq_true_2.
  - eexists. by rewrite (c_is_known c m ptr Hm Hp).
Qed.

Lemma room_within (s : sys (C := C)) : room s -> within_int (s_objs s) (s_scopes s).
Proof. unfold room, within_int. lia. Qed.

(** A copy of a living instance, behind a new shared pointer. *)
Lemma make_copy_inv h0 c0 s w l i mem id w' :
  mem_inv h0 c0 s w l -> room (m_sys w) -> s_objs (m_sys w) !! i = Some mem -> make_mem (srb_copy mem) w = (Ok id, w') ->
  mem_inv h0 c0 s w' (id :: l) /\ m_hold w' = m_hold w /\ (id ∉ l) /\ 0 <= id /\
  s_objs (m_sys w') = <[mem_key id := mem]> (s_objs (m_sys w)) /\ s_scopes (m_sys w') = s_scopes (m_sys w).
Proof.
  intros I Hr Hi Hm. destruct (make_mem_inv _ _ _ _ _ _ _ _ I Hm) as (I' & Eh & Hn & Hz & u & h' & c' & b' & Ec & Eo & Es).
  - intros k u h' c' b' Hk Ec. destruct (m_sys w). simpl in *.
    apply run_step_shrink; [by rewrite (copy_heap _ _ _ _ _ _ _ _ Ec)|].
    eapply step_copy; [by apply room_within in Hr|done|exact Hi|exact Ec].
  - apply copy_fields in Ec as ->. done.
Qed.

(** The pointers so far, and a new one to a new instance. *)
Lemma pointers_ok_new o o' ps id mem p :
  Forall (pointer_ok o) ps -> id ∉ mem_ids ps -> 0 <= id -> (forall i, i ∈ mem_ids ps -> 0 <= i) ->
  o' = <[mem_key id := mem]> o -> _mem p = Some id -> _ptr p = _buffer mem -> Forall (pointer_ok o') (p :: ps).
Proof.
  intros Hps Hn Hid Hpos -> Hm Hp. constructor.
  - unfold pointer_ok. rewrite Hm. exists mem. by rewrite lookup_insert_eq.
  - eapply pointers_ok_ext; [exact Hps|]. intros i Hi. apply lookup_insert_ne. intros E.
    apply mem_key_inj in E; [by subst|done|by apply Hpos].
Qed.

Lemma mem_inv_pos h0 c0 s w l i : mem_inv h0 c0 s w l -> i ∈ l -> 0 <= i.
Proof. intros I Hi. by apply (counted_next _ _ (inv_mem _ _ _ _ _ I)) in Hi as [? _]. Qed.

Lemma from_void_inv h0 c0 s w ps hs ptr p w' :
  h0 !! nullptr = None -> sm_holds c0 [] -> pointer_inv h0 c0 s w ps hs -> room (m_sys w) ->
  pointer_from_void ptr w = (Ok p, w') -> pointer_inv h0 c0 s w' (p :: ps) hs.
Proof.
  intros Hn Hc I Hr Hv. pose proof I as [Im Ih Ip].
  destruct (on_known_spec h0 c0 s w _ ptr Hn Hc Im) as (k & Ek & Ek').
  unfold pointer_from_void in Hv. rewrite (M_bind_step _ _ _ _ _ Ek) in Hv. destruct k.
  - apply M_bind_Ok in Hv as (id & w1 & Hm & Hv). unfold mret, M_ret in Hv. simplify_eq.
    destruct (make_mem_inv h0 c0 s w _ _ _ _ Im Hm) as (I' & Eh & Hni & Hz & u & h' & c' & b' & Ec & Eo & Es).
    + intros i u h' c' b' Hi Ec. destruct (m_sys w). simpl in *.
      apply run_step_shrink; [by rewrite (from_address_heap _ _ _ _ _ _ _ _ Ec)|].
      eapply step_address; [by apply room_within in Hr|done|exact Ek'|exact Ec].
    + apply from_address_fields in Ec as ->. split; [exact I'|by rewrite Eh|].
      eapply pointers_ok_new; [exact Ip|exact Hni|exact Hz| |exact Eo|done|done].
      intros i Hi. eapply mem_inv_pos; [exact Im|exact Hi].
  - unfold mret, M_ret in Hv. simplify_eq. split; [exact Im|exact Ih|]. constructor; [done|exact Ip].
Qed.

Lemma from_srb_inv h0 c0 s w ps hs i mem p w' :
  pointer_inv h0 c0 s w ps hs -> room (m_sys w) -> s_objs (m_sys w) !! i = Some mem ->
  pointer_from_srb mem w = (Ok p, w') -> pointer_inv h0 c0 s w' (p :: ps) hs.
Proof.
  intros [Im Ih Ip] Hr Hi Hv. apply M_bind_Ok in Hv as (id & w1 & Hm & Hv). unfold mret, M_ret in Hv. simplify_eq.
  destruct (make_copy_inv _ _ _ _ _ _ _ _ _ Im Hr Hi Hm) as (I' & Eh & Hni & Hz & Eo & Es).
  split; [exact I'|by rewrite Eh|]. eapply pointers_ok_new; [exact Ip|exact Hni|exact Hz| |exact Eo|done|done].
  intros k Hk. eapply mem_inv_pos; [exact Im|exact Hk].
Qed.

Lemma hold_inv h0 c0 s w sh ps hs hs' :
  pointer_inv h0 c0 s w ps hs -> counted sh (holder_ids ps ++ hs') -> pointer_inv h0 c0 s (Memory (m_sys w) (m_mem w) sh) ps hs'.
Proof. intros [[A S B D] _ E] Hs. split; [split; [exact A|exact S|exact B|exact D]|exact Hs|exact E]. Qed.

Lemma mem_ids_cons p ps : mem_ids (p :: ps) = option_list (_mem p) ++ mem_ids ps.
Proof. unfold mem_ids. simpl. by destruct (_mem p). Qed.
Lemma holder_ids_cons p ps : holder_ids (p :: ps) = option_list (_holder p) ++ holder_ids ps.
Proof. unfold holder_ids. simpl. by destruct (_holder p). Qed.

Lemma in_mem_ids p ps id : p ∈ ps -> _mem p = Some id -> id ∈ mem_ids ps.
Proof. intros Hp Hm. apply list_elem_of_omap. eauto. Qed.
Lemma in_holder_ids p ps id : p ∈ ps -> _holder p = Some id -> id ∈ holder_ids ps.
Proof. intros Hp Hm. apply list_elem_of_omap. eauto. Qed.

Lemma pointer_inv_perm h0 c0 s w ps ps' hs hs' :
  ps ≡ₚ ps' -> hs ≡ₚ hs' -> pointer_inv h0 c0 s w ps hs -> pointer_inv h0 c0 s w ps' hs'.
Proof.
  intros E E' [Im Ih Ip]. split.
  - eapply mem_inv_perm; [|exact Im]. unfold mem_ids. by rewrite E.
  - eapply counted_perm; [|exact Ih]. unfold holder_ids. by rewrite E, E'.
  - by rewrite <- E.
Qed.

Lemma copy_inv h0 c0 s w ps hs other p w' :
  pointer_inv h0 c0 s w ps hs -> other ∈ ps -> pointer_copy other w = (Ok p, w') -> pointer_inv h0 c0 s w' (p :: ps) hs.
Proof.
  intros [[Hr0 Hr Hm Hk] Ih Ip] Ho Hv. unfold pointer_copy, copy_mem, copy_holder, modify, mbind, M_bind, mret, M_ret in Hv.
  injection Hv as <- <-. split; [split|..]; cbn [m_sys m_mem m_hold]; [done|done|..].
  - rewrite mem_ids_cons. apply counted_copy_opt; [done|]. intros id. by apply in_mem_ids.
  - intros id Hid. rewrite Hk, mem_ids_cons, elem_of_app by done. split; [by right|]. intros [Hi|]; [|done].
    destruct (_mem other) as [j|] eqn:E; [|by apply elem_of_nil in Hi]. apply list_elem_of_singleton in Hi as ->. by eapply in_mem_ids.
  - rewrite holder_ids_cons, <- app_assoc. apply counted_copy_opt; [done|]. intros id Hid. apply elem_of_app. left. by eapply in_holder_ids.
  - constructor; [|done]. rewrite Forall_forall in Ip. by apply Ip.
Qed.

Lemma drop_mem_opt h0 c0 s w l p w' :
  mem_inv h0 c0 s w (option_list p ++ l) -> within_int (s_objs (m_sys w)) (s_scopes (m_sys w)) ->
  drop_mem p w = (Ok tt, w') ->
  mem_inv h0 c0 s w' l /\ m_hold w' = m_hold w /\
  (forall id, id ∈ l -> s_objs (m_sys w') !! mem_key id = s_objs (m_sys w) !! mem_key id).
Proof.
  destruct p as [id|]; intros I Hw Hd; [|unfold drop_mem in Hd; simpl in Hd; by simplify_eq].
  destruct (drop_mem_inv _ _ _ _ _ _ _ I Hw Hd) as (I' & Eh & Eo). split; [done|split; [done|]].
  intros i Hi. apply Eo. destruct (decide (i = id)) as [->|Hne]; [by right|left].
  intros E. apply Hne. apply mem_key_inj; [..|exact E].
  - eapply mem_inv_pos; [exact I|by right].
  - eapply mem_inv_pos; [exact I|by left].
Qed.

Lemma destroy_inv h0 c0 s w ps hs p w' :
  pointer_inv h0 c0 s w (p :: ps) hs -> room (m_sys w) -> pointer_destroy p w = (Ok tt, w') -> pointer_inv h0 c0 s w' ps hs.
Proof.
  intros [Im Ih Ip] Hr Hd. unfold pointer_destroy, drop_holder, modify, mbind, M_bind in Hd.
  rewrite mem_ids_cons in Im. rewrite holder_ids_cons, <- app_assoc in Ih. apply Forall_cons in Ip as [_ Ip].
  assert (mem_inv h0 c0 s (Memory (m_sys w) (m_mem w) (drop_shared (_holder p) (m_hold w)).1) (option_list (_mem p) ++ mem_ids ps)) as Im'
    by (destruct Im as [A S B D]; split; [exact A|exact S|exact B|exact D]).
  destruct (drop_mem_opt _ _ _ _ _ _ _ Im' (room_within _ Hr) Hd) as (I' & Eh & Eo).
  split; [exact I'| |eapply pointers_ok_ext; [exact Ip|exact Eo]].
  rewrite Eh. by apply counted_drop_opt.
Qed.

Lemma pointer_assign_inv h0 c0 s w ps hs this other w' this' :
  pointer_inv h0 c0 s w (this :: ps) hs -> room (m_sys w) -> other ∈ ps ->
  pointer_assign false other (w, this) = (Ok tt, (w', this')) -> pointer_inv h0 c0 s w' (this' :: ps) hs.
Proof.
  intros [Im Ih Ip] Hr Ho Ha. pose proof Ip as Ip0. apply Forall_cons in Ip as [_ Ip].
  unfold pointer_assign, copy_holder, drop_holder, modify, mbind, M_bind in Ha. cbn [m_sys m_mem m_hold] in Ha.
  set (w1 := Memory (m_sys w) (m_mem w) (drop_shared (_holder this) (copy_shared (_holder other) (m_hold w))).1) in Ha.
  assert (mem_inv h0 c0 s w1 (option_list (_mem this) ++ mem_ids ps)) as Im1.
  { rewrite mem_ids_cons in Im. destruct Im as [A S B D]; split; [exact A|exact S|exact B|exact D]. }
  assert (counted (m_hold w1) (option_list (_holder other) ++ holder_ids ps ++ hs)) as Ih1.
  { apply counted_drop_opt. rewrite holder_ids_cons in Ih.
    eapply (counted_perm _ (option_list (_holder other) ++ (option_list (_holder this) ++ holder_ids ps) ++ hs)); [solve_Permutation|].
    apply counted_copy_opt; [exact Ih|]. intros id Hid. apply elem_of_app. left. apply elem_of_app. right. by eapply in_holder_ids. }
  destruct (_mem other) as [id|] eqn:Em; cbn [_ptr _mem _holder] in Ha.
  - destruct (mem_instance id w1) as [[b|e|] w2] eqn:Eb; [|done..].
    unfold mem_instance in Eb. destruct (s_objs (m_sys w1) !! mem_key id) as [b'|] eqn:Eo; [|done]. injection Eb as -> <-.
    destruct (make_mem (srb_copy b) w1) as [[id'|e|] w2] eqn:Ek; [|done..].
    destruct (make_copy_inv _ _ _ _ _ _ _ _ _ Im1 Hr Eo Ek) as (I2 & Eh2 & Hni & Hz & Eo2 & Es2).
    destruct (drop_mem (_mem this) w2) as [r w3] eqn:Ed. injection Ha as -> <- <-.
    assert (mem_inv h0 c0 s w2 (option_list (_mem this) ++ id' :: mem_ids ps)) as I2'.
    { eapply mem_inv_perm; [|exact I2]. apply Permutation_middle. }
    assert (within_int (s_objs (m_sys w2)) (s_scopes (m_sys w2))) as Hw2.
    { unfold room, within_int in *. rewrite Eo2, Es2, map_size_insert. change (m_sys w1) with (m_sys w).
      case_match; unfold Datatypes.id; lia. }
    destruct (drop_mem_opt _ _ _ _ _ _ _ I2' Hw2 Ed) as (I3 & Eh3 & Eo3).
    split; [by rewrite mem_ids_cons| |].
    + rewrite holder_ids_cons, Eh3, Eh2. cbn [_holder]. by rewrite <- app_assoc.
    + eapply (pointers_ok_ext (s_objs (m_sys w2))); [|intros i; rewrite mem_ids_cons; cbn [_mem]; apply Eo3].
      rewrite Eo2. eapply (pointers_ok_new (s_objs (m_sys w1))); [exact Ip| |exact Hz| |reflexivity|reflexivity|].
      * intros Hin. apply Hni, elem_of_app. by right.
      * intros i Hi. eapply mem_inv_pos; [exact Im1|]. apply elem_of_app. by right.
      * rewrite Forall_forall in Ip. specialize (Ip _ Ho). unfold pointer_ok in Ip. rewrite Em in Ip.
        destruct Ip as (b' & Hb & Hp). change (m_sys w1) with (m_sys w) in Eo. cbn [_ptr]. congruence.
  - destruct (drop_mem (_mem this) w1) as [r w3] eqn:Ed. injection Ha as -> <- <-.
    destruct (drop_mem_opt _ _ _ _ _ _ _ Im1 (room_within _ Hr) Ed) as (I3 & Eh3 & Eo3).
    split; [by rewrite mem_ids_cons| |].
    + rewrite holder_ids_cons, Eh3. cbn [_holder]. by rewrite <- app_assoc.
    + constructor; [done|]. eapply pointers_ok_ext; [exact Ip|exact Eo3].
Qed.

Lemma instances_inv h0 c0 s w ps hs s' :
  pointer_inv h0 c0 s w ps hs -> quiet (m_sys w) s' ->
  (forall id, s_objs s' !! mem_key id = s_objs (m_sys w) !! mem_key id) ->
  pointer_inv h0 c0 s (Memory s' (m_mem w) (m_hold w)) ps hs.
Proof.
  intros [[Hr0 Hr Hm Hk] Ih Ip] Hs Hkeep. split; [split; cbn [m_sys m_mem m_hold]|exact Ih|].
  - done.
  - by eapply rtc_r.
  - done.
  - intros id Hid. by rewrite Hkeep, Hk.
  - eapply pointers_ok_ext; [exact Ip|]. intros id _. apply Hkeep.
Qed.

(** Nothing began or ended since now; nor since a step of the program's own. *)
Lemma pointer_inv_now h0 c0 s w ps hs : pointer_inv h0 c0 s w ps hs -> pointer_inv h0 c0 (m_sys w) w ps hs.
Proof. intros [Im Ih Ip]. split; [split; [by eapply mem_reached|done|apply Im|apply Im]|exact Ih|exact Ip]. Qed.

Lemma instances_step_inv h0 c0 s w ps hs s' :
  pointer_inv h0 c0 s w ps hs -> run_step (m_sys w) s' ->
  (forall id, s_objs s' !! mem_key id = s_objs (m_sys w) !! mem_key id) ->
  pointer_inv h0 c0 s' (Memory s' (m_mem w) (m_hold w)) ps hs.
Proof.
  intros [Im Ih Ip] Hs Hkeep. split; [split; cbn [m_sys m_mem m_hold]|exact Ih|].
  - eapply rtc_r; [by eapply mem_reached|exact Hs].
  - done.
  - apply Im.
  - intros id Hid. rewrite Hkeep. by apply Im.
  - eapply pointers_ok_ext; [exact Ip|]. intros id _. apply Hkeep.
Qed.

Lemma to_srb_inv h0 c0 s w ps hs p i w' :
  pointer_inv h0 c0 s w ps hs -> room (m_sys w) -> own_index i -> s_objs (m_sys w) !! i = None ->
  pointer_to_srb p i w = (Ok tt, w') -> pointer_inv h0 c0 s w' ps hs.
Proof.
  intros I Hr Hi Hnone Hp. unfold pointer_to_srb, raise in Hp. destruct (_mem p) as [id|]; [|done].
  apply M_bind_Ok in Hp as (b & w1 & Hb & Hp). unfold mem_instance in Hb.
  destruct (s_objs (m_sys w) !! mem_key id) as [b'|] eqn:Eb; [|done]. simplify_eq.
  unfold copy_out in Hp. destruct w1 as [[h c o sc] sm sh]. cbn in *.
  destruct (srb_copy b (h, c, buf_default)) as [[[]|e|] [[h' c'] b']] eqn:Ec; [|done..]. injection Hp as <-.
  pose proof (instances_inv h0 c0 s _ ps hs (Sys h' c' (<[i := b']> o) sc) I) as Hinst. cbn in Hinst.
  apply Hinst; [split; [|done]|].
  { apply run_step_shrink; [by rewrite (copy_heap _ _ _ _ _ _ _ _ Ec)|].
    eapply step_copy; [by apply room_within in Hr|done|exact Eb|exact Ec]. }
  intros id'. apply lookup_insert_ne. by apply mem_key_own.
Qed.

Definition p_state : Type := memory (C := C) * list pointer * list Z.
Definition p_inv h0 c0 (x : p_state) : Prop := pointer_inv h0 c0 (m_sys x.1.1) x.1.1 x.1.2 x.2.

(** A step of a pointer is quiet; only the program itself begins and ends scopes. *)
Lemma pointer_step_sys h0 c0 (x y : p_state) :
  h0 !! nullptr = None -> sm_holds c0 [] -> p_inv h0 c0 x -> pointer_run_step x y ->
  pointer_inv h0 c0 (m_sys x.1.1) y.1.1 y.1.2 y.2 \/
  run_step (m_sys x.1.1) (m_sys y.1.1) /\ p_inv h0 c0 y.
Proof.
  unfold p_inv. intros Hn Hc I [Hs Hkept]. destruct Hs; cbn [fst snd] in *.
  9: { right. cbn [m_sys] in *. assert (run_step (m_sys w) s') by done. split; [done|]. by eapply instances_step_inv. }
  all: left.
  - destruct I as [Im Ih Ip]. split; [exact Im|exact Ih|by constructor].
  - by eapply from_void_inv.
  - by eapply from_srb_inv.
  - unfold pointer_from_shared, copy_holder, modify, mbind, M_bind, mret, M_ret in *. simplify_eq.
    destruct I as [[A S B D] Ih Ip]. split; [split; [exact A|exact S|exact B|exact D]| |by constructor].
    rewrite holder_ids_cons, <- app_assoc. cbn [_holder m_hold]. apply counted_copy_opt; [exact Ih|]. intros i [= <-].
    apply elem_of_app. by right.
  - by eapply copy_inv.
  - eapply pointer_assign_inv; [|done..]. eapply pointer_inv_perm; [eassumption|reflexivity|exact I].
  - eapply destroy_inv; [|done..]. eapply pointer_inv_perm; [eassumption|reflexivity|exact I].
  - by eapply to_srb_inv.
  - eapply hold_inv; [exact I|]. pose proof (counted_make _ _ (inv_hold _ _ _ _ _ _ I)) as Hm.
    eapply counted_perm; [|exact Hm]. by rewrite (Permutation_middle (holder_ids ps) hs).
  - eapply hold_inv; [exact I|]. apply (counted_drop_opt _ _ (Some id)).
    eapply counted_perm; [|exact (inv_hold _ _ _ _ _ _ I)]. simpl.
    rewrite (Permutation_middle (holder_ids ps) hs'). apply Permutation_app_head. done.
Qed.

Lemma pointer_step_inv h0 c0 (x y : p_state) :
  h0 !! nullptr = None -> sm_holds c0 [] -> p_inv h0 c0 x -> pointer_run_step x y -> p_inv h0 c0 y.
Proof.
  intros Hn Hc I Hs. destruct (pointer_step_sys h0 c0 x y Hn Hc I Hs) as [I'|[_ I']]; [|done].
  by eapply pointer_inv_now.
Qed.

Definition p_start h0 c0 : p_state := (Memory (sys_start h0 c0) shared_none shared_none, [], []).

Lemma pointer_reachable_inv h0 c0 x :
  h0 !! nullptr = None -> sm_holds c0 [] -> rtc pointer_run_step (p_start h0 c0) x -> p_inv h0 c0 x.
Proof.
  intros Hn Hc Hr. assert (p_inv h0 c0 (p_start h0 c0)) as I.
  { split; [split; cbn|exact counted_none|constructor]; [apply rtc_refl|apply rtc_refl|exact counted_none|].
    intros id _. rewrite lookup_empty. split; [by intros [? ?]|by intros ?%elem_of_nil]. }
  induction Hr as [x|x y z Hs _ IH]; [done|]. apply IH. by eapply pointer_step_inv.
Qed.

(** C4. A pointer keeps its memory: after a run of operations that return, in
    which the allocator, while scopes are open, gives no new block an address
    that one of them found and moves no block ([pointer_run_step]; without
    scopes every operation that returns qualifies), with fewer than 2^31 - 4
    instances and scopes, as long as a managed
    [pointer] to an address other than null exists, that address is a known,
    live block; its conversion back to a [stable_reference_buffer] is defined;
    destroying it is defined; and when the pointers and the program's own
    instances are gone and no scope is open, the heap is what it was. *)
Theorem pointer_keeps_memory h0 c0 w ps hs :
  h0 !! nullptr = None -> sm_holds c0 [] -> rtc pointer_run_step (p_start h0 c0) (w, ps, hs) -> room (m_sys w) ->
  (forall p, p ∈ ps -> is_managed p = true -> to_void p <> nullptr ->
     (exists blk, s_heap (m_sys w) !! to_void p = Some blk) /\
     is_known (to_void p) (s_counts (m_sys w)) = (Ok true, s_counts (m_sys w)) /\
     (forall i, own_index i -> s_objs (m_sys w) !! i = None -> (pointer_to_srb p i w).1 <> UB) /\
     exists w', pointer_destroy p w = (Ok tt, w')) /\
  (ps = [] -> s_scopes (m_sys w) = [] -> (forall i, own_index i -> s_objs (m_sys w) !! i = None) ->
     s_heap (m_sys w) = h0).
Proof.
  intros Hn Hc Hrt Hroom. pose proof (pointer_reachable_inv _ _ _ Hn Hc Hrt) as [Im Ih Ip]. cbn [fst snd] in *.
  pose proof (room_within _ Hroom) as Hw.
  destruct (sys_reachable_inv h0 c0 _ Hn Hc (inv_reached _ _ _ _ _ Im)) as (m & Hm & Hok).
  split.
  - intros p Hp Hman Hnn. unfold is_managed in Hman. destruct (_mem p) as [id|] eqn:Em; [|done].
    rewrite Forall_forall in Ip. pose proof (Ip _ Hp) as Hpo. unfold pointer_ok in Hpo. rewrite Em in Hpo.
    destruct Hpo as (b & Hb & Hpb). unfold to_void in *. rewrite <- Hpb in *.
    destruct (ok_known _ _ _ _ _ _ Hok Hnn) as [n Hf]; [by eapply refs_pos|].
    destruct (ok_entry _ _ _ _ _ _ _ Hok Hnn Hf) as (_ & _ & Hlive).
    split; [done|split; [by rewrite (c_is_known _ m _ Hm Hnn), Hf|split]].
    + intros i Hi Hnone. unfold pointer_to_srb, mem_instance, mbind, M_bind. rewrite Em, Hb.
      unfold copy_out. destruct w as [[h c o sc] sm sh]. cbn in *.
      pose proof (sys_copy h0 h c m o sc i (mem_key id) b Hm Hok Hw Hnone Hb) as Hcp.
      destruct (srb_copy b (h, c, buf_default)) as [[?|?|] [[? ?] ?]]; simpl; [done|done|destruct Hcp].
    + unfold pointer_destroy, drop_holder, modify, mbind, M_bind. rewrite Em. unfold drop_mem. cbn [m_sys m_mem m_hold].
      destruct (drop_shared (Some id) (m_mem w)) as [s last]. destruct last; [|by eexists].
      destruct w as [[h c o sc] sm sh]. cbn in *. rewrite Hb.
      destruct (sys_reset h0 h c m o sc (mem_key id) b Hm Hok Hw Hb) as (h1 & c1 & m1 & -> & _). by eexists.
  - intros -> Hsc Hown. destruct w as [[h c o sc] sm sh]. cbn in *. subst sc.
    assert (o = ∅) as ->; [|by eapply (sys_empty h0 h m)].
    apply map_eq. intros i. rewrite lookup_empty.
    destruct (Nat.Even_or_Odd i) as [[k ->]|[k ->]]; [|apply Hown; by exists k].
    destruct (o !! (2 * k)%nat) eqn:E; [|done]. exfalso.
    apply (elem_of_nil (Z.of_nat k)), (inv_keys _ _ _ _ _ Im); [lia|]. cbn [m_sys s_objs].
    unfold mem_key. rewrite Nat2Z.id, E. by eexists.
Qed.
End program.

(** ** A run: an instance of the program, and a pointer to it *)

Abbreviation lmem := (@memory (list (Z * Z))).

Definition with_instance : lmem :=
  Memory (Sys (fst_of run1).1 (fst_of run1).2 {[ 1%nat := buf_of run1 ]} []) shared_none shared_none.
Definition with_pointer : outcome pointer * lmem := @pointer_from_srb _ local_map (buf_of run1) with_instance.
Definition pointer_of (r : outcome pointer * lmem) : pointer :=
  match r.1 with Ok p => p | _ => pointer_default end.

Lemma with_pointer_reached :
  rtc (@pointer_run_step moving _ local_map) (p_start ∅ []) (with_pointer.2, [pointer_of with_pointer], []).
Proof.
  eapply rtc_l; [|eapply rtc_l; [|apply rtc_refl]].
  - apply pointer_run_free; [done|].
    apply (@step_instances moving _ local_map (Memory (sys_start ∅ []) shared_none shared_none) [] [] (m_sys with_instance)).
    + apply (@step_new moving _ local_map ∅ [] ∅ [] 1%nat 1 tt);
        [vm_compute; reflexivity|done|vm_compute; split; congruence|vm_compute; reflexivity].
    + intros id. apply lookup_singleton_ne. by apply mem_key_own; exists 0%nat.
  - apply pointer_run_free; [done|].
    apply (@step_from_srb moving _ local_map with_instance [] [] 1%nat (buf_of run1) (pointer_of with_pointer) with_pointer.2).
    + vm_compute. reflexivity.
    + by exists 0%nat.
    + vm_compute. reflexivity.
    + vm_compute. reflexivity.
Defined.

Lemma pointer_keeps_memory_witness :
  is_known (H0 := local_map) (to_void (pointer_of with_pointer)) (s_counts (m_sys with_pointer.2)) =
    (Ok true, s_counts (m_sys with_pointer.2)).
Proof.
  destruct (pointer_keeps_memory (H := moving) ∅ [] with_pointer.2 [pointer_of with_pointer] []
    (lookup_empty nullptr) local_start with_pointer_reached) as [Hk _].
  - vm_compute. reflexivity.
  - apply (Hk (pointer_of with_pointer)); [by left|vm_compute; reflexivity|vm_compute; discriminate].
Defined.

(** [is_managed] does not see a [std::shared_ptr]. *)
Example shared_is_not_managed :
  is_managed (Pointer 16 None (Some 0)) = false.
Proof. reflexivity. Qed.
