(* ===== verification/Handover.v ===== *)
(** * Handover: memory passed on by address

    The composition of [stable_reference_buffer], [delay_deallocation] and
    [pointer] that the library exists for: a library builds a value in a managed
    block, hands out its address (as text, in a serialized tree), and drops
    everything it has; whoever reads the address back finds the block, because a
    scope that was open when the block appeared keeps a reference to it.  The
    steps are those of the system of Pointer.v; the scope may be any of the open
    ones, and others may begin and end above it. *)

From S2P Require Import Prelude Errors Bytes StdMap Heap Buffer Convert Serialization InterprocessMap.
From S2P Require Import StableReferenceBuffer SharedPtr Pointer.

Section handover.
Context `{AllocatorLaws} {C : Type} `{!SharedMap C Z Z} `{!SharedMapLaws C Z Z} `{!SharedMapUpdates C}.
Implicit Types (s : sys (C := C)) (d : scope) (lower sc : list scope) (a : addr) (h : heap).

(** The scope [d] is open, and was begun on top of [lower]. *)
Definition is_open d lower s : Prop := (d :: lower) `suffix_of` s_scopes s.

Lemma open_holds d lower sc a :
  (d :: lower) `suffix_of` sc -> a ∉ _old_entries d -> 0 < scopes_holding a sc.
Proof.
  intros [above ->] Ha. unfold scopes_holding. rewrite filter_app, filter_cons_True, length_app by done. simpl. lia.
Qed.

(** What a step does to the heap at a known block with at least one reference
    besides those of any one instance or scope. *)
Lemma reset_keeps h0 h c m o sc i b a h' c' b' u :
  sm_holds c m -> sys_ok h0 h m o sc -> within_int o sc -> o !! i = Some b -> 0 < scopes_holding a sc ->
  srb_reset (h, c, b) = (Ok u, (h', c', b')) -> h' !! a = h !! a.
Proof.
  intros Hc Hok Hw Hi Hs E. destruct (decide (_buffer b = nullptr)) as [Hn|Hp].
  { rewrite (srb_reset_null h c b m) in E by done. by simplify_eq. }
  destruct (ok_known _ _ _ _ _ _ Hok Hp) as [n Hn]; [by eapply refs_pos|].
  destruct (ok_entry _ _ _ _ _ _ _ Hok Hp Hn) as (Ht & _ & Hl).
  destruct (within_int_entry _ _ _ _ _ _ _ Hok Hw Hp Hn) as (Hint & _).
  destruct (srb_reset_spec h c b m Hc Hp) as (c1 & m1 & E1 & _); [intros k Hk; by simplify_eq|done|].
  rewrite E1, Hn in E. simplify_eq. unfold release_heap. case_bool_decide as H1; [|done]. injection H1 as H1.
  rewrite lookup_delete_ne; [done|]. intros <-. pose proof (refs_pos _ o i b Hi eq_refl). unfold total in H1. lia.
Qed.

Lemma append_keeps h0 h c m o sc i b data a h' c' b' u n :
  sm_holds c m -> sys_ok h0 h m o sc -> within_int o sc -> o !! i = Some b -> data <> [] ->
  _size b + Z.of_nat (length data) <= size_max -> a <> nullptr -> map_find a m = Some n -> 0 < scopes_holding a sc ->
  srb_append data (h, c, b) = (Ok u, (h', c', b')) -> h' !! a = h !! a.
Proof.
  intros Hc Hok Hw Hi Hd Hmax Ha Hn Hs E.
  destruct (append_effect h0 h c m o sc i b data u h' c' b' Hc Hok Hw Hi (or_introl Hd) Hmax E) as (_ & _ & Hk).
  apply (Hk a n Ha Hn). destruct (decide (a = _buffer b)) as [->|]; [right|by left].
  destruct (ok_entry _ _ _ _ _ _ _ Hok Ha Hn) as (-> & _). pose proof (refs_pos _ o i b Hi eq_refl). unfold total. lia.
Qed.

Lemma assign_keeps h0 h c m o sc i j bi bj a h' c' b' u :
  sm_holds c m -> sys_ok h0 h m o sc -> within_int o sc -> o !! i = Some bi -> 0 < scopes_holding a sc ->
  i <> j -> o !! j = Some bj -> srb_assign false bj (h, c, bi) = (Ok u, (h', c', b')) -> h' !! a = h !! a.
Proof.
  intros Hc Hok Hw Hi Hs Hij Hj E. unfold srb_assign in E. case_bool_decide as Hp; [done|].
  destruct (sys_reset h0 h c m o sc i bi Hc Hok Hw Hi) as (h1 & c1 & m1 & E1 & H1' & Hok1).
  rewrite (M_bind_step _ _ _ _ _ E1), set_fields_step in E.
  rewrite <- (reset_keeps h0 h c m o sc i bi a h1 c1 _ _ Hc Hok Hw Hi Hs E1).
  unfold on_counts, mbind, M_bind, mret, M_ret in E. destruct (sm_update _ _ _ _) as [[|e|] c2]; by simplify_eq/=.
Qed.

(** Inside an open scope no step takes away a block that is not the rest of the
    program's and appeared in the scope. *)
Lemma step_keeps_block h0 s s' d lower a blk :
  sys_inv h0 s -> run_step s s' -> is_open d lower s -> is_open d lower s' ->
  a <> nullptr -> a ∉ _old_entries d -> h0 !! a = None -> s_heap s !! a = Some blk -> s_heap s' !! a = Some blk.
Proof.
  intros (m & Hc & Hok) [Hstep _] Ho Ho' Ha Hd Hh0 Hblk. unfold is_open in *.
  assert (exists n, map_find a m = Some n) as [n Hn].
  { pose proof (ok_blocks _ _ _ _ _ Hok a Ha) as Hb. destruct (map_find a m) as [n|]; [by eexists|].
    destruct Hb. congruence. }
  pose proof (open_holds _ _ _ _ Ho Hd) as Hs. rewrite <- Hblk.
  destruct Hstep; cbn [s_heap s_counts s_objs s_scopes] in *.
  - done.
  - destruct (srb_new_spec h c buf_default m size Hc) as [(e & b1 & E)|(q & blk' & c1 & m1 & E & Hq & _)];
      [done|by intros q; eapply blocks_ok_fresh, ok_blocks|by eapply within_int_initial|congruence|].
    rewrite E in *. simplify_eq. destruct Hq as [_ Hq]. apply lookup_insert_ne. congruence.
  - match goal with E : srb_copy _ _ = _ |- _ => by apply copy_heap in E as -> end.
  - match goal with E : srb_from_address _ _ = _ |- _ => by apply from_address_heap in E as -> end.
  - by apply (append_keeps h0 h c m o sc i b data a h' c' b' u n).
  - by apply (assign_keeps h0 h c m o sc i j bi bj a h' c' b' u).
  - by apply (reset_keeps h0 h c m o sc i b a h' c' b' u).
  - done.
  - destruct (sys_exit h0 h c m o s sc Hc Hok) as (h1 & c1 & E & _ & Hk); [done|].
    assert (h' = h1) as -> by congruence. apply Hk. by eapply open_holds.
Qed.

(** ** Until the scope ends *)

(** A step of the program, its pointers included, after which [d] is still open. *)
Definition step_inside d lower (x y : p_state) : Prop := pointer_run_step x y /\ is_open d lower (m_sys y.1.1).

Lemma quiet_keeps_block h0 s s' d lower a blk :
  rtc quiet s s' -> sys_inv h0 s -> is_open d lower s -> a <> nullptr -> a ∉ _old_entries d -> h0 !! a = None ->
  s_heap s !! a = Some blk -> s_heap s' !! a = Some blk.
Proof.
  induction 1 as [s|s s2 s3 [Hs E] _ IH]; [done|]. intros Hi Ho Ha Hd H0' Hb.
  assert (is_open d lower s2) as Ho2 by (unfold is_open in *; by rewrite E).
  apply IH; [by eapply run_step_inv|done..|]. by eapply (step_keeps_block h0 s s2 d lower).
Qed.

Lemma inv_sys h0 c0 s (w : memory (C := C)) ps hs :
  h0 !! nullptr = None -> sm_holds c0 [] -> pointer_inv h0 c0 s w ps hs -> sys_inv h0 (m_sys w).
Proof. intros Hn Hc I. eapply sys_reachable_inv; [done..|]. by eapply mem_reached, inv_memory. Qed.

Lemma inside_keeps_block h0 c0 d lower a blk (x y : p_state) :
  h0 !! nullptr = None -> sm_holds c0 [] -> rtc (step_inside d lower) x y -> p_inv h0 c0 x ->
  is_open d lower (m_sys x.1.1) -> a <> nullptr -> a ∉ _old_entries d -> h0 !! a = None ->
  s_heap (m_sys x.1.1) !! a = Some blk ->
  p_inv h0 c0 y /\ is_open d lower (m_sys y.1.1) /\ s_heap (m_sys y.1.1) !! a = Some blk.
Proof.
  intros Hn Hc. induction 1 as [x|x y z [Hs Ho'] _ IH]; [done|]. intros I Ho Ha Hd H0' Hb.
  pose proof (inv_sys _ _ _ _ _ _ Hn Hc I) as Hi.
  apply IH; [by eapply pointer_step_inv|done..|].
  destruct (pointer_step_sys h0 c0 x y Hn Hc I Hs) as [[Im _ _]|[Hss _]].
  - eapply quiet_keeps_block; [exact (inv_since _ _ _ _ _ Im)|done..].
  - by eapply (step_keeps_block h0 _ _ d lower).
Qed.

(** A managed pointer refers to a live block of ours. *)
Lemma managed_live h0 c0 (w : memory (C := C)) ps hs p :
  h0 !! nullptr = None -> sm_holds c0 [] -> pointer_inv h0 c0 (m_sys w) w ps hs -> p ∈ ps -> is_managed p = true ->
  to_void p <> nullptr -> exists blk, s_heap (m_sys w) !! to_void p = Some blk /\ h0 !! to_void p = None.
Proof.
  intros Hn Hc I Hp Hman Ha. destruct (inv_sys _ _ _ _ _ _ Hn Hc I) as (m & Hm & Hok).
  pose proof (inv_pointers _ _ _ _ _ _ I) as Ip. rewrite Forall_forall in Ip. specialize (Ip _ Hp).
  unfold pointer_ok, is_managed, to_void in *. destruct (_mem p) as [id|]; [|done]. destruct Ip as (b & Hb & E). rewrite <- E in *.
  destruct (ok_known _ _ _ _ _ _ Hok Ha) as [n Hf]; [by eapply refs_pos|].
  pose proof (ok_blocks _ _ _ _ _ Hok _ Ha) as Hbl. rewrite Hf in Hbl. destruct Hbl as (_ & _ & [blk ?] & ?). by exists blk.
Qed.

(** Constructing a pointer from the address of a live block of ours succeeds. *)
Lemma from_void_live h0 c0 (w : memory (C := C)) ps hs a blk :
  h0 !! nullptr = None -> sm_holds c0 [] -> pointer_inv h0 c0 (m_sys w) w ps hs -> room (m_sys w) ->
  a <> nullptr -> h0 !! a = None -> s_heap (m_sys w) !! a = Some blk ->
  exists q w', pointer_from_void a w = (Ok q, w') /\ is_managed q = true /\ to_void q = a /\
    s_heap (m_sys w') = s_heap (m_sys w).
Proof.
  intros Hn Hc I Hr Ha H0' Hb. destruct (inv_sys _ _ _ _ _ _ Hn Hc I) as (m & Hm & Hok).
  destruct w as [[h c o sc] sm sh]. cbn [m_sys s_heap s_counts s_objs s_scopes] in *.
  pose proof (ok_blocks _ _ _ _ _ Hok a Ha) as Hbl. destruct (map_find a m) as [n|] eqn:Ef; [|destruct Hbl; congruence].
  apply room_within in Hr. cbn in Hr. destruct (within_int_entry _ _ _ _ _ _ _ Hok Hr Ha Ef) as (_ & _ & Hint).
  destruct (srb_from_address_spec h c buf_default a m n Hm Ef Hint) as (c' & m' & E & _).
  assert (is_known a c = (Ok true, c)) as Ek by by rewrite (c_is_known c m a Hm Ha), Ef.
  eexists (Pointer a _ None), _. split.
  { unfold pointer_from_void, on_known, mbind, M_bind. cbn [m_sys]. rewrite Ek. unfold make_mem. cbn [m_sys].
    rewrite E. cbn. reflexivity. }
  done.
Qed.

(** The end of a scope releases what nobody else refers to. *)
Lemma scope_end_releases h0 s d lower a h' c' u :
  sys_inv h0 s -> s_scopes s = d :: lower -> within_int (s_objs s) (s_scopes s) -> a <> nullptr -> h0 !! a = None ->
  scope_exit d (s_heap s, s_counts s) = (Ok u, (h', c')) ->
  refs a (s_objs s) = 0 -> scopes_holding a lower = 0 -> h' !! a = None.
Proof.
  intros (m & Hm & Hok) Es Hw Ha H0' E Hr Hs. destruct s as [h c o sc]. cbn in *. subst sc.
  destruct (sys_exit h0 h c m o d lower Hm Hok Hw) as (h1 & c1 & E1 & (m1 & _ & Hok1) & _).
  rewrite E1 in E. simplify_eq. cbn in Hok1. pose proof (ok_blocks _ _ _ _ _ Hok1 a Ha) as Hb.
  destruct (map_find a m1); [unfold total in Hb; lia|]. destruct Hb. congruence.
Qed.

(** C5. Memory handed over by address stays: in a run of operations that return,
    in which the allocator, while scopes are open, gives no new block an address
    that one of them found and moves no block (so that the append of an exclusive
    owner grows in place or throws), with fewer than 2^31 - 4 instances and scopes, when
    a block appeared while a
    [delay_deallocation] was open, a pointer to it may be turned into text and
    destroyed with every other owner; as long as that scope is open, whatever the
    program does with instances, pointers and inner scopes (appends by other
    owners of the block included), a pointer made from the text is managed and
    refers to the same address with the same bytes.  When the scope ends with
    nobody referring to the block, it is freed. *)
Theorem handover_by_address h0 c0 (x y : p_state (C := C)) d lower p :
  h0 !! nullptr = None -> sm_holds c0 [] -> rtc pointer_run_step (p_start h0 c0) x ->
  is_open d lower (m_sys x.1.1) -> p ∈ x.1.2 -> is_managed p = true -> to_void p <> nullptr -> is_size_t (to_void p) ->
  to_void p ∉ _old_entries d -> rtc (step_inside d lower) x y -> room (m_sys y.1.1) ->
  (exists q w' blk, pointer_from_string (pointer_to_string p) y.1.1 = (Ok q, w') /\
     is_managed q = true /\ to_void q = to_void p /\
     s_heap (m_sys x.1.1) !! to_void p = Some blk /\ s_heap (m_sys w') !! to_void q = Some blk) /\
  (s_scopes (m_sys y.1.1) = d :: lower -> refs (to_void p) (s_objs (m_sys y.1.1)) = 0 ->
   scopes_holding (to_void p) lower = 0 ->
   exists h' c', scope_exit d (s_heap (m_sys y.1.1), s_counts (m_sys y.1.1)) = (Ok tt, (h', c')) /\
                 h' !! to_void p = None).
Proof.
  intros Hn Hc Hr Ho Hp Hman Ha Hsz Hd Hin Hroom. pose proof (pointer_reachable_inv _ _ _ Hn Hc Hr) as I.
  assert (exists blk, s_heap (m_sys x.1.1) !! to_void p = Some blk /\ h0 !! to_void p = None) as (blk & Hb & H0').
  { by apply (managed_live h0 c0 x.1.1 x.1.2 x.2). }
  destruct (inside_keeps_block h0 c0 d lower _ blk x y Hn Hc Hin I Ho Ha Hd H0' Hb) as (I' & Ho' & Hb').
  pose proof (inv_sys _ _ _ _ _ _ Hn Hc I') as Hs. split.
  - destruct (from_void_live h0 c0 y.1.1 y.1.2 y.2 _ blk Hn Hc I' Hroom Ha H0' Hb') as (q & w' & E & Hq & Ht & Hh).
    exists q, w', blk. rewrite Ht, Hh. split; [|done].
    unfold pointer_from_string, pointer_to_string, mbind, M_bind. by rewrite pointer_text_roundtrip.
  - intros Es Hrf Hsc. apply room_within in Hroom. rewrite Es in Hroom.
    destruct Hs as (m & Hm & Hok). pose proof Hok as Hok1. rewrite Es in Hok1.
    destruct (sys_exit h0 _ _ m _ d lower Hm Hok1 Hroom) as (h' & c' & E & _).
    exists h', c'. split; [done|]. rewrite <- Es in Hroom.
    eapply (scope_end_releases h0 _ d lower); [by exists m|done..].
Qed.
End handover.

(** ** A run: a block built inside a scope, handed out as text, and dropped *)

Definition entered : outcome scope * list (Z * Z) := scope_enter (H0 := local_map) [].
Definition guard : scope := match entered.1 with Ok s => s | _ => Scope [] 0 end.
Definition built := @srb_new moving _ local_map 1 1 (∅, entered.2, buf_default).
Definition world (h : heap) (c : list (Z * Z)) (o : gmap nat buf) (sc : list scope) (m : shared) : lmem :=
  Memory (Sys h c o sc) m shared_none.
Definition with_block : lmem := world (fst_of built).1 (fst_of built).2 {[ 1%nat := buf_of built ]} [guard] shared_none.
Definition with_handle : outcome pointer * lmem := @pointer_from_srb _ local_map (buf_of built) with_block.
Definition handle : pointer := pointer_of with_handle.
Definition without_handle : lmem := (@pointer_destroy _ local_map handle with_handle.2).2.
Definition dropped := @srb_reset _ local_map (s_heap (m_sys without_handle), s_counts (m_sys without_handle), buf_of built).
Definition without_owners : lmem := world (fst_of dropped).1 (fst_of dropped).2 ∅ [guard] (m_mem without_handle).

Lemma built_placed : placed [guard] ∅ (fst_of built).1.
Proof.
  intros p _ _. split; [|by right; intros q [? Hq]; rewrite lookup_empty in Hq].
  constructor; [|constructor]. vm_compute. by intros ?%elem_of_nil.
Qed.

Lemma dropped_shrinks : s_heap (m_sys without_owners) ⊆ s_heap (m_sys without_handle).
Proof.
  apply (@reset_heap _ local_map (s_heap (m_sys without_handle)) (s_counts (m_sys without_handle)) (buf_of built)
    (Ok tt) (fst_of dropped).1 (fst_of dropped).2 (buf_of dropped)). vm_compute. reflexivity.
Qed.

Lemma block_built :
  rtc (@pointer_run_step moving _ local_map) (p_start ∅ []) (with_handle.2, [handle], []).
Proof.
  eapply rtc_l; [|eapply rtc_l; [|eapply rtc_l; [|apply rtc_refl]]].
  - apply pointer_run_free; [done|]. apply (@step_instances moving _ local_map (Memory (sys_start ∅ []) shared_none shared_none) [] []
      (Sys ∅ entered.2 ∅ [guard])); [|done].
    apply (@step_enter moving _ local_map ∅ [] ∅ [] guard entered.2); vm_compute; reflexivity.
  - apply (conj (A := pointer_step (world ∅ entered.2 ∅ [guard] shared_none, [], []) (with_block, [], [])));
      [|exact built_placed].
    apply (@step_instances moving _ local_map (world ∅ entered.2 ∅ [guard] shared_none) [] [] (m_sys with_block)).
    + apply (@step_new moving _ local_map ∅ entered.2 ∅ [guard] 1%nat 1 tt);
        [vm_compute; reflexivity|done|vm_compute; split; congruence|vm_compute; reflexivity].
    + intros id. apply lookup_singleton_ne. by apply mem_key_own; exists 0%nat.
  - apply pointer_run_shrink; [apply reflexive_eq; vm_compute; reflexivity|].
    apply (@step_from_srb moving _ local_map with_block [] [] 1%nat (buf_of built) handle with_handle.2).
    + vm_compute. reflexivity.
    + by exists 0%nat.
    + vm_compute. reflexivity.
    + vm_compute. reflexivity.
Defined.

Lemma owners_dropped :
  rtc (@step_inside moving _ local_map guard []) (with_handle.2, [handle], []) (without_owners, [], []).
Proof.
  apply (rtc_l _ _ (without_handle, [], [])); [|apply rtc_once].
  - split; [apply pointer_run_shrink; [apply reflexive_eq; vm_compute; reflexivity|]|by exists []].
    apply (@step_destroy_pointer moving _ local_map with_handle.2 [handle] [] [] handle without_handle).
    + vm_compute. reflexivity.
    + done.
    + vm_compute. reflexivity.
  - split; [apply pointer_run_shrink; [exact dropped_shrinks|]|by exists []].
    apply (@step_instances moving _ local_map without_handle [] [] (m_sys without_owners)).
    + replace (m_sys without_owners) with
        (Sys (fst_of dropped).1 (fst_of dropped).2 (delete 1%nat (s_objs (m_sys without_handle))) [guard])
        by (vm_compute; reflexivity).
      apply (@step_destroy moving _ local_map (s_heap (m_sys without_handle)) (s_counts (m_sys without_handle))
        (s_objs (m_sys without_handle)) [guard] 1%nat (buf_of built) tt _ _ buf_default); vm_compute; reflexivity.
    + intros id. assert (1%nat <> mem_key id) by (by apply mem_key_own; exists 0%nat).
      replace (s_objs (m_sys without_handle)) with ({[ 1%nat := buf_of built ]} : gmap nat buf) by (vm_compute; reflexivity).
      by rewrite lookup_singleton_ne.
Defined.

Lemma handover_by_address_witness :
  exists q w' blk, @pointer_from_string _ local_map (pointer_to_string handle) without_owners = (Ok q, w') /\
    to_void q = to_void handle /\ s_heap (m_sys w') !! to_void q = Some blk.
Proof.
  destruct (handover_by_address (H := moving) ∅ [] (with_handle.2, [handle], []) (without_owners, [], []) guard [] handle
    (lookup_empty nullptr) local_start block_built) as [(q & w' & blk & E & _ & Et & _ & Eb) _].
  - by exists [].
  - by left.
  - vm_compute. reflexivity.
  - vm_compute. discriminate.
  - vm_compute. split; congruence.
  - vm_compute. by intros ?%elem_of_nil.
  - exact owners_dropped.
  - vm_compute. reflexivity.
  - by exists q, w', blk.
Defined.
