(* ===== verification/SharedArray.v ===== *)
(** * SharedArray: [container/shared_array.hpp]

    [make_shared_array]: an array of trivial elements from [new T[size]], behind
    a [std::shared_ptr] whose deleter runs [delete[]] with the last pointer. *)

From S2P Require Import Prelude Errors Bytes Heap SharedPtr.

(** The heap, the counts of the shared pointers, and the array behind each. *)
Record arrays : Type := Arrays { a_heap : heap; a_counts : shared; a_at : gmap Z addr }.

Section shared_array.
Context `{AllocatorLaws}.
Implicit Types (h : heap) (w : arrays) (l : list Z).

(** [new T[size]]: a count whose bytes overflow throws before it allocates. *)
Definition new_array (elem size : Z) : M heap addr := fun h =>
  if bool_decide (size_max < size * elem) then (throw std_bad_alloc "std::bad_array_new_length", h)
  else match malloc (size * elem) h with
       | Some (p, h') => (Ok p, h')
       | None => (throw std_bad_alloc "std::bad_alloc", h)
       end.

Definition make_shared_array (elem size : Z) : M arrays Z := fun w =>
  match new_array elem size (a_heap w) with
  | (Ok p, h) =>
      let '(id, s) := make_shared (a_counts w) in (Ok id, Arrays h s (<[id := p]> (a_at w)))
  | (Throw e, h) => (Throw e, Arrays h (a_counts w) (a_at w))
  | (UB, h) => (UB, Arrays h (a_counts w) (a_at w))
  end.

(** A copy of a pointer, and the end of one: the last runs the deleter. *)
Definition array_copy (id : Z) : M arrays unit :=
  modify (fun w => Arrays (a_heap w) (copy_shared (Some id) (a_counts w)) (a_at w)).

Definition array_drop (id : Z) : M arrays unit := fun w =>
  let '(s, last) := drop_shared (Some id) (a_counts w) in
  if last : bool then
    match a_at w !! id with
    | Some p =>
        match free p (a_heap w) with
        | Ok h => (Ok tt, Arrays h s (delete id (a_at w)))
        | Throw e => (Throw e, w)
        | UB => (UB, w)
        end
    | None => (UB, w)
    end
  else (Ok tt, Arrays (a_heap w) s (a_at w)).

(** ** The pointers of a program, listed in [l] *)

Inductive array_step : arrays * list Z -> arrays * list Z -> Prop :=
| array_step_make w l elem size id w' :
    0 < elem -> 0 <= size -> make_shared_array elem size w = (Ok id, w') -> array_step (w, l) (w', id :: l)
| array_step_copy w l id w' :
    id ∈ l -> array_copy id w = (Ok tt, w') -> array_step (w, l) (w', id :: l)
| array_step_drop w l l' id w' :
    l ≡ₚ id :: l' -> array_drop id w = (Ok tt, w') -> array_step (w, l) (w', l').

Record arrays_ok h0 w l : Prop := {
  ar_counted : counted (a_counts w) l;
  ar_ids id : is_Some (a_at w !! id) <-> id ∈ l;
  ar_apart i j p : a_at w !! i = Some p -> a_at w !! j = Some p -> i = j;
  ar_live id p : a_at w !! id = Some p -> p <> nullptr /\ is_Some (a_heap w !! p) /\ h0 !! p = None;
  ar_rest p : (forall id, a_at w !! id <> Some p) -> a_heap w !! p = h0 !! p;
}.

Lemma new_array_spec elem size h p h' :
  new_array elem size h = (Ok p, h') ->
  size * elem <= size_max /\ is_fresh h p /\ exists blk, length blk = Z.to_nat (size * elem) /\ h' = <[p := blk]> h.
Proof.
  unfold new_array. case_bool_decide; [done|]. destruct (malloc _ h) as [[q h1]|] eqn:E; [|done].
  intros ?; simplify_eq. apply malloc_Some in E as (? & blk & ? & ->). split; [lia|]. split; [done|]. by exists blk.
Qed.

Lemma make_array_ok h0 w l elem size id w' :
  arrays_ok h0 w l -> make_shared_array elem size w = (Ok id, w') -> arrays_ok h0 w' (id :: l).
Proof.
  intros [A B D L R]. unfold make_shared_array.
  destruct (new_array elem size (a_heap w)) as [[p|e|] h] eqn:En; [|done..].
  apply new_array_spec in En as (_ & [Hp Hf] & blk & _ & ->). pose proof (counted_make _ _ A) as A'.
  assert (next_id (a_counts w) ∉ l) as Hni by (intros Hi; apply (counted_next _ _ A) in Hi; lia).
  assert (forall i, a_at w !! i <> Some p) as Hp' by (intros i Hi; apply L in Hi as (_ & [? ?] & _); congruence).
  assert (h0 !! p = None) as H0' by (rewrite <- R by done; done).
  intros E. injection E as <- <-. split; cbn [a_heap a_counts a_at].
  - done.
  - intros i. rewrite elem_of_cons, <- B. destruct (decide (i = next_id (a_counts w))) as [->|Hi].
    + rewrite lookup_insert_eq. split; [by left|by eexists].
    + rewrite lookup_insert_ne by done. naive_solver.
  - intros i j q [[<- <-]|[? Hi]]%lookup_insert_Some [[<- Hj]|[? Hj]]%lookup_insert_Some; subst;
      [done|by apply Hp' in Hj|by apply Hp' in Hi|by eapply D].
  - intros i q [[<- <-]|[? Hi]]%lookup_insert_Some.
    + rewrite lookup_insert_eq. split; [unfold nullptr in *; lia|by split].
    + destruct (L i q Hi) as (? & ? & ?). rewrite lookup_insert_ne; [done|]. intros <-. by apply Hp' in Hi.
  - intros q Hq. assert (p <> q) as Hpq.
    { intros <-. apply (Hq (next_id (a_counts w))), lookup_insert_eq. }
    rewrite lookup_insert_ne by done. apply R. intros i Hi. apply (Hq i). rewrite lookup_insert_ne; [done|].
    intros <-. apply Hni, B. by eexists.
Qed.

(** Dropping a pointer is defined; the last frees the array. *)
Lemma array_drop_ok h0 w l id :
  arrays_ok h0 w (id :: l) -> exists w', array_drop id w = (Ok tt, w') /\ arrays_ok h0 w' l.
Proof.
  intros [A B D L R]. destruct (counted_drop _ _ _ A) as [A' Hlast]. unfold array_drop.
  destruct (drop_shared (Some id) (a_counts w)) as [s last]. cbn [fst snd] in *. destruct last.
  - assert (id ∉ l) as Hni by by apply Hlast.
    destruct (a_at w !! id) as [p|] eqn:Ep; [|destruct (proj2 (B id)); [by left|congruence]].
    destruct (L id p Ep) as (Hp & [blk Hblk] & H0'). unfold free. rewrite bool_decide_eq_false_2, Hblk by done.
    eexists. split; [done|]. split; cbn [a_heap a_counts a_at].
    + done.
    + intros i. destruct (decide (i = id)) as [->|Hi].
      * rewrite lookup_delete_eq. split; [by intros [? ?]|done].
      * rewrite lookup_delete_ne, B, elem_of_cons by done. naive_solver.
    + intros i j q [_ Hi]%lookup_delete_Some [_ Hj]%lookup_delete_Some. by eapply D.
    + intros i q [Hi Hq]%lookup_delete_Some. destruct (L i q Hq) as (? & ? & ?).
      rewrite lookup_delete_ne; [done|]. intros <-. apply Hi. by eapply D.
    + intros q Hq. destruct (decide (q = p)) as [->|Hqp]; [by rewrite lookup_delete_eq|].
      rewrite lookup_delete_ne by done. apply R. intros i Hi. apply (Hq i).
      rewrite lookup_delete_ne; [done|]. intros <-. congruence.
  - assert (id ∈ l) as Hin by (destruct (decide (id ∈ l)) as [|Hn]; [done|by apply Hlast in Hn]).
    eexists. split; [done|]. split; cbn [a_heap a_counts a_at]; [done| |done|done|done].
    intros i. rewrite B, elem_of_cons. naive_solver.
Qed.

Lemma arrays_ok_perm h0 w l k : l ≡ₚ k -> arrays_ok h0 w l -> arrays_ok h0 w k.
Proof. intros E [A B D L R]. split; [by eapply counted_perm|intros id; by rewrite B, E|done..]. Qed.

Lemma array_step_ok h0 x y : arrays_ok h0 x.1 x.2 -> array_step x y -> arrays_ok h0 y.1 y.2.
Proof.
  intros Hok Hs. destruct Hs as [w l elem size id w' ? ? E|w l id w' Hin E|w l l' id w' Hl E]; cbn [fst snd] in *.
  - by eapply make_array_ok.
  - injection E as <-. destruct Hok as [A B D L R]. split; cbn [a_heap a_counts a_at]; [|..|done|done|done].
    + by apply counted_copy.
    + intros i. rewrite B, elem_of_cons. naive_solver.
  - eapply arrays_ok_perm in Hok; [|exact Hl]. destruct (array_drop_ok h0 w l' id Hok) as (w1 & E1 & ?). congruence.
Qed.

Definition arrays_start h0 : arrays * list Z := (Arrays h0 shared_none ∅, []).

(** In every reachable state each pointer has a live array of its own identity,
    distinct from every other and from the rest of the heap; dropping any of
    them is defined; and without pointers the heap is as it was. *)
Theorem shared_array_owned h0 w l :
  rtc array_step (arrays_start h0) (w, l) ->
  (forall id, id ∈ l -> exists p, a_at w !! id = Some p /\ is_Some (a_heap w !! p) /\ h0 !! p = None) /\
  (forall i j p, a_at w !! i = Some p -> a_at w !! j = Some p -> i = j) /\
  (forall id l', l ≡ₚ id :: l' -> exists w', array_drop id w = (Ok tt, w')) /\
  (l = [] -> a_heap w = h0).
Proof.
  intros Hr. assert (arrays_ok h0 w l) as Hok.
  { change (arrays_ok h0 (w, l).1 (w, l).2).
    assert (arrays_ok h0 (arrays_start h0).1 (arrays_start h0).2) as H0'.
    { split; cbn; [apply counted_none|intros id; rewrite lookup_empty; split; [by intros [? ?]|by intros ?%elem_of_nil]|done..]. }
    induction Hr as [x|x y z Hs _ IH]; [done|]. apply IH. by eapply array_step_ok. }
  split; [|split; [apply Hok|split]].
  - intros id Hi. apply (ar_ids _ _ _ Hok) in Hi as [p Hp]. exists p. destruct (ar_live _ _ _ Hok _ _ Hp) as (_ & ? & ?). done.
  - intros id l' El. eapply arrays_ok_perm in Hok; [|exact El]. destruct (array_drop_ok _ _ _ _ Hok) as (w' & ? & _). by exists w'.
  - intros ->. apply map_eq. intros p. apply Hok. intros id Hi.
    apply (elem_of_nil id), (ar_ids _ _ _ Hok). by eexists.
Qed.
End shared_array.

(** The bytes of too many elements do not fit: nothing is allocated. *)
Example array_too_large :
  @new_array moving 8 (2 ^ 61) ∅ = (throw std_bad_alloc "std::bad_array_new_length", ∅).
Proof. vm_compute. reflexivity. Qed.

(** No elements: still a block, freed like any other. *)
Example array_of_none :
  match @make_shared_array moving 8 0 (arrays_start ∅).1 with
  | (Ok id, w) => (size (a_heap w), a_heap (array_drop id w).2) = (1%nat, ∅)
  | _ => False
  end.
Proof. vm_compute. reflexivity. Qed.

Lemma shared_array_owned_witness :
  exists w, array_drop 0 (@make_shared_array moving 8 2 (arrays_start ∅).1).2 = (Ok tt, w).
Proof.
  destruct (shared_array_owned (H := moving) ∅ (@make_shared_array moving 8 2 (arrays_start ∅).1).2 [0]) as (_ & _ & Hd & _).
  - apply rtc_once. apply (@array_step_make moving _ [] 8 2); [lia|lia|vm_compute; reflexivity].
  - by apply (Hd 0 []).
Defined.
