(* ===== verification/Random.v ===== *)
(** * Random: [random/generators.hpp]

    Random numbers and strings.  The engine with
    [std::uniform_int_distribution] is an interface: [W] holds the calling
    thread's generator, and drawing from [lo..hi] answers a number in that
    range, for [lo <= hi]. *)

From S2P Require Import Prelude Errors Bytes.

Class Generator (W : Type) := uniform : Z -> Z -> M W Z.

Class GeneratorLaws (W : Type) `{Generator W} :=
  uniform_range lo hi w : lo <= hi -> exists r w', uniform lo hi w = (Ok r, w') /\ lo <= r <= hi.

Section random.
Context {W : Type} `{Generator W}.

(** [random_number(n)]; for [n = 0] the bound wraps around. *)
Definition random_number (n : Z) : M W Z := uniform 0 (size_t (n - 1)).

Definition chrs : bytes :=
  str "0123456789" ++ str "abcdefghijklmnopqrstuvwxyz" ++ str "ABCDEFGHIJKLMNOPQRSTUVWXYZ".

(** [chrs[pick(gen)]]: the array ends in a NUL, so the last index drawn is
    [sizeof(chrs) - 2]. *)
Definition pick : M W byte :=
  i ← uniform 0 (Z.of_nat (length chrs) + 1 - 2);
  match chrs !! Z.to_nat i with Some c => mret c | None => undefined end.

(** The loop [while (length--)]. *)
Fixpoint random_loop (length : nat) (s : bytes) : M W bytes :=
  match length with
  | O => mret s
  | Datatypes.S length => c ← pick; random_loop length (s ++ [c])
  end.
Definition random_string (length : Z) : M W bytes := random_loop (Z.to_nat length) [].
End random.

Definition is_alphanumeric (c : byte) : Prop := c ∈ chrs.
#[export] Instance is_alphanumeric_dec c : Decision (is_alphanumeric c).
Proof. unfold is_alphanumeric. apply _. Defined.

Section random_laws.
Context {W : Type} `{GeneratorLaws W}.

Lemma pick_alphanumeric w : exists c w', pick w = (Ok c, w') /\ is_alphanumeric c.
Proof.
  destruct (uniform_range 0 (Z.of_nat (length chrs) + 1 - 2) w) as (i & w' & E & Hi); [done|].
  unfold pick. rewrite (M_bind_step _ _ _ _ _ E).
  destruct (lookup_lt_is_Some_2 chrs (Z.to_nat i)) as [c Hc]; [lia|].
  exists c, w'. rewrite Hc. split; [done|]. by eapply list_elem_of_lookup_2.
Qed.

Lemma random_loop_spec n s w :
  exists t w', random_loop n s w = (Ok (s ++ t), w') /\ length t = n /\ Forall is_alphanumeric t.
Proof.
  revert s w. induction n as [|n IH]; intros s w; simpl.
  { exists [], w. rewrite app_nil_r. by split_and!. }
  destruct (pick_alphanumeric w) as (c & w1 & E & Hc). rewrite (M_bind_step _ _ _ _ _ E).
  destruct (IH (s ++ [c]) w1) as (t & w2 & -> & Hl & Ht). exists (c :: t), w2.
  rewrite <- app_assoc. split; [done|]. split; [simpl; by f_equal|by constructor].
Qed.

(** A random string has the length asked for and only letters and digits. *)
Lemma random_string_spec n w :
  0 <= n -> exists s w', random_string n w = (Ok s, w') /\ Z.of_nat (length s) = n /\ Forall is_alphanumeric s.
Proof.
  intros Hn. destruct (random_loop_spec (Z.to_nat n) [] w) as (t & w' & E & Hl & Ht).
  exists t, w'. split; [exact E|]. split; [lia|done].
Qed.

(** A random number is below its bound, unless that is zero. *)
Lemma random_number_spec n w :
  0 < n <= size_max -> exists r w', random_number n w = (Ok r, w') /\ 0 <= r < n.
Proof.
  intros Hn. unfold random_number. rewrite size_t_id by (unfold is_size_t; lia).
  destruct (uniform_range 0 (n - 1) w) as (r & w' & E & Hr); [lia|]. exists r, w'. split; [done|lia].
Qed.
End random_laws.

(** A generator that answers the midpoint of the range. *)
Definition midpoint {W} : Generator W := fun lo hi w => (Ok (lo + (hi - lo) / 2), w).
Lemma midpoint_laws {W} : GeneratorLaws W (H := midpoint).
Proof.
  intros lo hi w Hlh. eexists _, w. split; [done|]. Z.to_euclidean_division_equations; lia.
Qed.

(** [random_number(0)] is not in the empty range [0..n-1]. *)
Example random_number_of_none : (random_number (H := midpoint (W := unit)) 0 tt).1 = Ok (2 ^ 63 - 1).
Proof. reflexivity. Qed.
