(* ===== verification/Path.v ===== *)
(** * Path: [filesystem/path.hpp]

    [std::filesystem::path] on POSIX, as far as the source uses it (the elements
    a path iterates over, and [operator/]), the normalization of
    [cbeam::filesystem::path], and its operations on the file system, which is
    an interface: every call may fail. *)

From S2P Require Import Prelude Errors Bytes Random.

(** ** [std::filesystem::path] *)

Definition sep : byte := byte_of 47.
Definition backslash_name : bytes := [byte_of 92].
Definition root_name : bytes := [sep].
Definition dotdot : bytes := str "..".

(** The pieces between the separators. *)
Fixpoint pieces (s cur : bytes) : list bytes :=
  match s with
  | [] => [cur]
  | c :: s => if bool_decide (c = sep) then cur :: pieces s [] else pieces s (cur ++ [c])
  end.

Definition has_root (p : bytes) : bool := bool_decide (head p = Some sep).

(** The elements from [begin()] to [end()]: the root directory, the names, and an
    empty element behind a trailing separator. *)
Definition path_elements (p : bytes) : list bytes :=
  let names := filter (fun n => n <> []) (pieces p []) in
  (if has_root p then [root_name] else []) ++ names ++
  (if bool_decide (names <> []) && bool_decide (last p = Some sep) then [[]] else []).

(** [operator/]: an absolute right operand replaces the left one. *)
Definition path_append (a b : bytes) : bytes :=
  if has_root b then b
  else if bool_decide (a <> []) && negb (bool_decide (last a = Some sep)) then a ++ [sep] ++ b
  else a ++ b.

(** [parent_path()]: without the last element and the separators in front of it,
    up to the root directory. *)
Fixpoint drop_name (rev_p : bytes) : bytes :=
  match rev_p with
  | [] => []
  | c :: rest => if bool_decide (c = sep) then rev_p else drop_name rest
  end.
Fixpoint drop_seps (rev_p : bytes) : bytes :=
  match rev_p with
  | c :: rest => if bool_decide (c = sep) then drop_seps rest else rev_p
  | [] => []
  end.
Definition parent_path (p : bytes) : bytes :=
  let d := drop_name (rev p) in
  match drop_seps d with
  | [] => if has_root p then root_name else []
  | d => rev d
  end.

(** [operator==]: element by element. *)
Definition path_equal (a b : bytes) : bool := bool_decide (path_elements a = path_elements b).

(** ** Normalization *)

Definition ends_with_colon (n : bytes) : bool := bool_decide (last n = Some (byte_of 58)).

(** One iteration of [normalize], from the last element to the first. *)
Definition normalize_step (it : bytes) (state : nat * bytes) : nat * bytes :=
  let '(numParent, result) := state in
  if bool_decide (it <> root_name) && bool_decide (it <> backslash_name) && bool_decide (it <> []) then
    if bool_decide (it = dotdot) then (Datatypes.S numParent, result)
    else match numParent with
    | Datatypes.S n => (n, result)
    | O => if ends_with_colon it then (O, path_append (it ++ [sep]) result) else (O, path_append it result)
    end
  else state.

(** [normalize(p)]; an empty path has no [*p.begin()]. *)
Definition normalize (p : bytes) : outcome bytes :=
  let result := (foldr normalize_step (O, []) (path_elements p)).2 in
  match path_elements p with
  | [] => UB
  | e :: _ => Ok (if bool_decide (e = root_name) then path_append e result else result)
  end.

(** [path(const std::filesystem::path&)]: [_base_path]. *)
Definition path_new (p : bytes) : outcome bytes := normalize p.

Definition path_eq (base other : bytes) : bool := path_equal base other.
Definition path_ne (base other : bytes) : bool := negb (path_equal base other).

(** [remove_trailing_directory_separators(p)]. *)
Fixpoint drop_separators (rev_s : bytes) : bytes :=
  match rev_s with
  | c :: s => if bool_decide (c = sep) || bool_decide (c = byte_of 92) then drop_separators s else rev_s
  | [] => []
  end.
Definition remove_trailing_directory_separators (p : bytes) : bytes := rev (drop_separators (rev p)).

(** ** The file system *)

(** The calls of [std::filesystem] that the class makes.  The two calls with an
    [std::error_code] return the message of the error, if there is one; the
    others throw. *)
Class FileSystem (W : Type) := {
  fs_exists : bytes -> M W bool;
  fs_is_directory : bytes -> M W bool;
  fs_list : bytes -> M W (list bytes);
  fs_create_directories : bytes -> M W unit;
  fs_remove_all : bytes -> M W unit;
  fs_copy : bytes -> bytes -> M W unit;
  fs_rename_ec : bytes -> bytes -> W -> option string * W;
  fs_remove_all_ec : bytes -> W -> option string * W;
}.

Section operations.
Context {W : Type} `{FileSystem W, Generator W}.

(** The loop of [get_subdirs]; [matches] is [std::regex_search]. *)
Fixpoint subdirs (matches : bytes -> bool) (entries : list bytes) : M W (list bytes) :=
  match entries with
  | [] => mret []
  | it :: entries =>
      is_directory ← fs_is_directory it;
      rest ← subdirs matches entries;
      mret (if is_directory && matches it then it :: rest else rest)
  end.
Definition get_subdirs (base : bytes) (matches : bytes -> bool) : M W (list bytes) :=
  e ← fs_exists base;
  d ← (if e : bool then fs_is_directory base else mret false);
  if d : bool then entries ← fs_list base; subdirs matches entries else mret [].

Definition text (s : bytes) : string := string_of_list_ascii s.
Definition create_error (base : bytes) (msg : string) : string :=
  text (str "cbeam::filesystem::path::create(" ++ [byte_of 34] ++ base ++ [byte_of 34] ++ str "): " ++ list_ascii_of_string msg).

(** [create_directory(delete_prior_creating)]. *)
Definition create_directory (base : bytes) (delete_prior_creating : bool) : M W unit :=
  r ← try_catch
    (_ ← (if delete_prior_creating then fs_remove_all base else mret tt);
     e ← fs_exists base;
     _ ← (if e : bool then mret tt else fs_create_directories base);
     success ← fs_exists base;
     mret (success, "unknown error"%string))
    std_exception (fun ex => mret (false, exn_text ex));
  if r.1 : bool then mret tt else raise runtime_error (create_error base r.2).

(** The message of an [std::error_code], set or cleared by the last call. *)
Definition error_message (error : option string) : string := default "Success"%string error.

(** [remove()], from its first call of [rename]. *)
Definition move_and_remove (base temp_path : bytes) : M W unit := fun w =>
  let '(error, w) := fs_rename_ec base temp_path w in
  if error is Some _ then raise runtime_error (error_message error) w
  else
    let '(error, w) := fs_remove_all_ec temp_path w in
    if error is Some _ then
      let '(error, w) := fs_rename_ec temp_path base w in
      raise runtime_error (error_message error) w
    else (Ok tt, w).

(** [remove()]. *)
Definition path_remove (base : bytes) : M W unit :=
  random ← random_string 16;
  move_and_remove base (remove_trailing_directory_separators base ++ random).

(** [copy_to(target)]. *)
Definition copy_error (base : bytes) : string :=
  text (str "cbeam::filesystem::path::copy_to: source directory " ++ base ++ str " does not exist or is not a directory").
Definition copy_to (base target : bytes) : M W unit :=
  e ← fs_exists base;
  d ← (if e : bool then fs_is_directory base else mret false);
  _ ← (if d : bool then mret tt else raise runtime_error (copy_error base));
  t ← fs_exists target;
  _ ← (if t : bool then
         match path_new target with
         | Ok p => path_remove p
         | Throw e => fun w => (Throw e, w)
         | UB => undefined
         end
       else mret tt);
  fs_copy base target.
End operations.

(** ** The reference: resolving the names from left to right *)

Definition is_name (it : bytes) : bool :=
  bool_decide (it <> root_name) && bool_decide (it <> backslash_name) && bool_decide (it <> []).

(** A name goes into the directory, [..] out of it (and stays at the top). *)
Fixpoint resolve (dir l : list bytes) : list bytes :=
  match l with
  | [] => dir
  | e :: l =>
      if is_name e then
        if bool_decide (e = dotdot) then resolve (take (length dir - 1) dir) l else resolve (dir ++ [e]) l
      else resolve dir l
  end.

(** Every name with a separator behind it. *)
Definition render (names : list bytes) : bytes := concat (map (fun n => n ++ [sep]) names).

Definition resolved (p : bytes) : list bytes := resolve [] (path_elements p).
Definition root_of (p : bytes) : bytes := if has_root p then root_name else [].

(** ** Laws *)

(** A name: not empty, and without separators. *)
Definition name_ok (n : bytes) : Prop := n <> [] /\ sep ∉ n.

Lemma pieces_no_sep s cur : sep ∉ cur -> Forall (fun n => sep ∉ n) (pieces s cur).
Proof.
  revert cur. induction s as [|c s IH]; intros cur Hc; simpl; [by repeat constructor|].
  case_bool_decide; [constructor; [done|apply IH, not_elem_of_nil]|]. apply IH.
  rewrite elem_of_app, list_elem_of_singleton. intros [?|?]; congruence.
Qed.

Lemma pieces_head s cur : exists x l, pieces s cur = (cur ++ x) :: l.
Proof.
  revert cur. induction s as [|c s IH]; intros cur; simpl; [exists [], []; by rewrite app_nil_r|].
  case_bool_decide; [exists []; eexists; by rewrite app_nil_r|].
  destruct (IH (cur ++ [c])) as (x & l & ->). exists (c :: x), l. by rewrite <- app_assoc.
Qed.

Lemma pieces_name n s cur : sep ∉ n -> pieces (n ++ sep :: s) cur = (cur ++ n) :: pieces s [].
Proof.
  revert cur. induction n as [|c n IH]; intros cur Hn; simpl.
  - by rewrite app_nil_r.
  - apply not_elem_of_cons in Hn as [Hc Hn]. rewrite bool_decide_eq_false_2 by done.
    rewrite IH by done. by rewrite <- app_assoc.
Qed.

Lemma pieces_render names :
  Forall name_ok names -> pieces (render names) [] = names ++ [[]].
Proof.
  induction 1 as [|n names [Hn Hs] _ IH]; [done|]. unfold render. simpl.
  rewrite <- app_assoc. simpl. rewrite pieces_name by done. simpl. f_equal. exact IH.
Qed.

Lemma names_filter names : Forall name_ok names -> filter (fun n => n <> []) names = names.
Proof.
  induction 1 as [|n names [Hn _] _ IH]; [done|]. by rewrite filter_cons_True, IH.
Qed.

Lemma render_last names : names <> [] -> last (render names) = Some sep.
Proof.
  intros Hn. destruct (exists_last Hn) as (l & n & ->). unfold render.
  rewrite map_app, concat_app. simpl. rewrite app_nil_r, app_assoc. apply last_snoc.
Qed.

Lemma render_no_root names : Forall name_ok names -> has_root (render names) = false.
Proof.
  unfold has_root. destruct 1 as [|n names [Hn Hs] _]; [done|]. apply bool_decide_eq_false.
  destruct n as [|c n]; [done|]. simpl. intros [= ->]. by apply Hs, elem_of_cons; left.
Qed.

(** What a normalized path iterates over. *)
Lemma elements_render (root : bool) names :
  Forall name_ok names ->
  path_elements ((if root then root_name else []) ++ render names) =
    (if root then [root_name] else []) ++ names ++ (if bool_decide (names <> []) then [[]] else []).
Proof.
  intros Hn. unfold path_elements.
  assert (filter (fun n => n <> []) (pieces ((if root then root_name else []) ++ render names) []) = names) as ->.
  { transitivity (filter (fun n => n <> []) (names ++ [[]])).
    - destruct root; simpl; by rewrite pieces_render.
    - rewrite filter_app, names_filter by done. by rewrite app_nil_r. }
  assert (has_root ((if root then root_name else []) ++ render names) = root) as ->
    by (destruct root; [done|by apply render_no_root]).
  do 2 f_equal. case_bool_decide as Hne; [|done]. simpl. rewrite bool_decide_eq_true_2; [done|].
  rewrite last_app, render_last by done. by destruct root.
Qed.

(** The elements are the root, names and the empty element. *)
Definition element_ok (e : bytes) : Prop := is_name e = true -> name_ok e.

Lemma elements_ok p : Forall element_ok (path_elements p).
Proof.
  unfold path_elements, element_ok. apply Forall_app_2; [|apply Forall_app_2].
  - destruct (has_root p); repeat constructor; intros E; by vm_compute in E.
  - apply Forall_forall. intros n [Hn Hin]%list_elem_of_filter _. split; [done|].
    pose proof (pieces_no_sep p [] (not_elem_of_nil _)) as Hs. rewrite Forall_forall in Hs. by apply Hs.
  - case_match; repeat constructor; by intros ?.
Qed.

Lemma elements_root p :
  p <> [] -> exists e l, path_elements p = e :: l /\ bool_decide (e = root_name) = has_root p.
Proof.
  intros Hp. unfold path_elements. destruct (has_root p) eqn:Hr; [by eexists _, _|]. simpl.
  destruct p as [|c s]; [done|]. unfold has_root in Hr. apply bool_decide_eq_false in Hr. simpl in Hr.
  simpl. rewrite bool_decide_eq_false_2 by congruence.
  destruct (pieces_head s [c]) as (x & l & E). rewrite E. rewrite filter_cons_True by done.
  eexists _, _. split; [done|]. apply bool_decide_eq_false. intros E2. simpl in E2. unfold root_name in E2.
  simplify_eq.
Qed.

(** The loop from the right: [n] directories to leave, then [names] to enter. *)
Lemma normalize_loop l :
  Forall element_ok l ->
  exists n names, foldr normalize_step (O, []) l = (n, render names) /\ Forall name_ok names /\
    Forall (fun x => is_name x = true /\ x <> dotdot) names /\
    forall dir, resolve dir l = take (length dir - n) dir ++ names.
Proof.
  induction 1 as [|e l He _ (n & names & E & Hok & Hdd & Hr)]; simpl.
  - exists O, []. repeat split; try constructor. intros dir. by rewrite Nat.sub_0_r, take_ge, app_nil_r by lia.
  - rewrite E. unfold normalize_step. fold (is_name e). destruct (is_name e) eqn:Hn; [|by exists n, names].
    specialize (He Hn) as [Hne Hs]. case_bool_decide as Hd.
    + exists (Datatypes.S n), names. split; [done|split; [done|split; [done|]]]. intros dir. rewrite Hr.
      rewrite length_take, take_take. do 2 f_equal. lia.
    + destruct n as [|n].
      * exists O, (e :: names). split; [|split; [by constructor|split; [by constructor|]]].
        -- pose proof (render_no_root names Hok) as Hnr. unfold path_append.
           rewrite Hnr. change (render (e :: names)) with ((e ++ [sep]) ++ render names).
           assert (last e <> Some sep) as Hl.
           { intros Hl. apply last_Some in Hl as [e' ->]. apply Hs. rewrite elem_of_app. right. by left. }
           destruct (ends_with_colon e).
           ++ rewrite last_snoc, (bool_decide_eq_true_2 (Some sep = _)), andb_false_r by done. done.
           ++ rewrite (bool_decide_eq_true_2 (e <> [])), (bool_decide_eq_false_2 (last e = _)) by done.
              simpl. by rewrite <- app_assoc.
        -- intros dir. rewrite Hr, !Nat.sub_0_r, !take_ge by lia. by rewrite <- app_assoc.
      * exists n, names. split; [done|split; [done|split; [done|]]]. intros dir. rewrite Hr. f_equal.
        rewrite length_app. simpl. rewrite take_app_le by lia. f_equal. lia.
Qed.

Lemma normalize_spec p :
  p <> [] ->
  normalize p = Ok (root_of p ++ render (resolved p)) /\
  Forall name_ok (resolved p) /\ Forall (fun x => is_name x = true /\ x <> dotdot) (resolved p).
Proof.
  intros Hp. destruct (normalize_loop _ (elements_ok p)) as (n & names & E & Hok & Hdd & Hr).
  unfold resolved. rewrite (Hr []). simpl. split; [|done].
  unfold normalize. rewrite E. destruct (elements_root p Hp) as (e & l & -> & He). rewrite He.
  unfold root_of. destruct (has_root p) eqn:Hroot; [|done]. f_equal.
  apply bool_decide_eq_true in He as ->. simpl. unfold path_append. by rewrite render_no_root.
Qed.

Lemma resolve_names dir names rest :
  Forall (fun x => is_name x = true /\ x <> dotdot) names -> resolve dir (names ++ rest) = resolve (dir ++ names) rest.
Proof.
  intros H. revert dir. induction H as [|n names [Hn Hd] _ IH]; intros dir; simpl; [by rewrite app_nil_r|].
  rewrite Hn, bool_decide_eq_false_2 by done. rewrite IH. by rewrite <- app_assoc.
Qed.

(** The parts of a normalized path. *)
Lemma resolved_render (root : bool) names :
  Forall name_ok names -> Forall (fun x => is_name x = true /\ x <> dotdot) names ->
  let q := (if root then root_name else []) ++ render names in
  has_root q = root /\ resolved q = names.
Proof.
  intros Hok Hdd. split; [destruct root; [done|by apply render_no_root]|].
  unfold resolved. rewrite elements_render by done.
  assert (resolve [] (names ++ (if bool_decide (names <> []) then [[]] else [])) = names) as Hr.
  { rewrite resolve_names by done. simpl. by case_bool_decide. }
  destruct root; exact Hr.
Qed.

Lemma drop_name_spec f d : sep ∉ f -> drop_name (rev f ++ d) = drop_name d.
Proof.
  intros Hf. assert (sep ∉ rev f) as Hr by (intros Hin; apply Hf; by apply list_elem_of_In, in_rev, list_elem_of_In).
  revert Hr. generalize (rev f). intros l Hl. induction l as [|c l IH]; [done|]. apply not_elem_of_cons in Hl as [Hc Hl].
  simpl. rewrite bool_decide_eq_false_2 by done. by apply IH.
Qed.

(** The parent of a name in a directory is the directory. *)
Lemma parent_path_name d f : d <> [] -> last d <> Some sep -> sep ∉ f -> parent_path (d ++ sep :: f) = d.
Proof.
  intros Hd Hl Hf. unfold parent_path. rewrite rev_app_distr. simpl. rewrite <- app_assoc, drop_name_spec by done. simpl.
  destruct (exists_last Hd) as (d' & c & ->). rewrite last_snoc in Hl. rewrite rev_app_distr. simpl.
  rewrite bool_decide_eq_false_2 by congruence. simpl. by rewrite rev_involutive.
Qed.

(** ** Properties *)

(** C30. Normalization resolves: a path that is not empty becomes its root and the
    names that are left when [..] is resolved from left to right, where a [..]
    with no name before it is dropped (so [../a] becomes [a/], and the two compare
    equal), each with a separator behind it; normalizing the result again changes
    nothing, unless it is empty (as that of [a/..], whose normalization is
    undefined); and two [cbeam::filesystem::path]s made from paths that are not
    empty are equal exactly when roots and resolved names agree. *)
Theorem path_normalize p p' :
  p <> [] -> p' <> [] ->
  path_new p = Ok (root_of p ++ render (resolved p)) /\
  (root_of p ++ render (resolved p) <> [] ->
     path_new (root_of p ++ render (resolved p)) = Ok (root_of p ++ render (resolved p))) /\
  (forall b b', path_new p = Ok b -> path_new p' = Ok b' ->
     path_eq b b' = true <-> has_root p = has_root p' /\ resolved p = resolved p').
Proof.
  intros Hp Hp'. destruct (normalize_spec p Hp) as (E & Hok & Hdd). destruct (normalize_spec p' Hp') as (E' & Hok' & Hdd').
  unfold path_new in *. destruct (resolved_render (has_root p) _ Hok Hdd) as [Hr Hn].
  split; [done|split].
  - intros Hq. destruct (normalize_spec _ Hq) as (-> & _). unfold root_of in *. by rewrite Hr, Hn.
  - rewrite E, E'. intros b b' [= <-] [= <-]. unfold path_eq, path_equal. rewrite bool_decide_eq_true. unfold root_of.
    split; [|by intros [-> ->]]. intros Eq. pose proof Eq as Eq0.
    destruct (resolved_render (has_root p') _ Hok' Hdd') as [_ Hn'].
    rewrite !elements_render in Eq by done.
    assert (has_root p = has_root p') as Hroot.
    { destruct (has_root p), (has_root p'); try done; simpl in Eq.
      - destruct (resolved p') as [|n l]; [done|]. simpl in Eq. injection Eq as <- _.
        apply Forall_cons in Hok' as [[_ Hs] _]. exfalso. apply Hs. by left.
      - destruct (resolved p) as [|n l]; [done|]. simpl in Eq. injection Eq as -> _.
        apply Forall_cons in Hok as [[_ Hs] _]. exfalso. apply Hs. by left. }
    split; [done|]. etransitivity; [symmetry; exact Hn|]. etransitivity; [|exact Hn'].
    exact (f_equal (resolve []) Eq0).
Qed.

Lemma path_normalize_witness :
  path_new (str "/a/../b//c") = Ok (str "/b/c/") /\ path_eq (str "/b/c/") (str "/b/c/") = true.
Proof.
  destruct (path_normalize (str "/a/../b//c") (str "/b/c") ltac:(discriminate) ltac:(discriminate)) as (E & _ & Heq).
  split; [exact E|]. apply (Heq _ _ eq_refl eq_refl). split; vm_compute; reflexivity.
Defined.

(** A [..] that leaves the directory is dropped, and [.] is a name. *)
Example parent_is_dropped : path_new (str "../a") = path_new (str "a").
Proof. reflexivity. Qed.
Example dot_is_kept : path_new (str "./a") = Ok (str "./a/") /\ path_new (str "a") = Ok (str "a/").
Proof. split; reflexivity. Qed.
Example empty_path_undefined : path_new [] = UB.
Proof. reflexivity. Qed.

(** ** Removing *)

(** What POSIX and the standard promise of the two calls: [content] is the
    directory tree at a path, and [apart] says that neither of two paths leads
    through the other, nor to the same file (of two names of one file, POSIX
    [rename] removes neither). *)
Class FileSystemLaws (W T : Type) `{FileSystem W, Generator W} := {
  content : W -> bytes -> option T;
  apart : bytes -> bytes -> Prop;
  apart_sym a b : apart a b -> apart b a;
  uniform_keeps lo hi w q : content (uniform lo hi w).2 q = content w q;
  rename_ok a b w w' :
    a <> b -> apart a b -> fs_rename_ec a b w = (None, w') ->
    content w' b = content w a /\ content w' a = None /\
    forall q, apart q a -> apart q b -> content w' q = content w q;
  rename_error a b w msg w' :
    fs_rename_ec a b w = (Some msg, w') -> forall q, content w' q = content w q;
  remove_all_ok a w w' :
    fs_remove_all_ec a w = (None, w') ->
    content w' a = None /\ forall q, apart q a -> content w' q = content w q;
  remove_all_error a w msg w' :
    fs_remove_all_ec a w = (Some msg, w') -> forall q, apart q a -> content w' q = content w q;
}.

Definition is_separator (c : byte) : bool := bool_decide (c = sep) || bool_decide (c = byte_of 92).

Lemma drop_separators_suffix r : exists t, r = t ++ drop_separators r /\ Forall (fun c => is_separator c = true) t.
Proof.
  induction r as [|c r (t & E & Ht)]; simpl; [by exists []|]. fold (is_separator c).
  destruct (is_separator c) eqn:Hc; [|by exists []]. exists (c :: t). split; [simpl; by rewrite <- E|by constructor].
Qed.

Lemma temp_path_ne base random :
  random <> [] -> Forall (fun c => is_separator c = false) random ->
  base <> remove_trailing_directory_separators base ++ random.
Proof.
  intros Hne Hr E. unfold remove_trailing_directory_separators in E.
  destruct (drop_separators_suffix (rev base)) as (t & Et & Ht).
  assert (base = rev (drop_separators (rev base)) ++ rev t) as Eb
    by (rewrite <- rev_app_distr, <- Et; by rewrite rev_involutive).
  rewrite Eb in E at 1. apply app_inv_head in E. destruct random as [|c random]; [done|].
  apply Forall_cons in Hr as [Hc _]. rewrite Forall_forall in Ht. rewrite Ht in Hc; [done|].
  apply list_elem_of_In, in_rev. rewrite E. by left.
Qed.

Lemma alphanumeric_not_separator c : is_alphanumeric c -> is_separator c = false.
Proof.
  unfold is_alphanumeric. intros Hc.
  assert (Forall (fun c => is_separator c = false) chrs) as Hall by (apply (bool_decide_unpack _); vm_compute; done).
  rewrite Forall_forall in Hall. by apply Hall.
Qed.

Section remove.
Context {W T : Type} `{FileSystemLaws W T} `{!GeneratorLaws W}.

Lemma random_loop_keeps n s w q : content (random_loop n s w).2 q = content w q.
Proof.
  revert s w. induction n as [|n IH]; intros s w; simpl; [done|]. unfold mbind, M_bind, pick, mbind, M_bind.
  pose proof (uniform_keeps 0 (Z.of_nat (length chrs) + 1 - 2) w q) as Hu.
  destruct (uniform _ _ w) as [[i|e|] w1]; simpl in Hu; [|done|done].
  destruct (chrs !! Z.to_nat i); simpl; [rewrite IH|]; exact Hu.
Qed.

(** What [remove] does with the directory once it has a name to move it to. *)
Definition removed (base temp : bytes) (w w' : W) (r : outcome unit) : Prop :=
  (r = Ok tt /\ content w' base = None) \/
  (exists msg, r = throw runtime_error msg /\ forall q, content w' q = content w q) \/
  (r = throw runtime_error "Success" /\ content w' temp = None /\
   exists w1 w2 msg, fs_rename_ec base temp w = (None, w1) /\ fs_remove_all_ec temp w1 = (Some msg, w2) /\
     content w' base = content w2 temp) \/
  (exists msg, r = throw runtime_error msg /\
   exists w1 w2 msg', fs_rename_ec base temp w = (None, w1) /\ fs_remove_all_ec temp w1 = (Some msg', w2) /\
     content w' temp = content w2 temp).

Lemma move_and_remove_spec base temp (w w' : W) r :
  base <> temp -> apart base temp -> move_and_remove base temp w = (r, w') ->
  (forall q, apart q base -> apart q temp -> content w' q = content w q) /\ removed base temp w w' r.
Proof.
  intros Hbt Hap E. unfold move_and_remove, removed in *.
  destruct (fs_rename_ec base temp w) as [[msg|] w1] eqn:E1.
  { unfold raise in E. injection E as <- <-. pose proof (rename_error _ _ _ _ _ E1) as Hs. split; [auto|]. right; left. eauto. }
  destruct (rename_ok _ _ _ _ Hbt Hap E1) as (Ht & Hb & Hf).
  destruct (fs_remove_all_ec temp w1) as [[msg|] w2] eqn:E2.
  - destruct (fs_rename_ec temp base w2) as [[msg'|] w3] eqn:E3; unfold raise in E; injection E as <- <-.
    + pose proof (rename_error _ _ _ _ _ E3) as Hs. split.
      * intros q Hq Hq'. rewrite Hs, (remove_all_error _ _ _ _ E2) by done. auto.
      * do 3 right. eexists. split; [done|]. eexists _, _, _. split; [done|split; [exact E2|apply Hs]].
    + destruct (rename_ok _ _ _ _ (not_eq_sym Hbt) (apart_sym _ _ Hap) E3) as (Ht3 & Hb3 & Hf3). split.
      * intros q Hq Hq'. rewrite Hf3, (remove_all_error _ _ _ _ E2) by done. auto.
      * right; right; left. split; [done|split; [done|]]. eexists _, _, _. split; [done|split; [exact E2|done]].
  - injection E as <- <-. destruct (remove_all_ok _ _ _ E2) as [_ Hf2]. split.
    + intros q Hq Hq'. rewrite Hf2 by done. auto.
    + left. split; [done|]. by rewrite Hf2.
Qed.

End remove.

(** A file system with literal paths, where removal may be forbidden. *)
Record simple_fs : Type := SimpleFs { tree : gmap bytes Z; busy : bool }.

#[export] Instance simple_fs_calls : FileSystem simple_fs := {|
  fs_exists p := fun w => (Ok (bool_decide (is_Some (tree w !! p))), w);
  fs_is_directory p := fun w => (Ok (bool_decide (is_Some (tree w !! p))), w);
  fs_list p := fun w => (Ok [], w);
  fs_create_directories p := fun w => (Ok tt, SimpleFs (<[p := 0]> (tree w)) (busy w));
  fs_remove_all p := fun w => (Ok tt, SimpleFs (delete p (tree w)) (busy w));
  fs_copy p q := fun w => (Ok tt, SimpleFs (match tree w !! p with Some x => <[q := x]> (tree w) | None => tree w end) (busy w));
  fs_rename_ec p q w :=
    match tree w !! p with
    | Some x => (None, SimpleFs (<[q := x]> (delete p (tree w))) (busy w))
    | None => (Some "No such file or directory"%string, w)
    end;
  fs_remove_all_ec p w :=
    if busy w then (Some "Device or resource busy"%string, w)
    else (None, SimpleFs (delete p (tree w)) (busy w));
|}.

#[export] Instance simple_fs_random : Generator simple_fs := midpoint.
#[export] Instance simple_fs_random_laws : GeneratorLaws simple_fs := midpoint_laws.

#[export, refine] Instance simple_fs_laws : FileSystemLaws simple_fs Z := {|
  content w p := tree w !! p;
  apart p q := p <> q;
|}.
Proof.
  - intros a b Hab. by apply not_eq_sym.
  - done.
  - intros a b w w' Hab _. simpl. destruct (tree w !! a) as [x|] eqn:E; intros [= <-]. simpl.
    split; [by rewrite lookup_insert_eq|]. split; [by rewrite lookup_insert_ne, lookup_delete_eq|].
    intros q Ha Hb. by rewrite lookup_insert_ne, lookup_delete_ne.
  - intros a b w msg w'. simpl. destruct (tree w !! a); by intros [= _ <-].
  - intros a w w'. simpl. destruct (busy w); intros [= <-]. simpl. rewrite lookup_delete_eq. split; [done|].
    intros q Hq. by rewrite lookup_delete_ne.
  - intros a w msg w'. simpl. destruct (busy w); by intros [= _ <-].
Defined.

Definition two_dirs (busy : bool) : simple_fs := SimpleFs (<[str "a/" := 1]> (<[str "b/" := 2]> ∅)) busy.


(** The message of a failed removal is that of moving the directory back. *)
Example remove_reports_success :
  (path_remove (str "a/") (two_dirs true)).1 = throw runtime_error "Success".
Proof. vm_compute. reflexivity. Qed.
