(* ===== verification/Wide.v ===== *)
(** * Wide: [std::wstring] in [convert/string.hpp]

    Conversions between UTF-8 [std::string]s and UTF-16 [std::wstring]s.  The
    standard's [std::wstring_convert<std::codecvt_utf8_utf16<wchar_t>>] is
    modelled by decoding the one encoding form and encoding in the other: the
    whole text is converted, or it is ill-formed and [std::range_error] thrown.  A
    [wchar_t] is an integer (32 bits on the platforms with a signed one). *)

From S2P Require Import Prelude Errors Bytes StdMap Xpod NestedMap Convert Utf8.

(** The UTF-16 encoding of a code point. *)
Definition utf16_encode (u : Z) : list Z :=
  if bool_decide (u < 0x10000) then [u]
  else [0xD800 + (u - 0x10000) / 1024; 0xDC00 + (u - 0x10000) mod 1024].

Definition utf8_text (us : list Z) : bytes := concat (map utf8_encode us).
Definition utf16_text (us : list Z) : list Z := concat (map utf16_encode us).

Definition is_unit16 (w : Z) : Prop := 0 <= w <= 0xFFFF.

#[export] Instance is_scalar_dec u : Decision (is_scalar u).
Proof. unfold is_scalar. apply _. Defined.
#[export] Instance is_unit16_dec w : Decision (is_unit16 w).
Proof. unfold is_unit16. apply _. Defined.

(** ** [std::wstring_convert] *)

Definition tail (c : byte) : Z := byte_val c - 0x80.

Fixpoint decode8 (s : bytes) : option (list Z) :=
  match s with
  | [] => Some []
  | c :: s1 =>
      if in_range 0 0x7F c then cons (byte_val c) <$> decode8 s1
      else match s1 with
      | [] => None
      | c1 :: s2 =>
          if negb (is_continuation c1) then None
          else if in_range 0xC2 0xDF c then cons ((byte_val c - 0xC0) * 64 + tail c1) <$> decode8 s2
          else match s2 with
          | [] => None
          | c2 :: s3 =>
              if negb (is_continuation c2) then None
              else if in_range 0xE0 0xEF c then
                let u := (byte_val c - 0xE0) * 4096 + tail c1 * 64 + tail c2 in
                if bool_decide (0x800 <= u /\ is_scalar u) then cons u <$> decode8 s3 else None
              else match s3 with
              | [] => None
              | c3 :: s4 =>
                  let u := (byte_val c - 0xF0) * 262144 + tail c1 * 4096 + tail c2 * 64 + tail c3 in
                  if is_continuation c3 && in_range 0xF0 0xF4 c && bool_decide (0x10000 <= u /\ is_scalar u)
                  then cons u <$> decode8 s4 else None
              end
          end
      end
  end.

Fixpoint decode16 (s : list Z) : option (list Z) :=
  match s with
  | [] => Some []
  | w :: s1 =>
      if bool_decide (0xD800 <= w < 0xDC00) then
        match s1 with
        | w1 :: s2 =>
            if bool_decide (0xDC00 <= w1 < 0xE000)
            then cons (0x10000 + (w - 0xD800) * 1024 + (w1 - 0xDC00)) <$> decode16 s2 else None
        | [] => None
        end
      else if bool_decide (is_unit16 w /\ is_scalar w) then cons w <$> decode16 s1 else None
  end.

(** [from_bytes] and [to_bytes]; [None] is [std::range_error]. *)
Definition from_bytes (s : bytes) : option (list Z) := utf16_text <$> decode8 s.
Definition to_bytes (ws : list Z) : option bytes := utf8_text <$> decode16 ws.

(** ** The conversions *)

(** [from_string<std::wstring>(str)]. *)
Definition from_string_wide (s : bytes) : list Z :=
  match from_bytes s with
  | Some ws => ws
  | None => map byte_val s
  end.

(** The loop of the fallback of [to_string(const std::wstring&)]. *)
Fixpoint wide_bytes (s : list Z) : bytes :=
  match s with
  | [] => []
  | c :: s =>
      (if bool_decide (Z.shiftr c 8 <> 0) then [byte_of (Z.shiftr c 8)] else []) ++
      (if bool_decide (Z.land c 0xff <> 0) then [byte_of (Z.land c 0xff)] else []) ++ wide_bytes s
  end.

(** [to_string(const std::wstring&)]. *)
Definition to_string_wide (s : list Z) : bytes :=
  match to_bytes s with
  | Some bs => bs
  | None => wide_bytes s
  end.

(** ** Decoding inverts encoding *)

Lemma cont_of z : is_continuation (byte_of (0x80 + z mod 64)) = true.
Proof. rewrite is_continuation_range, byte_val_of. apply bool_decide_eq_true. Z.to_euclidean_division_equations; lia. Qed.

Lemma tail_of z : tail (byte_of (0x80 + z mod 64)) = z mod 64.
Proof. unfold tail. rewrite byte_val_of. Z.to_euclidean_division_equations; lia. Qed.

Lemma in_range_byte lo hi z : 0 <= z < 256 -> in_range lo hi (byte_of z) = bool_decide (lo <= z <= hi).
Proof. intros. unfold in_range. by rewrite byte_val_of_small. Qed.

(** Evaluate the tests on a lead byte of known range, and on continuation bytes. *)
Ltac lead_tests L :=
  rewrite !(in_range_byte _ _ L) by lia;
  repeat (first [rewrite (bool_decide_eq_true_2 (_ <= L <= _)) by lia | rewrite (bool_decide_eq_false_2 (_ <= L <= _)) by lia]);
  rewrite ?cont_of, ?tail_of, ?(byte_val_of_small L) by lia; simpl negb; cbv iota.

(** The value assembled from the bytes of a code point is the code point. *)
Ltac assembled := Z.to_euclidean_division_equations; lia.

Lemma decode8_encode u s : is_scalar u -> decode8 (utf8_encode u ++ s) = cons u <$> decode8 s.
Proof.
  unfold utf8_encode. intros Hs. pose proof Hs as Hu. unfold is_scalar in Hu. repeat case_bool_decide.
  - cbn [app decode8]. lead_tests u. done.
  - cbn [app decode8]. set (L := 0xC0 + u / 64). assert (0xC2 <= L <= 0xDF) by (subst L; assembled).
    lead_tests L. do 3 f_equal. subst L. assembled.
  - cbn [app decode8]. set (L := 0xE0 + u / 4096). assert (0xE0 <= L <= 0xEF) by (subst L; assembled).
    lead_tests L. replace ((L - 0xE0) * 4096 + _ + _) with u by (subst L; assembled).
    by rewrite bool_decide_eq_true_2 by (split; [lia|done]).
  - cbn [app decode8]. set (L := 0xF0 + u / 262144). assert (0xF0 <= L <= 0xF4) by (subst L; assembled).
    lead_tests L. replace ((L - 0xF0) * 262144 + _ + _ + _) with u by (subst L; assembled).
    by rewrite bool_decide_eq_true_2 by (split; [lia|done]).
Qed.

Lemma decode8_text us : Forall is_scalar us -> decode8 (utf8_text us) = Some us.
Proof.
  induction 1 as [|u us Hu _ IH]; [done|].
  change (utf8_text (u :: us)) with (utf8_encode u ++ utf8_text us). by rewrite decode8_encode, IH.
Qed.

Lemma decode16_text us : Forall is_scalar us -> decode16 (utf16_text us) = Some us.
Proof.
  induction 1 as [|u us Hu _ IH]; [done|].
  change (utf16_text (u :: us)) with (utf16_encode u ++ utf16_text us). pose proof Hu as Hs. unfold is_scalar in Hs.
  unfold utf16_encode. case_bool_decide; cbn [app decode16].
  - rewrite bool_decide_eq_false_2 by lia. rewrite bool_decide_eq_true_2 by (split; [unfold is_unit16; lia|done]).
    by rewrite IH.
  - rewrite !bool_decide_eq_true_2 by assembled. rewrite IH. simpl. do 2 f_equal. assembled.
Qed.

Lemma tail_range c : is_continuation c = true -> 0 <= tail c < 64.
Proof. rewrite is_continuation_range, bool_decide_eq_true. unfold tail. lia. Qed.

Lemma decode8_scalar s us : decode8 s = Some us -> Forall is_scalar us.
Proof.
  revert us. induction s as [s IH] using (induction_ltof1 _ (@length byte)); unfold ltof in IH.
  assert (Hcons : forall u (d : option (list Z)), (forall us, d = Some us -> Forall is_scalar us) -> is_scalar u ->
            forall us, cons u <$> d = Some us -> Forall is_scalar us).
  { intros u d Hd Hu us (us' & He & ->)%fmap_Some. constructor; [done|]. by apply Hd. }
  assert (Hnil : forall us, Some [] = Some us -> Forall is_scalar us) by (intros us [= <-]; constructor).
  destruct s as [|c s]; intros us Hd; cbn [decode8] in Hd; cbv zeta in Hd; repeat case_match; try done;
    try (by apply Hnil);
    rewrite ?negb_false_iff, ?andb_true_iff, ?bool_decide_eq_true in *; destruct_and?;
    (eapply Hcons; [| |exact Hd]; [intros us' Hd'; eapply IH; [|exact Hd']; simpl; lia|]); try done;
    range_tests; repeat match goal with
    | Hc : is_continuation _ = true |- _ => apply tail_range in Hc
    end; unfold is_scalar; lia.
Qed.

(** A byte from its value, computed back. *)
Lemma byte_of_eq c z : z = byte_val c -> byte_of z = c.
Proof. intros ->. apply byte_of_val. Qed.

(** The other way round: what decodes is the encoding of what it decodes to. *)
Lemma decode8_inv s us : decode8 s = Some us -> utf8_text us = s.
Proof.
  revert us. induction s as [s IH] using (induction_ltof1 _ (@length byte)); unfold ltof in IH.
  assert (Hcons : forall u s' us, cons u <$> decode8 s' = Some us ->
            forall l, s = l ++ s' -> l <> [] -> utf8_encode u = l -> utf8_text us = s).
  { intros u s' us (us' & Hd & ->)%fmap_Some l -> Hl Hu. change (utf8_text (u :: us')) with (utf8_encode u ++ utf8_text us').
    rewrite Hu. f_equal. apply IH; [|done]. rewrite length_app. destruct l; [done|simpl; lia]. }
  destruct s as [|c s]; intros us Hd; cbn [decode8] in Hd; cbv zeta in Hd; [by simplify_eq|].
  repeat case_match; try done; rewrite ?negb_false_iff, ?andb_true_iff, ?bool_decide_eq_true in *; destruct_and?;
    (eapply (Hcons _ _ _ Hd);
     [first [refine (eq_refl : _ = [_] ++ _)|refine (eq_refl : _ = [_; _] ++ _)|refine (eq_refl : _ = [_; _; _] ++ _)
            |refine (eq_refl : _ = [_; _; _; _] ++ _)]|done|]);
    range_tests; repeat match goal with Hc : is_continuation _ = true |- _ => apply tail_range in Hc end; unfold tail in *;
    pose proof (byte_val_range c); unfold utf8_encode, is_scalar in *; repeat case_bool_decide; try lia;
    repeat (apply (f_equal2 cons)); try done; apply byte_of_eq; assembled.
Qed.

Lemma utf16_encode_units u : is_scalar u -> Forall is_unit16 (utf16_encode u).
Proof.
  unfold utf16_encode, is_scalar, is_unit16. intros. case_bool_decide; repeat constructor; assembled.
Qed.

Lemma from_bytes_units s ws : from_bytes s = Some ws -> Forall is_unit16 ws.
Proof.
  intros (us & Hus%decode8_scalar & ->)%fmap_Some.
  induction Hus as [|u us Hu _ IH]; [constructor|]. apply Forall_app. split; [by apply utf16_encode_units|done].
Qed.

(** ** The fallbacks *)

Lemma wide_bytes_app s s' : wide_bytes (s ++ s') = wide_bytes s ++ wide_bytes s'.
Proof. induction s as [|c s IH]; simpl; [done|]. by rewrite IH, !app_assoc. Qed.

Lemma wide_bytes_of_bytes s : wide_bytes (map byte_val s) = filter (fun c => byte_val c <> 0) s.
Proof.
  induction s as [|c s IH]; [done|]. simpl. pose proof (byte_val_range c).
  rewrite (Z.shiftr_div_pow2 _ 8), (Z.land_ones _ 8) by lia. change (2 ^ 8) with 256.
  rewrite (Z.div_small _ 256), (Z.mod_small _ 256) by lia. rewrite bool_decide_eq_false_2 by lia.
  rewrite filter_cons, IH. case_bool_decide; case_decide; try done. cbn [app]. f_equal.
  apply byte_val_inj. by rewrite byte_val_of_small.
Qed.

Lemma wide_bytes_length s : (length (wide_bytes s) <= 2 * length s)%nat.
Proof. induction s as [|c s IH]; simpl; [lia|]. rewrite !length_app. repeat case_bool_decide; simpl; lia. Qed.

Lemma wide_bytes_no_nul s : Forall is_unit16 s -> Forall (fun c => byte_val c <> 0) (wide_bytes s).
Proof.
  induction 1 as [|c s Hc _ IH]; [constructor|]. simpl. unfold is_unit16 in Hc.
  rewrite (Z.shiftr_div_pow2 _ 8), (Z.land_ones _ 8) by lia. change (2 ^ 8) with 256.
  repeat case_bool_decide; simpl; repeat constructor; try done; rewrite byte_val_of; assembled.
Qed.

(** ** Properties *)

(** Bytes, as code points, are their own UTF-16. *)
Lemma latin1_units s : utf16_text (map byte_val s) = map byte_val s.
Proof.
  induction s as [|c s IH]; [done|]. pose proof (byte_val_range c).
  change (utf16_text (map byte_val (c :: s))) with (utf16_encode (byte_val c) ++ utf16_text (map byte_val s)).
  rewrite IH. unfold utf16_encode. by rewrite bool_decide_eq_true_2 by lia.
Qed.

Lemma latin1_scalar s : Forall is_scalar (map byte_val s).
Proof. induction s as [|c s IH]; constructor; [|done]. pose proof (byte_val_range c). unfold is_scalar. lia. Qed.

(** C32. [from_string<std::wstring>] of a text's UTF-8 encoding is its UTF-16
    encoding, and [to_string(const std::wstring&)] of that is the UTF-8 encoding.
    On byte strings: what is well-formed UTF-8 comes back unchanged; anything else
    comes back as the UTF-8 encoding of its bytes read as code points. *)
Theorem wide_text_roundtrip us s :
  Forall is_scalar us ->
  from_string_wide (utf8_text us) = utf16_text us /\
  to_string_wide (utf16_text us) = utf8_text us /\
  to_string_wide (from_string_wide s) =
    match decode8 s with Some _ => s | None => utf8_text (map byte_val s) end.
Proof.
  intros Hus. unfold from_string_wide, to_string_wide, from_bytes, to_bytes.
  rewrite decode8_text, decode16_text by done. split; [done|]. split; [done|].
  destruct (decode8 s) as [vs|] eqn:Hs; simpl.
  - rewrite decode16_text by by eapply decode8_scalar. by apply decode8_inv.
  - by rewrite <- (latin1_units s), decode16_text, latin1_units by apply latin1_scalar.
Qed.

(** U+0041, U+00E4, U+20AC and U+1F600: one to four bytes, one or two units; and
    a byte that is not UTF-8. *)
Lemma wide_text_roundtrip_witness :
  to_string_wide (utf16_text [0x41; 0xE4; 0x20AC; 0x1F600]) = utf8_text [0x41; 0xE4; 0x20AC; 0x1F600] /\
  to_string_wide (from_string_wide [byte_of 0xFF]) = [byte_of 0xC3; byte_of 0xBF].
Proof.
  assert (Hus : Forall is_scalar [0x41; 0xE4; 0x20AC; 0x1F600]) by (apply (bool_decide_unpack _); vm_compute; done).
  destruct (wide_text_roundtrip _ [byte_of 0xFF] Hus) as (_ & Ht & Hf). split; [exact Ht|].
  rewrite Hf. vm_compute. reflexivity.
Defined.

(** C33. Bounds of the wide conversions, ill-formed input included.  Every unit
    [from_string<std::wstring>] returns is a 16-bit one.  Its fallback yields
    one unit below 256 for each byte, and the fallback of [to_string], applied
    to those units, gives the bytes back except for NUL bytes, which it drops.
    (The other way round nothing of the kind holds: [wide_fallback_lossy].)  For
    units of 16 bits, which are all that [from_string] makes though [wchar_t] may
    have 32, the fallback of [to_string] appends at most two bytes for each unit
    and never a NUL byte. *)
Theorem wide_units_bounded s ws :
  Forall is_unit16 (from_string_wide s) /\
  (from_bytes s = None ->
    length (from_string_wide s) = length s /\ Forall (fun w => 0 <= w < 256) (from_string_wide s) /\
    wide_bytes (from_string_wide s) = filter (fun c => byte_val c <> 0) s) /\
  (Forall is_unit16 ws -> to_bytes ws = None ->
    (length (to_string_wide ws) <= 2 * length ws)%nat /\ Forall (fun c => byte_val c <> 0) (to_string_wide ws)).
Proof.
  assert (Hmap : Forall (fun w => 0 <= w < 256) (map byte_val s)).
  { induction s; constructor; [apply byte_val_range|done]. }
  unfold from_string_wide, to_string_wide. split_and!.
  - destruct (from_bytes s) as [us|] eqn:Hs; [by eapply from_bytes_units|].
    eapply Forall_impl; [exact Hmap|]. unfold is_unit16. lia.
  - intros ->. by rewrite length_map, wide_bytes_of_bytes.
  - intros Hws ->. auto using wide_bytes_length, wide_bytes_no_nul.
Qed.

Lemma wide_units_bounded_witness :
  wide_bytes (from_string_wide [byte_of 0xFF; byte_of 0x61; byte_of 0]) = [byte_of 0xFF; byte_of 0x61] /\
  to_string_wide [0xD800; 0x100; 0x41] = [byte_of 0xD8; byte_of 1; byte_of 0x41].
Proof.
  destruct (wide_units_bounded [byte_of 0xFF; byte_of 0x61; byte_of 0] [0xD800; 0x100; 0x41]) as (_ & Hs & _).
  destruct (Hs eq_refl) as (_ & _ & ->). split; vm_compute; reflexivity.
Defined.

(** The fallback of [to_string] is not injective: the units U+0100 and
    U+0001, each after an unpaired surrogate, have the same bytes. *)
Example wide_fallback_lossy :
  to_string_wide [0xD800; 0x0100] = to_string_wide [0xD800; 0x0001].
Proof. reflexivity. Qed.
