(* ===== verification/SharedMemory.v ===== *)
(** * SharedMemory: [concurrency/named_recursive_mutex.hpp] and
    [memory/interprocess_shared_memory.hpp]

    The two classes as sequences of POSIX calls.  The calls are an interface:
    its state [W] is the calling process's view of the kernel, a call may fail
    wherever POSIX lets it, and the laws say what happens to the descriptors,
    mappings and mutexes of the process.  A call that blocks is modelled by the
    state in which it returns.  [UB] also stands for [std::terminate] and for a
    failed [assert]. *)

From S2P Require Import Prelude Errors Bytes Heap.

(** ** POSIX *)

(** The flags of [shm_open]: [O_CREAT | O_EXCL], none, [O_CREAT]. *)
Inductive open_mode := create_new | open_existing | create_or_open.
Inductive open_result := Opened (fd : Z) | Exists | Failed.

(** Calls that return a status answer whether they succeeded; [mmap] answers
    [None] for [MAP_FAILED], and [mutexattr_init] for an attribute object that
    could not be initialized. *)
Class Posix (W : Type) := {
  strerror : W -> string;
  shm_open : bytes -> open_mode -> M W open_result;
  shm_unlink : bytes -> M W bool;
  ftruncate : Z -> Z -> M W bool;
  mmap : Z -> Z -> M W (option addr);
  munmap : addr -> Z -> M W bool;
  close : Z -> M W bool;
  mutexattr_init : M W (option Z);
  mutexattr_setpshared : Z -> M W bool;
  mutexattr_settype : Z -> M W bool;
  mutexattr_destroy : Z -> M W bool;
  mutex_init : addr -> Z -> M W bool;
  mutex_destroy : addr -> M W bool;
  mutex_lock : addr -> M W bool;
  mutex_unlock : addr -> M W bool;
}.

(** [sizeof(pthread_mutex_t)] and [NAME_MAX] of Linux. *)
Definition mutex_size : Z := 40.
Definition NAME_MAX : Z := 255.

Section posix.
Context {W : Type} `{Posix W}.

Definition raise_system_error {A} (message : string) : M W A := fun w =>
  raise system_error (decl_text (system_error_class (strerror w)) message) w.

Definition named (what : string) (name : bytes) : string := (what ++ string_of_list_ascii name)%string.

(** ** [named_recursive_mutex] *)

Definition get_max_shm_name_length : Z := NAME_MAX.

Definition too_long (name : bytes) : string :=
  named "cbeam::concurrency::named_recursive_mutex: '" (name ++ str "' exceeds maximum lengths for shm names of 255").

(** The constructor's second half: map the object, initialize the mutex in it.
    The results of the calls on the attribute object are ignored; POSIX leaves
    undefined what they do with one that is not initialized. *)
Definition map_mutex (name : bytes) (fd : Z) : M W addr :=
  a ← mmap fd mutex_size;
  match a with
  | None => _ ← close fd; raise_system_error (named "cbeam::concurrency::named_recursive_mutex: Failed to map shared memory: " name)
  | Some addr =>
      _ ← close fd;
      attr ← mutexattr_init;
      match attr with
      | None => undefined
      | Some attr =>
          _ ← mutexattr_setpshared attr;
          _ ← mutexattr_settype attr;
          ok ← mutex_init addr attr;
          if (ok : bool) then _ ← mutexattr_destroy attr; mret addr
          else _ ← munmap addr mutex_size; raise_system_error (named "cbeam::concurrency::named_recursive_mutex: Failed to initialize mutex: " name)
      end
  end.

(** Its first half, for an object that is opened: a new one gets its size. *)
Definition size_mutex (name : bytes) (fd : Z) (is_new : bool) : M W addr :=
  if is_new then
    ok ← ftruncate fd mutex_size;
    if (ok : bool) then map_mutex name fd
    else _ ← close fd; raise_system_error (named "cbeam::concurrency::named_recursive_mutex: Failed to truncate shared memory: " name)
  else map_mutex name fd.

(** The constructor yields [_mutex]. *)
Definition named_recursive_mutex_new (name : bytes) : M W addr :=
  if bool_decide (get_max_shm_name_length < Z.of_nat (length name)) then raise_system_error (too_long name)
  else
    r ← shm_open name create_new;
    match r with
    | Opened fd => size_mutex name fd true
    | Exists =>
        r ← shm_open name open_existing;
        match r with
        | Opened fd => size_mutex name fd false
        | _ => raise_system_error (named "cbeam::concurrency::named_recursive_mutex: Failed to open existing shared memory: " name)
        end
    | Failed => raise_system_error (named "cbeam::concurrency::named_recursive_mutex: Failed to open shared memory: " name)
    end.

Definition named_recursive_mutex_delete (_mutex : addr) : M W unit :=
  _ ← mutex_destroy _mutex; _ ← munmap _mutex mutex_size; mret tt.

Definition named_recursive_mutex_lock (_mutex : addr) : M W unit :=
  ok ← mutex_lock _mutex;
  if (ok : bool) then mret tt else raise_system_error "cbeam::concurrency::named_recursive_mutex::lock()".

Definition named_recursive_mutex_unlock (_mutex : addr) : M W unit :=
  ok ← mutex_unlock _mutex;
  if (ok : bool) then mret tt else raise_system_error "cbeam::concurrency::named_recursive_mutex::unlock()".

(** ** [interprocess_shared_memory] *)

Record interprocess_shared_memory := SharedMemory {
  _shared_memory_name : bytes;
  _mutex : addr;
  _region : addr;
  _region_size : Z;
}.

(** The body run under a lock guard, whose destructor does not throw. *)
Definition unlock_after {A} (m : addr) (body : M W A) : M W A := on_exit (named_recursive_mutex_unlock m) body.
Definition guarded {A} (m : addr) (body : M W A) : M W A :=
  _ ← named_recursive_mutex_lock m; unlock_after m body.

(** A throw out of the constructor's body destroys the member. *)
Definition destroy_on_throw {A} (m : addr) (body : M W A) : M W A := on_throw (named_recursive_mutex_delete m) body.

Definition map_segment (name unique_identifier : bytes) (size : Z) : M W addr :=
  r ← shm_open name create_or_open;
  match r with
  | Opened shared_memory =>
      ok ← ftruncate shared_memory size;
      if negb ok then
        _ ← close shared_memory;
        raise runtime_error (named "cbeam::memory::interprocess_shared_memory: Failed to set size of shared memory: " unique_identifier)
      else
        a ← mmap shared_memory size;
        match a with
        | None =>
            _ ← close shared_memory;
            raise runtime_error (named "cbeam::memory::interprocess_shared_memory: Failed to map shared memory: " unique_identifier)
        | Some addr => _ ← close shared_memory; mret addr
        end
  | _ => raise runtime_error (named "cbeam::memory::interprocess_shared_memory: Failed to create/open shared memory: " unique_identifier)
  end.

Definition interprocess_shared_memory_new (unique_identifier : bytes) (size : Z) : M W interprocess_shared_memory :=
  let name := str "/s_" ++ unique_identifier in
  m ← named_recursive_mutex_new (str "m_" ++ unique_identifier);
  destroy_on_throw m
    (guarded m
      (addr ← map_segment name unique_identifier size;
       mret (SharedMemory name m addr size))).

(** The destructor, then that of the member [_mutex]. *)
Definition interprocess_shared_memory_delete (s : interprocess_shared_memory) : M W unit :=
  _ ← try_catch
    (guarded (_mutex s)
      (_ ← munmap (_region s) (_region_size s);
       _ ← shm_unlink (_shared_memory_name s);
       mret tt))
    std_system_error (fun _ => undefined);
  named_recursive_mutex_delete (_mutex s).

Definition segment_data (s : interprocess_shared_memory) : addr := _region s.
Definition segment_capacity (s : interprocess_shared_memory) : Z := _region_size s.

(** [get_lock_guard()] held around what the caller does. *)
Definition with_lock_guard {A} (s : interprocess_shared_memory) (body : M W A) : M W A := guarded (_mutex s) body.
End posix.

(** ** Laws

    What the process holds: descriptors, mappings with their sizes, attribute
    objects, and for each mapping with a mutex initialized through it how often
    the calling thread has locked it there. *)

Record view := View { fds : gset Z; maps : gmap addr Z; attrs : nat; held : gmap addr Z }.

Definition set_fds (f : gset Z -> gset Z) (v : view) : view := View (f (fds v)) (maps v) (attrs v) (held v).
Definition set_maps (f : gmap addr Z -> gmap addr Z) (v : view) : view := View (fds v) (f (maps v)) (attrs v) (held v).
Definition set_attrs (f : nat -> nat) (v : view) : view := View (fds v) (maps v) (f (attrs v)) (held v).
Definition set_held (f : gmap addr Z -> gmap addr Z) (v : view) : view := View (fds v) (maps v) (attrs v) (f (held v)).

(** [fresh fd]: the object was just created; [sized fd]: and it has room for a
    mutex; [raw a]: no mutex has been initialized in the memory at [a] since it
    was created; nothing says that it stays so, as another process may open the
    object at any time.  [close] takes effect whatever it returns.  The law of
    [mutex_lock] is for a mutex that the thread does not hold: whether it may
    lock it again depends on the type, whose setting the constructor does not
    check. *)
Class PosixLaws (W : Type) `{Posix W} := {
  view_of : W -> view;
  fresh : Z -> W -> Prop;
  sized : Z -> W -> Prop;
  raw : addr -> W -> Prop;
  held_mapped w a : is_Some (held (view_of w) !! a) -> is_Some (maps (view_of w) !! a);
  shm_open_law name mode w : returns (shm_open name mode) (fun r w' =>
    match r with
    | Opened fd => (fd ∉ fds (view_of w)) /\ view_of w' = set_fds (fun s => {[fd]} ∪ s) (view_of w) /\
                   (mode = create_new -> fresh fd w')
    | _ => view_of w' = view_of w
    end) w;
  shm_unlink_law name w : returns (shm_unlink name) (fun _ w' => view_of w' = view_of w) w;
  ftruncate_law fd n w : fd ∈ fds (view_of w) ->
    returns (ftruncate fd n) (fun ok w' =>
      view_of w' = view_of w /\ (ok = true -> n = mutex_size -> fresh fd w -> sized fd w')) w;
  mmap_law fd n w : fd ∈ fds (view_of w) ->
    returns (mmap fd n) (fun r w' =>
      match r with
      | Some a => maps (view_of w) !! a = None /\ view_of w' = set_maps <[a := n]> (view_of w) /\ (sized fd w -> raw a w')
      | None => view_of w' = view_of w
      end) w;
  munmap_law a n w : maps (view_of w) !! a = Some n -> held (view_of w) !! a = None ->
    returns (munmap a n) (fun _ w' => view_of w' = set_maps (delete a) (view_of w)) w;
  close_law fd w : fd ∈ fds (view_of w) ->
    returns (close fd) (fun _ w' => view_of w' = set_fds (.∖ {[fd]}) (view_of w)) w;
  mutexattr_init_law w :
    returns mutexattr_init (fun r w' =>
      view_of w' = if r is Some _ then set_attrs Datatypes.S (view_of w) else view_of w) w;
  mutexattr_setpshared_law attr w : attrs (view_of w) <> O ->
    returns (mutexattr_setpshared attr) (fun _ w' => view_of w' = view_of w) w;
  mutexattr_settype_law attr w : attrs (view_of w) <> O ->
    returns (mutexattr_settype attr) (fun _ w' => view_of w' = view_of w) w;
  mutexattr_destroy_law attr w : attrs (view_of w) <> O ->
    returns (mutexattr_destroy attr) (fun _ w' => view_of w' = set_attrs Nat.pred (view_of w)) w;
  mutex_init_law a attr w : is_Some (maps (view_of w) !! a) -> attrs (view_of w) <> O ->
    (mutex_init a attr w).1 = UB /\ ~ raw a w \/
    returns (mutex_init a attr) (fun ok w' => view_of w' = if (ok : bool) then set_held <[a := 0]> (view_of w) else view_of w) w;
  mutex_destroy_law a w : held (view_of w) !! a = Some 0 ->
    returns (mutex_destroy a) (fun _ w' => view_of w' = set_held (delete a) (view_of w)) w;
  mutex_lock_law a w : held (view_of w) !! a = Some 0 ->
    returns (mutex_lock a) (fun ok w' => view_of w' = if (ok : bool) then set_held <[a := 1]> (view_of w) else view_of w) w;
  mutex_unlock_law a n w : held (view_of w) !! a = Some n -> 0 < n ->
    returns (mutex_unlock a) (fun ok w' => ok = true /\ view_of w' = set_held <[a := n - 1]> (view_of w)) w;
}.

Section resources.
Context {W : Type} `{PosixLaws W}.
Implicit Types (w : W) (v : view).

(** Descriptors, mappings and mutexes as before; at most one attribute object
    more. *)
Definition kept v v' : Prop := v' = v \/ v' = set_attrs Datatypes.S v.

Definition mutex_opened v (a : addr) v' : Prop :=
  maps v !! a = None /\ v' = set_held <[a := 0]> (set_maps <[a := mutex_size]> v).

Lemma view_eta v : View (fds v) (maps v) (attrs v) (held v) = v.
Proof. by destruct v. Qed.

Lemma closed_again fd v : fd ∉ fds v -> set_fds (.∖ {[fd]}) (set_fds (fun s => {[fd]} ∪ s) v) = v.
Proof.
  intros Hfd. destruct v as [f m a h]. unfold set_fds. simpl in *. f_equal. set_solver.
Qed.

Lemma unmapped_not_held w a : maps (view_of w) !! a = None -> held (view_of w) !! a = None.
Proof.
  intros Ha. destruct (held (view_of w) !! a) eqn:E; [|done].
  destruct (held_mapped w a) as [n Hn]; [by eexists|]. congruence.
Qed.

Lemma system_error_caught w message : catches system_error (Exn system_error (decl_text (system_error_class (strerror w)) message)) = true.
Proof. done. Qed.

(** How a new object of the right size can end in undefined behaviour: in this
    run, the attribute object cannot be initialized, or the memory, raw when it
    was mapped, is not any more when it comes to [mutex_init] (another process
    has initialized the mutex in between). *)
Definition disturbed (fd : Z) w : Prop :=
  exists a w1 c w2, mmap fd mutex_size w = (Ok (Some a), w1) /\ close fd w1 = (Ok c, w2) /\
    ((exists w3, mutexattr_init w2 = (Ok None, w3)) \/
     (exists attr w3 b w4 b' w5, mutexattr_init w2 = (Ok (Some attr), w3) /\
        mutexattr_setpshared attr w3 = (Ok b, w4) /\ mutexattr_settype attr w4 = (Ok b', w5) /\
        raw a w1 /\ ~ raw a w5)).

Lemma map_mutex_spec name fd w :
  fd ∈ fds (view_of w) ->
  let v := set_fds (.∖ {[fd]}) (view_of w) in
  wp (map_mutex name fd) (fun r w' =>
    match r with
    | Ok a => mutex_opened v a (view_of w')
    | Throw e => catches system_error e = true /\ kept v (view_of w')
    | UB => sized fd w -> disturbed fd w
    end) w.
Proof.
  intros Hfd v. unfold map_mutex. destruct (mmap_law fd mutex_size w Hfd) as ([a|] & w1 & Em & Hm);
    unfold wp; rewrite (M_bind_step _ _ _ _ _ Em).
  2:{ eapply wp_call; [by apply close_law; rewrite Hm|]. intros ? w2 Hv2.
      split; [done|]. left. by rewrite Hv2, Hm. }
  destruct Hm as (Ha & Hv1 & Hr1). pose proof (unmapped_not_held w a Ha) as Hh.
  destruct (close_law fd w1) as (c & w2 & Ec & Hv2); [by rewrite Hv1|]. rewrite (M_bind_step _ _ _ _ _ Ec).
  destruct (mutexattr_init_law w2) as ([attr|] & w3 & Ea & Hv3); rewrite (M_bind_step _ _ _ _ _ Ea).
  2:{ intros _. exists a, w1, c, w2. eauto. }
  destruct (mutexattr_setpshared_law attr w3) as (b & w4 & Es & Hv4); [by rewrite Hv3|]. rewrite (M_bind_step _ _ _ _ _ Es).
  destruct (mutexattr_settype_law attr w4) as (b' & w5 & Et & Hv5); [by rewrite Hv4, Hv3|]. rewrite (M_bind_step _ _ _ _ _ Et).
  assert (view_of w5 = set_attrs Datatypes.S (set_fds (.∖ {[fd]}) (set_maps <[a := mutex_size]> (view_of w)))) as Hv
    by (by rewrite Hv5, Hv4, Hv3, Hv2, Hv1).
  destruct (mutex_init_law a attr w5) as [[E Hn]|Hret];
    [rewrite Hv; simpl; rewrite lookup_insert_eq; by eexists|by rewrite Hv|..].
  { unfold mbind, M_bind. destruct (mutex_init a attr w5) as [[] w6]; simpl in E; try done.
    intros Hf. exists a, w1, c, w2. split; [done|split; [done|right]]. exists attr, w3, b, w4, b', w5. split_and!; auto. }
  eapply wp_call; [exact Hret|]. rewrite Hv. intros [] w6 Hv6.
  - eapply wp_call; [by apply mutexattr_destroy_law; rewrite Hv6|]. intros ? w7 Hv7; simpl in Hv7.
    split; [done|]. by rewrite Hv7, Hv6.
  - eapply wp_call; [apply (munmap_law a mutex_size); rewrite Hv6; [by apply lookup_insert_eq|done]|].
    intros ? w7 Hv7; simpl in Hv7. split; [done|]. right. rewrite Hv7, Hv6. unfold set_fds, set_maps, set_attrs. simpl.
    by rewrite delete_insert_id.
Qed.

Lemma size_mutex_spec name fd is_new w :
  fd ∈ fds (view_of w) ->
  let v := set_fds (.∖ {[fd]}) (view_of w) in
  wp (size_mutex name fd is_new) (fun r w' =>
    match r with
    | Ok a => mutex_opened v a (view_of w')
    | Throw e => catches system_error e = true /\ kept v (view_of w')
    | UB => is_new = true -> fresh fd w -> exists w1, ftruncate fd mutex_size w = (Ok true, w1) /\ disturbed fd w1
    end) w.
Proof.
  intros Hfd v. destruct is_new; simpl.
  - destruct (ftruncate_law fd mutex_size w Hfd) as (ok & w1 & Ef & Hv1 & Hf1).
    unfold wp. rewrite (M_bind_step _ _ _ _ _ Ef). destruct ok.
    + assert (fd ∈ fds (view_of w1)) as Hfd1 by (by rewrite Hv1).
      eapply wp_mono; [by apply map_mutex_spec|]. subst v. rewrite Hv1. intros [] w'; simpl; [done|done|].
      intros Hu _ Hf. exists w1. auto.
    + eapply wp_call; [by apply close_law; rewrite Hv1|]. intros ? w2 Hv2.
      split; [done|]. left. by rewrite Hv2, Hv1.
  - eapply wp_mono; [by apply map_mutex_spec|]. intros [] w'; simpl; [done|done|]. by intros _.
Qed.

(** The object of the mutex exists already, or the new one is disturbed. *)
Definition mutex_in_use (name : bytes) w : Prop :=
  (exists w1, shm_open name create_new w = (Ok Exists, w1)) \/
  (exists fd w1 w2, shm_open name create_new w = (Ok (Opened fd), w1) /\
     ftruncate fd mutex_size w1 = (Ok true, w2) /\ disturbed fd w2).

(** Only then the constructor of the mutex is undefined. *)
Lemma mutex_new_spec name w :
  wp (named_recursive_mutex_new name) (fun r w' =>
    match r with
    | Ok a => mutex_opened (view_of w) a (view_of w')
    | Throw e => catches system_error e = true /\ kept (view_of w) (view_of w')
    | UB => mutex_in_use name w
    end) w.
Proof.
  unfold named_recursive_mutex_new. case_bool_decide; [split; [done|by left]|].
  destruct (shm_open_law name create_new w) as (r & w1 & E & Hr). unfold wp at 1. rewrite (M_bind_step _ _ _ _ _ E).
  destruct r as [fd| |].
  - destruct Hr as (Hfd & Hv1 & Hf). assert (fd ∈ fds (view_of w1)) as Hfd1 by (rewrite Hv1; simpl; set_solver).
    eapply wp_mono; [by apply (size_mutex_spec name fd true)|]. rewrite Hv1, closed_again by done.
    intros [] w'; simpl; [done|done|]. intros Hu. destruct (Hu eq_refl (Hf eq_refl)) as (w2 & Ef & Hd).
    right. by exists fd, w1, w2.
  - eapply (wp_call _ _ _ (fun r w' => match r with
      | Ok a => mutex_opened (view_of w) a (view_of w')
      | Throw e => catches system_error e = true /\ kept (view_of w) (view_of w')
      | UB => _ end)); [apply shm_open_law|].
    simpl in Hr. intros [fd| |] w2 Hr2; simpl in Hr2; [|split; [done|left; congruence]..].
    destruct Hr2 as (Hfd & Hv2 & _). rewrite Hr in Hfd, Hv2.
    assert (fd ∈ fds (view_of w2)) as Hfd2 by (rewrite Hv2; simpl; set_solver).
    eapply wp_mono; [by apply (size_mutex_spec name fd false)|]. rewrite Hv2, closed_again by done.
    intros [] w'; simpl; [done|done|]. intros _. left. by exists w1.
  - split; [done|]. left. exact Hr.
Qed.

Lemma mutex_delete_spec m w :
  held (view_of w) !! m = Some 0 -> maps (view_of w) !! m = Some mutex_size ->
  returns (named_recursive_mutex_delete m) (fun _ w' =>
    view_of w' = set_held (delete m) (set_maps (delete m) (view_of w))) w.
Proof.
  intros Hh Hm. unfold named_recursive_mutex_delete.
  destruct (mutex_destroy_law m w Hh) as (b & w1 & E1 & Hv1).
  destruct (munmap_law m mutex_size w1) as (b2 & w2 & E2 & Hv2); [by rewrite Hv1|rewrite Hv1; by apply lookup_delete_eq|].
  exists tt, w2. rewrite (M_bind_step _ _ _ _ _ E1), (M_bind_step _ _ _ _ _ E2). split; [done|]. by rewrite Hv2, Hv1.
Qed.

(** What runs under the lock runs with the mutex held; afterwards it is not held
    any more. *)
Lemma guarded_spec {A} m (body : M W A) (Q : outcome A -> W -> Prop) w :
  held (view_of w) !! m = Some 0 ->
  (forall w1, view_of w1 = set_held <[m := 1]> (view_of w) ->
     wp body (fun r w2 => r <> UB /\ held (view_of w2) !! m = Some 1 /\
       forall w', view_of w' = set_held <[m := 0]> (view_of w2) -> Q r w') w1) ->
  (forall e w', mutex_lock m w = (Ok false, w') -> catches std_system_error e = true -> catches system_error e = true ->
     view_of w' = view_of w -> Q (Throw e) w') ->
  wp (guarded m body) Q w.
Proof.
  intros Hm Hbody Hfail. unfold guarded, named_recursive_mutex_lock.
  destruct (mutex_lock_law m w Hm) as (ok & w1 & E & Hv1). unfold wp at 1. rewrite M_bind_assoc, (M_bind_step _ _ _ _ _ E).
  destruct ok; [|by apply Hfail].
  specialize (Hbody w1 Hv1). unfold wp in Hbody. rewrite (M_bind_step _ _ _ tt w1) by done. unfold unlock_after, on_exit.
  destruct (body w1) as [r w2]. destruct Hbody as (Hr & Hh2 & HQ).
  destruct (mutex_unlock_law m 1 w2) as (ok & w3 & E3 & -> & Hv3); [done|lia|].
  assert (named_recursive_mutex_unlock m w2 = (Ok tt, w3)) as ->.
  { unfold named_recursive_mutex_unlock. by rewrite (M_bind_step _ _ _ _ _ E3). }
  destruct r; [by apply HQ..|done].
Qed.

Lemma map_segment_spec name id size w :
  wp (map_segment name id size) (fun r w' =>
    match r with
    | Ok a => maps (view_of w) !! a = None /\ view_of w' = set_maps <[a := size]> (view_of w)
    | Throw e => catches runtime_error e = true /\ view_of w' = view_of w
    | UB => False
    end) w.
Proof.
  unfold map_segment. eapply wp_call; [apply shm_open_law|]. intros [fd| |] w1; [|done..].
  intros (Hfd & Hv1 & _). assert (fd ∈ fds (view_of w1)) as Hfd1 by (rewrite Hv1; simpl; set_solver).
  eapply wp_call; [by apply ftruncate_law|]. intros ok w2 [Hv2 _]. destruct ok; simpl.
  - eapply wp_call; [apply mmap_law; by rewrite Hv2|]. intros [a|] w3.
    + intros (Ha & Hv3 & _). eapply wp_call; [apply close_law; by rewrite Hv3, Hv2|]. intros ? w4 Hv4.
      rewrite Hv2, Hv1 in Ha. split; [done|]. rewrite Hv4, Hv3, Hv2, Hv1. rewrite <- (closed_again fd (view_of w)) at 2 by done. done.
    + intros Hv3. eapply wp_call; [apply close_law; by rewrite Hv3, Hv2|]. intros ? w4 Hv4.
      split; [done|]. by rewrite Hv4, Hv3, Hv2, Hv1, closed_again.
  - eapply wp_call; [apply close_law; by rewrite Hv2|]. intros ? w4 Hv4.
    split; [done|]. by rewrite Hv4, Hv2, Hv1, closed_again.
Qed.

(** The process in [v], and in [v'] with the segment [s] besides. *)
Definition segment_open (s : interprocess_shared_memory) v v' : Prop :=
  maps v !! _mutex s = None /\ held v !! _mutex s = None /\ maps v !! _region s = None /\ held v !! _region s = None /\
  _region s <> _mutex s /\
  v' = View (fds v) (<[_region s := _region_size s]> (<[_mutex s := mutex_size]> (maps v))) (attrs v)
         (<[_mutex s := 0]> (held v)).

Lemma segment_new_spec id size w :
  wp (interprocess_shared_memory_new id size) (fun r w' =>
    match r with
    | Ok s => segment_open s (view_of w) (view_of w') /\ _region_size s = size
    | Throw e => kept (view_of w) (view_of w') /\ (catches system_error e = true \/ catches runtime_error e = true)
    | UB => mutex_in_use (str "m_" ++ id) w
    end) w.
Proof.
  unfold interprocess_shared_memory_new. apply wp_bind. eapply wp_mono; [apply mutex_new_spec|].
  intros [m|e|] w1; [|by intros [Hs Hk]; auto|done]. intros (Hm & Hv1).
  pose proof (unmapped_not_held _ _ Hm) as Hh. unfold wp at 1, destroy_on_throw, on_throw.
  enough (wp (guarded m (addr ← map_segment (str "/s_" ++ id) id size; mret (SharedMemory (str "/s_" ++ id) m addr size)))
    (fun r w2 => match r with
     | Ok s => segment_open s (view_of w) (view_of w2) /\ _region_size s = size
     | Throw e => view_of w2 = view_of w1 /\ (catches system_error e = true \/ catches runtime_error e = true)
     | UB => False end) w1) as Hbody.
  { unfold wp in Hbody. destruct (guarded m _ w1) as [[s|e|] w2]; [done| |done]. destruct Hbody as [Hv2 He].
    destruct (mutex_delete_spec m w2) as ([] & w3 & -> & Hv3); [rewrite Hv2, Hv1; by apply lookup_insert_eq..|].
    split; [|done]. left. rewrite Hv3, Hv2, Hv1. destruct (view_of w) as [f mp a h]. unfold set_held, set_maps. simpl in *.
    by rewrite !delete_insert_id. }
  apply (guarded_spec m); [rewrite Hv1; by apply lookup_insert_eq| |].
  - intros w2 Hv2. apply wp_bind. eapply wp_mono; [apply map_segment_spec|].
    intros [a|e|] w3; [intros [Ha Hv3]|intros [He Hv3]|done].
    + rewrite Hv2, Hv1 in Ha, Hv3. split; [done|]. rewrite Hv3. simpl. split; [by apply lookup_insert_eq|].
      intros w' Hv'. split; [|done]. simpl in Ha. apply lookup_insert_None in Ha as [Ha Hne].
      split_and!; [done|done|done|by apply unmapped_not_held|done|]. rewrite Hv'. unfold set_held, set_maps. simpl. by rewrite !insert_insert_eq.
    + rewrite Hv2, Hv1 in Hv3. split; [done|]. rewrite Hv3. simpl. split; [by apply lookup_insert_eq|].
      intros w' Hv'. split; [|by right]. rewrite Hv', Hv1. unfold set_held, set_maps. simpl. by rewrite !insert_insert_eq.
  - intros e w' _ _ He Hv'. split; [done|by left].
Qed.

Lemma segment_delete_spec s v w :
  segment_open s v (view_of w) ->
  (exists w', interprocess_shared_memory_delete s w = (Ok tt, w') /\ view_of w' = v) \/
  ((interprocess_shared_memory_delete s w).1 = UB /\ exists w', mutex_lock (_mutex s) w = (Ok false, w')).
Proof.
  intros (Hm & Hh & Hr & Hhr & Hne & Hv).
  enough (wp (guarded (_mutex s)
      (_ ← munmap (_region s) (_region_size s); _ ← shm_unlink (_shared_memory_name s); mret tt))
    (fun r w' => match r with
     | Ok _ => view_of w' = View (fds v) (<[_mutex s := mutex_size]> (maps v)) (attrs v) (<[_mutex s := 0]> (held v))
     | Throw e => catches std_system_error e = true /\ mutex_lock (_mutex s) w = (Ok false, w')
     | UB => False end) w) as Hbody.
  { unfold interprocess_shared_memory_delete. unfold wp in Hbody.
    destruct (guarded (_mutex s) _ w) as [[[]|e|] w1] eqn:Hg; [| |done].
    2:{ destruct Hbody as [He Hl]. right. split; [|by eexists].
        unfold mbind at 1, M_bind at 1, try_catch. by rewrite Hg, He. }
    left. rewrite (M_bind_step _ _ _ tt w1) by (unfold try_catch; by rewrite Hg).
    destruct (mutex_delete_spec (_mutex s) w1) as ([] & w2 & E & Hv2); [rewrite Hbody; by apply lookup_insert_eq..|].
    exists w2. split; [exact E|]. rewrite Hv2, Hbody. unfold set_held, set_maps. simpl.
    rewrite !delete_insert_id by done. apply view_eta. }
  apply (guarded_spec (_mutex s)); [rewrite Hv; by apply lookup_insert_eq| |].
  - intros w1 Hv1. eapply wp_call; [apply (munmap_law _ (_region_size s)); rewrite Hv1, Hv; simpl|].
    + by apply lookup_insert_eq.
    + by rewrite !lookup_insert_ne.
    + intros ? w2 Hv2. eapply wp_call; [apply shm_unlink_law|]. intros ? w3 Hv3. split; [done|].
      rewrite Hv3, Hv2, Hv1, Hv. split; [by apply lookup_insert_eq|]. intros w' Hv'. rewrite Hv'.
      unfold set_held, set_maps. simpl. rewrite !insert_insert_eq, delete_insert_id; [done|]. by rewrite lookup_insert_ne.
  - done.
Qed.
End resources.

(** ** Properties *)

(** C23. Resources of a shared memory segment.  Whatever call fails on the way,
    the constructor closes every descriptor it opened, gives the lock back, and
    either returns a segment with exactly one mapping for its mutex and one for
    its region, or throws ([cbeam::error::system_error] or [runtime_error]) with
    every mapping undone and at most the attribute object left.  It is undefined
    only when the object of the mutex exists already (the mutex in it is
    initialized once more), or, in this run, the attribute object of a new one
    cannot be initialized or somebody else has initialized the mutex in it first.
    Destruction, with nothing held, gives everything back, or is undefined
    because the mutex cannot be locked, which fails an assertion. *)
Theorem shared_memory_resources {W} `{PosixLaws W} id size (w w' : W) r :
  interprocess_shared_memory_new id size w = (r, w') ->
  match r with
  | Ok s =>
      segment_open s (view_of w) (view_of w') /\ _region_size s = size /\
      forall w1, view_of w1 = view_of w' ->
        (exists w2, interprocess_shared_memory_delete s w1 = (Ok tt, w2) /\ view_of w2 = view_of w) \/
        ((interprocess_shared_memory_delete s w1).1 = UB /\ exists w2, mutex_lock (_mutex s) w1 = (Ok false, w2))
  | Throw e =>
      fds (view_of w') = fds (view_of w) /\ maps (view_of w') = maps (view_of w) /\ held (view_of w') = held (view_of w) /\
      (attrs (view_of w) <= attrs (view_of w') <= Datatypes.S (attrs (view_of w)))%nat /\
      (catches system_error e = true \/ catches runtime_error e = true)
  | UB => mutex_in_use (str "m_" ++ id) w
  end.
Proof.
  intros E. pose proof (segment_new_spec id size w) as Hs. unfold wp in Hs. rewrite E in Hs.
  destruct r as [s|e|]; [|destruct Hs as [[-> | ->] He]; simpl; auto 7|done].
  destruct Hs as [Hs <-]. split_and!; [done..|]. intros w1 Hw1. apply segment_delete_spec. by rewrite Hw1.
Qed.

(** ** A kernel with one process *)

Record object := Object { o_size : Z; o_mutex : bool }.
Record mapping := Mapping { m_object : Z; m_size : Z; m_held : option Z }.

(** [quota]: how many times [ftruncate] still succeeds. *)
Record kernel := Kernel {
  k_names : gmap bytes Z;
  k_objects : gmap Z object;
  k_fds : gmap Z Z;
  k_maps : gmap addr mapping;
  k_attrs : nat;
  quota : nat;
}.

Fixpoint first_unused {A} (fuel : nat) (a : Z) (m : gmap Z A) : option Z :=
  match fuel with
  | O => None
  | Datatypes.S fuel => if m !! a is Some _ then first_unused fuel (a + 1) m else Some a
  end.

Lemma first_unused_free {A} fuel a (m : gmap Z A) b : first_unused fuel a m = Some b -> m !! b = None.
Proof. revert a. induction fuel as [|fuel IH]; intros a; simpl; [done|]. case_match eqn:E; [apply IH|by intros [= <-]]. Qed.

Definition with_fds f k := Kernel (k_names k) (k_objects k) (f (k_fds k)) (k_maps k) (k_attrs k) (quota k).
Definition with_maps f k := Kernel (k_names k) (k_objects k) (k_fds k) (f (k_maps k)) (k_attrs k) (quota k).
Definition with_objects f k := Kernel (k_names k) (f (k_objects k)) (k_fds k) (k_maps k) (k_attrs k) (quota k).
Definition with_attrs f k := Kernel (k_names k) (k_objects k) (k_fds k) (k_maps k) (f (k_attrs k)) (quota k).

Definition kernel_open (name : bytes) (mode : open_mode) : M kernel open_result := fun k =>
  match first_unused 100 3 (k_fds k), k_names k !! name, mode with
  | None, _, _ | _, None, open_existing => (Ok Failed, k)
  | _, Some _, create_new => (Ok Exists, k)
  | Some fd, Some o, _ => (Ok (Opened fd), with_fds <[fd := o]> k)
  | Some fd, None, _ =>
      match first_unused 100 0 (k_objects k) with
      | None => (Ok Failed, k)
      | Some o =>
          (Ok (Opened fd), Kernel (<[name := o]> (k_names k)) (<[o := Object 0 false]> (k_objects k))
                             (<[fd := o]> (k_fds k)) (k_maps k) (k_attrs k) (quota k))
      end
  end.

Definition kernel_ftruncate (fd n : Z) : M kernel bool := fun k =>
  match quota k, k_fds k !! fd with
  | Datatypes.S q, Some o =>
      (Ok true, Kernel (k_names k) (alter (fun x => Object n (o_mutex x)) o (k_objects k)) (k_fds k) (k_maps k) (k_attrs k) q)
  | _, _ => (Ok false, k)
  end.

Definition kernel_mmap (fd n : Z) : M kernel (option addr) := fun k =>
  match first_unused 100 0x1000 (k_maps k), k_fds k !! fd with
  | Some a, Some o => (Ok (Some a), with_maps <[a := Mapping o n None]> k)
  | _, _ => (Ok None, k)
  end.

(** The object behind an address, if a mutex fits in. *)
Definition mutex_object (a : addr) (k : kernel) : option (Z * object) :=
  m ← k_maps k !! a; x ← k_objects k !! m_object m;
  if bool_decide (mutex_size <= o_size x) then Some (m_object m, x) else None.

Definition kernel_mutex_init (a : addr) (attr : Z) : M kernel bool := fun k =>
  match mutex_object a k with
  | Some (o, Object n false) =>
      (Ok true, with_maps (alter (fun m => Mapping (m_object m) (m_size m) (Some 0)) a)
                  (with_objects <[o := Object n true]> k))
  | _ => (UB, k)
  end.

Definition set_count (a : addr) (n : option Z) : kernel -> kernel :=
  with_maps (alter (fun m => Mapping (m_object m) (m_size m) n) a).

Definition count_at (a : addr) (k : kernel) : option Z := m ← k_maps k !! a; m_held m.

Definition kernel_count (step : Z) (a : addr) : M kernel bool := fun k =>
  match count_at a k with
  | Some n => if bool_decide (0 <= n + step) then (Ok true, set_count a (Some (n + step)) k) else (Ok false, k)
  | None => (Ok false, k)
  end.

Definition kernel_mutex_destroy (a : addr) : M kernel bool := fun k =>
  match k_maps k !! a with
  | Some m => (Ok true, set_count a None (with_objects (alter (fun x => Object (o_size x) false) (m_object m)) k))
  | None => (Ok false, k)
  end.

#[export] Instance kernel_posix : Posix kernel := {|
  strerror _ := "errno"%string;
  shm_open := kernel_open;
  shm_unlink name k := (Ok true, Kernel (delete name (k_names k)) (k_objects k) (k_fds k) (k_maps k) (k_attrs k) (quota k));
  ftruncate := kernel_ftruncate;
  mmap := kernel_mmap;
  munmap a _ k := (Ok true, with_maps (delete a) k);
  close fd k := (Ok true, with_fds (delete fd) k);
  mutexattr_init k := (Ok (Some (Z.of_nat (k_attrs k))), with_attrs Datatypes.S k);
  mutexattr_setpshared _ k := (Ok true, k);
  mutexattr_settype _ k := (Ok true, k);
  mutexattr_destroy _ k := (Ok true, with_attrs Nat.pred k);
  mutex_init := kernel_mutex_init;
  mutex_destroy := kernel_mutex_destroy;
  mutex_lock := kernel_count 1;
  mutex_unlock := kernel_count (-1);
|}.

Definition kernel_view (k : kernel) : view :=
  View (dom (k_fds k)) (m_size <$> k_maps k) (k_attrs k) (omap m_held (k_maps k)).

Definition kernel_raw (a : addr) (k : kernel) : Prop :=
  match mutex_object a k with Some (_, Object _ false) => True | _ => False end.
Definition kernel_fresh (fd : Z) (k : kernel) : Prop :=
  exists o n, k_fds k !! fd = Some o /\ k_objects k !! o = Some (Object n false).
Definition kernel_sized (fd : Z) (k : kernel) : Prop :=
  exists o, k_fds k !! fd = Some o /\ k_objects k !! o = Some (Object mutex_size false).

Lemma set_count_sizes a n k : m_size <$> k_maps (set_count a n k) = m_size <$> k_maps k.
Proof.
  apply map_eq. intros b. simpl. rewrite !lookup_fmap. destruct (decide (a = b)) as [->|].
  - rewrite lookup_alter_eq. by destruct (k_maps k !! b).
  - by rewrite lookup_alter_ne.
Qed.

Lemma set_count_held a n k m :
  k_maps k !! a = Some m ->
  omap m_held (k_maps (set_count a n k)) =
    match n with Some n => <[a := n]> (omap m_held (k_maps k)) | None => delete a (omap m_held (k_maps k)) end.
Proof.
  intros Hm. apply map_eq. intros b. rewrite lookup_omap. simpl. destruct (decide (a = b)) as [->|].
  - rewrite lookup_alter_eq, Hm. destruct n; simpl; [by rewrite lookup_insert_eq|by rewrite lookup_delete_eq].
  - rewrite lookup_alter_ne by done. destruct n; [rewrite lookup_insert_ne by done|rewrite lookup_delete_ne by done]; by rewrite lookup_omap.
Qed.

Lemma set_count_view a n k m :
  k_maps k !! a = Some m ->
  kernel_view (set_count a n k) =
    set_held (match n with Some n => <[a := n]> | None => delete a end) (kernel_view k).
Proof.
  intros Hm. unfold kernel_view, set_held. f_equal; [apply set_count_sizes|]. simpl.
  pose proof (set_count_held a n k m Hm) as Hh. simpl in Hh. rewrite Hh. by destruct n.
Qed.

Lemma count_at_held a k : held (kernel_view k) !! a = count_at a k.
Proof. simpl. rewrite lookup_omap. unfold count_at. by destruct (k_maps k !! a). Qed.

Lemma count_at_mapped a n k : count_at a k = Some n -> exists m, k_maps k !! a = Some m.
Proof. unfold count_at. destruct (k_maps k !! a) as [m|]; [by exists m|done]. Qed.

Lemma kernel_count_law step a n k :
  held (kernel_view k) !! a = Some n ->
  returns (kernel_count step a) (fun ok k' =>
    ok = bool_decide (0 <= n + step) /\
    kernel_view k' = if ok then set_held <[a := n + step]> (kernel_view k) else kernel_view k) k.
Proof.
  rewrite count_at_held. intros Hn. destruct (count_at_mapped a n k Hn) as [m Hm].
  unfold returns, kernel_count. rewrite Hn. case_bool_decide; eexists _, _; (split; [done|]); (split; [done|]); [|done].
  by apply (set_count_view a (Some (n + step)) k m).
Qed.

Lemma kernel_open_law name mode k : returns (kernel_open name mode) (fun r k' =>
  match r with
  | Opened fd => (fd ∉ fds (kernel_view k)) /\ kernel_view k' = set_fds (fun s => {[fd]} ∪ s) (kernel_view k) /\
                 (mode = create_new -> kernel_fresh fd k')
  | _ => kernel_view k' = kernel_view k
  end) k.
Proof.
  unfold returns, kernel_open. destruct (first_unused 100 3 (k_fds k)) as [fd|] eqn:Ef; [|by eexists _, _].
  apply first_unused_free in Ef. assert (fd ∉ dom (k_fds k)) as Hfd by by apply not_elem_of_dom.
  destruct (k_names k !! name) as [o|].
  - destruct mode; eexists _, _; split; try done; simpl; (split; [done|]); (split; [|done]);
      unfold kernel_view, set_fds; simpl; by rewrite dom_insert_L.
  - destruct mode; [|by eexists _, _|];
      (destruct (first_unused 100 0 (k_objects k)) as [o|]; [|by eexists _, _]); eexists _, _; split; try done; simpl;
      (split; [done|]); (split; [unfold kernel_view, set_fds; simpl; by rewrite dom_insert_L|]);
      [|done]. intros _. exists o, 0. split; apply lookup_insert_eq.
Qed.

Lemma kernel_init_law a attr k :
  is_Some (maps (kernel_view k) !! a) ->
  (kernel_mutex_init a attr k).1 = UB /\ ~ kernel_raw a k \/
  returns (kernel_mutex_init a attr) (fun ok k' => kernel_view k' = if (ok : bool) then set_held <[a := 0]> (kernel_view k) else kernel_view k) k.
Proof.
  simpl. rewrite lookup_fmap. intros [n Hn]. destruct (k_maps k !! a) as [m|] eqn:Hm; [|done]. clear Hn.
  unfold returns, kernel_mutex_init, kernel_raw. destruct (mutex_object a k) as [[o [s []]]|]; auto. right.
  eexists _, _. split; [done|].
  by apply (set_count_view a (Some 0) (with_objects <[o := Object s true]> k) m).
Qed.

#[export] Instance kernel_laws : PosixLaws kernel.
Proof.
  refine (Build_PosixLaws kernel _ kernel_view kernel_fresh kernel_sized kernel_raw _ _ _ _ _ _ _ _ _ _ _ _ _ _ _).
  - intros k a. rewrite count_at_held. intros [n (m & Hm)%count_at_mapped]. simpl. rewrite lookup_fmap, Hm. by eexists.
  - apply kernel_open_law.
  - intros name k. by eexists _, _.
  - intros fd n k _. unfold returns. cbn. unfold kernel_ftruncate.
    destruct (quota k); [by eexists _, _|]. destruct (k_fds k !! fd) as [o|] eqn:Eo; [|by eexists _, _].
    eexists _, _. split; [done|]. split; [done|]. intros _ -> (o' & s & Ho & Hs). simplify_eq.
    eexists. split; [done|]. simpl. by rewrite lookup_alter_eq, Hs.
  - intros fd n k Hfd. unfold returns. cbn. unfold kernel_mmap.
    destruct (first_unused 100 0x1000 (k_maps k)) as [a|] eqn:Ea; [|by eexists _, _].
    apply first_unused_free in Ea. destruct (k_fds k !! fd) as [o|] eqn:Eo; [|by eexists _, _].
    eexists _, _. split; [done|]. simpl. rewrite lookup_fmap, Ea. split; [done|]. split.
    + unfold kernel_view, set_maps. simpl. rewrite fmap_insert, omap_insert. simpl.
      f_equal. apply delete_id. by rewrite lookup_omap, Ea.
    + intros (o' & Ho & Hs). simplify_eq. unfold kernel_raw, mutex_object. simpl. rewrite lookup_insert_eq. simpl. by rewrite Hs.
  - intros a n k Hm Hh. eexists _, _. split; [done|]. unfold kernel_view, set_maps. simpl.
    rewrite fmap_delete, omap_delete. f_equal. by apply delete_id.
  - intros fd k Hfd. eexists _, _. split; [done|]. unfold kernel_view, set_fds. simpl. by rewrite dom_delete_L.
  - intros k. by eexists _, _.
  - intros attr k _. by eexists _, _.
  - intros attr k _. by eexists _, _.
  - intros attr k _. by eexists _, _.
  - intros a attr k Ha _. by apply kernel_init_law.
  - intros a k. rewrite count_at_held. intros [m Hm]%count_at_mapped.
    unfold returns. cbn. unfold kernel_mutex_destroy. rewrite Hm. eexists _, _. split; [done|].
    by apply (set_count_view a None (with_objects _ k) m).
  - intros a k Hn. destruct (kernel_count_law 1 a 0 k Hn) as (ok & k' & E & _ & Hv). by eexists _, _.
  - intros a n k Hn Hp. destruct (kernel_count_law (-1) a n k Hn) as (ok & k' & E & Hok & Hv). exists ok, k'.
    rewrite bool_decide_eq_true_2 in Hok by lia. subst ok. done.
Defined.

Definition empty_kernel (quota : nat) : kernel := Kernel ∅ ∅ ∅ ∅ 0 quota.

(** A segment of 64 bytes, opened and closed again. *)
Lemma shared_memory_resources_witness :
  exists s k, interprocess_shared_memory_new (str "demo") 64 (empty_kernel 2) = (Ok s, k) /\
    _region_size s = 64 /\
    exists k', interprocess_shared_memory_delete s k = (Ok tt, k') /\ view_of k' = view_of (empty_kernel 2).
Proof.
  set (s := SharedMemory (str "/s_demo") 0x1000 0x1001 64).
  set (k := (interprocess_shared_memory_new (str "demo") 64 (empty_kernel 2)).2).
  assert (interprocess_shared_memory_new (str "demo") 64 (empty_kernel 2) = (Ok s, k)) as E by (vm_compute; reflexivity).
  exists s, k. split; [exact E|].
  destruct (shared_memory_resources (str "demo") 64 (empty_kernel 2) k (Ok s) E) as (_ & Hs & Hd).
  split; [exact Hs|]. destruct (Hd k eq_refl) as [Hdel|[HUB _]]; [exact Hdel|].
  exfalso. vm_compute in HUB. discriminate HUB.
Defined.

(** Opened, closed and opened again is fine: the first use destroys its mutex. *)
Example reopened_after_close :
  exists s k k1 s2 k2, interprocess_shared_memory_new (str "demo") 64 (empty_kernel 3) = (Ok s, k) /\
    interprocess_shared_memory_delete s k = (Ok tt, k1) /\
    interprocess_shared_memory_new (str "demo") 64 k1 = (Ok s2, k2).
Proof. eexists _, _, _, _, _. split; [|split]; vm_compute; reflexivity. Qed.

(** ** Sharing

    A second object of the same name, in this or another process, initializes
    the mutex again, which POSIX leaves undefined. *)
Example second_constructor_reinitializes :
  exists s k, interprocess_shared_memory_new (str "demo") 64 (empty_kernel 3) = (Ok s, k) /\
    (interprocess_shared_memory_new (str "demo") 64 k).1 = UB.
Proof. eexists _, _. split; vm_compute; reflexivity. Qed.

(** When the size of a new object cannot be set, the object stays behind without
    a size, and the next constructor initializes a mutex beyond its end. *)
Example unsized_object_left_behind :
  exists k, named_recursive_mutex_new (str "m_demo") (empty_kernel 0) =
      (Throw (Exn system_error "cbeam::concurrency::named_recursive_mutex: Failed to truncate shared memory: m_demo: errno"), k) /\
    (named_recursive_mutex_new (str "m_demo") (Kernel (k_names k) (k_objects k) (k_fds k) (k_maps k) (k_attrs k) 5)).1 = UB.
Proof. eexists. split; vm_compute; reflexivity. Qed.

(** The destructor unlinks the segment even when others still use it: the next
    constructor of that name gets a segment of its own. *)
Definition delete_and_reopen : option (bool * bool) :=
  match interprocess_shared_memory_new (str "demo") 64 (empty_kernel 9) with
  | (Ok s, k) =>
      match kernel_open (str "/s_demo") create_or_open k with
      | (Ok (Opened other), k) =>
          match interprocess_shared_memory_delete s k with
          | (Ok _, k) =>
              match kernel_open (str "/s_demo") create_or_open k with
              | (Ok (Opened fd), k) =>
                  Some (bool_decide (is_Some (k_fds k !! other)), bool_decide (k_fds k !! fd = k_fds k !! other))
              | _ => None
              end
          | _ => None
          end
      | _ => None
      end
  | _ => None
  end.

Example unlinked_while_in_use : delete_and_reopen = Some (true, false).
Proof. vm_compute. reflexivity. Qed.
