(* ===== verification/Windows.v ===== *)
(** * Windows: the Windows branches of [concurrency/named_recursive_mutex.hpp],
    [memory/interprocess_shared_memory.hpp] and [platform/windows_config.hpp]

    The same two classes as in SharedMemory, as sequences of calls of the Windows
    API.  The calls are an interface: its state [W] is the calling process's view
    of the kernel, and the laws say what happens to its handles, views and local
    allocations and to the mutexes the calling thread owns.  A call that blocks
    is modelled by the state in which it returns.  [UB] also stands for
    [std::terminate] and for a failed [assert]. *)

From S2P Require Import Prelude Errors Bytes Heap SharedMemory.

(** ** The Windows API *)

(** [DWORD] is 32 bits wide. *)
Definition dword (z : Z) : Z := Z.land 0xFFFFFFFF z.

Inductive wait_result := WAIT_OBJECT_0 | WAIT_ABANDONED | WAIT_TIMEOUT | WAIT_FAILED.

(** Functions that answer [NULL] for a failure answer [None].  [system_message]
    is the text of a code in [std::system_category()]; [FormatMessageA] with
    [FORMAT_MESSAGE_ALLOCATE_BUFFER] yields the buffer it has allocated and the
    message, whose size is its answer. *)
Class Win32 (W : Type) := {
  GetLastError : W -> Z;
  system_message : Z -> string;
  FormatMessageA : Z -> M W (option addr * bytes);
  LocalFree : addr -> M W unit;
  CreateMutexA : bytes -> M W (option Z);
  WaitForSingleObject : Z -> M W wait_result;
  ReleaseMutex : Z -> M W bool;
  CreateFileMappingA : Z -> Z -> bytes -> M W (option Z);
  OpenFileMappingA : bytes -> M W (option Z);
  MapViewOfFile : Z -> Z -> M W (option addr);
  UnmapViewOfFile : addr -> M W bool;
  VirtualQuery : addr -> M W Z;
  CloseHandle : Z -> M W bool;
}.

Definition MAX_PATH : Z := 260.
Definition ERROR_ALREADY_EXISTS : Z := 183.

Section windows.
Context {W : Type} `{Win32 W}.

(** ** [get_last_windows_error_message] *)

(** The loop makes its second attempt whatever the first one gave. *)
Fixpoint format_attempts (attempts : nat) (message : bytes) : M W bytes :=
  match attempts with
  | O => mret message
  | Datatypes.S attempts =>
      w ← get;
      let error_code := GetLastError w in
      r ← FormatMessageA error_code;
      let '(message_buffer, text) := r in
      let message := if bool_decide (0 < Z.of_nat (length text)) then text else message in
      _ ← (match message_buffer with Some a => LocalFree a | None => mret tt end);
      format_attempts attempts message
  end.

Definition get_last_windows_error_message : M W bytes :=
  message ← format_attempts 2 [];
  mret (if bool_decide (message = []) then str "unknown error" else message).

(** ** [named_recursive_mutex] *)

(** The constructor of [system_error] takes [GetLastError()]. *)
Definition raise_windows_error {A} (message : string) : M W A := fun w =>
  raise system_error (decl_text (system_error_class (system_message (GetLastError w))) message) w.

Definition win_max_shm_name_length : Z := MAX_PATH.
Definition win_too_long (name : bytes) : string :=
  named "cbeam::concurrency::named_recursive_mutex: '" (name ++ str "' exceeds maximum lengths for shm names of 260").

Definition win_mutex_new (name : bytes) : M W Z :=
  if bool_decide (win_max_shm_name_length < Z.of_nat (length name)) then raise_windows_error (win_too_long name)
  else
    r ← CreateMutexA name;
    match r with
    | None => raise_windows_error (named "Failed to create mutex: " name)
    | Some handle => mret handle
    end.

Definition win_mutex_delete (_mutex : Z) : M W unit := _ ← CloseHandle _mutex; mret tt.

(** The switch has no case for [WAIT_FAILED]. *)
Definition win_mutex_lock (_mutex : Z) : M W unit :=
  waitResult ← WaitForSingleObject _mutex;
  match waitResult with
  | WAIT_OBJECT_0 => mret tt
  | WAIT_ABANDONED => raise_windows_error "cbeam::concurrency::named_recursive_mutex::lock()"
  | _ => mret tt
  end.

Definition win_mutex_unlock (_mutex : Z) : M W unit :=
  ok ← ReleaseMutex _mutex;
  if (ok : bool) then mret tt else raise_windows_error "cbeam::concurrency::named_recursive_mutex::unlock()".

(** ** [interprocess_shared_memory] *)

Record win_shared_memory := WinSharedMemory {
  ws_mutex : Z;
  ws_shared_memory : Z;
  ws_region : addr;
}.

(** The text of an exception that ends with the error message. *)
Definition raise_with_message {A} (what : string) (unique_identifier : bytes) : M W A :=
  message ← get_last_windows_error_message;
  raise runtime_error (named what (unique_identifier ++ str "': " ++ message)).

Definition create_section (name unique_identifier : bytes) (size : Z) : M W Z :=
  r ← CreateFileMappingA (dword (Z.shiftr size 32)) (dword size) name;
  match r with
  | Some h => mret h
  | None =>
      w ← get;
      if bool_decide (GetLastError w = ERROR_ALREADY_EXISTS) then
        r ← OpenFileMappingA name;
        match r with
        | Some h => mret h
        | None => raise_with_message "cbeam::memory::interprocess_shared_memory: Failed to open existing shared memory for '" unique_identifier
        end
      else raise_with_message "cbeam::memory::interprocess_shared_memory: Failed to create file mapping for '" unique_identifier
  end.

Definition map_section (name unique_identifier : bytes) (size : Z) : M W (Z * addr) :=
  h ← create_section name unique_identifier size;
  r ← MapViewOfFile h size;
  match r with
  | Some a => mret (h, a)
  | None =>
      _ ← CloseHandle h;
      raise_with_message "cbeam::memory::interprocess_shared_memory: Failed to map view for '" unique_identifier
  end.

Definition win_guarded {A} (m : Z) (body : M W A) : M W A :=
  _ ← win_mutex_lock m; on_exit (win_mutex_unlock m) body.

Definition win_shared_memory_new (unique_identifier : bytes) (size : Z) : M W win_shared_memory :=
  let name := str "Local\s_" ++ unique_identifier in
  m ← win_mutex_new (str "m_" ++ unique_identifier);
  on_throw (win_mutex_delete m)
    (win_guarded m
      (r ← map_section name unique_identifier size;
       mret (WinSharedMemory m r.1 r.2))).

(** The destructor, then that of the member [_mutex]. *)
Definition win_shared_memory_delete (s : win_shared_memory) : M W unit :=
  _ ← try_catch
    (win_guarded (ws_mutex s)
      (_ ← UnmapViewOfFile (ws_region s);
       _ ← CloseHandle (ws_shared_memory s);
       mret tt))
    std_system_error (fun _ => undefined);
  win_mutex_delete (ws_mutex s).

Definition win_data (s : win_shared_memory) : addr := ws_region s.
Definition win_capacity (s : win_shared_memory) : M W Z := VirtualQuery (ws_region s).
End windows.

(** ** Laws *)

Inductive kobject := KMutex (id : Z) | KSection.

(** Handles with the kernel objects behind them, mapped views with the size of
    their region, how often the calling thread owns each mutex (if it does), and
    the buffers of [FormatMessageA]. *)
Record wview := WView { handles : gmap Z kobject; regions : gmap addr Z; owned : gmap Z Z; allocations : gset addr }.

Definition set_handles (f : gmap Z kobject -> gmap Z kobject) (v : wview) : wview := WView (f (handles v)) (regions v) (owned v) (allocations v).
Definition set_regions (f : gmap addr Z -> gmap addr Z) (v : wview) : wview := WView (handles v) (f (regions v)) (owned v) (allocations v).
Definition set_allocations (f : gset addr -> gset addr) (v : wview) : wview := WView (handles v) (regions v) (owned v) (f (allocations v)).

Definition owns (v : wview) (o : Z) : Z := default 0 (owned v !! o).
Definition with_count (o n : Z) (m : gmap Z Z) : gmap Z Z := if bool_decide (n = 0) then delete o m else <[o := n]> m.
Definition set_owns (o n : Z) (v : wview) : wview := WView (handles v) (regions v) (with_count o n (owned v)) (allocations v).

(** Another handle of the process to the same mutex. *)
Definition other_handle (v : wview) (h o : Z) : Prop := exists h', h' <> h /\ handles v !! h' = Some (KMutex o).

(** What stays when a handle to a mutex is closed: ownership of it, as long as
    there is a handle left. *)
Definition closed_mutex (v : wview) (h o : Z) (v' : wview) : Prop :=
  handles v' = delete h (handles v) /\ regions v' = regions v /\ allocations v' = allocations v /\
  (owns v o = 0 \/ other_handle v h o -> owned v' = owned v).

(** A wait that ends with [WAIT_ABANDONED] has acquired the mutex, too; one
    without a time limit does not end with [WAIT_TIMEOUT]; a region is as large
    as the part mapped, or larger. *)
Class Win32Laws (W : Type) `{Win32 W} := {
  wview_of : W -> wview;
  owned_pos w o n : owned (wview_of w) !! o = Some n -> 0 < n;
  owned_open w o n : owned (wview_of w) !! o = Some n -> exists h, handles (wview_of w) !! h = Some (KMutex o);
  FormatMessageA_law code w : returns (FormatMessageA code) (fun r w' =>
    match r.1 with
    | Some a => (a ∉ allocations (wview_of w)) /\ wview_of w' = set_allocations (fun s => {[a]} ∪ s) (wview_of w)
    | None => wview_of w' = wview_of w
    end) w;
  LocalFree_law a w : a ∈ allocations (wview_of w) ->
    returns (LocalFree a) (fun _ w' => wview_of w' = set_allocations (.∖ {[a]}) (wview_of w)) w;
  CreateMutexA_law name w : returns (CreateMutexA name) (fun r w' =>
    match r with
    | Some h => handles (wview_of w) !! h = None /\ exists o, wview_of w' = set_handles <[h := KMutex o]> (wview_of w)
    | None => wview_of w' = wview_of w
    end) w;
  WaitForSingleObject_law h o w : handles (wview_of w) !! h = Some (KMutex o) ->
    returns (WaitForSingleObject h) (fun r w' =>
      match r with
      | WAIT_OBJECT_0 | WAIT_ABANDONED => wview_of w' = set_owns o (owns (wview_of w) o + 1) (wview_of w)
      | WAIT_FAILED => wview_of w' = wview_of w
      | WAIT_TIMEOUT => False
      end) w;
  ReleaseMutex_law h o w : handles (wview_of w) !! h = Some (KMutex o) ->
    returns (ReleaseMutex h) (fun ok w' => ok = bool_decide (0 < owns (wview_of w) o) /\
      wview_of w' = if (ok : bool) then set_owns o (owns (wview_of w) o - 1) (wview_of w) else wview_of w) w;
  CreateFileMappingA_law high low name w : returns (CreateFileMappingA high low name) (fun r w' =>
    match r with
    | Some h => handles (wview_of w) !! h = None /\ wview_of w' = set_handles <[h := KSection]> (wview_of w)
    | None => wview_of w' = wview_of w
    end) w;
  OpenFileMappingA_law name w : returns (OpenFileMappingA name) (fun r w' =>
    match r with
    | Some h => handles (wview_of w) !! h = None /\ wview_of w' = set_handles <[h := KSection]> (wview_of w)
    | None => wview_of w' = wview_of w
    end) w;
  MapViewOfFile_law h size w : handles (wview_of w) !! h = Some KSection ->
    returns (MapViewOfFile h size) (fun r w' =>
      match r with
      | Some a => regions (wview_of w) !! a = None /\ exists n, size <= n /\ wview_of w' = set_regions <[a := n]> (wview_of w)
      | None => wview_of w' = wview_of w
      end) w;
  UnmapViewOfFile_law a w : is_Some (regions (wview_of w) !! a) ->
    returns (UnmapViewOfFile a) (fun _ w' => wview_of w' = set_regions (delete a) (wview_of w)) w;
  VirtualQuery_law a n w : regions (wview_of w) !! a = Some n ->
    returns (VirtualQuery a) (fun r w' => r = n /\ wview_of w' = wview_of w) w;
  CloseHandle_section_law h w : handles (wview_of w) !! h = Some KSection ->
    returns (CloseHandle h) (fun _ w' => wview_of w' = set_handles (delete h) (wview_of w)) w;
  CloseHandle_mutex_law h o w : handles (wview_of w) !! h = Some (KMutex o) ->
    returns (CloseHandle h) (fun _ w' => closed_mutex (wview_of w) h o (wview_of w')) w;
}.

Section windows_resources.
Context {W : Type} `{Win32Laws W}.
Implicit Types (w : W) (v : wview).

Lemma format_attempts_spec attempts message w :
  returns (format_attempts attempts message) (fun _ w' => wview_of w' = wview_of w) w.
Proof.
  revert message w. induction attempts as [|attempts IH]; intros message w; simpl; [by apply returns_ret|].
  eapply returns_bind; [by apply (returns_ret w (fun a w' => a = w /\ w' = w))|]. intros ? ? [-> ->].
  eapply returns_bind; [apply FormatMessageA_law|]. intros [[a|] text] w1; simpl.
  - intros [Ha Hv1]. eapply returns_bind; [apply LocalFree_law; rewrite Hv1; simpl; set_solver|]. intros ? w2 Hv2.
    eapply returns_mono; [apply IH|]. intros ? w3 ->. rewrite Hv2, Hv1. destruct (wview_of w). unfold set_allocations. simpl in *.
    f_equal. set_solver.
  - intros Hv1. eapply returns_bind; [by apply (returns_ret tt (fun _ w' => w' = w1))|]. intros ? ? ->.
    eapply returns_mono; [apply IH|]. intros ? w3 ->. done.
Qed.

(** The message is never empty and its buffers are freed. *)
Lemma get_last_windows_error_message_spec w :
  returns get_last_windows_error_message (fun message w' => message <> [] /\ wview_of w' = wview_of w) w.
Proof.
  eapply returns_bind; [apply format_attempts_spec|]. intros message w1 Hv1. apply returns_ret.
  split; [by case_bool_decide|done].
Qed.

Lemma raise_with_message_spec {A} what id w (Q : outcome A -> W -> Prop) :
  (forall e w', exn_class e = runtime_error -> wview_of w' = wview_of w -> Q (Throw e) w') ->
  wp (raise_with_message what id) Q w.
Proof. intros HQ. eapply wp_call; [apply get_last_windows_error_message_spec|]. intros ? w' [_ Hv]. by apply wp_raise, HQ. Qed.

Lemma win_mutex_new_spec name w :
  wp (win_mutex_new name) (fun r w' =>
    match r with
    | Ok h => handles (wview_of w) !! h = None /\ CreateMutexA name w = (Ok (Some h), w') /\
        exists o, wview_of w' = set_handles <[h := KMutex o]> (wview_of w)
    | Throw e => exn_class e = system_error /\ wview_of w' = wview_of w
    | UB => False
    end) w.
Proof.
  unfold win_mutex_new. case_bool_decide; [done|]. eapply wp_call; [apply returns_call, CreateMutexA_law|].
  intros [h|] w1 [E Hv1]; [|done]. destruct Hv1 as [Hh Ho]. by apply wp_ret.
Qed.

Lemma create_section_spec name id size w :
  wp (create_section name id size) (fun r w' =>
    match r with
    | Ok h => handles (wview_of w) !! h = None /\ wview_of w' = set_handles <[h := KSection]> (wview_of w)
    | Throw e => exn_class e = runtime_error /\ wview_of w' = wview_of w
    | UB => False
    end) w.
Proof.
  unfold create_section. eapply wp_call; [apply CreateFileMappingA_law|]. intros [h|] w1 Hv1; [by apply wp_ret|].
  eapply wp_bind, wp_ret. case_bool_decide.
  - eapply wp_call; [apply OpenFileMappingA_law|]. rewrite Hv1. intros [h|] w2 Hv2; [by apply wp_ret|].
    apply raise_with_message_spec. by rewrite Hv2.
  - apply raise_with_message_spec. by rewrite Hv1.
Qed.

Lemma map_section_spec name id size w :
  wp (map_section name id size) (fun r w' =>
    match r with
    | Ok (h, a) => handles (wview_of w) !! h = None /\ regions (wview_of w) !! a = None /\
        exists n, size <= n /\ wview_of w' = set_regions <[a := n]> (set_handles <[h := KSection]> (wview_of w))
    | Throw e => exn_class e = runtime_error /\ wview_of w' = wview_of w
    | UB => False
    end) w.
Proof.
  eapply wp_bind, wp_mono; [apply create_section_spec|]. intros [h|e|] w1; [|done..]. intros [Hh Hv1].
  assert (handles (wview_of w1) !! h = Some KSection) as Hs by (rewrite Hv1; apply lookup_insert_eq).
  eapply wp_call; [by apply MapViewOfFile_law|]. intros [a|] w2 Hv2.
  - destruct Hv2 as (Ha & n & Hn & Hv2). apply wp_ret. rewrite Hv1 in Ha, Hv2. simpl in Ha. eauto.
  - eapply wp_call; [apply CloseHandle_section_law; by rewrite Hv2|]. intros ? w3 Hv3.
    apply raise_with_message_spec. intros e w' He Hv'. split; [done|]. rewrite Hv', Hv3, Hv2, Hv1.
    destruct (wview_of w). unfold set_handles. simpl in *. by rewrite delete_insert_id.
Qed.

(** Counting up and down again. *)
Lemma owned_again w o n m :
  n = owns (wview_of w) o -> m = n + 1 -> with_count o n (with_count o m (owned (wview_of w))) = owned (wview_of w).
Proof.
  intros -> ->. unfold with_count, owns. destruct (owned (wview_of w) !! o) as [c|] eqn:E; simpl.
  - pose proof (owned_pos w o c E). rewrite !bool_decide_eq_false_2 by lia. rewrite insert_insert_eq. by apply insert_id.
  - rewrite delete_insert_id; [done|done].
Qed.

Lemma owns_nonneg w o : 0 <= owns (wview_of w) o.
Proof. unfold owns. destruct (owned (wview_of w) !! o) as [c|] eqn:E; simpl; [|done]. pose proof (owned_pos w o c E). lia. Qed.

Lemma owns_set o n v : owns (set_owns o n v) o = n.
Proof. unfold owns, set_owns, with_count. simpl. case_bool_decide as Hn; [by rewrite lookup_delete_eq|by rewrite lookup_insert_eq]. Qed.

(** What runs under the lock runs with the mutex owned once more; afterwards it
    is owned as often as before.  A wait that finds the mutex abandoned throws
    and has acquired it; one that fails goes unnoticed, until a mutex that the
    thread does not own is to be released. *)
Lemma win_guarded_spec {A} m o (body : M W A) (Q : outcome A -> W -> Prop) w :
  handles (wview_of w) !! m = Some (KMutex o) ->
  (forall w1, wview_of w1 = set_owns o (owns (wview_of w) o + 1) (wview_of w) ->
     wp body (fun r w2 => r <> UB /\ handles (wview_of w2) !! m = Some (KMutex o) /\ owned (wview_of w2) = owned (wview_of w1) /\
       forall w', wview_of w' = WView (handles (wview_of w2)) (regions (wview_of w2)) (owned (wview_of w)) (allocations (wview_of w2)) ->
         Q r w') w1) ->
  (forall e w', WaitForSingleObject m w = (Ok WAIT_ABANDONED, w') -> exn_class e = system_error ->
     wview_of w' = set_owns o (owns (wview_of w) o + 1) (wview_of w) -> Q (Throw e) w') ->
  (forall w1, wview_of w1 = wview_of w ->
     wp body (fun _ w2 => handles (wview_of w2) !! m = Some (KMutex o) /\ owned (wview_of w2) = owned (wview_of w)) w1) ->
  ((exists w1, WaitForSingleObject m w = (Ok WAIT_FAILED, w1)) ->
     forall r w', (owns (wview_of w) o = 0 -> r = UB) -> Q r w') ->
  wp (win_guarded m body) Q w.
Proof.
  intros Hm Hbody Habandoned Hunowned Hfailed. apply wp_bind. eapply wp_call; [by apply returns_call, (WaitForSingleObject_law m o)|].
  intros [] w1 [E Hv1]; [|by apply wp_raise, Habandoned|done|].
  2:{ apply wp_ret, wp_on_exit. eapply wp_mono; [by apply Hunowned|]. intros r w2 [Hm2 Ho2].
      assert (wp (win_mutex_unlock m) (fun c w'' => match c with Ok _ => Q r w'' | _ => Q UB w'' end) w2 /\
              forall w3, Q UB w3) as [Hu Hub].
      2:{ destruct r; [done|done|apply Hub]. }
      split; [|intros w3; by apply Hfailed; [eexists|]].
      eapply wp_call; [by apply (ReleaseMutex_law m o)|]. intros ok w3 [-> _].
      assert (owns (wview_of w2) o = owns (wview_of w) o) as -> by (unfold owns; by rewrite Ho2). case_bool_decide as Hc.
      - apply wp_ret, Hfailed; [by eexists|lia].
      - apply wp_raise, Hfailed; [by eexists|done]. }
  apply wp_ret, wp_on_exit. eapply wp_mono; [by apply Hbody|]. intros r w2 (Hr & Hm2 & Ho2 & HQ).
  enough (wp (win_mutex_unlock m) (fun c w'' => match c with Ok _ => Q r w'' | _ => Q UB w'' end) w2) by (destruct r; done).
  eapply wp_call; [by apply (ReleaseMutex_law m o)|].
  assert (owns (wview_of w2) o = owns (wview_of w) o + 1) as Hc by (unfold owns at 1; rewrite Ho2, Hv1; apply owns_set).
  rewrite Hc. pose proof (owns_nonneg w o). intros ok w3 [-> Hv3]. rewrite bool_decide_eq_true_2 in * by lia.
  apply wp_ret, HQ. rewrite Hv3. unfold set_owns. rewrite Ho2, Hv1, Z.add_simpl_r. simpl. by rewrite owned_again.
Qed.

(** The process in [v], and in [v'] with the segment [s] besides. *)
Definition section_open (s : win_shared_memory) (size : Z) v v' : Prop :=
  exists o n, handles v !! ws_mutex s = None /\ handles v !! ws_shared_memory s = None /\ ws_mutex s <> ws_shared_memory s /\
    regions v !! ws_region s = None /\ size <= n /\
    (owns v o = 0 \/ exists h, handles v !! h = Some (KMutex o)) /\
    v' = WView (<[ws_shared_memory s := KSection]> (<[ws_mutex s := KMutex o]> (handles v)))
           (<[ws_region s := n]> (regions v)) (owned v) (allocations v).

(** How the wait for the new mutex ends. *)
Definition new_mutex_wait (id : bytes) (r : wait_result) w : Prop :=
  exists h w1 w2, CreateMutexA (str "m_" ++ id) w = (Ok (Some h), w1) /\ WaitForSingleObject h w1 = (Ok r, w2).

Definition same_resources v v' : Prop :=
  handles v' = handles v /\ regions v' = regions v /\ allocations v' = allocations v.

Lemma owned_or_open w o : owns (wview_of w) o = 0 \/ exists h, handles (wview_of w) !! h = Some (KMutex o).
Proof.
  unfold owns. destruct (owned (wview_of w) !! o) as [n|] eqn:E; [|by left]. right. by eapply owned_open.
Qed.

(** Closing the handle to a mutex that was opened in [v]. *)
Lemma win_mutex_delete_spec m o v w (Q : outcome unit -> W -> Prop) :
  handles v !! m = None -> handles (wview_of w) = <[m := KMutex o]> (handles v) ->
  (forall w', handles (wview_of w') = handles v -> regions (wview_of w') = regions (wview_of w) ->
     allocations (wview_of w') = allocations (wview_of w) ->
     (owns (wview_of w) o = 0 \/ (exists h, handles v !! h = Some (KMutex o)) -> owned (wview_of w') = owned (wview_of w)) ->
     Q (Ok tt) w') ->
  wp (win_mutex_delete m) Q w.
Proof.
  intros Hm Hh HQ. eapply wp_call; [apply (CloseHandle_mutex_law m o); rewrite Hh; apply lookup_insert_eq|].
  intros ? w' (Hh' & Hr & Ha & Ho). apply wp_ret, HQ; [by rewrite Hh', Hh, delete_insert_id|done..|].
  intros [Hz|[h Hopen]]; apply Ho; [by left|right]. exists h. rewrite Hh. split; [congruence|].
  rewrite lookup_insert_ne; [done|congruence].
Qed.

Lemma win_new_spec id size w :
  wp (win_shared_memory_new id size) (fun r w' =>
    (new_mutex_wait id WAIT_FAILED w /\ (owned (wview_of w) = ∅ -> r = UB)) \/
    match r with
    | Ok s => section_open s size (wview_of w) (wview_of w')
    | Throw e => (exn_class e = system_error \/ exn_class e = runtime_error) /\ same_resources (wview_of w) (wview_of w') /\
        (owned (wview_of w') = owned (wview_of w) \/ exn_class e = system_error /\ new_mutex_wait id WAIT_ABANDONED w)
    | UB => False
    end) w.
Proof.
  unfold win_shared_memory_new. eapply wp_bind, wp_mono; [apply win_mutex_new_spec|].
  intros [m|e|] w1; [|intros [He Hv1]; right; unfold same_resources; rewrite Hv1; by auto 8|done]. intros (Hm & E & o & Hv1).
  pose proof (owned_or_open w o) as Hopen.
  apply wp_on_throw, (win_guarded_spec m o); [rewrite Hv1; apply lookup_insert_eq|..].
  - intros w2 Hv2. eapply wp_bind, wp_mono; [apply map_section_spec|]. rewrite Hv2, Hv1.
    intros [[h a]|e|] w3 Hw3; [|destruct Hw3 as [He Hv3]|done].
    + destruct Hw3 as (Hh & Ha & n & Hn & Hv3). cbn [handles set_handles set_owns] in Hh. apply lookup_insert_None in Hh as [Hh Hne].
      apply wp_ret. split; [done|]. rewrite Hv3. simpl. split; [by rewrite lookup_insert_ne, lookup_insert_eq|]. split; [done|].
      intros w' ->. right. exists o, n. by split_and!.
    + split; [done|]. rewrite Hv3. simpl. split; [apply lookup_insert_eq|]. split; [done|]. intros w' Hv'. simpl in Hv'.
      apply (win_mutex_delete_spec m o (wview_of w)); [done|by rewrite Hv'|]. rewrite Hv'. simpl. intros w4 Hh4 Hr4 Ha4 Ho4. right.
      split_and!; [by right|done..|]. left. apply Ho4. exact Hopen.
  - intros e w2 E2 He Hv2. apply (win_mutex_delete_spec m o (wview_of w)); [done|by rewrite Hv2, Hv1|].
    rewrite Hv2, Hv1. simpl. intros w4 Hh4 Hr4 Ha4 _. right. split_and!; [by left|done..|]. right. split; [done|]. by exists m, w1, w2.
  - intros w2 Hv2. eapply wp_bind, wp_mono; [apply map_section_spec|]. rewrite Hv2, Hv1.
    intros [[h a]|e|] w3 Hw3; [|destruct Hw3 as [He Hv3]|done].
    + destruct Hw3 as (Hh & Ha & n & Hn & Hv3). cbn [handles set_handles] in Hh. apply lookup_insert_None in Hh as [Hh Hne].
      apply wp_ret. rewrite Hv3. simpl. by rewrite lookup_insert_ne, lookup_insert_eq.
    + rewrite Hv3. split; [apply lookup_insert_eq|done].
  - intros [w2 E2] r w' Hub. assert (new_mutex_wait id WAIT_FAILED w) by by exists m, w1, w2.
    assert (owned (wview_of w) = ∅ -> r = UB) as Hub'.
    { intros He. apply Hub. rewrite Hv1. unfold owns. simpl. by rewrite He. }
    destruct r as [s|e|]; [by left| |by left].
    assert (owned (wview_of w) = ∅ -> False) by (intros He; by specialize (Hub' He)).
    unfold wp. destruct (win_mutex_delete m w') as [[] ?]; left; (split; [done|intros He; exfalso; auto]).
Qed.

Lemma win_delete_spec s size v w :
  section_open s size v (wview_of w) ->
  (exists w', win_shared_memory_delete s w = (Ok tt, w') /\ wview_of w' = v) \/
  exists r w', WaitForSingleObject (ws_mutex s) w = (Ok r, w') /\
    (r = WAIT_ABANDONED /\ (win_shared_memory_delete s w).1 = UB \/
     r = WAIT_FAILED /\ (owned (wview_of w) = ∅ -> (win_shared_memory_delete s w).1 = UB)).
Proof.
  intros (o & n & Hm & Hh & Hne & Hr & Hn & Hopen & Hv).
  enough (wp (win_shared_memory_delete s) (fun r w' =>
    (r = Ok tt /\ wview_of w' = v) \/
    (exists w1, WaitForSingleObject (ws_mutex s) w = (Ok WAIT_ABANDONED, w1)) /\ r = UB \/
    (exists w1, WaitForSingleObject (ws_mutex s) w = (Ok WAIT_FAILED, w1)) /\ (owned (wview_of w) = ∅ -> r = UB)) w) as Hwp.
  { unfold wp in Hwp. destruct (win_shared_memory_delete s w) as [r w'].
    destruct Hwp as [[-> Hv']|[[[w1 E] ->]|[[w1 E] Hub]]]; [left|right..]; eauto 8. }
  apply wp_bind. unfold wp, try_catch.
  enough (wp (win_guarded (ws_mutex s) (_ ← UnmapViewOfFile (ws_region s); _ ← CloseHandle (ws_shared_memory s); mret tt))
    (fun r w' => ((exists w1, WaitForSingleObject (ws_mutex s) w = (Ok WAIT_FAILED, w1)) /\
        (owned (wview_of w) = ∅ -> r = UB)) \/
      match r with
      | Ok _ => wview_of w' = set_handles <[ws_mutex s := KMutex o]> v
      | Throw e => exn_class e = system_error /\ exists w1, WaitForSingleObject (ws_mutex s) w = (Ok WAIT_ABANDONED, w1)
      | UB => False
      end) w) as Hg.
  { unfold wp in Hg. destruct (win_guarded _ _ w) as [[[]|e|] w1].
    - destruct Hg as [[Hf Hub]|Hv1].
      { destruct (win_mutex_delete _ _). right; right. split; [done|]. intros He. by specialize (Hub He). }
      apply (win_mutex_delete_spec (ws_mutex s) o v); [done|by rewrite Hv1|]. rewrite Hv1. simpl. intros w2 Hh2 Hr2 Ha2 Ho2.
      left. split; [done|]. destruct (wview_of w2), v. simpl in *. subst. by rewrite Ho2.
    - destruct Hg as [[Hf Hub]|[He Ha]].
      { destruct (catches std_system_error e); simpl; right; right; (split; [done|]); intros He; by specialize (Hub He). }
      unfold catches. rewrite He. simpl. auto.
    - destruct Hg as [[? _]|[]]. auto. }
  apply (win_guarded_spec (ws_mutex s) o); [rewrite Hv; simpl; by rewrite lookup_insert_ne, lookup_insert_eq| | | |].
  - intros w1 Hv1. eapply wp_call; [apply UnmapViewOfFile_law; rewrite Hv1, Hv; simpl; rewrite lookup_insert_eq; eauto|].
    intros ? w2 Hv2. eapply wp_call; [apply CloseHandle_section_law; rewrite Hv2, Hv1, Hv; apply lookup_insert_eq|].
    intros ? w3 Hv3. apply wp_ret. split; [done|]. rewrite Hv3, Hv2, Hv1, Hv. simpl.
    rewrite delete_insert_id by (by rewrite lookup_insert_ne). split; [apply lookup_insert_eq|]. split; [done|].
    intros w' ->. right. rewrite delete_insert_id by done. done.
  - intros e w' E He _. right. eauto.
  - intros w1 Hv1. eapply wp_call; [apply UnmapViewOfFile_law; rewrite Hv1, Hv; simpl; rewrite lookup_insert_eq; eauto|].
    intros ? w2 Hv2. eapply wp_call; [apply CloseHandle_section_law; rewrite Hv2, Hv1, Hv; apply lookup_insert_eq|].
    intros ? w3 Hv3. apply wp_ret. rewrite Hv3, Hv2, Hv1, Hv. simpl.
    rewrite delete_insert_id by (by rewrite lookup_insert_ne). split; [apply lookup_insert_eq|done].
  - intros Hf r w' Hub. left. split; [done|]. intros He. apply Hub. unfold owns. by rewrite He.
Qed.
End windows_resources.

(** ** Properties *)

(** C24. Resources of a shared memory segment on Windows.  If the wait for the new
    mutex fails (WAIT_FAILED), the code does not notice and makes the segment
    unprotected; in a thread that owns no mutex the release that follows then
    throws out of a destructor (undefined: [failed_wait_unnoticed] is such a run).
    Otherwise, whatever other call fails, the constructor returns a segment with one handle for its mutex, one
    for the mapping and one view of at least the size asked for; or it throws,
    with every handle and view given back and the mutex released, except when it
    was found abandoned: then the thread still owns it.  The buffers of error
    messages are freed.  Destruction gives everything back, if its own wait ends
    with the mutex; when it finds the mutex abandoned it fails an assertion
    (undefined), and when it fails, what follows is as above. *)
Theorem windows_memory_resources {W} `{Win32Laws W} id size (w w' : W) r :
  win_shared_memory_new id size w = (r, w') ->
  new_mutex_wait id WAIT_FAILED w /\ (owned (wview_of w) = ∅ -> r = UB) \/
  match r with
  | Ok s =>
      section_open s size (wview_of w) (wview_of w') /\
      (exists n w2, win_capacity s w' = (Ok n, w2) /\ size <= n /\ wview_of w2 = wview_of w') /\
      forall w1, wview_of w1 = wview_of w' ->
        (exists w2, win_shared_memory_delete s w1 = (Ok tt, w2) /\ wview_of w2 = wview_of w) \/
        exists r w2, WaitForSingleObject (ws_mutex s) w1 = (Ok r, w2) /\
          (r = WAIT_ABANDONED /\ (win_shared_memory_delete s w1).1 = UB \/
           r = WAIT_FAILED /\ (owned (wview_of w1) = ∅ -> (win_shared_memory_delete s w1).1 = UB))
  | Throw e =>
      (exn_class e = system_error \/ exn_class e = runtime_error) /\ same_resources (wview_of w) (wview_of w') /\
      (owned (wview_of w') = owned (wview_of w) \/ exn_class e = system_error /\ new_mutex_wait id WAIT_ABANDONED w)
  | UB => False
  end.
Proof.
  intros E. pose proof (win_new_spec id size w) as Hs. unfold wp in Hs. rewrite E in Hs.
  destruct Hs as [|Hs]; [by left|right]. destruct r as [s|e|]; [|done..]. split; [done|]. split.
  - destruct Hs as (o & n & _ & _ & _ & _ & Hn & _ & Hv).
    destruct (VirtualQuery_law (ws_region s) n w') as (? & w2 & E2 & -> & Hv2); [rewrite Hv; apply lookup_insert_eq|].
    by exists n, w2.
  - intros w1 Hw1. eapply win_delete_spec. by rewrite Hw1.
Qed.

(** ** A kernel with one thread *)

(** [wk_names]: the mutexes by name; [wk_waits]: how the next waits end, if not
    with [WAIT_OBJECT_0]; [wk_pages]: how many views can still be mapped. *)
Record wkernel := WKernel {
  wk_names : gmap bytes Z;
  wk_view : wview;
  wk_error : Z;
  wk_waits : list wait_result;
  wk_pages : nat;
}.

Definition is_open (h : gmap Z kobject) (o : Z) : bool :=
  existsb (fun p => match p.2 with KMutex o' => o' =? o | KSection => false end) (map_to_list h).

(** Only mutexes with an open handle are owned. *)
Definition wview_ok (v : wview) : Prop := map_Forall (fun o n => 0 < n /\ is_open (handles v) o = true) (owned v).
#[export] Instance wview_ok_dec v : Decision (wview_ok v).
Proof. unfold wview_ok. apply _. Defined.

Definition no_wview : wview := WView ∅ ∅ ∅ ∅.
Definition wkernel_view (k : wkernel) : wview := if decide (wview_ok (wk_view k)) then wk_view k else no_wview.

Definition with_view (v : wview) (error : Z) (k : wkernel) : wkernel := WKernel (wk_names k) v error (wk_waits k) (wk_pages k).

(** A number above all of a list. *)
Definition above (l : list Z) : Z := 1 + foldr Z.max 0 l.

Lemma above_fresh l : above l ∉ l.
Proof.
  enough (Forall (fun z => z < above l) l) as Hl by (intros Hin; exact (Z.lt_irrefl _ (proj1 (Forall_forall _ _) Hl _ Hin))).
  unfold above. induction l as [|z l IH]; constructor; simpl; [lia|]. eapply Forall_impl; [exact IH|]. simpl. intros y Hy. lia.
Qed.

Definition unused_key {A} (m : gmap Z A) : Z := above (map_to_list m).*1.
Lemma unused_key_none {A} (m : gmap Z A) : m !! unused_key m = None.
Proof.
  apply eq_None_not_Some. intros [x Hx]. apply (above_fresh (map_to_list m).*1).
  apply list_elem_of_fmap. exists (unused_key m, x). split; [done|]. by apply elem_of_map_to_list.
Qed.

(** Run in a proper state only. *)
Definition if_ok {A} (other : A) (m : M wkernel A) : M wkernel A := fun k =>
  if decide (wview_ok (wk_view k)) then m k else (Ok other, k).

Definition wk_format (code : Z) : M wkernel (option addr * bytes) :=
  if_ok (None, []) (fun k =>
    let a := above (elements (allocations (wk_view k))) in
    (Ok (Some a, str "error " ++ str (if bool_decide (code = 8) then "8" else "?")),
     with_view (set_allocations (fun s => {[a]} ∪ s) (wk_view k)) code k)).

Definition new_handle (v : wview) : Z := unused_key (handles v).

Definition wk_create_mutex (name : bytes) : M wkernel (option Z) :=
  if_ok None (fun k =>
    let h := new_handle (wk_view k) in
    let o := default (Z.of_nat (size (wk_names k))) (wk_names k !! name) in
    (Ok (Some h), WKernel (<[name := o]> (wk_names k)) (set_handles <[h := KMutex o]> (wk_view k)) 0 (wk_waits k) (wk_pages k))).

Definition mutex_of (h : Z) (v : wview) : Z := match handles v !! h with Some (KMutex o) => o | _ => 0 end.

Definition wk_wait (h : Z) : M wkernel wait_result := fun k =>
  let o := mutex_of h (wk_view k) in
  let r := match wk_waits k with WAIT_ABANDONED :: _ => WAIT_ABANDONED | WAIT_FAILED :: _ => WAIT_FAILED | _ => WAIT_OBJECT_0 end in
  let v := match r with WAIT_FAILED => wk_view k | _ => set_owns o (owns (wk_view k) o + 1) (wk_view k) end in
  (Ok r, WKernel (wk_names k) v (wk_error k) (tail (wk_waits k)) (wk_pages k)).

Definition wk_release (h : Z) : M wkernel bool := fun k =>
  let o := mutex_of h (wk_view k) in
  if bool_decide (0 < owns (wk_view k) o) then (Ok true, with_view (set_owns o (owns (wk_view k) o - 1) (wk_view k)) (wk_error k) k)
  else (Ok false, with_view (wk_view k) 288 k).

Definition wk_create_section (name : bytes) : M wkernel (option Z) :=
  if_ok None (fun k =>
    let h := new_handle (wk_view k) in (Ok (Some h), with_view (set_handles <[h := KSection]> (wk_view k)) 0 k)).

(** Views start at addresses of their own and have whole pages of 4096 bytes. *)
Definition wk_map (h size : Z) : M wkernel (option addr) := fun k =>
  match wk_pages k with
  | O => (Ok None, with_view (wk_view k) 8 k)
  | Datatypes.S n =>
      let a := unused_key (regions (wk_view k)) in
      (Ok (Some a), WKernel (wk_names k) (set_regions <[a := (size + 4095) / 4096 * 4096]> (wk_view k)) 0 (wk_waits k) n)
  end.

Definition wk_close (h : Z) : M wkernel bool := fun k =>
  let v := set_handles (delete h) (wk_view k) in
  (Ok true, with_view (match handles (wk_view k) !! h with
                       | Some (KMutex o) => if is_open (handles v) o then v else set_owns o 0 v
                       | _ => v
                       end) (wk_error k) k).

#[export] Instance wkernel_win32 : Win32 wkernel := {|
  GetLastError := wk_error;
  system_message _ := "message"%string;
  FormatMessageA := wk_format;
  LocalFree a k := (Ok tt, with_view (set_allocations (.∖ {[a]}) (wk_view k)) (wk_error k) k);
  CreateMutexA := wk_create_mutex;
  WaitForSingleObject := wk_wait;
  ReleaseMutex := wk_release;
  CreateFileMappingA _ _ := wk_create_section;
  OpenFileMappingA := wk_create_section;
  MapViewOfFile := wk_map;
  UnmapViewOfFile a k := (Ok true, with_view (set_regions (delete a) (wk_view k)) (wk_error k) k);
  VirtualQuery a k := (Ok (default 0 (regions (wk_view k) !! a)), k);
  CloseHandle := wk_close;
|}.

Lemma is_open_spec h o : is_open h o = true <-> exists x, h !! x = Some (KMutex o).
Proof.
  unfold is_open. rewrite existsb_exists. split.
  - intros ([x []] & Hin & Ho); [|done]. apply list_elem_of_In, elem_of_map_to_list in Hin. simpl in Ho.
    apply Z.eqb_eq in Ho as ->. eauto.
  - intros [x Hx]. exists (x, KMutex o). split; [by apply list_elem_of_In, elem_of_map_to_list|apply Z.eqb_refl].
Qed.

Lemma wkernel_view_ok k : wview_ok (wk_view k) -> wkernel_view k = wk_view k.
Proof. intros Hk. unfold wkernel_view. by rewrite decide_True. Qed.

Lemma wkernel_view_some k h x :
  handles (wkernel_view k) !! h = Some x -> wview_ok (wk_view k) /\ wkernel_view k = wk_view k.
Proof. unfold wkernel_view. by case_decide. Qed.

Lemma ok_insert v h x : handles v !! h = None -> wview_ok v -> wview_ok (set_handles <[h := x]> v).
Proof.
  intros Hh Hv o n Ho. destruct (Hv o n Ho) as [Hn Hopen]. split; [done|].
  apply is_open_spec in Hopen as [y Hy]. apply is_open_spec. exists y. simpl. rewrite lookup_insert_ne; [done|congruence].
Qed.

Lemma ok_owns v o n : 0 <= n -> is_open (handles v) o = true -> wview_ok v -> wview_ok (set_owns o n v).
Proof.
  intros Hn Ho Hv o' n'. unfold set_owns, with_count. simpl. case_bool_decide.
  - intros [_ Ho']%lookup_delete_Some. by apply Hv.
  - intros [[<- <-]|[_ Ho']]%lookup_insert_Some; [split; [lia|done]|by apply Hv].
Qed.

(** A handle goes; the mutexes owned must have another one. *)
Lemma ok_delete v h :
  wview_ok v -> (forall o n, owned v !! o = Some n -> handles v !! h = Some (KMutex o) -> is_open (delete h (handles v)) o = true) ->
  wview_ok (set_handles (delete h) v).
Proof.
  intros Hv Hh o n Ho. destruct (Hv o n Ho) as [Hn Hopen]. split; [done|]. simpl.
  apply is_open_spec in Hopen as [y Hy]. destruct (decide (y = h)) as [->|]; [by eapply Hh|].
  apply is_open_spec. exists y. by rewrite lookup_delete_ne.
Qed.

Lemma mutex_of_some v h o : handles v !! h = Some (KMutex o) -> mutex_of h v = o.
Proof. unfold mutex_of. by intros ->. Qed.

Lemma owns_ok v o : wview_ok v -> 0 <= owns v o.
Proof. intros Hv. unfold owns. destruct (owned v !! o) as [n|] eqn:E; simpl; [|done]. destruct (Hv o n E). lia. Qed.

Lemma wk_section_law name k : returns (wk_create_section name) (fun r k' =>
  match r with
  | Some h => handles (wkernel_view k) !! h = None /\ wkernel_view k' = set_handles <[h := KSection]> (wkernel_view k)
  | None => wkernel_view k' = wkernel_view k
  end) k.
Proof.
  unfold returns, wk_create_section, if_ok. case_decide as Hk; [|by eexists _, _]. eexists _, _. split; [done|].
  rewrite (wkernel_view_ok k) by done. split; [apply unused_key_none|].
  apply wkernel_view_ok, ok_insert; [apply unused_key_none|done].
Qed.

Lemma wk_wait_law h o k : handles (wkernel_view k) !! h = Some (KMutex o) ->
  returns (wk_wait h) (fun r k' =>
    match r with
    | WAIT_OBJECT_0 | WAIT_ABANDONED => wkernel_view k' = set_owns o (owns (wkernel_view k) o + 1) (wkernel_view k)
    | WAIT_FAILED => wkernel_view k' = wkernel_view k
    | WAIT_TIMEOUT => False
    end) k.
Proof.
  intros Hh. destruct (wkernel_view_some k h _ Hh) as [Hk E]. rewrite E in *. unfold returns, wk_wait.
  rewrite (mutex_of_some _ _ _ Hh). pose proof (owns_ok _ o Hk).
  assert (wview_ok (set_owns o (owns (wk_view k) o + 1) (wk_view k))) by (apply ok_owns; [lia|apply is_open_spec; eauto|done]).
  destruct (wk_waits k) as [|[] ?]; eexists _, _; (split; [done|]); by apply (wkernel_view_ok (WKernel _ _ _ _ _)).
Qed.

Lemma wk_close_mutex_law h o k : handles (wkernel_view k) !! h = Some (KMutex o) ->
  returns (wk_close h) (fun _ k' => closed_mutex (wkernel_view k) h o (wkernel_view k')) k.
Proof.
  intros Hh. destruct (wkernel_view_some k h _ Hh) as [Hk E]. rewrite E in *. unfold returns, wk_close. rewrite Hh.
  eexists _, _. split; [done|]. destruct (is_open (delete h (handles (wk_view k))) o) eqn:Eo; simpl; rewrite Eo.
  - rewrite wkernel_view_ok; [done|]. simpl. apply ok_delete; [done|]. intros o' n Ho' Hh'. by simplify_eq.
  - assert (wview_ok (set_owns o 0 (set_handles (delete h) (wk_view k)))) as Hok.
    { intros o' n. unfold set_owns, with_count. simpl. intros [Hne Ho']%lookup_delete_Some. destruct (Hk o' n Ho') as [Hn Hopen].
      split; [done|]. apply is_open_spec in Hopen as [y Hy]. apply is_open_spec. exists y. rewrite lookup_delete_ne; [done|congruence]. }
    rewrite wkernel_view_ok by done. unfold closed_mutex. simpl. split_and!; [done..|].
    intros [Hz|(y & Hy & Ho)]; unfold with_count; simpl.
    + unfold owns in Hz. destruct (owned (wk_view k) !! o) as [n|] eqn:En; simpl in Hz; [|by apply delete_id].
      subst n. destruct (Hk o 0 En). lia.
    + exfalso. assert (is_open (delete h (handles (wk_view k))) o = true) as Hc; [|congruence].
      apply is_open_spec. exists y. by rewrite lookup_delete_ne.
Qed.

#[export] Instance wkernel_laws : Win32Laws wkernel.
Proof.
  refine (Build_Win32Laws wkernel _ wkernel_view _ _ _ _ _ _ _ _ _ _ _ _ _ _).
  - intros k o n. unfold wkernel_view. case_decide as Hk; [|done]. intros Ho. apply (Hk o n Ho).
  - intros k o n. unfold wkernel_view. case_decide as Hk; [|done]. intros Ho. apply is_open_spec, (Hk o n Ho).
  - intros code k. unfold returns. cbn. unfold wk_format, if_ok. case_decide as Hk; [|by eexists _, _].
    eexists _, _. split; [done|]. simpl. rewrite (wkernel_view_ok k) by done.
    split; [|by apply (wkernel_view_ok (WKernel _ _ _ _ _))].
    intros Ha%elem_of_elements. by eapply above_fresh.
  - intros a k Ha. eexists _, _. split; [done|]. unfold wkernel_view in *. case_decide as Hk; [|set_solver].
    by apply (wkernel_view_ok (WKernel _ _ _ _ _)).
  - intros name k. unfold returns. cbn. unfold wk_create_mutex, if_ok. case_decide as Hk; [|by eexists _, _].
    eexists _, _. split; [done|]. rewrite (wkernel_view_ok k) by done. split; [apply unused_key_none|]. eexists.
    apply (wkernel_view_ok (WKernel _ _ _ _ _)), ok_insert; [apply unused_key_none|done].
  - apply wk_wait_law.
  - intros h o k Hh. destruct (wkernel_view_some k h _ Hh) as [Hk E]. rewrite E in *. unfold returns. cbn. unfold wk_release.
    rewrite (mutex_of_some _ _ _ Hh). case_bool_decide as Ho; eexists _, _; (split; [done|]); (split; [done|]);
      apply (wkernel_view_ok (WKernel _ _ _ _ _)); [|done]. apply ok_owns; [lia|apply is_open_spec; eauto|done].
  - intros ? ? name. apply (wk_section_law name).
  - apply wk_section_law.
  - intros h n k Hh. destruct (wkernel_view_some k h _ Hh) as [Hk E]. rewrite E. unfold returns. cbn. unfold wk_map.
    destruct (wk_pages k); eexists _, _; (split; [done|]); [by apply (wkernel_view_ok (WKernel _ _ _ _ _))|].
    split; [apply unused_key_none|]. eexists. split; [|by apply (wkernel_view_ok (WKernel _ _ _ _ _))].
    pose proof (Z.div_mod (n + 4095) 4096 ltac:(lia)). pose proof (Z.mod_pos_bound (n + 4095) 4096 ltac:(lia)). lia.
  - intros a k [n Ha]. eexists _, _. split; [done|]. unfold wkernel_view in *. case_decide as Hk; [|done].
    by apply (wkernel_view_ok (WKernel _ _ _ _ _)).
  - intros a n k Ha. eexists _, _. split; [done|]. split; [|done]. unfold wkernel_view in Ha. case_decide; [|done]. simpl. by rewrite Ha.
  - intros h k Hh. destruct (wkernel_view_some k h _ Hh) as [Hk E]. rewrite E in *. unfold returns. cbn. unfold wk_close. rewrite Hh.
    eexists _, _. split; [done|]. apply (wkernel_view_ok (WKernel _ _ _ _ _)), ok_delete; [done|]. intros o n _ Ho. by simplify_eq.
  - apply wk_close_mutex_law.
Defined.

Definition empty_wkernel (waits : list wait_result) (pages : nat) : wkernel := WKernel ∅ no_wview 0 waits pages.

(** A segment of 64 bytes, in a page of its own, opened and closed again. *)
Lemma windows_memory_resources_witness :
  exists s k, win_shared_memory_new (str "demo") 64 (empty_wkernel [] 1) = (Ok s, k) /\
    exists k', win_shared_memory_delete s k = (Ok tt, k') /\ wview_of k' = no_wview.
Proof.
  set (s := WinSharedMemory 1 2 1). set (k := (win_shared_memory_new (str "demo") 64 (empty_wkernel [] 1)).2).
  assert (win_shared_memory_new (str "demo") 64 (empty_wkernel [] 1) = (Ok s, k)) as E by (vm_compute; reflexivity).
  exists s, k. split; [exact E|].
  destruct (windows_memory_resources (str "demo") 64 (empty_wkernel [] 1) k (Ok s) E) as [[Hf _]|(_ & _ & Hd)].
  { exfalso. destruct Hf as (h & w1 & w2 & E1 & E2). vm_compute in E1. injection E1 as <- <-. vm_compute in E2. discriminate E2. }
  destruct (Hd k eq_refl) as [Hdel|(r & k2 & E2 & Hr)]; [exact Hdel|].
  exfalso. vm_compute in E2. injection E2 as <- _. destruct Hr as [[Hr _]|[Hr _]]; discriminate Hr.
Defined.

Example whole_pages :
  exists s k, win_shared_memory_new (str "demo") 64 (empty_wkernel [] 1) = (Ok s, k) /\ (win_capacity s k).1 = Ok 4096.
Proof. eexists _, _. split; vm_compute; reflexivity. Qed.

(** No view can be mapped: the message is that of the error. *)
Example no_view :
  exists k, win_shared_memory_new (str "demo") 64 (empty_wkernel [] 0) =
    (Throw (Exn runtime_error "cbeam::memory::interprocess_shared_memory: Failed to map view for 'demo': error 8"), k) /\
    wview_of k = no_wview.
Proof. eexists. split; vm_compute; reflexivity. Qed.

(** ** What is not guaranteed *)

(** A wait that fails counts as a lock: the body runs, and unlocking the mutex
    throws inside the destructor of the lock guard. *)
Example failed_wait_unnoticed h :
  (win_mutex_lock h (empty_wkernel [WAIT_FAILED] 1)).1 = Ok tt /\
  (win_shared_memory_new (str "demo") 64 (empty_wkernel [WAIT_FAILED] 1)).1 = UB.
Proof. split; [reflexivity|]. vm_compute. reflexivity. Qed.

(** A mutex whose owner ended without unlocking it is acquired, but [lock] throws:
    nothing will unlock it again. *)
Example abandoned_mutex_kept :
  exists h k k', win_mutex_new (str "m") (empty_wkernel [WAIT_ABANDONED] 1) = (Ok h, k) /\
    win_mutex_lock h k = (Throw (Exn system_error "cbeam::concurrency::named_recursive_mutex::lock(): message"), k') /\
    owns (wview_of k') 0 = 1.
Proof. eexists _, _, _. split; [vm_compute; reflexivity|]. split; vm_compute; reflexivity. Qed.
