(* ===== verification/Typing.v ===== *)
(** * Typing: the values a nested map can hold

    The type invariant of [container::nested_map]: every level ordered, every
    key and value within the range of its C++ type.  [constructed] is the set
    of nested maps the library's own operations build: construction, copy
    assignment, [merge], [clear], writes to the two public maps, and
    deserialization of arbitrary bytes. *)

From S2P Require Import Prelude Errors Bytes StdMap Heap Buffer Xpod NestedMap Convert Serialization.

(** What is read back from any bytes at all is a value of the type. *)
Class TraitsTyped (T : Type) `{TraitsLaws T} :=
  deserialize_typed it v rest : deserialize it = Ok (v, rest) -> encodable v.

Lemma map_assign_all {K V} `{KeyOrderLaws K} (P : K * V -> Prop) k v m :
  P (k, v) -> Forall P m -> Forall P (map_assign k v m).
Proof.
  intros Hk. apply map_assign_Forall; [done|]. intros k' v' H1 H2 _. by rewrite (key_ltb_total k' k).
Qed.

Section typing.
Context {K V : Type} `{KeyOrderLaws K} `{!Traits K} `{!TraitsLaws K} `{!Traits V} `{!TraitsLaws V}.
Implicit Types (t : nested_map K V).

Definition entry_typed (x : K * V) : Prop := encodable x.1 /\ encodable x.2.

Inductive well_typed : nested_map K V -> Prop :=
| well_typed_intro d s :
    map_wf d -> map_wf s -> Forall entry_typed d ->
    Forall (fun x => encodable x.1) s -> Forall (fun x => well_typed x.2) s ->
    well_typed (NestedMap d s).

(** The nested maps a program can build. *)
Inductive constructed : nested_map K V -> Prop :=
| con_init init : Forall entry_typed init -> constructed (nested_init init)
| con_deserialize it t rest : direct_deserialize it = Ok (t, rest) -> constructed t
| con_assign t src t' :
    constructed t -> (forall other, src = Other other -> constructed other) ->
    nested_operator_assign t src = Ok t' -> constructed t'
| con_merge t other : constructed t -> constructed other -> constructed (nested_merge t other)
| con_clear t : constructed t -> constructed (nested_clear t)
| con_data t k v : constructed t -> encodable k -> encodable v ->
    constructed (NestedMap (map_assign k v (data t)) (sub_tables t))
| con_sub_tables t k sub : constructed t -> encodable k -> constructed sub ->
    constructed (NestedMap (data t) (map_assign k sub (sub_tables t)))
| con_erase_data t k : constructed t -> constructed (NestedMap (map_erase k (data t)).1 (sub_tables t))
| con_erase_sub_table t k : constructed t -> constructed (NestedMap (data t) (map_erase k (sub_tables t)).1)
| con_select t k sub : constructed t -> map_find k (sub_tables t) = Some sub -> constructed sub.

Lemma well_typed_inv t :
  well_typed t -> map_wf (data t) /\ map_wf (sub_tables t) /\ Forall entry_typed (data t) /\
  Forall (fun x => encodable x.1) (sub_tables t) /\ Forall (fun x => well_typed x.2) (sub_tables t).
Proof. by destruct 1. Qed.

Lemma well_typed_wf t : well_typed t -> nested_wf t.
Proof.
  induction t as [d s IH] using nested_map_rec_all. intros (Hd & Hs & _ & _ & Hsub)%well_typed_inv.
  constructor; [done..|]. rewrite Forall_forall in *. intros x Hx. by apply IH, Hsub.
Qed.

Lemma assign_all_entries {A B} (P : K * B -> Prop) (f : A -> B) (src : list (K * A)) dst :
  Forall (fun x => P (x.1, f x.2)) src -> Forall P dst -> Forall P (assign_all f src dst).
Proof.
  intros Hs. unfold assign_all. revert dst. induction Hs as [|x src Hx Hs IH]; intros dst Hd; [done|].
  by apply IH, map_assign_all.
Qed.

Lemma merge_well_typed t other : well_typed t -> well_typed other -> well_typed (nested_merge t other).
Proof.
  intros (Hd & Hs & Ht & Hk & Hsub)%well_typed_inv (Hd' & Hs' & Ht' & Hk' & Hsub')%well_typed_inv.
  constructor; [by apply assign_all_wf..| | |].
  - apply assign_all_entries; [|done]. eapply Forall_impl; [exact Ht'|]. by intros [].
  - by apply (assign_all_entries (fun x => encodable x.1)).
  - apply assign_all_Forall; [|done]. eapply Forall_impl; [exact Hsub'|].
    intros x Hx. rewrite nested_assign_id; [done|by apply well_typed_wf].
Qed.

Lemma empty_well_typed : well_typed (NestedMap [] []).
Proof. repeat constructor. Qed.

Context `{!TraitsTyped K}.

(** The loop that reads entries keeps a map ordered and typed. *)
Lemma insert_entries_typed {W} out (P : W -> Prop) (f : bytes -> outcome (W * bytes)) :
  (forall it w rest, f it = Ok (w, rest) -> P w) ->
  forall fuel n it m m' rest,
  map_wf m -> Forall (fun x => encodable x.1 /\ P x.2) m ->
  insert_entries out f fuel n it m = Ok (m', rest) ->
  map_wf m' /\ Forall (fun x : K * W => encodable x.1 /\ P x.2) m'.
Proof.
  intros Hf. induction fuel as [|fuel IH]; intros n it m m' rest Hm Hp; simpl; case_bool_decide; try (by destruct out).
  1,2: by intros [= <- _].
  inv_reads. match goal with Hi : insert_entries _ _ _ _ _ _ = _ |- _ => apply IH in Hi; [done|..] end;
    unfold map_insert; case_match; simpl; try done; [by apply map_assign_wf|].
  apply map_assign_all; [|done]. split; [by eapply deserialize_typed|by eapply Hf].
Qed.

Lemma map_deserialize_typed {W} (P : W -> Prop) (f : bytes -> outcome (W * bytes)) it m rest :
  (forall it w rest, f it = Ok (w, rest) -> P w) ->
  map_deserialize f it = Ok (m, rest) -> map_wf m /\ Forall (fun x : K * W => encodable x.1 /\ P x.2) m.
Proof.
  intros Hf. unfold map_deserialize, map_deserialize_with. inv_reads. eapply insert_entries_typed; [exact Hf|..]; [constructor|done|done].
Qed.

Context `{!TraitsTyped V}.

Lemma nested_deserialize_typed fuel it t rest : nested_deserialize fuel it = Ok (t, rest) -> well_typed t.
Proof.
  revert it t rest. induction fuel as [|fuel IH]; intros it t rest; [done|]. rewrite nested_deserialize_S. inv_reads.
  match goal with Hd : map_deserialize deserialize _ = _, Hs : map_deserialize (nested_deserialize _) _ = _ |- _ =>
    apply (map_deserialize_typed encodable) in Hd as [Hd1 Hd2]; [|intros *; apply deserialize_typed];
    apply (map_deserialize_typed well_typed) in Hs as [Hs1 [Hs2 Hs3]%Forall_and]; [|done] end.
  by constructor.
Qed.

Lemma constructed_well_typed t : constructed t -> well_typed t.
Proof.
  induction 1 as [init Hi|it t rest Hd|t src t' Ht IHt Hsrc IHsrc Ha|t other Ht IHt Ho IHo|t Ht IHt
    |t k v Ht IHt Hk Hv|t k sub Ht IHt Hk Hs IHs|t k Ht IHt|t k Ht IHt|t k sub Ht IHt Hs].
  - constructor; [apply assign_all_wf, map_wf_nil|apply map_wf_nil| |done|done].
    apply assign_all_entries; [|done]. eapply Forall_impl; [exact Hi|]. by intros [].
  - by apply nested_deserialize_typed in Hd.
  - destruct src as [other|[|]]; simplify_eq/=; [|done].
    apply merge_well_typed; [apply empty_well_typed|by apply IHsrc].
  - by apply merge_well_typed.
  - apply empty_well_typed.
  - apply well_typed_inv in IHt as (?&?&?&?&?). constructor; try done; [by apply map_assign_wf|].
    by apply map_assign_all.
  - apply well_typed_inv in IHt as (?&?&?&?&?). constructor; try done; [by apply map_assign_wf|by apply map_assign_all..].
  - apply well_typed_inv in IHt as (?&?&?&?&?). constructor; try done; [by apply map_erase_wf|by apply map_erase_keys].
  - apply well_typed_inv in IHt as (?&?&?&?&?). constructor; try done; [by apply map_erase_wf|by apply map_erase_keys..].
  - apply well_typed_inv in IHt as (?&Hw&?&?&Hsub). apply map_find_Some_elem in Hs; [|done].
    rewrite Forall_forall in Hsub. by apply (Hsub (k, sub)).
Qed.
End typing.

(** ** The types in use *)

Lemma take_size it l rest : read_bytes 8 it = Ok (l, rest) -> is_size_t (le_decode l).
Proof.
  intros [_ Hl]%read_bytes_Ok. pose proof (le_decode_range l) as Hr. rewrite Hl in Hr.
  unfold is_size_t, size_max, size_bits. simpl Z.of_nat in Hr. lia.
Qed.

Lemma sized_typed it l it1 s rest :
  read_bytes 8 it = Ok (l, it1) -> read_sized (le_decode l) it1 = Ok (s, rest) -> is_size_t (Z.of_nat (length s)).
Proof. intros Hl%take_size [_ ->]%read_sized_length; [done|apply Hl]. Qed.

#[export] Instance string_typed : TraitsTyped bytes.
Proof. intros it s rest. simpl. unfold string_deserialize. inv_reads. by eapply sized_typed. Qed.

Lemma from_string_pointer_range s p : from_string_pointer s = Ok p -> is_size_t p.
Proof.
  unfold from_string_pointer, from_string. destruct (skip_spaces s) as [|c s']; [done|]. intros [= <-].
  unfold extract_pointer. destruct (take_sign _) as [neg s1]. destruct (take_digits _ _ _ _) as [v s2].
  case_bool_decide; [unfold is_size_t, size_max, size_bits; lia|apply size_t_range].
Qed.

#[export] Instance xpod_typed : TraitsTyped xpod.
Proof.
  intros it v rest. destruct it as [|c it]; [done|].
  simpl. rewrite <- (byte_of_val c), xpod_deserialize_byte by apply byte_val_range.
  repeat case_bool_decide; inv_reads; simpl; try done.
  - match goal with Hx : read_bytes 8 _ = Ok (?l, _) |- _ => apply read_bytes_Ok in Hx as [_ Hl];
      pose proof (le_decode_signed_range l) as Hr end.
    rewrite Hl in Hr. unfold is_long_long. simpl Z.of_nat in Hr. lia.
  - by eapply take_size.
  - by eapply from_string_pointer_range.
  - by eapply sized_typed.
Qed.

Lemma signed_typed n (Hn : (0 < n)%nat) :
  @TraitsTyped Z (@trivial_traits Z (signed_trivial n)) (@trivial_laws Z (signed_trivial n) (signed_laws n Hn)).
Proof.
  intros it v rest. simpl. unfold trivial_deserialize. inv_reads.
  match goal with Hx : read_bytes _ _ = Ok (?l, _) |- _ => apply read_bytes_Ok in Hx as [_ Hl];
    pose proof (le_decode_signed_range l) as Hr end.
  simpl in *. simplify_eq. apply Hr. lia.
Qed.

(** ** Properties *)

Section typing_properties.
Context {K V : Type} `{KeyOrderLaws K} `{!Traits K} `{!TraitsLaws K} `{!Traits V} `{!TraitsLaws V}.

Lemma size_map_encode {W} (f : W -> bytes) (m : list (K * W)) :
  Forall (fun x => encodable x.1) m -> map_size m <= Z.of_nat (length (map_encode f m)).
Proof.
  intros Hk%(length_entries f). unfold map_size, map_encode. rewrite length_app, length_le_encode. lia.
Qed.

Lemma well_typed_encodable (t : nested_map K V) :
  well_typed t -> Z.of_nat (length (nested_encode t)) <= size_max -> nested_encodable t.
Proof.
  induction t as [d s IH] using nested_map_rec_all. intros (Hd & Hs & Ht & Hk & Hsub)%well_typed_inv Hl.
  cbn [nested_encode data sub_tables] in *. rewrite length_app in Hl.
  assert (Forall (fun x : K * V => encodable x.1) d) as Hkd by (eapply Forall_impl; [exact Ht|]; by intros x []).
  pose proof (size_map_encode encode d Hkd). pose proof (size_map_encode nested_encode s Hk).
  assert (forall n : Z, 0 <= n <= size_max -> is_size_t n) as Hsz by done.
  assert (0 <= map_size d /\ 0 <= map_size s) as [] by (unfold map_size; lia).
  constructor; [split; [done|split; [apply Hsz; lia|exact Ht]]|done|apply Hsz; lia|done|].
  rewrite Forall_forall in *. intros x Hx. apply IH; [done|by apply Hsub|].
  pose proof (length_entry nested_encode x s Hx). lia.
Qed.

(** C15. The type invariant of nested maps.  Every nested map a program can
    build, whether through the API, by writing to the two public maps or by
    deserializing arbitrary bytes, is ordered at every level and holds only keys
    and values of their C++ types; unless its encoding is longer than a
    [std::size_t] counts, it is one that can be serialized and read back. *)
Theorem nested_maps_typed `{!TraitsTyped K, !TraitsTyped V} (t : nested_map K V) :
  constructed t ->
  well_typed t /\ nested_wf t /\
  (Z.of_nat (length (nested_encode t)) <= size_max ->
     nested_encodable t /\
     forall rest, direct_deserialize (nested_encode t ++ rest) = Ok (t, rest)).
Proof.
  intros Ht%constructed_well_typed. split; [done|]. split; [by apply well_typed_wf|].
  intros He%well_typed_encodable; [|done]. split; [done|]. intros rest.
  pose proof (deserialize_encode t rest He) as Hd. exact Hd.
Qed.
End typing_properties.

(** A sub-table read from bytes whose entries are out of order and repeated,
    merged into another table. *)
Lemma nested_maps_typed_witness :
  let e (k z : Z) := le_encode 8 1 ++ [byte_of k] ++ [byte_of 0] ++ le_encode 8 z in
  let it := le_encode 8 3 ++ e 98 7 ++ e 97 5 ++ e 98 9 ++ le_encode 8 0 in
  exists t : nested_map bytes xpod,
    direct_deserialize it = Ok (t, []) /\
    data t = [([byte_of 97], XInteger 5); ([byte_of 98], XInteger 7)] /\
    nested_wf (nested_merge (nested_init [([byte_of 97], XInteger 6)]) t).
Proof.
  intros e it.
  set (t := NestedMap [([byte_of 97], XInteger 5); ([byte_of 98], XInteger 7)] [] : nested_map bytes xpod).
  assert (Hit : direct_deserialize it = Ok (t, [])) by (vm_compute; reflexivity).
  exists t. split; [exact Hit|]. split; [reflexivity|].
  apply (nested_maps_typed (K := bytes) (V := xpod)). apply con_merge; [|exact (con_deserialize _ _ _ Hit)].
  apply con_init. constructor; [|constructor]. split; simpl; split; vm_compute; congruence.
Defined.
