(* ===== verification/Io.v ===== *)
(** * Io: [filesystem/io.hpp]

    Whole files as strings, and temporary files.  [std::ifstream] and
    [std::ofstream] are modelled as far as the source uses them: the state bits,
    and a buffer in front of the calls of the operating system, which are an
    interface with the laws of POSIX; any call may fail.  The memory of a string
    is always found. *)

From S2P Require Import Prelude Errors Bytes Random Path.

(** ** The calls behind the streams *)

Inductive open_kind := reading | truncating | appending.

(** An open file is a descriptor.  The calls answer [None] or [false] when they
    fail; [read_all] and [write_all] repeat [read] and [write] until all bytes
    are transferred, at the end of the file, or at an error.  [stream_buffer] is
    the number of bytes from which on a stream writes at once. *)
Class Files (W : Type) := {
  stream_buffer : Z;
  open_file : bytes -> open_kind -> M W (option Z);
  seek_end : Z -> M W (option Z);
  tell : Z -> M W (option Z);
  seek_start : Z -> M W bool;
  read_all : Z -> Z -> M W (option bytes);
  write_all : Z -> bytes -> M W bool;
  close_file : Z -> M W bool;
  temp_directory_path : M W bytes;
}.

(** [basic_string::max_size()] of libstdc++. *)
Definition max_string_size : Z := 2 ^ 62 - 1.

Section streams.
Context {W : Type} `{Files W}.

(** A stream: the open file, what waits in the buffer, the state bits. *)
Record stream : Type := Stream { file : option Z; pending : bytes; failbit : bool; badbit : bool; eofbit : bool }.

Definition fail (s : stream) : bool := failbit s || badbit s.
Definition eof (s : stream) : bool := eofbit s.
Definition good_stream (fd : Z) : stream := Stream (Some fd) [] false false false.
Definition closed_stream : stream := Stream None [] true false false.

(** [std::ifstream(path, std::ios::binary | std::ios::ate)]. *)
Definition ifstream_ate (path : bytes) : M W stream :=
  r ← open_file path reading;
  match r with
  | None => mret closed_stream
  | Some fd =>
      e ← seek_end fd;
      match e with
      | Some _ => mret (good_stream fd)
      | None => _ ← close_file fd; mret closed_stream
      end
  end.

Definition tellg (s : stream) : M W Z :=
  match fail s, file s with
  | false, Some fd => r ← tell fd; mret (default (-1) r)
  | _, _ => mret (-1)
  end.

(** [seekg(0, std::ios::beg)]. *)
Definition seekg_start (s : stream) : M W stream :=
  match fail s, file s with
  | false, Some fd =>
      ok ← seek_start fd;
      mret (Stream (Some fd) (pending s) (negb ok) false false)
  | _, _ => mret (Stream (file s) (pending s) (failbit s) (badbit s) false)
  end.

(** [read(&content[0], n)]: the bytes read replace the first of [content]. *)
Definition stream_read (s : stream) (content : bytes) (n : Z) : M W (bytes * stream) :=
  match fail s, file s with
  | false, Some fd =>
      r ← read_all fd n;
      mret match r with
      | None => (content, Stream (Some fd) (pending s) (failbit s) true (eofbit s))
      | Some d =>
          let short := bool_decide (Z.of_nat (length d) < n) in
          (d ++ drop (length d) content, Stream (Some fd) (pending s) short false short)
      end
  | _, _ => mret (content, Stream (file s) (pending s) true (badbit s) (eofbit s))
  end.

(** [std::ofstream(path)], and with [std::ios::app]. *)
Definition ofstream (path : bytes) (kind : open_kind) : M W stream :=
  r ← open_file path kind;
  mret match r with Some fd => good_stream fd | None => closed_stream end.

(** [ofs << content], the first output. *)
Definition stream_write (s : stream) (content : bytes) : M W stream :=
  match fail s, file s with
  | false, Some fd =>
      if bool_decide (Z.of_nat (length content) < stream_buffer)
      then mret (Stream (Some fd) content false false (eofbit s))
      else ok ← write_all fd content; mret (Stream (Some fd) [] false (negb ok) (eofbit s))
  | _, _ => mret s
  end.

(** [close()], also of the destructor: the buffer is written, the file closed;
    [failbit] tells whether both worked. *)
Definition stream_close (s : stream) : M W stream :=
  match file s with
  | None => mret (Stream None [] true (badbit s) (eofbit s))
  | Some fd =>
      flushed ← (if bool_decide (pending s = []) then mret true else write_all fd (pending s));
      closed ← close_file fd;
      mret (Stream None [] (failbit s || negb (flushed && closed)) (badbit s) (eofbit s))
  end.

(** The scope of a stream: its destructor runs on every way out. *)
Definition closing {A} (s : stream) (body : M W A) : M W A := fun w =>
  match body w with
  | (UB, w') => (UB, w')
  | (r, w') => match stream_close s w' with (Ok _, w'') => (r, w'') | (_, w'') => (UB, w'') end
  end.

(** ** [read_file], [write_file], [touch] *)

Definition file_error (before file_path after : bytes) : string := text (before ++ file_path ++ after).

Definition read_file (file_path : bytes) : M W bytes :=
  ifs ← ifstream_ate file_path;
  closing ifs (
    if fail ifs then raise runtime_error (file_error (str "Could not open file '") file_path (str "' for reading."))
    else
      fileSize ← tellg ifs;
      if bool_decide (fileSize = -1) then
        raise runtime_error (file_error (str "Could not determine the size of file '") file_path (str "'."))
      else
        ifs ← seekg_start ifs;
        if fail ifs then
          raise runtime_error (file_error (str "Could not seek to the beginning of file '") file_path (str "'."))
        else if bool_decide (max_string_size < size_t fileSize) then raise std_length_error "basic_string::_M_create"
        else
          r ← stream_read ifs (replicate (Z.to_nat fileSize) (byte_of 0)) fileSize;
          if fail r.2 && negb (eof r.2) then
            raise runtime_error (file_error (str "Could not read from file '") file_path (str "'."))
          else mret r.1).

(** The last statement closes the stream; the destructor finds it closed. *)
Definition write_file (file_path content : bytes) : M W unit :=
  ofs ← ofstream file_path truncating;
  if fail ofs then
    raise runtime_error (file_error (str "Could not open file '") file_path (str "' for writing."))
  else
    ofs ← stream_write ofs content;
    if fail ofs then
      closing ofs (raise runtime_error (file_error (str "Could not write to file '") file_path (str "'.")))
    else _ ← stream_close ofs; mret tt.

Definition touch (p : bytes) : M W unit :=
  file ← ofstream p appending; closing file (mret tt).
End streams.

(** ** Temporary files *)

(** The extension of a file name: from the last dot on, unless the name is a
    dot, two dots, or has its only dot in front. *)
Definition dot : byte := byte_of 46.
Fixpoint last_dot (name : bytes) : option nat :=
  match name with
  | [] => None
  | c :: name =>
      match last_dot name with
      | Some i => Some (S i)
      | None => if bool_decide (c = dot) then Some O else None
      end
  end.
Definition stem (name : bytes) : bytes :=
  if bool_decide (name = [dot]) || bool_decide (name = dotdot) then name
  else match last_dot name with
  | Some (S i) => take (S i) name
  | _ => name
  end.

(** The part of a path in front of its file name, and the file name. *)
Fixpoint split_filename (p : bytes) : bytes * bytes :=
  match p with
  | [] => ([], [])
  | c :: p =>
      let '(d, f) := split_filename p in
      if bool_decide (c = sep) then (c :: d, f)
      else match d with [] => ([], c :: f) | _ => (c :: d, f) end
  end.

(** [replace_extension(extension)]. *)
Definition replace_extension (p extension : bytes) : bytes :=
  let '(d, f) := split_filename p in
  d ++ stem f ++
  (if bool_decide (extension <> []) && negb (bool_decide (head extension = Some dot)) then [dot] else []) ++ extension.

Section temporary.
Context {W : Type} `{Files W, FileSystem W, Generator W}.

(** The loop [do { unique_path = ... } while (exists(unique_path))]; [None]: it
    has not ended after [fuel] rounds. *)
Fixpoint unique_loop (fuel : nat) (draw : M W bytes) : M W (option bytes) :=
  match fuel with
  | O => mret None
  | S fuel =>
      unique_path ← draw;
      e ← fs_exists unique_path;
      if e : bool then unique_loop fuel draw else mret (Some unique_path)
  end.

Definition random_temp_path : M W bytes :=
  dir ← temp_directory_path; random ← random_string 16; mret (path_append dir random).

Definition unique_temp_file (fuel : nat) (extension : bytes) : M W (option bytes) :=
  unique_loop fuel (p ← random_temp_path; mret (replace_extension p extension)).
Definition unique_temp_dir (fuel : nat) : M W (option bytes) := unique_loop fuel random_temp_path.

Definition create_unique_temp_file (fuel : nat) (extension : bytes) : M W (option bytes) :=
  r ← unique_temp_file fuel extension;
  match r with
  | Some unique_path => _ ← touch unique_path; mret (Some unique_path)
  | None => mret None
  end.
Definition create_unique_temp_dir (fuel : nat) : M W (option bytes) :=
  r ← unique_temp_dir fuel;
  match r with
  | Some unique_path => _ ← fs_create_directories unique_path; mret (Some unique_path)
  | None => mret None
  end.
End temporary.

(** ** Laws *)

(** An open file: the path and the way it was opened, and its position. *)
Record open_state : Type := OpenState { op_path : bytes; op_kind : open_kind; op_pos : Z }.

(** [file_at w p]: the content of the regular file that [p] names; [cursor w fd]:
    the open file behind a descriptor; [failures w]: how many of the calls made so
    far the system answered with an error; [apart_files q p]: the two paths name
    different files. *)
Class FileView (W : Type) := {
  file_at : W -> bytes -> option bytes;
  cursor : W -> Z -> option open_state;
  failures : W -> nat;
  apart_files : bytes -> bytes -> Prop;
}.

Section view.
Context {W : Type} `{FileView W}.
Definition same_files (w w' : W) : Prop := forall q, file_at w' q = file_at w q.
Definition other_files (p : bytes) (w w' : W) : Prop := forall q, apart_files q p -> file_at w' q = file_at w q.
Definition other_fds (fd : Z) (w w' : W) : Prop := forall g, g <> fd -> cursor w' g = cursor w g.
Definition same_fds (w w' : W) : Prop := forall g, cursor w' g = cursor w g.
(** The one call between [w] and [w'] succeeded, or failed. *)
Definition call_counted (ok : bool) (w w' : W) : Prop :=
  failures w' = if ok then failures w else S (failures w).
(** Some call failed between [w] and [w']. *)
Definition some_failed (w w' : W) : Prop := (failures w < failures w')%nat.
Definition counted (w w' : W) : Prop := (failures w <= failures w')%nat.
End view.
Definition answered {A} (r : option A) : bool := match r with Some _ => true | None => false end.

Class FilesLaws (W : Type) `{Files W, FileView W} := {
  open_law p kind (w : W) : returns (open_file p kind) (fun r w' =>
    call_counted (answered r) w w' /\
    match r with
    | Some fd =>
        cursor w fd = None /\ other_fds fd w w' /\ other_files p w w' /\
        match kind with
        | reading => cursor w' fd = Some (OpenState p kind 0) /\ same_files w w'
        | truncating => cursor w' fd = Some (OpenState p kind 0) /\ file_at w' p = Some []
        | appending =>
            let c := default [] (file_at w p) in
            cursor w' fd = Some (OpenState p kind (Z.of_nat (length c))) /\ file_at w' p = Some c
        end
    | None => same_fds w w' /\ same_files w w'
    end) w;
  seek_end_law fd p k n (w : W) : cursor w fd = Some (OpenState p k n) -> returns (seek_end fd) (fun r w' =>
    call_counted (answered r) w w' /\ same_files w w' /\ other_fds fd w w' /\
    match r with
    | Some e => 0 <= e < 2 ^ 63 /\ cursor w' fd = Some (OpenState p k e) /\ forall c, file_at w p = Some c -> e = Z.of_nat (length c)
    | None => cursor w' fd = Some (OpenState p k n)
    end) w;
  tell_law fd p k n (w : W) : cursor w fd = Some (OpenState p k n) ->
    returns (tell fd) (fun r w' => call_counted (answered r) w w' /\ same_files w w' /\ same_fds w w' /\
      (r = Some n \/ r = None)) w;
  seek_start_law fd p k n (w : W) : cursor w fd = Some (OpenState p k n) -> returns (seek_start fd) (fun ok w' =>
    call_counted ok w w' /\ same_files w w' /\ other_fds fd w w' /\ cursor w' fd = Some (OpenState p k (if (ok : bool) then 0 else n))) w;
  read_law fd p k n size (w : W) : cursor w fd = Some (OpenState p k n) -> 0 <= size -> returns (read_all fd size) (fun r w' =>
    call_counted (answered r) w w' /\ same_files w w' /\ other_fds fd w w' /\ (exists m, cursor w' fd = Some (OpenState p k m)) /\
    forall d, r = Some d -> Z.of_nat (length d) <= size /\
      forall c, file_at w p = Some c -> d = take (Z.to_nat size) (drop (Z.to_nat n) c)) w;
  write_law fd p k n bs c (w : W) :
    cursor w fd = Some (OpenState p k n) -> file_at w p = Some c -> n = Z.of_nat (length c) ->
    returns (write_all fd bs) (fun ok w' =>
      call_counted ok w w' /\ other_files p w w' /\ other_fds fd w w' /\ (exists m, cursor w' fd = Some (OpenState p k m) /\ (ok = true -> m = n + Z.of_nat (length bs))) /\
      (ok = true -> file_at w' p = Some (c ++ bs))) w;
  close_file_law fd p k n (w : W) : cursor w fd = Some (OpenState p k n) -> returns (close_file fd) (fun ok w' =>
    call_counted ok w w' /\ other_files p w w' /\ cursor w' fd = None /\ other_fds fd w w' /\
    (ok = true \/ k = reading -> same_files w w')) w;
}.

Section files.
Context {W : Type} `{FilesLaws W}.
Implicit Types w : W.

(** Closing what was opened restores the descriptors. *)
Lemma fds_restored fd w w1 w2 :
  cursor w fd = None -> other_fds fd w w1 -> other_fds fd w1 w2 -> cursor w2 fd = None -> same_fds w w2.
Proof.
  intros Hfd Ha Hb Hfd2 g. destruct (decide (g = fd)) as [->|Hg]; [congruence|]. by rewrite Hb, Ha.
Qed.

Lemma other_fds_trans fd w w1 w2 : other_fds fd w w1 -> other_fds fd w1 w2 -> other_fds fd w w2.
Proof. intros Ha Hb g Hg. by rewrite Hb, Ha. Qed.
Lemma other_files_trans p w w1 w2 : other_files p w w1 -> other_files p w1 w2 -> other_files p w w2.
Proof. intros Ha Hb q Hq. by rewrite Hb, Ha. Qed.
Lemma same_files_other p w w' : same_files w w' -> other_files p w w'.
Proof. intros Hs q _. apply Hs. Qed.

(** Counting the calls that fail. *)
Lemma counted_call ok w w' : call_counted ok w w' -> counted w w'.
Proof. unfold call_counted, counted. destruct ok; lia. Qed.
Lemma counted_refl w : counted w w.
Proof. unfold counted. lia. Qed.
Lemma counted_trans w w1 w2 : counted w w1 -> counted w1 w2 -> counted w w2.
Proof. unfold counted. lia. Qed.
Lemma failed_here w w' : call_counted false w w' -> some_failed w w'.
Proof. unfold call_counted, some_failed. lia. Qed.
Lemma failed_before w w1 w2 : some_failed w w1 -> counted w1 w2 -> some_failed w w2.
Proof. unfold counted, some_failed. lia. Qed.
Lemma failed_after w w1 w2 : counted w w1 -> some_failed w1 w2 -> some_failed w w2.
Proof. unfold counted, some_failed. lia. Qed.
Lemma failed_counted w w' : some_failed w w' -> counted w w'.
Proof. unfold counted, some_failed. lia. Qed.
Hint Resolve counted_call counted_refl failed_here : core.

(** The destructor of a stream whose file is open and whose buffer is empty. *)
Definition closes {A} fd (R : outcome A -> W -> Prop) (r : outcome A) w : Prop :=
  r <> UB /\ exists p k n, cursor w fd = Some (OpenState p k n) /\
    forall ok w', call_counted ok w w' -> other_files p w w' -> cursor w' fd = None -> other_fds fd w w' ->
      (ok = true \/ k = reading -> same_files w w') -> R r w'.

Lemma stream_close_empty s fd p k n w :
  file s = Some fd -> pending s = [] -> cursor w fd = Some (OpenState p k n) ->
  exists s' ok w', stream_close s w = (Ok s', w') /\ call_counted ok w w' /\ other_files p w w' /\
    cursor w' fd = None /\ other_fds fd w w' /\ (ok = true \/ k = reading -> same_files w w').
Proof.
  intros Hf Hp Hc. unfold stream_close. rewrite Hf, Hp, bool_decide_eq_true_2 by done.
  destruct (close_file_law fd p k n w Hc) as (ok & w' & E & Hlaw).
  eexists _, ok, w'. split; [|exact Hlaw]. unfold mbind at 1, M_bind, mret, M_ret. by step_with E.
Qed.

Lemma wp_closing {A} s fd (body : M W A) (R : outcome A -> W -> Prop) w :
  file s = Some fd -> pending s = [] -> wp body (closes fd R) w -> wp (closing s body) R w.
Proof.
  intros Hf Hp Hb. unfold wp, closing in *. destruct (body w) as [r w'].
  destruct Hb as (Hub & p & k & n & Hc & Hk).
  destruct (stream_close_empty s fd p k n w' Hf Hp Hc) as (s' & ok & w'' & -> & Hclose).
  destruct Hclose as (He & Ho & Hn & Hg & Hs). specialize (Hk ok w'' He Ho Hn Hg Hs). by destruct r.
Qed.

(** ** Reading *)

(** What [read_file] leaves: everything as it was; the content, or an error. *)
Definition read_post (p : bytes) w (r : outcome bytes) w' : Prop :=
  counted w w' /\ same_files w w' /\ same_fds w w' /\
  match r with
  | Ok c' => forall c, file_at w p = Some c -> c' = c
  | Throw e => catches runtime_error e = true /\ some_failed w w' \/
      exn_class e = std_length_error /\ forall c, file_at w p = Some c -> max_string_size < Z.of_nat (length c)
  | UB => False
  end.

(** The same at any point in between, with the file open: [w0] is the start. *)
Definition reading_at (p : bytes) fd w0 n w : Prop :=
  counted w0 w /\ same_files w0 w /\ other_fds fd w0 w /\ cursor w0 fd = None /\ cursor w fd = Some (OpenState p reading n).

Lemma reading_closes p fd w0 n w (r : outcome bytes) :
  reading_at p fd w0 n w -> r <> UB ->
  (forall w', counted w w' -> counted w0 w' -> same_files w0 w' -> same_fds w0 w' -> read_post p w0 r w') ->
  closes fd (read_post p w0) r w.
Proof.
  intros (Ha & Hs & Ho & Hn & Hc) Hub Hr. split; [done|]. exists p, reading, n. split; [done|].
  intros ok w' Ha'%counted_call _ Hn' Ho' Hs'. apply Hr; [done|by eapply counted_trans| |by eapply fds_restored].
  intros q. by rewrite Hs', Hs by auto.
Qed.

Lemma reading_throws p fd w0 n w e :
  reading_at p fd w0 n w -> catches runtime_error e = true -> some_failed w0 w ->
  closes fd (read_post p w0) (Throw e) w.
Proof.
  intros Hr He Hfail. apply (reading_closes p fd w0 n w); [done..|]. intros w' Ha Ha0 Hs Hf.
  split_and!; [done..|]. left. split; [done|]. by eapply failed_before.
Qed.

Lemma reading_step p fd w0 n w m w' :
  reading_at p fd w0 n w -> counted w w' -> same_files w w' -> other_fds fd w w' -> cursor w' fd = Some (OpenState p reading m) ->
  reading_at p fd w0 m w'.
Proof.
  intros (Ha & Hs & Ho & Hn & Hc) Ha' Hs' Ho' Hc'. split; [by eapply counted_trans|].
  split; [intros q; by rewrite Hs', Hs|]. split; [by eapply other_fds_trans|done].
Qed.
Lemma reading_failed p fd w0 n w w' : reading_at p fd w0 n w -> call_counted false w w' -> some_failed w0 w'.
Proof. intros (Ha & _) Hc. eapply failed_after; [exact Ha|by apply failed_here]. Qed.
Hint Resolve reading_failed : core.

(** The steps of [read_file] behind the constructor. *)
Lemma tellg_spec p fd w0 n w :
  reading_at p fd w0 n w -> returns (tellg (good_stream fd)) (fun r w' =>
    reading_at p fd w0 n w' /\ (r = n \/ r = -1 /\ some_failed w0 w')) w.
Proof.
  intros Hr. unfold tellg. simpl. eapply returns_bind; [by eapply tell_law, Hr|]. intros r w' (Ha & Hs & Hf & Hn).
  apply returns_ret. split.
  - eapply reading_step; [done|by eapply counted_call|done| |].
    + intros g _. apply Hf.
    + rewrite Hf. apply Hr.
  - destruct Hn as [->| ->]; simpl; eauto 6.
Qed.

Lemma seekg_spec p fd w0 n w :
  reading_at p fd w0 n w ->
  returns (seekg_start (good_stream fd)) (fun s w' =>
    exists m, reading_at p fd w0 m w' /\ (fail s = true /\ some_failed w0 w' \/ s = good_stream fd /\ m = 0)) w.
Proof.
  intros Hr. unfold seekg_start. simpl. eapply returns_bind; [by eapply seek_start_law, Hr|].
  intros ok w' (Ha & Hs & Ho & Hc). apply returns_ret. eexists.
  split; [eapply reading_step; eauto|]. destruct ok; eauto 6.
Qed.

Lemma stream_read_spec p fd w0 size w :
  reading_at p fd w0 0 w -> 0 <= size ->
  returns (stream_read (good_stream fd) (replicate (Z.to_nat size) (byte_of 0)) size) (fun r w' =>
    (exists m, reading_at p fd w0 m w') /\
    (fail r.2 && negb (eof r.2) = true /\ some_failed w0 w' \/ fail r.2 && negb (eof r.2) = false /\ Z.of_nat (length r.1) = size /\
       forall c, file_at w0 p = Some c -> size = Z.of_nat (length c) -> r.1 = c)) w.
Proof.
  intros Hr Hsize. unfold stream_read. simpl. eapply returns_bind; [by eapply read_law; [apply Hr|]|].
  intros [d|] w' (Ha & Hs & Ho & (m & Hc) & Hd); apply returns_ret; (split; [eexists; eapply reading_step; eauto|]).
  - right. unfold fail, eof. simpl. destruct (Hd d eq_refl) as [Hl Hdc]. split; [by case_bool_decide|]. rewrite length_app, length_drop, length_replicate. split; [lia|].
    intros c Hcp Hsz. destruct Hr as (_ & Hs0 & _). rewrite (Hdc c) by by rewrite Hs0.
    subst size. rewrite Nat2Z.id, drop_0, firstn_all, drop_ge, app_nil_r; [done|]. by rewrite length_replicate.
  - left. eauto.
Qed.

Lemma read_file_spec p w : wp (read_file p) (read_post p w) w.
Proof.
  unfold read_file. eapply wp_bind. unfold ifstream_ate. eapply wp_call; [apply open_law|]. intros [fd|] w1.
  2:{ intros (Ha & Hf & Hs). apply wp_ret. split_and!; [by eapply counted_call|done..|]. left; eauto. }
  intros (Ha & Hn & Ho & _ & Hc & Hs). apply counted_call in Ha.
  eapply wp_call; [by eapply seek_end_law|]. intros [e|] w2.
  2:{ intros (Ha2 & Hs2 & Ho2 & Hc2). eapply wp_call; [by eapply close_file_law|]. intros ok w3 (Ha3 & _ & Hn3 & Ho3 & Hs3).
      assert (some_failed w w3) as Hfailed.
      { eapply failed_before; [|by eapply counted_call]. eapply failed_after; [exact Ha|by apply failed_here]. }
      apply wp_ret. split_and!; [by apply failed_counted| | |left; eauto].
      - intros q. by rewrite Hs3, Hs2, Hs by auto.
      - eapply fds_restored; [done| |exact Ho3|done]. by eapply other_fds_trans. }
  intros (Ha2 & Hs2 & Ho2 & Hrange & Hc2 & He). apply wp_ret. apply (wp_closing _ fd); [done..|].
  assert (reading_at p fd w e w2) as R2.
  { split; [by eapply counted_trans, counted_call|]. split; [intros q; by rewrite Hs2, Hs|].
    split; [by eapply other_fds_trans|done]. }
  cbn [fail good_stream failbit badbit orb]. eapply wp_call; [by eapply tellg_spec|].
  clear Hs2 Ho2 Hc2 Ha2. intros n w2' [R2' Hne]. case_bool_decide as Hm1.
  { destruct Hne as [->|[_ Hfail]]; [lia|]. apply wp_raise; by eapply reading_throws. }
  destruct Hne as [->|[-> _]]; [|done]. clear w2 R2. eapply wp_call; [by eapply seekg_spec|]. intros s w3 (m & R3 & Hs3).
  destruct (fail s) eqn:Hfs.
  { destruct Hs3 as [[_ Hfail]|[-> _]]; [|done]. apply wp_raise; by eapply reading_throws. }
  destruct Hs3 as [[? _]|[-> ->]]; [congruence|].
  assert (size_t e = e) as -> by (apply size_t_id; unfold is_size_t, size_max, size_bits; lia).
  case_bool_decide as Hmax.
  { apply wp_raise. eapply reading_closes; [done..|]. intros w' _ Ha4 Hs4 Hf4. split_and!; [done..|right].
    split; [done|]. intros c Hcp. rewrite <- (He c); [done|]. by rewrite Hs. }
  eapply wp_call; [by eapply stream_read_spec; [|lia]|]. intros [c' s] w4 [(m & R4) Hr]. simpl in *.
  destruct Hr as [[-> Hfail]|(-> & _ & Hr)]; [apply wp_raise; by eapply reading_throws|].
  apply wp_ret. eapply reading_closes; [done..|]. intros w' _ Ha5 Hs5 Hf5. split_and!; [done..|].
  intros c Hcp. apply Hr; [done|]. apply He. by rewrite Hs.
Qed.

(** ** Writing *)

(** What [write_file] leaves.  It may also return when a call failed: no one looks
    whether the stream could write its buffer and close the file. *)
Definition write_post (p content : bytes) w (r : outcome unit) w' : Prop :=
  counted w w' /\ same_fds w w' /\ other_files p w w' /\
  match r with
  | Ok _ => file_at w' p = Some content \/ some_failed w w'
  | Throw e => catches runtime_error e = true /\ some_failed w w'
  | UB => False
  end.

(** Closing a stream with [content] in the buffer, for a file that was empty; or
    with an empty buffer, for a file that has it. *)
Lemma stream_close_content s fd p k n content w :
  file s = Some fd -> k <> reading -> cursor w fd = Some (OpenState p k n) ->
  (pending s = content /\ Z.of_nat (length content) < stream_buffer /\ file_at w p = Some [] /\ n = 0) \/
  (pending s = [] /\ file_at w p = Some content) ->
  returns (stream_close s) (fun _ w' =>
    counted w w' /\ other_files p w w' /\ cursor w' fd = None /\ other_fds fd w w' /\
    (file_at w' p = Some content \/ some_failed w w')) w.
Proof.
  intros Hf Hk Hc Hcase. unfold stream_close. rewrite Hf.
  assert (returns (if bool_decide (pending s = []) then mret true else write_all fd (pending s)) (fun ok w' =>
    counted w w' /\ other_files p w w' /\ other_fds fd w w' /\ (exists m, cursor w' fd = Some (OpenState p k m)) /\
    (file_at w' p = Some content \/ some_failed w w')) w) as Hflush.
  { case_bool_decide as Hp.
    - apply returns_ret. split_and!; [done|done|done|by eexists|left]. destruct Hcase as [(<- & _ & Hfile & _)|[_ ?]]; [by rewrite Hp|done].
    - destruct Hcase as [(<- & Hl & Hfile & ->)|[? _]]; [|done].
      destruct (write_law fd p k 0 (pending s) [] w Hc Hfile eq_refl) as (ok & w' & E & Ha & Ho & Hg & (m & Hm & _) & Hok).
      exists ok, w'. split; [done|]. split_and!; [by eapply counted_call|done|done|by exists m|].
      destruct ok; [left; by apply Hok|right; by apply failed_here]. }
  eapply returns_bind; [exact Hflush|]. intros ok w1 (Ha1 & Ho1 & Hg1 & (m & Hc1) & Hw1).
  eapply returns_bind; [by eapply close_file_law|]. intros closed w2 (Ha2 & Ho2 & Hn2 & Hg2 & Hs2).
  apply returns_ret.
  split; [by eapply counted_trans, counted_call|]. split; [by eapply other_files_trans|]. split; [done|].
  split; [by eapply other_fds_trans|].
  destruct closed; [|right; eapply failed_after; [exact Ha1|by apply failed_here]].
  destruct Hw1 as [Hw1|Hw1]; [left; by rewrite Hs2 by auto|right; by eapply failed_before, counted_call].
Qed.

Lemma write_file_spec p content w : wp (write_file p content) (write_post p content w) w.
Proof.
  unfold write_file, ofstream. eapply wp_bind, wp_call; [apply open_law|]. intros [fd|] w1.
  2:{ intros (Ha & Hf & Hs). apply wp_ret, wp_raise. split_and!; [by eapply counted_call|done|by apply same_files_other|eauto..]. }
  intros (Ha & Hn & Ho & Hq & Hc & Hfile). apply counted_call in Ha. apply wp_ret. simpl. unfold stream_write. simpl.
  assert (forall s w2 n, file s = Some fd -> counted w w2 -> other_files p w w2 -> other_fds fd w w2 ->
    cursor w2 fd = Some (OpenState p truncating n) ->
    (pending s = content /\ Z.of_nat (length content) < stream_buffer /\ file_at w2 p = Some [] /\ n = 0) \/
      (pending s = [] /\ file_at w2 p = Some content) ->
    wp (_ ← stream_close s; mret tt) (write_post p content w) w2) as Hclose.
  { intros s w2 n Hf Ha2 Hq2 Ho2 Hc2 Hcase. eapply wp_call; [by eapply (stream_close_content s fd p truncating)|].
    intros _ w3 (Ha3 & Hq3 & Hn3 & Ho3 & Hw). apply wp_ret. split; [by eapply counted_trans|].
    split; [by apply (fds_restored fd w w2)|]. split; [by eapply other_files_trans|].
    destruct Hw; [by left|right; by eapply failed_after]. }
  case_bool_decide as Hl; eapply wp_bind.
  - apply wp_ret. simpl. eapply Hclose; [done..|]. left. by split_and!.
  - eapply wp_call; [by eapply write_law|]. intros ok w2 (Ha2 & Hq2 & Ho2 & (m & Hc2 & _) & Hok). apply wp_ret. simpl.
    destruct ok; simpl.
    + eapply Hclose; [done|by eapply counted_trans, counted_call|by eapply other_files_trans|by eapply other_fds_trans|done|]. right. split; [done|by apply Hok].
    + apply (wp_closing _ fd); [done..|]. apply wp_raise. split; [done|]. eexists _, _, _. split; [done|].
      intros ok w3 Ha3%counted_call Hq3 Hn3 Ho3 _.
      assert (some_failed w w3) by (eapply failed_before, Ha3; eapply failed_after, failed_here; eauto).
      split_and!; [by apply failed_counted| | |done..].
      * eapply fds_restored; [done| |done|done]. by eapply other_fds_trans.
      * eapply other_files_trans, other_files_trans; done.
Qed.

(** C35. Regular files hold what is written.  [write_file] followed by [read_file]
    changes no other file and leaves no descriptor open, whichever call of the
    system fails.
    When no call failed in this run, the result is the text written, or
    [std::length_error] for a text longer than any string.  When one did, the
    result may be a [runtime_error], and also another text or [std::length_error]:
    [write_file] does not look whether the stream could write its buffer and close
    the file.  Nothing is undefined. *)
Theorem write_read_file p content w :
  wp (_ ← write_file p content; read_file p) (fun r w' =>
    same_fds w w' /\ other_files p w w' /\
    match r with
    | Ok c => c = content \/ some_failed w w'
    | Throw e => catches runtime_error e = true /\ some_failed w w' \/
        exn_class e = std_length_error /\ (max_string_size < Z.of_nat (length content) \/ some_failed w w')
    | UB => False
    end) w.
Proof.
  eapply wp_bind, wp_mono; [apply write_file_spec|]. intros [[]|e|] w1 (Ha & Hf & Hq & Hr); [|by auto|done].
  eapply wp_mono; [apply read_file_spec|]. intros r w2 (Ha2 & Hs & Hf2 & Hr2).
  split; [intros g; by rewrite Hf2, Hf|]. split; [intros q Hq'; by rewrite Hs, Hq|].
  pose proof (fun F => failed_before w w1 w2 F Ha2) as Hb. pose proof (failed_after w w1 w2 Ha) as Hc.
  destruct r as [c|e|]; [|destruct Hr2 as [[? ?]|[? Hl]]; [left; auto|right; split; [done|]]|done];
    destruct Hr as [Hr|?]; auto.
Qed.

Lemma touch_spec p w :
  wp (touch p) (fun r w' => r = Ok tt /\ same_fds w w' /\ other_files p w w' /\
    (file_at w' p = Some (default [] (file_at w p)) \/ some_failed w w')) w.
Proof.
  unfold touch, ofstream. eapply wp_bind, wp_call; [apply open_law|]. intros [fd|] w1.
  2:{ intros (Ha & Hf & Hs). apply wp_ret. split; [done|]. split; [done|]. split; [by apply same_files_other|eauto..]. }
  intros (Ha & Hn & Ho & Hq & Hc & Hfile). apply wp_ret. eapply wp_closing; [done..|]. apply wp_ret.
  split; [done|]. eexists _, _, _. split; [done|]. intros ok w2 Ha2 Hq2 Hn2 Ho2 Hs2. split; [done|].
  split; [by apply (fds_restored fd w w1)|]. split; [by eapply other_files_trans|].
  destruct ok; [left; by rewrite Hs2 by auto|right]. eapply failed_after; [by eapply counted_call|by apply failed_here].
Qed.
End files.

(** ** Laws of temporary files *)

(** [taken w p]: something exists at [p].  Drawing random numbers changes no
    file, and asking changes nothing; neither is a call that can fail. *)
Class TempLaws (W : Type) `{Files W, FileView W, FileSystem W, Generator W} := {
  taken : W -> bytes -> bool;
  exists_law p (w : W) : fs_exists p w = (Ok (taken w p), w);
  taken_file (w : W) p : taken w p = false -> file_at w p = None;
  uniform_files lo hi (w : W) q :
    taken (uniform lo hi w).2 q = taken w q /\ file_at (uniform lo hi w).2 q = file_at w q;
  uniform_fds lo hi (w : W) : same_fds w (uniform lo hi w).2;
  uniform_failures lo hi (w : W) : failures (uniform lo hi w).2 = failures w;
}.

(** The names that the next [n] rounds draw. *)
Fixpoint draws {W} `{Generator W} (n : nat) : M W (list bytes) :=
  match n with
  | O => mret []
  | S n => s ← random_string 16; l ← draws n; mret (s :: l)
  end.

(** A file name with an extension. *)
Definition with_extension (name extension : bytes) : bytes :=
  name ++ (if bool_decide (extension <> []) && negb (bool_decide (head extension = Some dot)) then [dot] else []) ++ extension.

Lemma split_filename_name s : sep ∉ s -> split_filename s = ([], s).
Proof.
  induction s as [|c s IH]; intros Hs; [done|]. simpl. apply not_elem_of_cons in Hs as [Hc Hs].
  rewrite IH by done. by rewrite bool_decide_eq_false_2.
Qed.

Lemma split_filename_dir d s : sep ∉ s -> split_filename (d ++ sep :: s) = (d ++ [sep], s).
Proof.
  intros Hs. induction d as [|c d IH]; simpl.
  - by rewrite split_filename_name.
  - rewrite IH. case_bool_decide; [done|]. by destruct d.
Qed.

Lemma last_dot_none s : dot ∉ s -> last_dot s = None.
Proof.
  induction s as [|c s IH]; intros Hs; [done|]. simpl. apply not_elem_of_cons in Hs as [Hc Hs].
  rewrite IH by done. by rewrite bool_decide_eq_false_2.
Qed.

Lemma stem_plain s : dot ∉ s -> stem s = s.
Proof. intros Hs. unfold stem. rewrite last_dot_none by done. by destruct (_ || _). Qed.

Lemma alphanumeric_plain s : Forall is_alphanumeric s -> (sep ∉ s) /\ (dot ∉ s).
Proof.
  intros Hs. rewrite Forall_forall in Hs.
  split; intros Hin%Hs; revert Hin; unfold is_alphanumeric; apply (bool_decide_unpack _); vm_compute; exact I.
Qed.

Lemma path_append_slash dir s :
  dir <> [] -> sep ∉ s -> exists d, path_append dir s = d ++ sep :: s.
Proof.
  intros Hd Hs. unfold path_append. assert (has_root s = false) as ->.
  { apply bool_decide_eq_false. destruct s as [|c s]; [done|]. intros [= ->]. by apply Hs, elem_of_cons; left. }
  destruct (decide (last dir = Some sep)) as [Hl|Hl].
  - pose proof Hl as [d ->]%last_Some. exists d. rewrite (bool_decide_eq_true_2 (last _ = _)), andb_false_r by done.
    by rewrite <- app_assoc.
  - exists dir. by rewrite (bool_decide_eq_true_2 (dir <> [])), (bool_decide_eq_false_2 (last dir = _)).
Qed.

(** The extension goes behind a name without a dot. *)
Lemma replace_extension_name dir s extension :
  dir <> [] -> Forall is_alphanumeric s ->
  exists d, path_append dir s = d ++ sep :: s /\ replace_extension (path_append dir s) extension = d ++ sep :: with_extension s extension.
Proof.
  intros Hd Hs. destruct (alphanumeric_plain s Hs) as [Hsep Hdot].
  destruct (path_append_slash dir s Hd Hsep) as (d & E). exists d. split; [done|]. rewrite E.
  unfold replace_extension, with_extension. rewrite split_filename_dir, stem_plain by done. by rewrite <- app_assoc.
Qed.

Section temporary_laws.
Context {W : Type} `{FilesLaws W, !FileSystem W, !Generator W, !GeneratorLaws W, !TempLaws W}.
Implicit Types w : W.

(** The same files, as far as a program can ask. *)
Definition unchanged w w' : Prop :=
  (forall q, taken w' q = taken w q) /\ same_files w w' /\ same_fds w w' /\ failures w' = failures w.

Lemma unchanged_trans w w1 w2 : unchanged w w1 -> unchanged w1 w2 -> unchanged w w2.
Proof.
  intros (Ha & Hb & Hc & Hd) (Ha' & Hb' & Hc' & Hd').
  split_and!; [intros q; by rewrite Ha'|intros q; by rewrite Hb'|intros q; by rewrite Hc'|congruence].
Qed.

Lemma random_loop_unchanged n s w : unchanged w (random_loop n s w).2.
Proof.
  revert s w. induction n as [|n IH]; intros s w; simpl; [done|]. unfold mbind, M_bind, pick, mbind, M_bind.
  pose proof (uniform_files 0 (Z.of_nat (length chrs) + 1 - 2) w) as Hu.
  assert (unchanged w (uniform 0 (Z.of_nat (length chrs) + 1 - 2) w).2) as Hw
    by (split_and!; [intros q; apply Hu..|apply uniform_fds|apply uniform_failures]).
  destruct (uniform _ _ w) as [[i|e|] w1]; simpl in Hw; [|done|done].
  destruct (chrs !! Z.to_nat i); simpl; [|done]. by eapply unchanged_trans.
Qed.

(** A round: the candidate [f s] for the name [s] drawn. *)
Definition candidate_of (f : bytes -> bytes) : M W bytes := s ← random_string 16; mret (f s).

Lemma unique_loop_candidate f n l w w1 :
  draws n w = (Ok l, w1) -> Exists (fun s => taken w (f s) = false) l ->
  exists s w2, unique_loop n (candidate_of f) w = (Ok (Some (f s)), w2) /\ s ∈ l /\ taken w (f s) = false /\
    length s = 16%nat /\ Forall is_alphanumeric s /\ unchanged w w2.
Proof.
  revert l w. induction n as [|n IH]; intros l w Hl Hex; simpl in *; [injection Hl as <- <-; by apply Exists_nil in Hex|].
  destruct (random_string_spec 16 w) as (s & w0 & E & Hlen & Hs); [done|].
  pose proof (random_loop_unchanged (Z.to_nat 16) [] w) as Hk. unfold random_string in E. rewrite E in Hk. simpl in Hk.
  assert (candidate_of f w = (Ok (f s), w0)) as Ec by (unfold candidate_of, random_string; by step_with E).
  unfold random_string in Hl. step_with Ec. rewrite (M_bind_step _ _ _ _ _ E) in Hl. step_with (exists_law (f s) w0).
  apply M_bind_Ok in Hl as (l' & w2 & Hd & Hret). injection Hret as <- <-. pose proof Hk as (Ht & _).
  rewrite Ht. destruct (taken w (f s)) eqn:Htaken.
  - apply Exists_cons in Hex as [?|Hex]; [congruence|].
    destruct (IH l' w0 Hd) as (s' & w' & E' & Hin & Hfree & Hlen' & Hs' & Hk').
    { eapply Exists_impl; [exact Hex|]. simpl. intros x. by rewrite Ht. }
    exists s', w'. split; [done|]. split; [by right|]. rewrite <- Ht. split_and!; [done..|].
    by eapply unchanged_trans.
  - exists s, w0. split; [done|]. split; [by left|]. split; [done|]. split; [lia|]. done.
Qed.

Lemma unique_loop_more f n m w p w' :
  unique_loop n (candidate_of f) w = (Ok (Some p), w') -> (n <= m)%nat ->
  unique_loop m (candidate_of f) w = (Ok (Some p), w').
Proof.
  revert m w. induction n as [|n IH]; intros m w E Hm; simpl in E; [done|]. destruct m as [|m]; [lia|]. simpl.
  apply M_bind_Ok in E as (c & w1 & Ec & E). step_with Ec. apply M_bind_Ok in E as (b & w2 & Eb & E). step_with Eb.
  destruct b; [apply IH; [done|lia]|done].
Qed.

Lemma unique_loop_ext n (d d' : M W bytes) w : (forall w, d w = d' w) -> unique_loop n d w = unique_loop n d' w.
Proof.
  intros Hd. revert w. induction n as [|n IH]; intros w; [done|]. simpl. unfold mbind, M_bind. rewrite Hd.
  destruct (d' w) as [[c|e|] w1]; [|done..]. destruct (fs_exists c w1) as [[[]|e|] w2]; [apply IH|done..].
Qed.

Section in_directory.
Context (dir : bytes) (temp_directory : forall w, temp_directory_path w = (Ok dir, w)).

Lemma unique_temp_dir_candidate n w : unique_temp_dir n w = unique_loop n (candidate_of (path_append dir)) w.
Proof.
  apply unique_loop_ext. intros v. unfold random_temp_path, candidate_of. by step_with (temp_directory v).
Qed.

Definition temp_file (extension s : bytes) : bytes := replace_extension (path_append dir s) extension.

Lemma unique_temp_file_candidate n extension w :
  unique_temp_file n extension w = unique_loop n (candidate_of (temp_file extension)) w.
Proof.
  apply unique_loop_ext. intros v. unfold random_temp_path, candidate_of, mbind, M_bind. rewrite temp_directory.
  by destruct (random_string 16 v) as [[] ?].
Qed.

(** C36. Temporary files, where asking for the temporary directory and whether a path
    exists does not fail.  As soon as one of the first [n] names drawn is free, the
    loop ends within [n] rounds, and more rounds change nothing.  The path is in
    the temporary directory: 16 letters and digits and the extension; nothing
    existed there, no other file is touched, and now an empty file is there,
    unless a call of the system failed while this path was made, which is not
    reported. *)
Theorem unique_temp_file_free n extension w l w1 :
  dir <> [] -> draws n w = (Ok l, w1) -> Exists (fun s => taken w (temp_file extension s) = false) l ->
  exists s d w',
    (forall m, (n <= m)%nat -> create_unique_temp_file m extension w = (Ok (Some (temp_file extension s)), w')) /\
    s ∈ l /\ length s = 16%nat /\ Forall is_alphanumeric s /\
    path_append dir s = d ++ sep :: s /\ temp_file extension s = d ++ sep :: with_extension s extension /\
    taken w (temp_file extension s) = false /\ same_fds w w' /\ other_files (temp_file extension s) w w' /\
    (file_at w' (temp_file extension s) = Some [] \/ some_failed w w').
Proof.
  intros Hdir Hl Hex. destruct (unique_loop_candidate _ _ _ _ _ Hl Hex) as (s & w2 & E & Hin & Hfree & Hlen & Hs & Ht & Hf & Hg & Hcount).
  destruct (replace_extension_name dir s extension Hdir Hs) as (d & Ed & Er).
  pose proof (touch_spec (temp_file extension s) w2) as Htouch. unfold wp in Htouch.
  destruct (touch (temp_file extension s) w2) as [r w'] eqn:Et. destruct Htouch as (-> & Hfds & Hother & Hfile).
  exists s, d, w'. split.
  { intros m Hm. unfold create_unique_temp_file. eapply unique_loop_more in E; [|exact Hm].
    rewrite <- unique_temp_file_candidate in E. step_with E. by step_with Et. }
  split_and!; [done..| | |].
  - intros g. by rewrite Hfds, Hg.
  - intros q Hq. by rewrite Hother, Hf.
  - assert (file_at w2 (temp_file extension s) = None) as Hnone by (rewrite Hf; by apply taken_file).
    rewrite Hnone in Hfile. destruct Hfile as [?|Hfailed]; [by left|right]. unfold some_failed in *. by rewrite <- Hcount.
Qed.
End in_directory.
End temporary_laws.

(** ** A disk

    Files with their content and time of modification.  On a full disk writing
    fails.  Random numbers come from a list. *)
Record disk : Type := Disk {
  contents : gmap bytes (bytes * Z);
  opened : gmap Z open_state;
  next_fd : Z;
  full : bool;
  clock : Z;
  numbers : list Z;
  failed_calls : nat;
}.

Definition set_contents (f : gmap bytes (bytes * Z) -> gmap bytes (bytes * Z)) (w : disk) : disk :=
  Disk (f (contents w)) (opened w) (next_fd w) (full w) (clock w) (numbers w) (failed_calls w).
Definition set_opened (f : gmap Z open_state -> gmap Z open_state) (w : disk) : disk :=
  Disk (contents w) (f (opened w)) (next_fd w) (full w) (clock w) (numbers w) (failed_calls w).
(** A call that fails, and changes nothing else. *)
Definition fails (w : disk) : disk :=
  Disk (contents w) (opened w) (next_fd w) (full w) (clock w) (numbers w) (S (failed_calls w)).

#[export] Instance disk_view : FileView disk := {|
  file_at w p := fst <$> contents w !! p;
  cursor w fd := if bool_decide (fd < next_fd w) then opened w !! fd else None;
  failures := failed_calls;
  apart_files q p := q <> p;
|}.

Definition open_fd (p : bytes) (kind : open_kind) (pos : Z) (w : disk) : outcome (option Z) * disk :=
  (Ok (Some (next_fd w)),
   Disk (contents w) (<[next_fd w := OpenState p kind pos]> (opened w)) (next_fd w + 1) (full w) (clock w) (numbers w) (failed_calls w)).

(** A call on an open file. *)
Definition on_file {A} (fd : Z) (none : A) (f : bytes -> Z -> bytes -> disk -> A * disk) : M disk A := fun w =>
  match cursor w fd with
  | Some (OpenState p k n) =>
      match file_at w p with Some c => let '(a, w') := f p n c w in (Ok a, w') | None => (Ok none, fails w) end
  | None => (UB, w)
  end.
Definition move_to (fd : Z) (n : Z) : disk -> disk :=
  set_opened (alter (fun o => OpenState (op_path o) (op_kind o) n) fd).

#[export] Instance disk_files : Files disk := {|
  stream_buffer := 1024;
  open_file p kind := fun w =>
    match kind, contents w !! p with
    | reading, Some _ => open_fd p kind 0 w
    | reading, None => (Ok None, fails w)
    | appending, Some (c, _) => open_fd p kind (Z.of_nat (length c)) w
    | _, _ => open_fd p kind 0 (set_contents <[p := ([], clock w)]> w)
    end;
  seek_end fd := on_file fd None (fun p n c w =>
    if bool_decide (Z.of_nat (length c) < 2 ^ 63) then (Some (Z.of_nat (length c)), move_to fd (Z.of_nat (length c)) w)
    else (None, fails w));
  tell fd := on_file fd None (fun p n c w => (Some n, w));
  seek_start fd := on_file fd false (fun p n c w => (true, move_to fd 0 w));
  read_all fd size := on_file fd None (fun p n c w =>
    let d := take (Z.to_nat size) (drop (Z.to_nat n) c) in (Some d, move_to fd (n + Z.of_nat (length d)) w));
  write_all fd bs := on_file fd false (fun p n c w =>
    if full w then (false, fails w)
    else (true, move_to fd (n + Z.of_nat (length bs)) (set_contents <[p := (take (Z.to_nat n) c ++ bs, clock w)]> w)));
  close_file fd := fun w =>
    match cursor w fd with Some _ => (Ok true, set_opened (delete fd) w) | None => (UB, w) end;
  temp_directory_path := mret (str "/tmp");
|}.

Lemma cursor_move fd n w g :
  cursor (move_to fd n w) g = if bool_decide (g = fd) then (fun o => OpenState (op_path o) (op_kind o) n) <$> cursor w g else cursor w g.
Proof.
  simpl. case_bool_decide; [|by case_bool_decide]. case_bool_decide as Hg; [subst; by rewrite lookup_alter_eq|by rewrite lookup_alter_ne].
Qed.

(** A call that at most moves the position. *)
Lemma on_file_returns {A} fd none (f : bytes -> Z -> bytes -> disk -> A * disk) p k n (w : disk) (P : A -> disk -> Prop) :
  cursor w fd = Some (OpenState p k n) ->
  (forall c, file_at w p = Some c -> let '(a, w') := f p n c w in P a w') -> P none (fails w) ->
  returns (on_file fd none f) P w.
Proof.
  intros Hc Hf Hn. unfold returns, on_file. rewrite Hc. destruct (file_at w p) as [c|]; [|by eexists _, _].
  specialize (Hf c eq_refl). destruct (f p n c w). by eexists _, _.
Qed.

Lemma move_to_spec fd n m p k (w w1 : disk) :
  cursor w fd = Some (OpenState p k n) -> next_fd w1 = next_fd w -> opened w1 = opened w ->
  other_fds fd w (move_to fd m w1) /\ cursor (move_to fd m w1) fd = Some (OpenState p k m).
Proof.
  intros Hc Hn Ho. assert (forall g, cursor w1 g = cursor w g) as Hw by (intros g; simpl; by rewrite Hn, Ho).
  split; [intros g Hg|]; rewrite cursor_move, Hw; [by rewrite bool_decide_eq_false_2|].
  rewrite bool_decide_eq_true_2 by done. by rewrite Hc.
Qed.

Lemma file_insert (w : disk) p c t : forall q, apart_files q p -> file_at (set_contents <[p := (c, t)]> w) q = file_at w q.
Proof. intros q Hq. simpl in *. by rewrite lookup_insert_ne. Qed.

Lemma open_fd_spec p kind pos (w w0 : disk) :
  next_fd w = next_fd w0 -> opened w = opened w0 ->
  let w' := (open_fd p kind pos w).2 in
  cursor w0 (next_fd w0) = None /\ other_fds (next_fd w0) w0 w' /\ cursor w' (next_fd w0) = Some (OpenState p kind pos).
Proof.
  intros Hn Ho w'. subst w'. unfold other_fds. simpl. rewrite Hn, Ho. split_and!.
  - by rewrite bool_decide_eq_false_2 by lia.
  - intros g Hg. rewrite lookup_insert_ne by done. destruct (decide (g < next_fd w0)).
    + by rewrite !bool_decide_eq_true_2 by lia.
    + by rewrite !bool_decide_eq_false_2 by lia.
  - by rewrite bool_decide_eq_true_2, lookup_insert_eq by lia.
Qed.

#[export] Instance disk_files_laws : FilesLaws disk.
Proof.
  split.
  - intros p kind w.
    unfold returns. cbn [open_file disk_files].
    destruct kind; destruct (contents w !! p) as [[c t]|] eqn:Hp;
      (match goal with |- context [open_fd p ?k ?pos ?w1] =>
         destruct (open_fd_spec p k pos w1 w eq_refl eq_refl) as (Hn & Ho & Hc);
         exists (Some (next_fd w)), (open_fd p k pos w1).2; split; [done|];
         split; [done|]; split; [done|]; split; [done|] | _ => idtac end).
    + by split; [|split].
    + by exists None, (fails w).
    + split; [exact (file_insert w p _ _)|]. split; [done|]. simpl. by rewrite lookup_insert_eq.
    + split; [exact (file_insert w p _ _)|]. split; [done|]. simpl. by rewrite lookup_insert_eq.
    + split; [done|]. simpl in *. rewrite Hp in *. done.
    + split; [exact (file_insert w p _ _)|]. simpl in *. rewrite Hp in *. split; [done|]. by rewrite lookup_insert_eq.
  - intros fd p k n w Hc. eapply on_file_returns; [done| |].
    + intros c Hf. case_bool_decide as Hl; [|by split_and!].
      destruct (move_to_spec fd n (Z.of_nat (length c)) p k w w Hc eq_refl eq_refl). split_and!; [done|done|done|lia|done|done|].
      intros c' Hc'. congruence.
    + by split_and!.
  - intros fd p k n w Hc. eapply on_file_returns; [done| |]; [intros c Hf|]; split_and!; auto; done.
  - intros fd p k n w Hc. eapply on_file_returns; [done| |].
    + intros c Hf. by destruct (move_to_spec fd n 0 p k w w Hc eq_refl eq_refl).
    + by split_and!.
  - intros fd p k n size w Hc Hsize. eapply on_file_returns; [done| |].
    + intros c Hf. destruct (move_to_spec fd n (n + Z.of_nat (length (take (Z.to_nat size) (drop (Z.to_nat n) c)))) p k w w Hc eq_refl eq_refl).
      split; [done|]. split; [done|]. split; [done|]. split; [by eexists|]. intros d [= <-]. split; [rewrite length_take; lia|].
      intros c' Hc'. congruence.
    + split; [done|]. split; [done|]. split; [done|]. split; [by eexists|]. done.
  - intros fd p k n bs c w Hc Hf ->. eapply on_file_returns; [done| |].
    + intros c' Hc'. assert (c' = c) as -> by congruence. destruct (full w).
      * split; [done|]. split; [done|]. split; [done|]. split; [by eexists|done].
      * destruct (move_to_spec fd (Z.of_nat (length c)) (Z.of_nat (length c) + Z.of_nat (length bs)) p k w
          (set_contents <[p := (take (Z.to_nat (Z.of_nat (length c))) c ++ bs, clock w)]> w) Hc eq_refl eq_refl).
        split; [done|]. split; [exact (file_insert w p _ _)|]. split; [done|]. split; [by eexists; split|]. intros _. simpl.
        by rewrite lookup_insert_eq, Nat2Z.id, firstn_all.
    + split; [done|]. split; [done|]. split; [done|]. split; [by eexists|done].
  - intros fd p k n w Hc. unfold returns. cbn [close_file disk_files]. rewrite Hc. eexists _, _. split; [done|].
    split; [done|]. split; [done|]. split_and!; [|intros g Hg|done]; simpl in *.
    + rewrite lookup_delete_eq. by case_bool_decide.
    + by rewrite lookup_delete_ne.
Qed.

Definition numbers_to (f : list Z -> list Z) (w : disk) : disk :=
  Disk (contents w) (opened w) (next_fd w) (full w) (clock w) (f (numbers w)) (failed_calls w).
#[export] Instance disk_random : Generator disk := fun lo hi w =>
  (Ok (lo + default 0 (head (numbers w)) mod (hi - lo + 1)), numbers_to (drop 1) w).
#[export] Instance disk_random_laws : GeneratorLaws disk.
Proof.
  intros lo hi w Hlh. eexists _, _. split; [done|]. pose proof (Z.mod_pos_bound (default 0 (head (numbers w))) (hi - lo + 1)). lia.
Qed.

#[export] Instance disk_fs : FileSystem disk := {|
  fs_exists p := fun w => (Ok (bool_decide (is_Some (contents w !! p))), w);
  fs_is_directory p := mret false;
  fs_list p := mret [];
  fs_create_directories p := mret tt;
  fs_remove_all p := modify (set_contents (delete p));
  fs_copy p q := modify (fun w => set_contents (match contents w !! p with Some x => <[q := x]> | None => id end) w);
  fs_rename_ec p q w :=
    match contents w !! p with
    | Some x => (None, set_contents (fun m => <[q := x]> (delete p m)) w)
    | None => (Some "No such file or directory"%string, w)
    end;
  fs_remove_all_ec p w := (None, set_contents (delete p) w);
|}.

#[export, refine] Instance disk_temp_laws : TempLaws disk := {|
  taken w p := bool_decide (is_Some (contents w !! p));
|}.
Proof.
  - done.
  - intros w p Hp%bool_decide_eq_false. simpl. apply fmap_None. by apply eq_None_not_Some.
  - done.
  - done.
  - done.
Defined.

Definition empty_disk (numbers : list Z) : disk := Disk ∅ ∅ 3 false 100 numbers 0.
Definition full_disk : disk := Disk ∅ ∅ 3 true 100 [] 0.

Lemma write_read_file_witness :
  exists w', (_ ← write_file (str "/tmp/a") (str "hello"); read_file (str "/tmp/a")) (empty_disk []) = (Ok (str "hello"), w') /\
    same_fds (empty_disk []) w'.
Proof.
  pose proof (write_read_file (str "/tmp/a") (str "hello") (empty_disk [])) as Hw. unfold wp in Hw.
  destruct ((_ ← write_file (str "/tmp/a") (str "hello"); read_file (str "/tmp/a")) (empty_disk [])) as [r w'] eqn:E.
  exists w'. split; [|apply Hw]. f_equal. vm_compute in E. injection E as <- _. reflexivity.
Defined.

(** A short text that does not fit on the disk is lost without an error; a long
    one, which the stream writes at once, is not. *)
Example short_write_lost :
  let '(r, w) := write_file (str "/tmp/a") (str "hello") full_disk in r = Ok tt /\ file_at w (str "/tmp/a") = Some [] /\ failures w = 1%nat.
Proof. vm_compute. repeat split. Qed.
Example long_write_throws :
  (write_file (str "/tmp/a") (replicate 1024 (byte_of 0)) full_disk).1 = throw runtime_error "Could not write to file '/tmp/a'.".
Proof. vm_compute. reflexivity. Qed.

(** A file with less content than the size it reports is filled up with NULs. *)
Lemma short_read_padded {W} `{Files W} fd n d (w w' : W) :
  read_all fd n w = (Ok (Some d), w') -> Z.of_nat (length d) < n ->
  exists s, stream_read (good_stream fd) (replicate (Z.to_nat n) (byte_of 0)) n w =
    (Ok (d ++ replicate (Z.to_nat n - length d) (byte_of 0), s), w') /\ fail s && negb (eof s) = false.
Proof.
  intros E Hl. unfold stream_read. simpl. step_with E. rewrite drop_replicate, bool_decide_eq_true_2 by done.
  eexists. split; [done|done].
Qed.

(** [touch] of a file that exists changes nothing of it, its time included. *)
Example touch_keeps_time :
  let w := Disk {[str "/tmp/a" := (str "x", 7)]} ∅ 3 false 100 [] 0 in
  contents (touch (str "/tmp/a") w).2 = contents w.
Proof. vm_compute. reflexivity. Qed.

(** The first name drawn, sixteen times a "0", is taken; the second is not. *)
Lemma unique_temp_file_free_witness :
  let w := Disk {[str "/tmp/0000000000000000.txt" := ([], 7)]} ∅ 3 false 100 (replicate 16 0 ++ replicate 16 1) 0 in
  exists w', create_unique_temp_file 2 (str "txt") w = (Ok (Some (str "/tmp/1111111111111111.txt")), w').
Proof.
  intros w.
  destruct (unique_temp_file_free (str "/tmp") ltac:(done) 2 (str "txt") w [str "0000000000000000"; str "1111111111111111"] (numbers_to (fun _ => []) w))
    as (s & d & w' & E & Hin & _ & _ & _ & _ & Hfree & _).
  - done.
  - vm_compute. reflexivity.
  - apply Exists_exists. exists (str "1111111111111111"). split; [by right; left|vm_compute; reflexivity].
  - exists w'. specialize (E 2%nat ltac:(lia)). rewrite E. do 3 f_equal.
    apply elem_of_cons in Hin as [->|Hin%list_elem_of_singleton]; [vm_compute in Hfree; discriminate|].
    rewrite Hin. vm_compute. reflexivity.
Defined.
