(* ===== verification/Thread.v ===== *)
(** * Thread: [concurrency/thread.hpp] and the time stamps of
    [convert/string.hpp]

    Thread names and ids as text, for the log.  The calls of the threads library
    are an interface whose laws are those of Linux: a name has at most 15 bytes;
    [prctl] cuts a longer one, [pthread_setname_np] rejects it.  A
    [const char*] is modelled by the bytes in front of its NUL. *)

From S2P Require Import Prelude Errors Bytes StdMap Xpod NestedMap.
From S2P Require Import Convert Utf8 Wide.

(** ** Threads *)

(** The calls that return an error number return 0 for success;
    [pthread_getname_np] also returns the text in the buffer. *)
Class Threads (W : Type) := {
  pthread_self : W -> Z;
  prctl_set_name : bytes -> M W unit;
  pthread_setname_np : Z -> bytes -> M W Z;
  pthread_getname_np : Z -> Z -> M W (Z * bytes);
}.

Section threads.
Context {W : Type} `{Threads W}.

Definition get_current_thread_id : M W Z := fun w => (Ok (pthread_self w), w).

(** [set_thread_name(thread, name)], for the id of a [std::thread], and
    [set_thread_name(name)]: neither looks at the result. *)
Definition set_thread_name_of (thread : Z) (thread_name : bytes) : M W unit :=
  _ ← pthread_setname_np thread thread_name; mret tt.
Definition set_thread_name (thread_name : bytes) : M W unit :=
  _ ← prctl_set_name thread_name; mret tt.

Definition thread_name_buffer : Z := 64.

Definition get_thread_name (id : Z) : M W (list Z) :=
  r ← pthread_getname_np id thread_name_buffer;
  mret (if bool_decide (r.1 = 0) then from_string_wide r.2 else []).
End threads.

(** The name of a message handler's thread, as [add_handler] puts it together and
    [on_start] sets it. *)
Definition handler_thread_name (thread_name : bytes) (message_id : Z) : bytes :=
  thread_name ++ str "_" ++ to_string_integer message_id.
Definition handler_on_start {W} `{Threads W} (_thread_name : bytes) : M W unit := set_thread_name _thread_name.

(** [std::uppercase] for the letters of a number. *)
Definition to_upper (c : byte) : byte :=
  if bool_decide (97 <= byte_val c <= 122) then byte_of (byte_val c - 32) else c.

(** A narrow text on a wide stream. *)
Definition widen (s : bytes) : list Z := map byte_val s.

(** [to_string(id, mask)]; [std::hash] of an integer is the integer. *)
Definition thread_id_to_string (id mask : Z) : list Z :=
  let hash_value := Z.land id mask in
  widen (pad 4 (byte_of 48) (map to_upper (print_nat 16 hash_value))).

Example masked_id : thread_id_to_string 0x7f3a0000beef 0xFFFF = widen (str "BEEF").
Proof. reflexivity. Qed.
Example short_id : thread_id_to_string 0x1a size_max = widen (str "001A").
Proof. reflexivity. Qed.

(** ** Time points *)

(** The fields of [struct tm] that are printed. *)
Record tm : Type := Tm { tm_year : Z; tm_mon : Z; tm_mday : Z; tm_hour : Z; tm_min : Z; tm_sec : Z }.

Definition two_digits (z : Z) : bytes := pad 2 (byte_of 48) (to_string_integer z).

(** [strftime] with "%Y-%m-%d %H:%M:%S" into a buffer of [size] bytes; it writes
    nothing when the text and its NUL do not fit. *)
Definition strftime (size : Z) (b : tm) : option bytes :=
  let text :=
    to_string_integer (tm_year b + 1900) ++ str "-" ++ two_digits (tm_mon b + 1) ++ str "-" ++ two_digits (tm_mday b) ++
    str " " ++ two_digits (tm_hour b) ++ str ":" ++ two_digits (tm_min b) ++ str ":" ++ two_digits (tm_sec b) in
  if bool_decide (Z.of_nat (length text) < size) then Some text else None.

Definition ticks_per_second : Z := 1000000000.

(** [to_string(time)] for the system clock, which counts nanoseconds since the
    epoch; casts of durations truncate toward zero.  [localtime] is the time
    zone of the process; it answers [None] (a null pointer) for a year that
    does not fit. *)
Definition time_to_string (localtime : Z -> option tm) (time : Z) : outcome bytes :=
  let curr_time := Z.quot time ticks_per_second in
  match localtime curr_time with
  | None => UB
  | Some buffer =>
      match strftime 100 buffer with
      | None => UB
      | Some sRep =>
          let ms := Z.quot (time - ticks_per_second * Z.quot time ticks_per_second) 1000000 in
          Ok (sRep ++ str "." ++ pad 3 (byte_of 48) (to_string_integer ms))
      end
  end.

(** [to_wstring(value)], for what [to_string] makes of the value. *)
Definition to_wstring (text : outcome bytes) : outcome (list Z) := from_string_wide <$> text.

(** UTC in the Gregorian calendar, as an instance of [localtime]. *)
Definition utc (t : Z) : option tm :=
  let days := t / 86400 in
  let rem := t mod 86400 in
  let z := days + 719468 in
  let era := z / 146097 in
  let doe := z mod 146097 in
  let yoe := (doe - doe / 1460 + doe / 36524 - doe / 146096) / 365 in
  let doy := doe - (365 * yoe + yoe / 4 - yoe / 100) in
  let mp := (5 * doy + 2) / 153 in
  let month := if bool_decide (mp < 10) then mp + 2 else mp - 10 in
  let year := yoe + era * 400 + (if bool_decide (month <= 1) then 1 else 0) in
  Some (Tm (year - 1900) month (doy - (153 * mp + 2) / 5 + 1) (rem / 3600) (rem mod 3600 / 60) (rem mod 60)).

Example documented_time : time_to_string utc 1698497696789000000 = Ok (str "2023-10-28 12:54:56.789").
Proof. vm_compute. reflexivity. Qed.

(** Milliseconds of a time before 1970 are printed with their sign. *)
Example before_the_epoch :
  time_to_string utc (- 500000000) = Ok (str "1970-01-01 00:00:00.-500") /\
  time_to_string utc (- 5000000) = Ok (str "1970-01-01 00:00:00.0-5").
Proof. vm_compute. split; reflexivity. Qed.

(** ** Laws of the digits *)

Lemma byte_of_widen s : map byte_of (widen s) = s.
Proof. unfold widen. rewrite map_map. rewrite <- (map_id s) at 2. apply map_ext, byte_of_val. Qed.

Lemma pad_map {C D} (f : C -> D) n fill s : pad n (f fill) (map f s) = map f (pad n fill s).
Proof.
  unfold pad. rewrite map_app, length_map. f_equal. generalize (n - length s)%nat. intros k.
  induction k as [|k IH]; simpl; [done|by rewrite IH].
Qed.

Lemma digit_val_upper d : 0 <= d < 16 -> digit_val (to_upper (digit_char d)) = Some d.
Proof.
  intros Hd. unfold to_upper, digit_char. rewrite byte_val_of_small by (case_bool_decide; lia).
  unfold digit_val. repeat case_bool_decide; rewrite ?byte_val_of_small in * by lia; first [lia|f_equal; lia].
Qed.

Lemma take_digits_upper acc count s :
  Forall (is_digit 16) s -> take_digits 16 acc count (map to_upper s) = take_digits 16 acc count s.
Proof.
  intros Hs. revert acc count. induction Hs as [|c s (d & Hd & ->) _ IH]; intros acc count; simpl; [done|].
  rewrite digit_val_upper, (digit_val_char 16) by lia. by rewrite bool_decide_eq_true_2, IH by lia.
Qed.

(** ** Properties of ids and time stamps *)

(** The text of a thread id: upper-case hexadecimal digits of the masked id with
    zeros in front, so that it reads back as the masked id; it has at least 4
    and at most 16 characters, and exactly 4 under the mask of the log. *)
Theorem thread_id_text id mask :
  is_size_t id -> is_size_t mask ->
  (take_digits 16 0 0 (map byte_of (thread_id_to_string id mask))).1 = Z.land id mask /\
  (4 <= length (thread_id_to_string id mask) <= 16)%nat /\
  (mask <= 0xFFFF -> length (thread_id_to_string id mask) = 4%nat).
Proof.
  unfold is_size_t. intros Hid Hmask. set (n := Z.land id mask).
  assert (forall b, 0 <= b -> mask < 2 ^ b -> 0 <= n < 2 ^ b) as Hn.
  { intros b Hb Hm. pose proof (Z.land_nonneg id mask) as [_ Hnn]. subst n. split; [apply Hnn; lia|].
    destruct (decide (Z.land id mask = 0)) as [->|Hne]; [lia|]. apply Z.log2_lt_pow2; [lia|].
    pose proof (Z.log2_land id mask ltac:(lia) ltac:(lia)). destruct (decide (mask = 0)) as [->|]; [by rewrite Z.land_0_r in Hne|].
    apply Z.log2_lt_pow2 in Hm; lia. }
  assert (0 <= n < 16 ^ Z.of_nat 16) as Hn16.
  { change (16 ^ Z.of_nat 16) with (2 ^ 64). apply Hn; unfold size_max, size_bits in Hmask; lia. }
  unfold thread_id_to_string. fold n. change (byte_of 48) with (to_upper (digit_char 0)).
  rewrite byte_of_widen, pad_map. unfold widen. rewrite !length_map. split_and!.
  - rewrite take_digits_upper; [by apply take_pad_print; lia|].
    apply Forall_app. split; [|by apply print_nat_digits; lia]. apply Forall_replicate. exists 0. split; [lia|done].
  - unfold pad. rewrite length_app, length_replicate. lia.
  - pose proof (length_put_digits_le 16 (S (Z.to_nat (Z.log2 n))) n [] 15 ltac:(lia) Hn16) as Hl.
    rewrite Nat.add_0_r in Hl. unfold pad, print_nat. rewrite length_app, length_replicate. lia.
  - intros Hm. apply length_pad_print; [lia| |lia]. change (16 ^ Z.of_nat 4) with (2 ^ 16). apply Hn; lia.
Qed.

Lemma thread_id_text_witness : length (thread_id_to_string (size_max - 3) 0xFFFF) = 4%nat.
Proof.
  assert (is_size_t (size_max - 3) /\ is_size_t 0xFFFF) as [Hi Hm] by (unfold is_size_t, size_max, size_bits; lia).
  destruct (thread_id_text _ _ Hi Hm) as (_ & _ & H). apply H. lia.
Defined.

(** The fields of a time stamp, read back from their places. *)
Definition field (off n : nat) (text : bytes) : Z := (take_digits 10 0 0 (take n (drop off text))).1.
Definition read_time (text : bytes) : tm * Z :=
  (Tm (field 0 4 text - 1900) (field 5 2 text - 1) (field 8 2 text) (field 11 2 text) (field 14 2 text) (field 17 2 text),
   field 20 3 text).

Lemma field_at a f b off n z :
  0 <= z < 10 ^ Z.of_nat n -> (0 < n)%nat -> off = length a -> f = pad n (byte_of 48) (to_string_integer z) ->
  length f = n /\ field off n (a ++ f ++ b) = z.
Proof.
  intros Hz Hn -> ->. change (byte_of 48) with (digit_char 0).
  unfold to_string_integer. rewrite bool_decide_eq_false_2 by lia.
  assert (length (pad n (digit_char 0) (print_nat 10 z)) = n) as Hl by (apply length_pad_print; lia).
  split; [done|]. unfold field. rewrite drop_app_length, take_app_length' by done. apply take_pad_print; lia.
Qed.

Lemma field_of f n z :
  0 <= z < 10 ^ Z.of_nat n -> (0 < n)%nat -> f = pad n (byte_of 48) (to_string_integer z) ->
  length f = n /\ forall a b off, off = length a -> field off n (a ++ f ++ b) = z.
Proof.
  intros Hz Hn Hf. split; [by apply (field_at [] f [] 0 n z)|]. intros a b off Hoff. by apply field_at.
Qed.

(** What [localtime] promises of the fields. *)
Record valid_tm (b : tm) : Prop := {
  valid_mon : 0 <= tm_mon b <= 11;
  valid_mday : 1 <= tm_mday b <= 31;
  valid_hour : 0 <= tm_hour b <= 23;
  valid_min : 0 <= tm_min b <= 59;
  valid_sec : 0 <= tm_sec b <= 60;
}.
#[export] Instance valid_tm_dec b : Decision (valid_tm b).
Proof.
  refine (cast_if (decide (0 <= tm_mon b <= 11 /\ 1 <= tm_mday b <= 31 /\ 0 <= tm_hour b <= 23 /\ 0 <= tm_min b <= 59 /\ 0 <= tm_sec b <= 60)));
    [by split; naive_solver|by intros []; naive_solver].
Defined.

Lemma print_two z : two_digits z = pad 2 (byte_of 48) (to_string_integer z).
Proof. done. Qed.

Lemma print_year y : 1000 <= y <= 9999 -> to_string_integer y = pad 4 (byte_of 48) (to_string_integer y).
Proof.
  intros Hy. unfold to_string_integer. rewrite bool_decide_eq_false_2 by lia. symmetry.
  apply (pad_exact 10 y 3); lia.
Qed.

(** A field behind the prefix [pre], given the law [F] of the field. *)
Ltac at_place F pre :=
  refine (eq_trans (f_equal _ _) (F pre _ _ _));
  [rewrite <- ?app_assoc; done|rewrite ?length_app; simpl; lia].

Lemma strftime_fits b y :
  valid_tm b -> tm_year b + 1900 = y -> 1000 <= y <= 9999 ->
  exists sRep, strftime 100 b = Some sRep /\ length sRep = 19%nat /\
    (forall rest, let text := sRep ++ str "." ++ rest in
       (field 0 4 text, field 5 2 text, field 8 2 text, field 11 2 text, field 14 2 text, field 17 2 text) =
       (y, tm_mon b + 1, tm_mday b, tm_hour b, tm_min b, tm_sec b)).
Proof.
  intros [Hmon Hmday Hh Hm Hs] Hyear Hy. unfold strftime. rewrite Hyear, print_year by done. unfold two_digits.
  set (p4 := pad 4 _ _). set (pmon := pad 2 _ (to_string_integer (tm_mon b + 1))).
  set (pday := pad 2 _ (to_string_integer (tm_mday b))). set (ph := pad 2 _ (to_string_integer (tm_hour b))).
  set (pm := pad 2 _ (to_string_integer (tm_min b))). set (ps := pad 2 _ (to_string_integer (tm_sec b))).
  destruct (field_of p4 4 y) as [Lp4 F4]; [lia..|done|].
  destruct (field_of pmon 2 (tm_mon b + 1)) as [Lpmon Fmon]; [lia..|done|].
  destruct (field_of pday 2 (tm_mday b)) as [Lpday Fday]; [lia..|done|].
  destruct (field_of ph 2 (tm_hour b)) as [Lph Fh]; [lia..|done|].
  destruct (field_of pm 2 (tm_min b)) as [Lpm Fm]; [lia..|done|].
  destruct (field_of ps 2 (tm_sec b)) as [Lps Fs]; [lia..|done|].
  set (sRep := p4 ++ _). assert (length sRep = 19%nat) as Hl.
  { subst sRep. rewrite !length_app, Lp4, Lpmon, Lpday, Lph, Lpm, Lps. done. }
  exists sRep. rewrite bool_decide_eq_true_2 by lia. split_and!; [done..|]. intros rest. cbv zeta. subst sRep.
  rewrite <- !app_assoc. clearbody p4 pmon pday ph pm ps. repeat f_equal.
  - at_place F4 (@nil byte).
  - at_place Fmon (p4 ++ str "-").
  - at_place Fday (p4 ++ str "-" ++ pmon ++ str "-").
  - at_place Fh (p4 ++ str "-" ++ pmon ++ str "-" ++ pday ++ str " ").
  - at_place Fm (p4 ++ str "-" ++ pmon ++ str "-" ++ pday ++ str " " ++ ph ++ str ":").
  - at_place Fs (p4 ++ str "-" ++ pmon ++ str "-" ++ pday ++ str " " ++ ph ++ str ":" ++ pm ++ str ":").
Qed.

Lemma time_to_string_spec localtime time b :
  0 <= time -> localtime (time / ticks_per_second) = Some b -> valid_tm b -> 1000 <= tm_year b + 1900 <= 9999 ->
  exists text, time_to_string localtime time = Ok text /\ length text = 23%nat /\
    read_time text = (b, time / 1000000 mod 1000).
Proof.
  intros Ht Hb Hv Hy. unfold time_to_string. rewrite (Z.quot_div_nonneg time) by done. rewrite Hb.
  destruct (strftime_fits b _ Hv eq_refl Hy) as (sRep & -> & Hl & Hf).
  set (ms := Z.quot _ 1000000). assert (ms = time / 1000000 mod 1000) as Hms.
  { subst ms. unfold ticks_per_second. rewrite Z.quot_div_nonneg; Z.to_euclidean_division_equations; lia. }
  assert (0 <= ms < 10 ^ Z.of_nat 3) as Hr by (rewrite Hms; apply Z.mod_pos_bound; lia).
  eexists. split; [done|]. set (p3 := pad 3 _ _).
  destruct (field_at (sRep ++ str ".") p3 [] 20 3 ms Hr ltac:(lia)) as [L3 F3]; [by rewrite length_app, Hl|done|].
  split; [rewrite !length_app, Hl, L3; done|]. unfold read_time. specialize (Hf p3). cbv zeta in Hf.
  apply pair_equal_spec in Hf as [Hf ->]. do 4 (apply pair_equal_spec in Hf as [Hf ->]). rewrite Hf. rewrite app_nil_r, <- app_assoc in F3. rewrite F3, <- Hms.
  destruct b. simpl. do 2 f_equal; lia.
Qed.

(** C40. Time stamps from 1970 on, with a year of four digits: the text has 23
    characters, and its fields, read back from their places, are those of the
    local time of its second and the full milliseconds in it, 0 to 999.  The
    buffer of 100 bytes is large enough. *)
Theorem time_stamp localtime time b :
  0 <= time -> localtime (time / ticks_per_second) = Some b -> valid_tm b -> 1000 <= tm_year b + 1900 <= 9999 ->
  exists text, time_to_string localtime time = Ok text /\ length text = 23%nat /\
    read_time text = (b, time / 1000000 mod 1000).
Proof. apply time_to_string_spec. Qed.

Lemma time_stamp_witness :
  exists text, time_to_string utc 1698497696789000000 = Ok text /\ length text = 23%nat.
Proof.
  destruct (time_stamp utc 1698497696789000000 (Tm 123 9 28 12 54 56)) as (text & E & Hl & _); [lia|reflexivity| | |].
  - apply (bool_decide_unpack _). vm_compute. exact I.
  - simpl. lia.
  - exists text. exact (conj E Hl).
Defined.

(** ** Laws of the threads library *)

(** [thread_name w t] is the name of the thread [t], if it lives.  [prctl] cuts
    the name to 15 bytes; [pthread_setname_np] fails for a longer one; reading
    the name may fail for another thread only. *)
Class ThreadsLaws (W : Type) `{Threads W} := {
  thread_name : W -> Z -> option bytes;
  self_lives (w : W) : is_Some (thread_name w (pthread_self w));
  prctl_law name (w : W) : returns (prctl_set_name name) (fun _ w' =>
    pthread_self w' = pthread_self w /\ thread_name w' (pthread_self w) = Some (take 15 name) /\
    forall t, t <> pthread_self w -> thread_name w' t = thread_name w t) w;
  setname_law t name (w : W) : is_Some (thread_name w t) ->
    returns (pthread_setname_np t name) (fun status w' =>
      pthread_self w' = pthread_self w /\ (forall u, u <> t -> thread_name w' u = thread_name w u) /\
      (if bool_decide (status = 0) then thread_name w' t = Some name /\ (length name <= 15)%nat
       else thread_name w' t = thread_name w t)) w;
  getname_law t size (w : W) name : thread_name w t = Some name -> 16 <= size ->
    returns (pthread_getname_np t size) (fun r w' =>
      w' = w /\ (r.1 = 0 -> r.2 = name) /\ (t = pthread_self w -> r.1 = 0)) w;
}.

Section names.
Context {W : Type} `{ThreadsLaws W}.

Lemma get_thread_name_spec t (w : W) n :
  thread_name w t = Some n ->
  returns (get_thread_name t) (fun r w' => w' = w /\ (r = from_string_wide n \/ r = []) /\
    (t = pthread_self w -> r = from_string_wide n)) w.
Proof.
  intros Hn. unfold get_thread_name. eapply returns_bind; [by apply (getname_law t thread_name_buffer)|].
  intros [status name] w' (-> & Hname & Hself). apply returns_ret. simpl in *. split; [done|].
  case_bool_decide as Hs; [rewrite Hname by done; auto|]. split; [auto|]. intros Ht. by rewrite Hself in Hs.
Qed.

Lemma set_thread_name_spec name (w : W) :
  returns (set_thread_name name) (fun _ w' =>
    pthread_self w' = pthread_self w /\ thread_name w' (pthread_self w) = Some (take 15 name)) w.
Proof.
  unfold set_thread_name. eapply returns_bind; [apply prctl_law|]. intros _ w' (Hs & Hn & _). by apply returns_ret.
Qed.

Lemma set_thread_name_of_spec t name (w : W) n :
  thread_name w t = Some n ->
  returns (set_thread_name_of t name) (fun _ w' =>
    (thread_name w' t = Some name /\ (length name <= 15)%nat) \/ thread_name w' t = Some n) w.
Proof.
  intros Hn. unfold set_thread_name_of. eapply returns_bind; [by apply setname_law|]. intros status w' (_ & _ & Hs).
  apply returns_ret. case_bool_decide; [auto|]. right. by rewrite Hs.
Qed.

(** Thread names.  A name given to the calling thread reads back, when its UTF-8
    text has at most 15 bytes; a longer one is cut there, wherever a
    character ends.  A name given to another thread either reads back, or is too
    long (or rejected by the system) and the old name stays, or cannot be read
    and the result is empty; nothing is thrown in any case. *)
Theorem thread_names (w : W) us t n :
  Forall is_scalar us -> thread_name w t = Some n ->
  let name := utf8_text us in
  returns (_ ← set_thread_name name; get_thread_name (pthread_self w)) (fun r _ =>
    r = from_string_wide (take 15 name) /\ ((length name <= 15)%nat -> r = utf16_text us)) w /\
  returns (_ ← set_thread_name_of t name; get_thread_name t) (fun r _ =>
    (r = utf16_text us /\ (length name <= 15)%nat) \/ r = from_string_wide n \/ r = []) w.
Proof.
  intros Hus Hn name.
  assert (from_string_wide name = utf16_text us) as Hwide.
  { unfold from_string_wide, from_bytes, name. by rewrite decode8_text. }
  split; (eapply returns_bind; [apply set_thread_name_spec || by apply set_thread_name_of_spec|]).
  - intros _ w' [Hself Hname]. destruct (get_thread_name_spec _ _ _ Hname) as (r & w2 & E & _ & _ & Hr).
    exists r, w2. split; [done|]. rewrite Hr by done. split; [done|]. intros Hl. by rewrite take_ge.
  - intros _ w' [[Hname Hl]|Hname]; destruct (get_thread_name_spec _ _ _ Hname) as (r & w2 & E & _ & Hr & _);
      exists r, w2; (split; [done|]); destruct Hr as [->| ->]; auto.
Qed.
End names.

(** A process with its own name and those of its other threads. *)
Record process_threads : Type := ProcessThreads { self : Z; own : bytes; others : gmap Z bytes }.

#[export] Instance process_threads_calls : Threads process_threads := {|
  pthread_self w := self w;
  prctl_set_name name := fun w => (Ok tt, ProcessThreads (self w) (take 15 name) (others w));
  pthread_setname_np t name := fun w =>
    if bool_decide (15 < length name)%nat then (Ok 34, w)
    else if bool_decide (t = self w) then (Ok 0, ProcessThreads (self w) name (others w))
    else (Ok 0, ProcessThreads (self w) (own w) (<[t := name]> (others w)));
  pthread_getname_np t size := fun w =>
    (Ok (if bool_decide (t = self w) then (0, own w)
         else match others w !! t with Some n => (0, n) | None => (3, []) end), w);
|}.

#[export, refine] Instance process_threads_laws : ThreadsLaws process_threads := {|
  thread_name w t := if bool_decide (t = self w) then Some (own w) else others w !! t;
|}.
Proof.
  - intros w. simpl. rewrite bool_decide_eq_true_2 by done. by eexists.
  - intros name w. eexists _, _. split; [done|]. simpl. rewrite bool_decide_eq_true_2 by done.
    split_and!; [done..|]. intros t Ht. by rewrite bool_decide_eq_false_2.
  - intros t name w _. unfold returns. simpl. case_bool_decide as Hl; [|case_bool_decide as Ht; subst];
      eexists _, _; (split; [done|]); simpl.
    + by split_and!.
    + rewrite bool_decide_eq_true_2 by done. split_and!; [done| |done|lia]. intros u Hu. by rewrite !bool_decide_eq_false_2.
    + rewrite (bool_decide_eq_false_2 (t = _)), lookup_insert_eq by done. split_and!; [done| |done|lia].
      intros u Hu. by rewrite lookup_insert_ne.
  - intros t size w name Hn _. eexists _, _. split; [done|]. simpl in *. case_bool_decide; simplify_eq; [done|].
    by rewrite Hn.
Defined.

Lemma thread_names_witness :
  (get_thread_name 7 (ProcessThreads 7 (take 15 (str "a-rather-long-name")) ∅)).1 =
    Ok (widen (str "a-rather-long-n")) /\
  exists r w', (_ ← set_thread_name (utf8_text [0x61; 0xE4]); get_thread_name 7) (ProcessThreads 7 [] ∅) = (Ok r, w') /\
    r = utf16_text [0x61; 0xE4].
Proof.
  split; [vm_compute; reflexivity|].
  destruct (thread_names (ProcessThreads 7 [] ∅) [0x61; 0xE4] 7 []) as [(r & w' & E & _ & Hr) _].
  - apply (bool_decide_unpack _). vm_compute. exact I.
  - reflexivity.
  - exists r, w'. split; [exact E|]. apply Hr. vm_compute. lia.
Defined.

(** A name cut within a character reads back as one character per byte. *)
Example cut_name :
  (_ ← set_thread_name (str "fourteen bytes" ++ utf8_encode 0xE4); get_thread_name 7) (ProcessThreads 7 [] ∅) =
  (Ok (widen (str "fourteen bytes") ++ [0xC3]), ProcessThreads 7 (str "fourteen bytes" ++ [byte_of 0xC3]) ∅).
Proof. vm_compute. reflexivity. Qed.

(** The number behind a name of 15 bytes is cut off. *)
Example handler_name_cut :
  (_ ← handler_on_start (handler_thread_name (str "image_processor") 12); get_thread_name 7) (ProcessThreads 7 [] ∅) =
  (_ ← handler_on_start (handler_thread_name (str "image_processor") 13); get_thread_name 7) (ProcessThreads 7 [] ∅).
Proof. vm_compute. reflexivity. Qed.
