(* ===== verification/Logging.v ===== *)
(** * Logging: [logging/detail/logging_impl.hpp], [logging/log_manager.hpp] and
    [filesystem/stdout_redirector.hpp]

    A log file, the manager of the process's log, and the redirection of standard
    output.  The file is written through the calls of [Io], lines carry the time
    stamps and thread names of [Thread].  What is printed to [std::cerr] is left
    out. *)

From S2P Require Import Prelude Errors Bytes Convert Utf8 Wide Random Path Io Thread.

(** The clock, the time zone, the conversion of the locale's [codecvt] (from wide
    characters to bytes; [None] is its error), the size of a wide stream's
    buffer, [std::filesystem::remove], and whether [assert] is compiled in. *)
Class LogSystem (W : Type) := {
  system_clock_now : M W Z;
  local_time : Z -> option tm;
  narrow : list Z -> option bytes;
  wide_buffer : nat;
  fs_remove : bytes -> M W unit;
  assertions : bool;
}.

Definition lift_outcome {W A} (r : outcome A) : M W A := fun w => (r, w).
Definition noexcept {W A} (m : M W A) : M W A := fun w =>
  match m w with (Throw _, w') => (UB, w') | r => r end.
Definition wide (s : string) : list Z := widen (str s).

Section log_file.
Context {W : Type} `{Files W, FileSystem W, Threads W, LogSystem W}.

Definition assert_false : M W unit := if assertions then undefined else mret tt.

(** ** [class log] *)

Definition current_time_to_wstring : M W (list Z) :=
  now ← system_clock_now; lift_outcome (to_wstring (time_to_string local_time now)).

Definition create_header (thread_id : Z) : M W (list Z) :=
  time ← current_time_to_wstring;
  name ← get_thread_name thread_id;
  mret (time ++ wide " (" ++ thread_id_to_string thread_id 0xFFFF ++ wide " " ++ name ++ wide "): ").

(** The buffer of a wide stream is converted and written whenever it is full, and
    at the end; a failure ends the output. *)
Fixpoint wide_write (fuel : nat) (fd : Z) (text : list Z) : M W unit :=
  match fuel with
  | O => mret tt
  | S fuel =>
      match narrow (take wide_buffer text) with
      | None => mret tt
      | Some bs =>
          ok ← write_all fd bs;
          if (ok : bool) && negb (bool_decide (drop wide_buffer text = []))
          then wide_write fuel fd (drop wide_buffer text) else mret tt
      end
  end.

(** [std::wofstream(path, std::ofstream::app) << text << std::endl], with the
    destructor. *)
Definition wofstream_line (path : bytes) (text : list Z) : M W unit :=
  r ← open_file path appending;
  match r with
  | None => mret tt
  | Some fd =>
      let line := text ++ [10] in
      _ ← wide_write (S (length line)) fd line;
      _ ← close_file fd;
      mret tt
  end.

(** [do_append(str, thread_id, time)]; the id of no thread is 0. *)
Definition do_append (_log_path : bytes) (text : list Z) (thread_id : Z) (time : list Z) : M W unit :=
  noexcept (try_catch
    (thread_id ← (if bool_decide (thread_id = 0) then get_current_thread_id else mret thread_id);
     time ← (if bool_decide (time = []) then create_header thread_id else mret time);
     wofstream_line _log_path (time ++ text))
    std_exception (fun _ => mret tt)).

Definition start_of_log : list Z := wide "-------------------------------- start of log --------------------------------".
Definition end_of_log : list Z := wide "--------------------------------  end of log  --------------------------------".

(** [log(log_path)]: the object is its path and its mutex, which nobody holds. *)
Definition log_new (log_path : bytes) : M W bytes :=
  _ ← fs_create_directories (parent_path log_path);
  _ ← try_catch (fs_remove log_path) std_exception (fun ex =>
        do_append log_path (from_string_wide (str "Could not delete old log file: " ++ list_ascii_of_string (exn_text ex))) 0 []);
  _ ← do_append log_path start_of_log 0 [];
  mret log_path.

(** [~log()], when it has the mutex. *)
Definition log_delete (_log_path : bytes) : M W unit := do_append _log_path end_of_log 0 [].

(** [append(str)] up to the point where the mutex is locked, and from there on:
    when another thread has it, the header is made before waiting. *)
Definition append_before (try_lock : bool) (thread_id : Z) : M W (list Z) :=
  if try_lock then mret [] else create_header thread_id.
Definition append_locked (_log_path : bytes) (text : list Z) (thread_id : Z) (header : list Z) : M W unit :=
  do_append _log_path text thread_id header.
Definition append (try_lock : bool) (_log_path : bytes) (text : list Z) : M W unit :=
  thread_id ← get_current_thread_id;
  header ← append_before try_lock thread_id;
  append_locked _log_path text thread_id header.

(** [append(const std::string&)]: each byte becomes a wide character. *)
Definition append_string (try_lock : bool) (_log_path : bytes) (text : bytes) : M W unit :=
  append try_lock _log_path (widen text).
End log_file.

(** ** [class log_manager]

    A recursive mutex is its holder and how often it is locked.  [lock] is used
    where the thread may lock; one that may not waits, and takes no step. *)
Record recursive_mutex : Type := RecursiveMutex { holder : option Z; locks : nat }.

Definition may_lock (t : Z) (m : recursive_mutex) : bool := bool_decide (holder m = None \/ holder m = Some t).
Definition lock (t : Z) (m : recursive_mutex) : recursive_mutex := RecursiveMutex (Some t) (S (locks m)).
Definition unlock (m : recursive_mutex) : recursive_mutex :=
  RecursiveMutex (if bool_decide (locks m = 1%nat) then None else holder m) (locks m - 1).

(** The instance and the static members; the log is its path. *)
Record log_manager : Type := LogManager {
  _log : option bytes;
  _log_mutex : recursive_mutex;
  _shutting_down : bool;
  _shutting_down_mutex : recursive_mutex;
}.

Section manager.
Context {W : Type} `{Files W, FileSystem W, Threads W, LogSystem W}.
Abbreviation LM := (M (log_manager * W)).

Definition in_world {A} (m : M W A) : LM A := fun s => let '(r, w) := m s.2 in (r, (s.1, w)).
Definition update (f : log_manager -> log_manager) : LM unit := modify (fun s => (f s.1, s.2)).

Definition set_log (l : option bytes) (m : log_manager) : log_manager :=
  LogManager l (_log_mutex m) (_shutting_down m) (_shutting_down_mutex m).
Definition on_log_mutex (f : recursive_mutex -> recursive_mutex) (m : log_manager) : log_manager :=
  LogManager (_log m) (f (_log_mutex m)) (_shutting_down m) (_shutting_down_mutex m).
Definition set_shutting_down (m : log_manager) : log_manager :=
  LogManager (_log m) (_log_mutex m) true (_shutting_down_mutex m).
Definition on_shutting_down_mutex (f : recursive_mutex -> recursive_mutex) (m : log_manager) : log_manager :=
  LogManager (_log m) (_log_mutex m) (_shutting_down m) (f (_shutting_down_mutex m)).

(** The calling thread. *)
Definition self_id : LM Z := in_world get_current_thread_id.

(** A lock guard around [body]; [on] is the mutex. *)
Definition guard {A} (on : (recursive_mutex -> recursive_mutex) -> log_manager -> log_manager) (body : LM A) : LM A :=
  fun s =>
    let '(r, s') := body (on (lock (pthread_self s.2)) s.1, s.2) in
    match r with UB => (UB, s') | _ => (r, (on unlock s'.1, s'.2)) end.

Definition is_operational_for_logging : LM bool :=
  s ← get;
  if _shutting_down s.1 then _ ← in_world assert_false; mret false else mret true.

(** [_shutting_down_mutex.try_lock()], and its [unlock()], which only its holder
    may call. *)
Definition try_lock_shutting_down : LM bool :=
  t ← self_id;
  s ← get;
  if may_lock t (_shutting_down_mutex s.1) then _ ← update (on_shutting_down_mutex (lock t)); mret true else mret false.
Definition unlock_shutting_down : LM unit :=
  t ← self_id;
  s ← get;
  if bool_decide (holder (_shutting_down_mutex s.1) = Some t) then update (on_shutting_down_mutex unlock) else undefined.

(** [create_logfile(path, instance)]: there is one instance; [from_instance] tells
    whether the caller hands it over. *)
Definition create_logfile (path : bytes) (from_instance : bool) : LM unit :=
  locked ← try_lock_shutting_down;
  _ ← (if negb locked && from_instance then in_world assert_false else mret tt);
  operational ← is_operational_for_logging;
  _ ← (if operational : bool then
         guard on_log_mutex (
           s ← get;
           match _log s.1 with
           | None => l ← in_world (log_new path); update (set_log (Some l))
           | Some _ => mret tt
           end)
       else mret tt);
  unlock_shutting_down.

(** [instance->_log->append(str)]: [_mtx] of the log is free, since every user of
    the log has [_shutting_down_mutex]. *)
Definition append_to_log (text : list Z) : LM unit :=
  s ← get;
  match _log s.1 with
  | None => undefined
  | Some path => in_world (append true path text)
  end.

(** [log_append(const std::wstring&)]. *)
Definition log_append (text : list Z) : LM unit :=
  guard on_shutting_down_mutex (
    operational ← is_operational_for_logging;
    if operational : bool then
      guard on_log_mutex (
        s ← get;
        _ ← match _log s.1 with
            | None =>
                dir ← in_world temp_directory_path;
                create_logfile (path_append dir (str "Cbeam.log")) true
            | Some _ => mret tt
            end;
        append_to_log text)
    else mret tt).

(** [log_append(const std::string&)]. *)
Definition log_append_string (text : bytes) : LM unit :=
  guard on_shutting_down_mutex (
    operational ← is_operational_for_logging;
    if operational : bool then log_append (from_string_wide text) else mret tt).

(** [~log_manager()], and the destructor of its member [_log]. *)
Definition log_manager_delete : LM unit :=
  _ ← guard on_shutting_down_mutex (update set_shutting_down);
  s ← get;
  match _log s.1 with
  | Some path => _ ← in_world (log_delete path); update (set_log None)
  | None => mret tt
  end.
End manager.

(** ** Laws

    A system where the calls of the log work: files can be opened, written and
    closed, directories made, the clock is set to a year of four digits.  A
    conversion to bytes treats each character on its own. *)
Class LogLaws (W : Type) `{FilesLaws W, FileSystem W, Threads W, LogSystem W} := {
  working : W -> Prop;
  work_open p (w : W) : working w -> returns (open_file p appending) (fun r w' =>
    is_Some r /\ working w' /\ pthread_self w' = pthread_self w) w;
  work_write fd p k n c bs (w : W) : working w -> cursor w fd = Some (OpenState p k n) -> file_at w p = Some c ->
    returns (write_all fd bs) (fun ok w' => ok = true /\ working w' /\ pthread_self w' = pthread_self w) w;
  work_close fd p k n (w : W) : working w -> cursor w fd = Some (OpenState p k n) ->
    returns (close_file fd) (fun ok w' => ok = true /\ working w' /\ pthread_self w' = pthread_self w) w;
  work_directories p (w : W) : working w -> returns (fs_create_directories p) (fun _ w' =>
    same_files w w' /\ same_fds w w' /\ working w' /\ pthread_self w' = pthread_self w) w;
  work_remove p (w : W) : working w -> returns (fs_remove p) (fun _ w' =>
    file_at w' p = None /\ other_files p w w' /\ same_fds w w' /\ working w' /\ pthread_self w' = pthread_self w) w;
  work_now (w : W) : working w -> returns system_clock_now (fun now w' =>
    w' = w /\ 0 <= now /\ exists b, local_time (now / ticks_per_second) = Some b /\ valid_tm b /\ 1000 <= tm_year b + 1900 <= 9999) w;
  work_name id (w : W) : returns (pthread_getname_np id thread_name_buffer) (fun _ w' => w' = w) w;
  narrow_app a b : narrow (a ++ b) = (x ← narrow a; y ← narrow b; Some (x ++ y));
  wide_buffer_pos : (0 < wide_buffer)%nat;
}.

Section log_laws.
Context {W : Type} `{LogLaws W}.
Implicit Types w : W.

(** The header of a line: the time, the id and the name of a thread. *)
Definition header_of (stamp : bytes) (thread_id : Z) (name : list Z) : list Z :=
  from_string_wide stamp ++ wide " (" ++ thread_id_to_string thread_id 0xFFFF ++ wide " " ++ name ++ wide "): ".

(** [c'] is [c] with the line for [text] behind it; of a line that cannot be
    converted, only what was written before the failure, which is nothing when
    the line fits into the buffer. *)
Definition appended (id : Z) (text : list Z) (c c' : bytes) : Prop :=
  exists stamp name, length stamp = 23%nat /\
    let line := header_of stamp id name ++ text ++ [10] in
    match narrow line with
    | Some bs => c' = c ++ bs
    | None => exists part, c' = c ++ part /\ ((length line <= wide_buffer)%nat -> part = [])
    end.

(** The system after a call: it still works, for the same thread. *)
Definition kept w w' : Prop := working w' /\ pthread_self w' = pthread_self w.

Lemma kept_trans w w1 w2 : kept w w1 -> kept w1 w2 -> kept w w2.
Proof. intros [_ Ha] [Hw Hb]. split; [done|]. by rewrite Hb. Qed.

Lemma current_time_spec w :
  working w -> returns current_time_to_wstring (fun time w' => w' = w /\
    exists stamp, length stamp = 23%nat /\ time = from_string_wide stamp) w.
Proof.
  intros Hw. eapply returns_bind; [by apply work_now|]. intros now w' (-> & Hnow & b & Hb & Hv & Hy).
  destruct (time_to_string_spec local_time now b Hnow Hb Hv Hy) as (stamp & E & Hl & _).
  exists (from_string_wide stamp), w. unfold lift_outcome, to_wstring. rewrite E. eauto.
Qed.

Lemma create_header_spec id w :
  working w -> returns (create_header id) (fun h w' => w' = w /\
    exists stamp name, length stamp = 23%nat /\ h = header_of stamp id name) w.
Proof.
  intros Hw. eapply returns_bind; [by apply current_time_spec|]. intros time w' (-> & stamp & Hl & ->).
  unfold get_thread_name. destruct (work_name id w) as (r & w' & E & ->).
  eexists _, w. split; [rewrite M_bind_assoc; step_with E; done|]. split; [done|]. by eexists stamp, _.
Qed.

(** The state of the file while a line is written to it. *)
Definition appending_at (p : bytes) fd w0 (c : bytes) w : Prop :=
  cursor w fd = Some (OpenState p appending (Z.of_nat (length c))) /\ file_at w p = Some c /\
  other_files p w0 w /\ other_fds fd w0 w /\ kept w0 w.

Lemma wide_write_spec fuel p fd w0 c w text :
  appending_at p fd w0 c w -> (length text < fuel)%nat -> working w ->
  returns (wide_write fuel fd text) (fun _ w' => exists c', appending_at p fd w0 c' w' /\
    match narrow text with
    | Some bs => c' = c ++ bs
    | None => exists part, c' = c ++ part /\ ((length text <= wide_buffer)%nat -> part = [])
    end) w.
Proof.
  revert c w text. induction fuel as [|fuel IH]; intros c w text Hat Hfuel Hw; [lia|]. simpl.
  assert (narrow text = (x ← narrow (take wide_buffer text); y ← narrow (drop wide_buffer text); Some (x ++ y))) as Hn
    by (by rewrite <- narrow_app, take_drop).
  destruct (narrow (take wide_buffer text)) as [bs|] eqn:Hbs; simpl in Hn.
  2:{ apply returns_ret. exists c. split; [done|]. rewrite Hn. exists []. by rewrite app_nil_r. }
  destruct Hat as (Hc & Hf & Hq & Ho & Hk).
  eapply returns_bind; [eapply returns_and; [by eapply (work_write _ _ _ _ c)|by eapply write_law]|].
  intros ok w1 [(-> & Hw1 & Hs1) (_ & Hq1 & Ho1 & (m & Hm & Hpos) & Hfile)]. simpl.
  assert (appending_at p fd w0 (c ++ bs) w1) as Hat1.
  { split; [by rewrite Hm, Hpos, length_app, Nat2Z.inj_add by done|]. split; [by apply Hfile|].
    split; [by eapply other_files_trans|]. split; [by eapply other_fds_trans|]. by eapply kept_trans. }
  case_bool_decide as Hd; simpl.
  - apply returns_ret. exists (c ++ bs). split; [done|].
    assert (take wide_buffer text = text) as E by (rewrite <- (take_drop wide_buffer text) at 2; by rewrite Hd, app_nil_r).
    rewrite E in Hbs. by rewrite Hbs.
  - assert (length (drop wide_buffer text) < fuel)%nat as Hlt.
    { rewrite length_drop. pose proof wide_buffer_pos. destruct text; [by rewrite drop_nil in Hd|simpl in *; lia]. }
    eapply returns_mono; [by apply (IH _ _ _ Hat1 Hlt)|]. intros _ w' (c' & Hat' & Hrest). exists c'. split; [done|].
    rewrite Hn. destruct (narrow (drop wide_buffer text)); simpl; [by rewrite Hrest, <- app_assoc|].
    destruct Hrest as (part & -> & _). exists (bs ++ part). split; [by rewrite app_assoc|]. intros Hl.
    exfalso. apply Hd, drop_ge, Hl.
Qed.

(** What writing a line does, whatever its text. *)
Lemma wofstream_line_spec p text w :
  working w -> returns (wofstream_line p text) (fun _ w' =>
    same_fds w w' /\ other_files p w w' /\ kept w w' /\
    exists c', file_at w' p = Some c' /\ let c := default [] (file_at w p) in
      match narrow (text ++ [10]) with
      | Some bs => c' = c ++ bs
      | None => exists part, c' = c ++ part /\ ((length (text ++ [10%Z]) <= wide_buffer)%nat -> part = [])
      end) w.
Proof.
  intros Hw. unfold wofstream_line. eapply returns_bind; [eapply returns_and; [by apply work_open|apply open_law]|].
  intros r w1 [([fd ->] & Hw1 & Hs1) (_ & Hn & Ho & Hq & Hc & Hf)].
  set (c := default [] (file_at w p)) in *.
  eapply returns_bind; [apply (wide_write_spec _ p fd w c); [by split_and!|lia|done]|].
  intros _ w2 (c' & (Hc2 & Hf2 & Hq2 & Ho2 & Hk2) & Htext).
  eapply returns_bind; [eapply returns_and; [eapply work_close; [apply Hk2|done]|by eapply close_file_law]|].
  intros ok w3 [(-> & Hw3 & Hs3) (_ & Hq3 & Hn3 & Ho3 & Hsame)]. apply returns_ret.
  split; [by apply (fds_restored fd w w2)|]. split; [by eapply other_files_trans|].
  split; [by eapply kept_trans|]. exists c'. split; [by rewrite Hsame by auto|done].
Qed.

(** [do_append], with the header made before or not. *)
Definition header_for (id : Z) (header : list Z) : Prop :=
  header = [] \/ exists stamp name, length stamp = 23%nat /\ header = header_of stamp id name.

Definition logged (p : bytes) (id : Z) (text : list Z) w w' : Prop :=
  same_fds w w' /\ other_files p w w' /\ kept w w' /\
  exists c', file_at w' p = Some c' /\ appended id text (default [] (file_at w p)) c'.

Lemma do_append_spec p text id0 id header w :
  working w -> id = (if bool_decide (id0 = 0) then pthread_self w else id0) -> header_for id header ->
  returns (do_append p text id0 header) (fun _ w' => logged p id text w w') w.
Proof.
  intros Hw Hid Hh.
  assert (returns (thread_id ← (if bool_decide (id0 = 0) then get_current_thread_id else mret id0);
     time ← (if bool_decide (header = []) then create_header thread_id else mret header);
     wofstream_line p (time ++ text)) (fun _ w' => logged p id text w w') w) as (a & w' & E & HP).
  2:{ exists a, w'. unfold do_append, noexcept, try_catch. by rewrite E. }
  eapply (returns_bind _ _ (fun i w' => i = id /\ w' = w)).
  { subst id. case_bool_decide; [by eexists _, _|by apply returns_ret]. }
  intros ? ? [-> ->].
  eapply (returns_bind _ _ (fun h w' => w' = w /\ exists stamp name, length stamp = 23%nat /\ h = header_of stamp id name)).
  { clear Hid. case_bool_decide as He; [by apply create_header_spec|]. apply returns_ret. split; [done|]. by destruct Hh. }
  intros ? ? (-> & stamp & name & Hl & ->). eapply returns_mono; [by apply wofstream_line_spec|].
  intros _ w' (Hf & Hq & Hk & c' & Hc' & Happ). split; [done|]. split; [done|]. split; [done|]. exists c'. split; [done|].
  exists stamp, name. split; [done|]. by rewrite <- app_assoc in Happ.
Qed.

(** A new log has one line; what the file held before is gone. *)
Definition fresh_log (p : bytes) w w' : Prop :=
  same_fds w w' /\ other_files p w w' /\ kept w w' /\
  exists c', file_at w' p = Some c' /\ appended (pthread_self w) start_of_log [] c'.

Lemma log_new_spec p w : working w -> returns (log_new p) (fun l w' => l = p /\ fresh_log p w w') w.
Proof.
  intros Hw. unfold log_new. eapply returns_bind; [by apply work_directories|].
  intros _ w1 (Hs1 & Hf1 & Hw1 & Ht1).
  destruct (work_remove p w1 Hw1) as (u & w2 & E & Hnone & Hq2 & Hf2 & Hw2 & Ht2).
  eapply (returns_bind _ _ (fun _ w' => w' = w2)); [exists u, w2; split; [unfold try_catch; by rewrite E|done]|]. intros _ ? ->.
  eapply returns_bind; [by eapply (do_append_spec p start_of_log 0); [| |left]|].
  intros _ w3 (Hf3 & Hq3 & Hk3 & c' & Hc' & Happ). apply returns_ret. split; [done|].
  split; [intros g; by rewrite Hf3, Hf2, Hf1|]. split; [intros q Hq; by rewrite Hq3, Hq2, Hs1|].
  assert (kept w w2) as Hk2 by (split; [done|by rewrite Ht2]). split; [by eapply kept_trans|].
  exists c'. split; [done|]. rewrite Hnone in Happ. simpl in Happ. rewrite <- Ht1. exact Happ.
Qed.

(** ** The manager *)

(** A mutex that [t] may lock. *)
Definition usable (t : Z) (m : recursive_mutex) : Prop :=
  (holder m = None /\ locks m = O) \/ (holder m = Some t /\ locks m <> O).

Lemma usable_lock t m : usable t m -> usable t (lock t m).
Proof. intros _. right. by split. Qed.

Lemma unlock_after_lock t m : usable t m -> unlock (lock t m) = m.
Proof.
  destruct m as [h n]. unfold usable, unlock, lock. simpl. intros [[-> ->]|[-> Hn]]; [done|].
  rewrite bool_decide_eq_false_2 by lia. by rewrite Nat.sub_0_r.
Qed.

Lemma usable_may t m : usable t m -> may_lock t m = true.
Proof. intros [[Hh _]|[Hh _]]; apply bool_decide_eq_true; auto. Qed.

(** A manager that [t] may use. *)
Definition ready (t : Z) (m : log_manager) : Prop :=
  usable t (_log_mutex m) /\ usable t (_shutting_down_mutex m) /\ _shutting_down m = false.

(** A guard on one of the two mutexes, [get m]. *)
Lemma guard_spec {A} on (get : log_manager -> recursive_mutex) (body : M (log_manager * W) A) (P : A -> log_manager * W -> Prop) m w :
  (forall f m, on f m = on (fun _ => f (get m)) m) -> usable (pthread_self w) (get m) ->
  returns body (fun a s => get s.1 = lock (pthread_self w) (get m) /\ P a (on (fun _ => get m) s.1, s.2))
    (on (lock (pthread_self w)) m, w) ->
  returns (guard on body) P (m, w).
Proof.
  intros Hon Hl (a & [m' w'] & E & Hm & HP). simpl in *.
  exists a, (on unlock m', w'). unfold guard. simpl. rewrite E. split; [done|].
  by rewrite Hon, Hm, unlock_after_lock.
Qed.

Lemma operational_spec m w :
  _shutting_down m = false -> is_operational_for_logging (m, w) = (Ok true, (m, w)).
Proof. intros Hd. unfold is_operational_for_logging, get, mbind, M_bind. simpl. by rewrite Hd. Qed.

Lemma in_world_returns {A} (a : M W A) P m w :
  returns a P w -> returns (in_world a) (fun x s => s.1 = m /\ P x s.2) (m, w).
Proof. intros (x & w' & E & HP). exists x, (m, w'). unfold in_world. simpl. by rewrite E. Qed.

(** [create_logfile]: the log there is, or a new one; all mutexes as before. *)
Lemma create_logfile_spec p from_instance m w :
  ready (pthread_self w) m -> working w ->
  returns (create_logfile p from_instance) (fun _ s =>
    s.1 = set_log (Some (default p (_log m))) m /\
    match _log m with None => fresh_log p w s.2 | Some _ => s.2 = w end) (m, w).
Proof.
  intros (Hl & Hs & Hd) Hw. unfold create_logfile.
  assert (try_lock_shutting_down (m, w) = (Ok true, (on_shutting_down_mutex (lock (pthread_self w)) m, w))) as Etry.
  { unfold try_lock_shutting_down, self_id, in_world, get, mbind, M_bind. simpl. by rewrite usable_may. }
  eapply returns_step; [exact Etry|]. cbn [negb andb]. eapply returns_step; [done|].
  match goal with |- context [on_shutting_down_mutex ?f m] => set (m1 := on_shutting_down_mutex f m) end.
  eapply returns_step; [exact (operational_spec m1 w Hd)|].
  eapply (returns_bind _ _ (fun _ s => s.1 = set_log (Some (default p (_log m))) m1 /\
    match _log m with None => fresh_log p w s.2 | Some _ => s.2 = w end)).
  - apply (guard_spec on_log_mutex _log_mutex); [done|exact Hl|].
    eapply returns_step; [done|]. cbn [fst]. change (_log (on_log_mutex _ m1)) with (_log m).
    destruct (_log m) as [l|] eqn:Elog.
    + apply returns_ret. simpl. split; [done|]. split; [|done]. unfold on_log_mutex, set_log. simpl. by rewrite Elog.
    + eapply returns_bind; [by apply in_world_returns, log_new_spec|]. intros l [m2 w2] (Hm2 & -> & Hnew). simpl in *. subst m2.
      eexists _, _. split; [done|]. by simpl.
  - intros _ [m2 w2] [Hm2 Hlog]. simpl in *. subst m2.
    assert (pthread_self w2 = pthread_self w) as Hself.
    { destruct (_log m); [by subst|]. by destruct Hlog as (_ & _ & [_ ?] & _). }
    eexists _, _. split.
    + unfold unlock_shutting_down, self_id, in_world, get, update, modify, mbind, M_bind. simpl. rewrite Hself.
      rewrite bool_decide_eq_true_2 by done. done.
    + simpl. split; [|done]. unfold set_log, on_shutting_down_mutex. simpl. by rewrite unlock_after_lock.
Qed.

Lemma append_to_log_spec p text m w :
  _log m = Some p -> working w ->
  returns (append_to_log text) (fun _ s => s.1 = m /\ logged p (pthread_self w) text w s.2) (m, w).
Proof.
  intros Hlog Hw. unfold append_to_log. eapply returns_step; [done|]. cbn [fst]. rewrite Hlog.
  apply (in_world_returns _ (fun _ w' => logged p (pthread_self w) text w w')).
  eapply returns_step; [done|]. eapply returns_step; [done|].
  apply do_append_spec; [done|by case_bool_decide|by left].
Qed.

(** [log_append], when there is a log. *)
Lemma log_append_spec p text m w :
  ready (pthread_self w) m -> working w -> _log m = Some p ->
  returns (log_append text) (fun _ s => s.1 = m /\ logged p (pthread_self w) text w s.2) (m, w).
Proof.
  intros (Hl & Hs & Hd) Hw Hlog.
  apply (guard_spec on_shutting_down_mutex _shutting_down_mutex); [done|exact Hs|].
  eapply returns_step; [by apply operational_spec|].
  apply (guard_spec on_log_mutex _log_mutex); [done|exact Hl|].
  eapply returns_step; [done|]. cbn [fst]. change (_log (on_log_mutex _ (on_shutting_down_mutex _ m))) with (_log m).
  rewrite Hlog. eapply returns_step; [done|]. eapply returns_mono; [by apply append_to_log_spec|].
  intros _ [m' w'] [-> Hlogged]. simpl in *. split; [done|]. split; [done|]. split; [|done].
  by destruct m.
Qed.

(** Without a log it makes one in the temporary directory. *)
Lemma log_append_first dir text m w :
  ready (pthread_self w) m -> working w -> _log m = None -> temp_directory_path w = (Ok dir, w) ->
  let p := path_append dir (str "Cbeam.log") in
  returns (log_append text) (fun _ s => s.1 = set_log (Some p) m /\
    exists w1, fresh_log p w w1 /\ logged p (pthread_self w) text w1 s.2) (m, w).
Proof.
  intros (Hl & Hs & Hd) Hw Hlog Hdir p.
  apply (guard_spec on_shutting_down_mutex _shutting_down_mutex); [done|exact Hs|].
  eapply returns_step; [by apply operational_spec|].
  apply (guard_spec on_log_mutex _log_mutex); [done|exact Hl|].
  eapply returns_step; [done|]. cbn [fst]. change (_log (on_log_mutex _ (on_shutting_down_mutex _ m))) with (_log m).
  rewrite Hlog. set (m1 := on_log_mutex _ _). eapply returns_bind.
  { eapply returns_step; [unfold in_world; simpl; by rewrite Hdir|]. apply (create_logfile_spec p true m1 w); [|done].
    split; [by apply usable_lock|]. split; [by apply usable_lock|done]. }
  intros _ [m2 w2] [Hm2 Hnew]. change (_log m1) with (_log m) in *. rewrite Hlog in *. simpl in Hm2, Hnew. subst m2.
  pose proof Hnew as (_ & _ & [Hw2 Hid] & _).
  eapply returns_mono; [by apply (append_to_log_spec p)|].
  intros _ [m' w'] [-> Hlogged]. simpl in *. split; [done|]. split; [done|]. rewrite Hid in Hlogged. split; [by destruct m|].
  by exists w2.
Qed.

(** ** A session *)

(** The lines for messages of threads, one behind the other. *)
Inductive log_lines : bytes -> list (Z * list Z) -> bytes -> Prop :=
| lines_nil c : log_lines c [] c
| lines_cons c c' c'' id text messages :
    appended id text c c' -> log_lines c' messages c'' -> log_lines c ((id, text) :: messages) c''.

Lemma lines_snoc c messages c' id text c'' :
  log_lines c messages c' -> appended id text c' c'' -> log_lines c (messages ++ [(id, text)]) c''.
Proof. induction 1; intros Ha; simpl; econstructor; eauto. constructor. Qed.
End log_laws.

(** Messages logged one after the other. *)
Fixpoint log_all {W} `{Files W, FileSystem W, Threads W, LogSystem W} (texts : list (list Z)) : M (log_manager * W) unit :=
  match texts with
  | [] => mret tt
  | text :: texts => _ ← log_append text; log_all texts
  end.

Section session.
Context {W : Type} `{LogLaws W}.
Implicit Types w : W.

Lemma log_all_spec p texts m w c :
  ready (pthread_self w) m -> working w -> _log m = Some p -> file_at w p = Some c ->
  returns (log_all texts) (fun _ s => s.1 = m /\ same_fds w s.2 /\ other_files p w s.2 /\ kept w s.2 /\
    exists c', file_at s.2 p = Some c' /\ log_lines c (map (pair (pthread_self w)) texts) c') (m, w).
Proof.
  revert w c. induction texts as [|text texts IH]; intros w c Hm Hw Hlog Hc; simpl.
  - apply returns_ret. split_and!; try done. exists c. split; [done|constructor].
  - eapply returns_bind; [by apply log_append_spec|].
    intros _ [m1 w1] [Hm1 (Hf1 & Hq1 & Hk1 & c1 & Hc1 & Happ)]. simpl in *. subst m1. rewrite Hc in Happ. simpl in Happ.
    pose proof Hk1 as [Hw1 Hid]. rewrite <- Hid in Hm.
    eapply returns_mono; [by apply (IH w1 c1)|]. intros _ [m2 w2] (Hm2 & Hf2 & Hq2 & Hk2 & c2 & Hc2 & Hlines). simpl in *.
    split; [done|]. split; [intros g; by rewrite Hf2|]. split; [by eapply other_files_trans|]. split; [by eapply kept_trans|].
    exists c2. split; [done|]. rewrite Hid in Hlines. by econstructor.
Qed.

Lemma log_append_after text m w :
  _shutting_down m = true -> usable (pthread_self w) (_shutting_down_mutex m) ->
  (log_append text (m, w)).1 = (if assertions then UB else Ok tt) /\
  (assertions = false -> (log_append text (m, w)).2 = (m, w)).
Proof.
  intros Hd Hs. unfold log_append, guard, is_operational_for_logging, get, in_world, assert_false, mbind, M_bind. simpl.
  rewrite Hd. destruct assertions; simpl; [done|]. split; [done|]. intros _. f_equal.
  unfold on_shutting_down_mutex. simpl. rewrite unlock_after_lock by done. by destruct m.
Qed.

(** C37. The log of a thread that nothing disturbs, on a system where every call of
    the log works ([working]: files can be opened, written and closed).  After
    [create_logfile], any number of [log_append]s and the destructor of the
    manager, the file holds, in this order, the output for the start line, for
    each message and for the end line.  The output for a message whose line the
    locale can convert is exactly that line: the time, the id and the name of the
    thread, the message, a newline.  Of a line that the locale cannot convert it is
    only a part, and nothing when the line fits into the stream's buffer.  What the
    file held before is gone, no other file is touched, no descriptor stays open
    and all mutexes are as before.  After that no call logs anything: it runs into
    an [assert], or does nothing when these are compiled out. *)
Theorem log_session p texts text m w :
  ready (pthread_self w) m -> working w -> _log m = None ->
  returns (_ ← create_logfile p false; _ ← log_all texts; log_manager_delete) (fun _ s =>
    s.1 = set_log None (set_shutting_down m) /\ same_fds w s.2 /\ other_files p w s.2 /\
    (exists c, file_at s.2 p = Some c /\ log_lines [] (map (pair (pthread_self w)) ([start_of_log] ++ texts ++ [end_of_log])) c) /\
    (log_append text s).1 = (if assertions then UB else Ok tt) /\ (assertions = false -> (log_append text s).2 = s)) (m, w).
Proof.
  intros Hm Hw Hlog.
  eapply returns_bind; [by apply create_logfile_spec|]. rewrite Hlog. simpl.
  intros _ [m1 w1] [Hm1 (Hf1 & Hq1 & Hk1 & c1 & Hc1 & Happ1)]. simpl in *. subst m1. pose proof Hk1 as [Hw1 Hid1].
  eapply returns_bind; [apply (log_all_spec p texts _ _ c1); by rewrite ?Hid1|].
  intros _ [m2 w2] (Hm2 & Hf2 & Hq2 & Hk2 & c2 & Hc2 & Hlines). simpl in *. subst m2. pose proof Hk2 as [Hw2 Hid2].
  destruct Hm as (Hl & Hs & Hd). unfold log_manager_delete.
  eapply (returns_bind _ _ (fun _ s => s = (set_shutting_down (set_log (Some p) m), w2))).
  { apply (guard_spec on_shutting_down_mutex _shutting_down_mutex); [done|by rewrite Hid2, Hid1|].
    eexists _, _. split; [done|]. split; [done|]. by destruct m. }
  intros _ ? ->. eapply returns_step; [done|]. simpl.
  eapply returns_bind; [apply (in_world_returns _ (fun _ w' => logged p (pthread_self w2) end_of_log w2 w')); by apply do_append_spec; [| |left]|].
  intros _ [m3 w3] [Hm3 (Hf3 & Hq3 & Hk3 & c3 & Hc3 & Happ3)]. simpl in *. subst m3. eexists _, _. split; [done|]. simpl.
  split; [done|]. split; [intros g; by rewrite Hf3, Hf2|]. split; [eapply other_files_trans, other_files_trans; done|]. split.
  - exists c3. split; [done|]. rewrite Hc2 in Happ3. simpl in Happ3. rewrite Hid2, Hid1 in Happ3. rewrite Hid1 in Hlines.
    simpl. econstructor; [exact Happ1|]. rewrite map_app. by eapply lines_snoc.
  - apply log_append_after; [done|]. simpl. destruct Hk3 as [_ ->]. by rewrite Hid2, Hid1.
Qed.

(** [create_logfile] does not unlock [_shutting_down_mutex] when the log cannot be
    made: no other thread can log from then on. *)
Lemma create_logfile_throws p m w e w1 t :
  ready (pthread_self w) m -> _log m = None -> pthread_self w1 = pthread_self w -> t <> pthread_self w ->
  fs_create_directories (parent_path p) w = (Throw e, w1) ->
  exists m', create_logfile p false (m, w) = (Throw e, (m', w1)) /\ may_lock t (_shutting_down_mutex m') = false.
Proof.
  intros (Hl & Hs & Hd) Hlog Hid Ht E. exists (on_shutting_down_mutex (lock (pthread_self w)) m). split.
  - unfold create_logfile, try_lock_shutting_down, self_id, in_world, get, mbind, M_bind. simpl. rewrite usable_may by done.
    unfold is_operational_for_logging, get, mbind, M_bind. simpl. rewrite Hd. simpl. unfold guard. simpl. rewrite Hlog.
    unfold in_world, log_new, mbind, M_bind. simpl. rewrite E. simpl. do 3 f_equal.
    unfold on_log_mutex, on_shutting_down_mutex. simpl. rewrite unlock_after_lock by done. by destruct m.
  - apply bool_decide_eq_false. simpl. intros [?|?]; congruence.
Qed.

(** While another thread has the mutex, [create_logfile] unlocks it all the same. *)
Lemma create_logfile_not_owner p path m w t :
  holder (_shutting_down_mutex m) = Some t -> t <> pthread_self w -> _shutting_down m = false -> _log m = Some path ->
  (create_logfile p false (m, w)).1 = UB.
Proof.
  intros Hh Ht Hd Hlog.
  unfold create_logfile, try_lock_shutting_down, self_id, in_world, get, mbind, M_bind. simpl.
  assert (may_lock (pthread_self w) (_shutting_down_mutex m) = false) as -> by (apply bool_decide_eq_false; rewrite Hh; intros [?|?]; congruence).
  simpl. unfold is_operational_for_logging, get, mbind, M_bind. simpl. rewrite Hd. simpl. unfold guard. simpl. rewrite Hlog. simpl.
  unfold unlock_shutting_down, self_id, in_world, get, mbind, M_bind. simpl. rewrite Hh, bool_decide_eq_false_2 by congruence. done.
Qed.
End session.

(** ** Threads that append at the same time *)

(** Where a thread is in [append(str)]: waiting for [_mtx] with the header it has
    made, or holding it, with the header if it had to wait. *)
Inductive append_state : Type := Waiting (text header : list Z) | Holding (text header : list Z).

Record log_state (W : Type) : Type := LogState { _mtx : option Z; threads : gmap Z append_state; world : W }.
Arguments LogState {W}.
Arguments _mtx {W}.
Arguments threads {W}.
Arguments world {W}.

Section concurrent.
Context {W : Type} `{LogLaws W} (p : bytes).
Implicit Types (w : W) (s : log_state W).

(** The steps of the threads; a write is labelled.  Between them the rest of the
    program runs, which leaves the file alone.  [try_lock] may fail although the
    mutex is free. *)
Inductive log_step : log_state W -> option (Z * list Z) -> log_state W -> Prop :=
| step_try_lock t text ts w :
    t <> 0 -> ts !! t = None ->
    log_step (LogState None ts w) None (LogState (Some t) (<[t := Holding text []]> ts) w)
| step_try_lock_fails t text header o ts w w' :
    t <> 0 -> ts !! t = None -> o <> Some t -> append_before false t w = (Ok header, w') ->
    log_step (LogState o ts w) None (LogState o (<[t := Waiting text header]> ts) w')
| step_lock t text header ts w :
    ts !! t = Some (Waiting text header) ->
    log_step (LogState None ts w) None (LogState (Some t) (<[t := Holding text header]> ts) w)
| step_write t text header ts w w' :
    ts !! t = Some (Holding text header) -> append_locked p text t header w = (Ok tt, w') ->
    log_step (LogState (Some t) ts w) (Some (t, text)) (LogState None (delete t ts) w')
| step_world o ts w w' :
    working w' -> file_at w' p = file_at w p -> log_step (LogState o ts w) None (LogState o ts w').

Inductive log_run : log_state W -> list (Z * list Z) -> log_state W -> Prop :=
| run_nil s : log_run s [] s
| run_snoc s tr s1 l s2 : log_run s tr s1 -> log_step s1 l s2 -> log_run s (tr ++ option_list l) s2.

(** The mutex is held by the thread that holds it, and the headers are complete. *)
Record log_inv s : Prop := {
  inv_working : working (world s);
  inv_holder t : _mtx s = Some t <-> exists text header, threads s !! t = Some (Holding text header);
  inv_waiting t text header : threads s !! t = Some (Waiting text header) -> t <> 0 /\ header_for t header;
  inv_holding t text header : threads s !! t = Some (Holding text header) -> t <> 0 /\ header_for t header;
}.

(** One thread's entry is set, by the thread that has the mutex afterwards or by
    one that waits. *)
Lemma inv_insert o o' ts t st w w' :
  log_inv (LogState o ts w) -> working w' ->
  match st with
  | Waiting _ header => o' = o /\ o <> Some t /\ t <> 0 /\ header_for t header
  | Holding _ header => o = None /\ o' = Some t /\ t <> 0 /\ header_for t header
  end -> log_inv (LogState o' (<[t := st]> ts) w').
Proof.
  intros [_ Hh Hwait Hhold] Hw' Hst; simpl in *. split; simpl; [done|..].
  - intros u. destruct (decide (u = t)) as [->|Hu].
    + rewrite lookup_insert_eq. destruct st; destruct Hst as (? & ? & _); subst; naive_solver.
    + rewrite lookup_insert_ne, <- Hh by done. destruct st; destruct Hst as (? & ? & _); subst; naive_solver.
  - intros u text header [[-> ->]|[_ Hu]]%lookup_insert_Some; [by destruct Hst as (_ & _ & ?)|eauto].
  - intros u text header [[-> ->]|[_ Hu]]%lookup_insert_Some; [by destruct Hst as (_ & _ & ?)|eauto].
Qed.

Lemma log_step_inv s l s' :
  log_inv s -> log_step s l s' -> log_inv s' /\
  match l with
  | Some (t, text) => exists c', file_at (world s') p = Some c' /\
      appended t text (default [] (file_at (world s) p)) c'
  | None => file_at (world s') p = file_at (world s) p
  end.
Proof.
  intros Hinv Hstep. pose proof Hinv as [Hw Hh Hwait Hhold].
  destruct Hstep as [t text ts w Ht Hn|t text header o ts w w' Ht Hn Ho E|t text header ts w Hl
    |t text header ts w w' Hl E|o ts w w' Hw' Hf]; simpl in *.
  - split; [|done]. eapply inv_insert; [done..|]. split_and!; [done..|by left].
  - destruct (create_header_spec t w Hw) as (h & w1 & E1 & -> & stamp & name & Hlen & ->).
    rewrite E1 in E. injection E as <- <-. split; [|done]. eapply inv_insert; [done..|]. split_and!; [done..|right; eauto].
  - split; [|done]. eapply inv_insert; [done..|]. destruct (Hwait _ _ _ Hl). by split_and!.
  - destruct (Hhold _ _ _ Hl) as [Ht Hhdr].
    destruct (do_append_spec p text t t header w Hw) as ([] & w1 & E1 & _ & _ & [Hw1 _] & Hc); [by rewrite bool_decide_eq_false_2|done|].
    unfold append_locked in E. rewrite E1 in E. injection E as <-. split; [|exact Hc]. split; simpl; [done|..].
    + intros v. split; [done|]. intros (x & h & [Hv Hx]%lookup_delete_Some).
      assert (Some t = Some v) by (apply Hh; eauto). congruence.
    + intros v x h [_ Hv]%lookup_delete_Some. eauto.
    + intros v x h [_ Hv]%lookup_delete_Some. eauto.
  - split; [|done]. by split.
Qed.

Lemma log_run_inv s tr s' c :
  log_inv s -> file_at (world s) p = Some c -> log_run s tr s' ->
  log_inv s' /\ exists c', file_at (world s') p = Some c' /\ log_lines c tr c'.
Proof.
  intros Hi Hc Hrun. induction Hrun as [s|s tr s1 l s2 _ IH Hstep]; [split; [done|exists c; split; [done|constructor]]|].
  destruct (IH Hi Hc) as (Hi1 & c1 & Hc1 & Hl). destruct (log_step_inv _ _ _ Hi1 Hstep) as [Hi2 Hfile]. split; [done|].
  destruct l as [[t text]|]; simpl.
  - destruct Hfile as (c2 & Hc2 & Happ). exists c2. split; [done|]. rewrite Hc1 in Happ. by eapply lines_snoc.
  - exists c1. rewrite app_nil_r. split; [by rewrite Hfile|done].
Qed.

End concurrent.

(** ** On a disk

    The thread 7, called "main"; the locale is "C", which knows ASCII only. *)
#[export] Instance disk_threads : Threads disk := {|
  pthread_self w := 7;
  prctl_set_name name := mret tt;
  pthread_setname_np t name := mret 1;
  pthread_getname_np t size := mret (if bool_decide (t = 7) then (0, str "main") else (3, []));
|}.

Fixpoint narrow_C (text : list Z) : option bytes :=
  match text with
  | [] => Some []
  | c :: text => if bool_decide (0 <= c < 128) then cons (byte_of c) <$> narrow_C text else None
  end.

#[export] Instance disk_log : LogSystem disk := {|
  system_clock_now := fun w => (Ok (clock w * 1000000000), w);
  local_time := utc;
  narrow := narrow_C;
  wide_buffer := 8 * 1024;
  fs_remove p := modify (set_contents (delete p));
  assertions := false;
|}.

Definition noon : Z := 1698497696.

#[export, refine] Instance disk_log_laws : LogLaws disk := {|
  working w := full w = false /\ clock w = noon;
|}.
Proof.
  - intros p w Hw. unfold returns. simpl. destruct (contents w !! p) as [[c t]|]; eexists _, _; (split; [done|]); by split.
  - intros fd p k n c bs w [Hf Hn] Hc Hfile. unfold returns. cbn [write_all disk_files].
    unfold on_file. rewrite Hc, Hfile, Hf. by eexists _, _.
  - intros fd p k n w Hw Hc. unfold returns. cbn [close_file disk_files]. rewrite Hc. by eexists _, _.
  - intros p w Hw. by eexists _, _.
  - intros p w Hw. eexists _, _. split; [done|]. simpl. rewrite lookup_delete_eq. split; [done|].
    split; [|done]. intros q Hq. simpl in *. by rewrite lookup_delete_ne.
  - intros w [_ Hn]. eexists _, _. split; [done|]. split; [done|]. rewrite Hn. split; [unfold noon; lia|].
    exists (Tm 123 9 28 12 54 56). split; [vm_compute; reflexivity|]. split; [|simpl; lia].
    apply (bool_decide_unpack _). vm_compute. exact I.
  - intros id w. by eexists _, _.
  - intros a b. simpl. induction a as [|c a IH]; simpl; [by destruct (narrow_C b)|]. case_bool_decide; [|done].
    rewrite IH. by destruct (narrow_C a), (narrow_C b).
  - apply Nat.lt_0_succ.
Defined.

Definition fresh_manager : log_manager := LogManager None (RecursiveMutex None 0) false (RecursiveMutex None 0).
Definition quiet_disk : disk := Disk ∅ ∅ 3 false noon [] 0.
Definition log_path : bytes := str "/tmp/a.log".

Definition two_messages : M (log_manager * disk) unit :=
  _ ← create_logfile log_path false; _ ← log_all [wide "hello"; wide "world"]; log_manager_delete.

Lemma log_session_witness :
  exists c, file_at (two_messages (fresh_manager, quiet_disk)).2.2 log_path = Some c /\
    log_lines [] [(7, start_of_log); (7, wide "hello"); (7, wide "world"); (7, end_of_log)] c.
Proof.
  destruct (log_session log_path [wide "hello"; wide "world"] [] fresh_manager quiet_disk) as (r & s & E & _ & _ & _ & Hc & _).
  - repeat split; left; split; reflexivity.
  - split; reflexivity.
  - reflexivity.
  - unfold two_messages. rewrite E. exact Hc.
Defined.

Definition log_line (name text : string) : bytes :=
  str "2023-10-28 12:54:56.000 (0007 " ++ str name ++ str "): " ++ str text ++ [newline].

Example log_of_two :
  file_at (two_messages (fresh_manager, quiet_disk)).2.2 log_path =
  Some (log_line "main" "-------------------------------- start of log --------------------------------" ++
        log_line "main" "hello" ++ log_line "main" "world" ++
        log_line "main" "--------------------------------  end of log  --------------------------------").
Proof. vm_compute. reflexivity. Qed.

(** In the "C" locale a message with a character beyond ASCII leaves no line. *)
Example message_lost :
  file_at ((_ ← create_logfile log_path false; log_append_string (str "gr" ++ utf8_encode 0xFC ++ utf8_encode 0xDF ++ str "e"))
    (fresh_manager, quiet_disk)).2.2 log_path =
  file_at (create_logfile log_path false (fresh_manager, quiet_disk)).2.2 log_path.
Proof. vm_compute. reflexivity. Qed.

(** On a full disk nothing is logged and nothing reported. *)
Example full_disk_silent :
  let '(r, (m, w)) := (_ ← create_logfile log_path false; log_append (wide "hello"))
    (fresh_manager, Disk ∅ ∅ 3 true noon [] 0) in
  r = Ok tt /\ file_at w log_path = Some [].
Proof. vm_compute. split; reflexivity. Qed.


(** ** [class stdout_redirector]

    [freopen] on [stdout] answers whether it gave the stream back; it never gives
    another one, so the destructor has nothing to close. *)
Class Stdio (W : Type) := {
  freopen_stdout : bytes -> M W bool;
  fflush_stdout : M W unit;
}.

Section stdout_redirector.
Context {W : Type} `{Files W, FileSystem W, Threads W, LogSystem W, Stdio W}.

Definition stdout_redirector_new (file_path : bytes) : M W unit :=
  ok ← freopen_stdout file_path;
  if (ok : bool) then mret tt
  else raise runtime_error (text (str "cbeam::filesystem::stdout_redirector: Could not redirect stdout to file " ++ file_path)).

Definition stdout_redirector_delete : M (log_manager * W) unit :=
  noexcept (
    _ ← in_world fflush_stdout;
    redirected_back ← in_world (freopen_stdout (str "/dev/tty"));
    if (redirected_back : bool) then mret tt
    else log_append_string (str "cbeam::filesystem::stdout_redirector: Could not set stdout to default")).
End stdout_redirector.

(** [stdout_file w]: where the output goes, if the stream is open; [freopen] closes
    it first, whether it then succeeds or not. *)
Class StdioLaws (W : Type) `{Stdio W} := {
  stdout_file : W -> option bytes;
  freopen_law p (w : W) : returns (freopen_stdout p) (fun ok w' => stdout_file w' = if (ok : bool) then Some p else None) w;
  fflush_law (w : W) : returns fflush_stdout (fun _ w' => stdout_file w' = stdout_file w) w;
}.

(** Output goes to the file, and afterwards to the terminal, not to where it went
    before; a constructor that throws leaves [stdout] closed. *)
Lemma redirect_stdout {W} `{StdioLaws W} p (w : W) :
  wp (stdout_redirector_new p) (fun r w' =>
    match r with
    | Ok _ => stdout_file w' = Some p
    | Throw e => exn_class e = runtime_error /\ stdout_file w' = None
    | UB => False
    end) w.
Proof.
  unfold stdout_redirector_new. eapply wp_call; [apply freopen_law|]. intros [] w' Hw; [done|]. by apply wp_raise.
Qed.
