(* ===== verification/Platform.v ===== *)
(** * Platform: [platform/system_folders.hpp], [runtime.hpp], [info.hpp],
    [com_initializer.hpp] and [clock_precision.hpp]

    Where the program and the user's data are, what the platform is called and
    how fine its clock is, on Linux.  The functions keep what they find in static
    variables; each holds a mutex of its own from begin to end, so its calls do
    not interleave. *)

From S2P Require Import Prelude Errors Bytes Convert Random Path Io Thread Logging.
From Stdlib Require Import SpecFloat.

(** [getpwuid(getuid())->pw_dir], [readlink] (at most the given number of bytes),
    [dladdr] (the file name of the binary an address is in, if there is one),
    [realpath], [clock_getres(CLOCK_MONOTONIC)] (seconds and nanoseconds) and the
    high-resolution clock; the outer [None] is the failure of the call. *)
Class Platform (W : Type) := {
  getpwuid_dir : M W (option bytes);
  readlink : bytes -> Z -> M W (option bytes);
  dladdr : Z -> M W (option (option bytes));
  realpath : bytes -> M W (option bytes);
  clock_getres : M W (option (Z * Z));
  high_resolution_now : M W Z;
}.

(** The static variables. *)
Record statics : Type := Statics {
  home_folder : bytes;
  app_data_folder : bytes;
  cache_dir : bytes;
  cached_full_path : bytes;
  clock_precision : spec_float;
}.

Section folders.
Context {W : Type} `{FileSystem W, Platform W}.
Abbreviation SM := (M (statics * W)).

Definition outside {A} (m : M W A) : SM A := fun s => let '(r, w) := m s.2 in (r, (s.1, w)).
Definition assign (f : statics -> statics) : SM unit := modify (fun s => (f s.1, s.2)).

Definition set_home (p : bytes) (s : statics) : statics :=
  Statics p (app_data_folder s) (cache_dir s) (cached_full_path s) (clock_precision s).
Definition set_app_data (p : bytes) (s : statics) : statics :=
  Statics (home_folder s) p (cache_dir s) (cached_full_path s) (clock_precision s).
Definition set_cache_dir (p : bytes) (s : statics) : statics :=
  Statics (home_folder s) (app_data_folder s) p (cached_full_path s) (clock_precision s).
Definition set_full_path (p : bytes) (s : statics) : statics :=
  Statics (home_folder s) (app_data_folder s) (cache_dir s) p (clock_precision s).

(** A path from a C string: up to the first NUL. *)
Fixpoint c_string (s : bytes) : bytes :=
  match s with
  | [] => []
  | c :: s => if bool_decide (byte_val c = 0) then [] else c :: c_string s
  end.

Definition get_home_dir : SM bytes :=
  s ← get;
  _ ← (if bool_decide (home_folder s.1 = []) then
         p ← outside getpwuid_dir;
         match p with
         | None => raise runtime_error "Failed to determine path to user's home directory (passwd::pw_dir)"
         | Some pw_dir => assign (set_home (c_string pw_dir))
         end
       else mret tt);
  s ← get;
  mret (home_folder s.1).

Definition expected_to_exist (p : bytes) : string :=
  text (str "Path '" ++ p ++ str "' is expected to exist on this system.").

Definition get_user_data_dir : SM bytes :=
  home ← get_home_dir;
  let p := path_append (path_append home (str ".local")) (str "share") in
  _ ← assign (set_app_data p);
  e ← outside (fs_exists p);
  if e : bool then mret p else raise runtime_error (expected_to_exist p).

Definition get_user_cache_dir : SM bytes :=
  home ← get_home_dir;
  let p := path_append home (str ".cache") in
  _ ← assign (set_cache_dir p);
  e ← outside (fs_exists p);
  if e : bool then mret p else raise runtime_error (expected_to_exist p).

(** [buffer.resize(size)]: no vector is longer than [2^63 - 1]. *)
Definition max_vector_size : Z := 2 ^ 63 - 1.
Definition vector_resize (size : Z) : M W unit :=
  if bool_decide (max_vector_size < size) then raise std_length_error "vector::_M_default_append" else mret tt.

(** The loop around [readlink], which doubles the buffer of [size] bytes; it
    cannot double 54 times. *)
Fixpoint readlink_loop (fuel : nat) (size : Z) : M W bytes :=
  match fuel with
  | O => undefined
  | S fuel =>
      r ← readlink (str "/proc/self/exe") (size - 1);
      match r with
      | None => raise runtime_error "Failed to determine path to current binary via /proc/self/exe"
      | Some buffer =>
          if bool_decide (size - 1 <= Z.of_nat (length buffer)) then
            _ ← vector_resize (size * 2); readlink_loop fuel (size * 2)
          else mret (c_string buffer)
      end
  end.

Definition find_current_binary : SM unit :=
  s ← get;
  if bool_decide (cached_full_path s.1 = []) then
    p ← outside (readlink_loop 54 1024); assign (set_full_path p)
  else mret tt.

Definition get_current_binary_path (include_filename : bool) : SM bytes :=
  _ ← find_current_binary;
  s ← get;
  let result := if include_filename then cached_full_path s.1 else parent_path (cached_full_path s.1) in
  e ← outside (fs_exists result);
  if e : bool then mret result else raise runtime_error (expected_to_exist result).

(** ** [get_path_to_runtime_binary] *)

(** The address of the function's own static symbol, for a null pointer. *)
Definition get_path_to_runtime_binary (own_symbol symbol_inside_runtime_binary : Z) : M W bytes :=
  let symbol := if bool_decide (symbol_inside_runtime_binary = 0) then own_symbol else symbol_inside_runtime_binary in
  dl_info ← dladdr symbol;
  match dl_info with
  | None => raise std_runtime_error "cbeam::platform::get_path_to_runtime_binary: Could not resolve symbol"
  | Some (Some dli_fname) =>
      r ← realpath dli_fname;
      match r with
      | Some resolved_path => mret (c_string resolved_path)
      | None => raise std_runtime_error
          (text (str "cbeam::platform::get_path_to_runtime_binary: Could not resolve symbolic link '" ++ dli_fname ++ str "'"))
      end
  | Some None => raise std_runtime_error
      "cbeam::platform::get_path_to_runtime_binary: Symbol is not associated with a shared library or executable"
  end.
End folders.

(** ** Laws *)

(** [present w p]: something exists at [p]; [home_of w]: the entry of the user, if
    there is one. *)
Class FolderLaws (W : Type) `{FileSystem W, Platform W} := {
  present : W -> bytes -> bool;
  home_of : W -> option bytes;
  present_law p (w : W) : wp (fs_exists p) (fun r w' => w' = w /\
    match r with Ok e => e = present w p | Throw e => exn_class e = std_system_error | UB => False end) w;
  getpwuid_law (w : W) : getpwuid_dir w = (Ok (home_of w), w);
}.

(** [executable w]: the target of "/proc/self/exe", a path. *)
Class PlatformLaws (W : Type) `{FolderLaws W} := {
  executable : W -> bytes;
  executable_path (w : W) : Forall (fun c => byte_val c <> 0) (executable w);
  readlink_law size (w : W) : 0 < size -> returns (readlink (str "/proc/self/exe") size) (fun r w' =>
    w' = w /\ (r = None \/ r = Some (take (Z.to_nat size) (executable w)))) w;
}.

Section folders_laws.
Context {W : Type} `{PlatformLaws W}.
Implicit Types (w : W) (s : statics).

Lemma c_string_id p : Forall (fun c => byte_val c <> 0) p -> c_string p = p.
Proof. induction 1 as [|c p Hc _ IH]; simpl; [done|]. by rewrite bool_decide_eq_false_2, IH. Qed.

(** Enough doublings: the buffer has [2^j] bytes. *)
Lemma readlink_loop_spec j fuel w :
  (j + fuel = 64)%nat -> (10 <= j <= 62)%nat ->
  wp (readlink_loop fuel (2 ^ Z.of_nat j)) (fun r w' => w' = w /\
    match r with
    | Ok p => p = executable w
    | Throw e => exn_class e = runtime_error /\ (exists size, (readlink (str "/proc/self/exe") size w).1 = Ok None) \/
        exn_class e = std_length_error /\ 2 ^ 62 - 1 <= Z.of_nat (length (executable w))
    | UB => False
    end) w.
Proof.
  revert j. induction fuel as [|fuel IH]; intros j Hj Hr; [lia|]. simpl.
  assert (2 ^ 10 <= 2 ^ Z.of_nat j) as Hsize by (apply Z.pow_le_mono_r; lia).
  eapply wp_call; [apply returns_call, readlink_law; lia|]. intros r w' (E & -> & Hans).
  destruct Hans as [->| ->].
  { apply wp_raise. split; [done|]. left. split; [done|]. eexists. by rewrite E. }
  case_bool_decide as Hfull.
  - rewrite length_take in Hfull. unfold vector_resize. case_bool_decide as Hmax.
    + eapply wp_bind, wp_raise. split; [done|]. right. split; [done|].
      assert (j = 62%nat) as ->; [|lia].
      destruct (decide (j = 62%nat)); [done|]. exfalso.
      assert (2 ^ Z.of_nat j <= 2 ^ 61) by (apply Z.pow_le_mono_r; lia). unfold max_vector_size in Hmax. lia.
    + eapply wp_bind, wp_ret. replace (2 ^ Z.of_nat j * 2) with (2 ^ Z.of_nat (S j)) by (rewrite Nat2Z.inj_succ, Z.pow_succ_r; lia).
      apply IH; [lia|]. destruct (decide (j = 62%nat)) as [->|]; [|lia]. exfalso. unfold max_vector_size in Hmax. lia.
  - apply wp_ret. split; [done|]. rewrite take_ge; [|rewrite length_take in Hfull; lia].
    apply c_string_id, executable_path.
Qed.

Lemma wp_outside {A} (m : M W A) s w (Q : outcome A -> statics * W -> Prop) :
  wp m (fun r w' => Q r (s, w')) w -> wp (outside m) Q (s, w).
Proof. unfold wp, outside. simpl. by destruct (m w). Qed.

(** What a function leaves that returns [p] if that exists. *)
Lemma wp_checked p s w (Q : outcome bytes -> statics * W -> Prop) :
  (present w p = true -> Q (Ok p) (s, w)) ->
  (present w p = false -> Q (throw runtime_error (expected_to_exist p)) (s, w)) ->
  (forall e, exn_class e = std_system_error -> Q (Throw e) (s, w)) ->
  wp (e ← outside (fs_exists p); if e : bool then mret p else raise runtime_error (expected_to_exist p)) Q (s, w).
Proof.
  intros Hyes Hno Herr. eapply wp_bind, wp_outside, wp_mono; [apply present_law|].
  intros [[]|e|] w' [-> Hr]; [apply wp_ret; auto|apply wp_raise; auto|auto|done].
Qed.

Lemma find_current_binary_spec s w :
  cached_full_path s = [] \/ cached_full_path s = executable w ->
  wp find_current_binary (fun r st => st.2 = w /\
    match r with
    | Ok _ => st.1 = set_full_path (executable w) s
    | Throw e => st.1 = s /\
        (exn_class e = runtime_error /\ (exists size, (readlink (str "/proc/self/exe") size w).1 = Ok None) \/
         exn_class e = std_length_error /\ 2 ^ 62 - 1 <= Z.of_nat (length (executable w)))
    | UB => False
    end) (s, w).
Proof.
  intros Hc. unfold find_current_binary. eapply wp_bind, wp_ret. cbn [fst]. case_bool_decide as He.
  - eapply wp_bind, wp_outside, wp_mono; [by apply (readlink_loop_spec 10 54); lia|].
    intros [p|e|] w' [-> Hp]; [subst p; done|done|done].
  - apply wp_ret. split; [done|]. destruct Hc as [?|Hc]; [done|]. destruct s. simpl in *. by subst.
Qed.

(** C39. The path of the binary.  However long it is, the buffer is doubled until it
    is read as a whole (below [2^62] bytes); it is read once, and later calls
    use what was found, whatever the link says then.  The function returns the
    path, or the directory it is in, if that exists; otherwise it throws: a
    [runtime_error] when the link cannot be read, in which case nothing is kept,
    or when the path does not exist. *)
Theorem binary_path include_filename s w :
  (cached_full_path s = [] \/ cached_full_path s = executable w) ->
  wp (get_current_binary_path include_filename) (fun r st => st.2 = w /\
    let p := if include_filename then executable w else parent_path (executable w) in
    match r with
    | Ok result => result = p /\ present w p = true /\ st.1 = set_full_path (executable w) s
    | Throw e =>
        (exn_class e = runtime_error /\ present w p = false /\ st.1 = set_full_path (executable w) s) \/
        (exn_class e = runtime_error /\ st.1 = s /\ exists size, (readlink (str "/proc/self/exe") size w).1 = Ok None) \/
        exn_class e = std_system_error \/
        (exn_class e = std_length_error /\ 2 ^ 62 - 1 <= Z.of_nat (length (executable w)))
    | UB => False
    end) (s, w) /\
  (cached_full_path s <> [] -> forall w2 r s2 w3, get_current_binary_path include_filename (s, w2) = (r, (s2, w3)) ->
     s2 = s /\ forall q, r = Ok q -> q = if include_filename then cached_full_path s else parent_path (cached_full_path s)).
Proof.
  intros Hcached. split.
  - unfold get_current_binary_path. eapply wp_bind, wp_mono; [by apply find_current_binary_spec|].
    intros [[]|e|] [s1 w1] [Hw1 Hr]; simpl in *; subst; [|naive_solver|done].
    eapply wp_bind, wp_ret. apply wp_checked; simpl; auto 10.
  - intros Hne w2 r s2 w3. unfold get_current_binary_path, find_current_binary, get, mbind, M_bind. simpl.
    rewrite bool_decide_eq_false_2 by done. simpl. unfold outside. simpl.
    destruct (fs_exists _ w2) as [[[]| |] w4]; intros [= <- <- _]; (split; [done|]); intros q [= <-]; done.
Qed.

(** ** The user's directories *)

(** What [get_home_dir] returns: the entry of the user, read once. *)
Definition home_path s w : option bytes :=
  if bool_decide (home_folder s = []) then c_string <$> home_of w else Some (home_folder s).

Lemma get_home_dir_spec s w :
  wp get_home_dir (fun r st => st.2 = w /\
    match r with
    | Ok p => home_path s w = Some p /\ st.1 = set_home p s
    | Throw e => exn_class e = runtime_error /\ home_path s w = None /\ st.1 = s
    | UB => False
    end) (s, w).
Proof.
  unfold get_home_dir, home_path. eapply wp_bind, wp_ret. cbn [fst]. eapply wp_bind. case_bool_decide as He.
  - eapply wp_bind, wp_outside. unfold wp at 1. rewrite getpwuid_law. destruct (home_of w) as [p|]; [|by apply wp_raise].
    by simpl.
  - apply wp_ret. unfold wp. simpl. split; [done|]. split; [done|]. by destruct s.
Qed.

(** A directory of the user: its path below the home directory. *)
Definition user_dir_post (below : bytes -> bytes) s w (r : outcome bytes) (st : statics * W) : Prop :=
  st.2 = w /\
  match r with
  | Ok p => exists home, home_path s w = Some home /\ p = below home /\ present w p = true /\
      forall w2, home_path st.1 w2 = if bool_decide (home = []) then c_string <$> home_of w2 else Some home
  | Throw e =>
      (exn_class e = runtime_error /\ (home_path s w = None \/ exists home, home_path s w = Some home /\ present w (below home) = false)) \/
      exn_class e = std_system_error
  | UB => False
  end.

Lemma user_dir_spec below (set : bytes -> statics -> statics) s w :
  (forall p v, home_folder (set p v) = home_folder v) ->
  wp (home ← get_home_dir; let p := below home in _ ← assign (set p); e ← outside (fs_exists p);
      if e : bool then mret p else raise runtime_error (expected_to_exist p)) (user_dir_post below s w) (s, w).
Proof.
  intros Hset. eapply wp_bind, wp_mono; [apply get_home_dir_spec|].
  intros [home|e|] [s1 w1] [Hw1 Hr]; simpl in *; subst; [|by split; [|naive_solver]|done].
  destruct Hr as [Hh ->]. eapply wp_bind, wp_ret. apply wp_checked; simpl; intros; (split; [done|]); [|naive_solver..].
  exists home. split; [done|]. split; [done|]. split; [done|]. intros w2. unfold home_path. cbn [fst]. by rewrite Hset.
Qed.

(** The directories for the user's data and cache are those below the home
    directory of the user, "~/.local/share" and "~/.cache", if they exist;
    otherwise a [runtime_error] is thrown.  The home directory is asked for once:
    what was found is used from then on, unless it was empty. *)
Theorem user_directories s w :
  wp get_user_data_dir (user_dir_post (fun home => path_append (path_append home (str ".local")) (str "share")) s w) (s, w) /\
  wp get_user_cache_dir (user_dir_post (fun home => path_append home (str ".cache")) s w) (s, w).
Proof.
  split; [by apply (user_dir_spec (fun home => path_append (path_append home (str ".local")) (str "share")) set_app_data)|].
  by apply (user_dir_spec (fun home => path_append home (str ".cache")) set_cache_dir).
Qed.
End folders_laws.

(** The path of the binary a symbol is in, resolved, or an error. *)
Lemma runtime_binary_spec {W} `{Platform W} own symbol (w : W) info w1 :
  symbol <> 0 -> dladdr symbol w = (Ok info, w1) ->
  match info with
  | Some (Some name) => forall r w2, realpath name w1 = (Ok r, w2) ->
      (get_path_to_runtime_binary own symbol w).1 =
        match r with
        | Some p => Ok (c_string p)
        | None => throw std_runtime_error
            (text (str "cbeam::platform::get_path_to_runtime_binary: Could not resolve symbolic link '" ++ name ++ str "'"))
        end
  | _ => exists msg, (get_path_to_runtime_binary own symbol w).1 = throw std_runtime_error msg
  end.
Proof.
  intros Hs E. unfold get_path_to_runtime_binary. rewrite bool_decide_eq_false_2 by done. rewrite (M_bind_step _ _ _ _ _ E).
  destruct info as [[name|]|]; [|by eexists..]. intros r w2 E2. rewrite (M_bind_step _ _ _ _ _ E2). by destruct r.
Qed.

(** ** [info.hpp] *)

(** [defined m]: the compiler predefines the macro [m]. *)
Definition any_defined (defined : string -> bool) (macros : list string) : bool := existsb defined macros.

Definition get_bit_architecture (sizeof_size_t : Z) : bytes := to_string_integer (sizeof_size_t * 8).

(** The branches of a chain of [#if] and [#elif], and the text of [#else]. *)
Fixpoint first_defined (defined : string -> bool) (branches : list (list string * string)) : bytes :=
  match branches with
  | [] => str "Unknown"
  | (macros, name) :: branches => if any_defined defined macros then str name else first_defined defined branches
  end.

Definition get_platform_architecture (defined : string -> bool) : bytes :=
  first_defined defined
    [(["__arm__"; "__aarch64__"], "ARM"); (["__powerpc64__"; "__powerpc__"], "PowerPC");
     (["__x86_64__"; "_M_X64"; "__i386"; "_M_IX86"], "x86"); (["__mips__"; "__mips64"], "MIPS");
     (["__riscv"], "RISC-V"); (["__sparc__"; "__sparc"], "SPARC"); (["__AVR__"], "AVR");
     (["__pic__"; "__PIC__"], "PIC"); (["ESP32"; "ESP8266"], "ESP"); (["__MSP430__"], "MSP430");
     (["__SH1__"; "__SH2__"; "__SH3__"; "__SH4__"], "SuperH")]%string.

Definition is_decimal (c : byte) : bool := bool_decide (48 <= byte_val c <= 57).

Definition get_architecture (defined : string -> bool) (sizeof_size_t : Z) : bytes :=
  let platform := get_platform_architecture defined in
  let bit := get_bit_architecture sizeof_size_t in
  match last platform with
  | Some c => if is_decimal c then platform ++ str "_" ++ bit else platform ++ bit
  | None => platform ++ bit
  end.

Definition get_kernel_name (defined : string -> bool) : bytes :=
  if defined "_WIN32"%string then str "Windows"
  else if defined "__linux__"%string then str "Linux"
  else if defined "__APPLE__"%string then str "Darwin"
  else if defined "__MACH__"%string then str "Mach"
  else if defined "__FreeBSD__"%string then str "FreeBSD"
  else if defined "__sun"%string && defined "__SVR4"%string then str "Solaris"
  else first_defined defined
    [(["__NetBSD__"], "NetBSD"); (["__OpenBSD__"], "OpenBSD"); (["__vxworks"], "VxWorks"); (["__QNX__"], "QNX")]%string.

Example amd64 : get_architecture (fun m => bool_decide (m = "__x86_64__"%string)) 8 = str "x86_64".
Proof. reflexivity. Qed.
Example arm64 : get_architecture (fun m => bool_decide (m = "__aarch64__"%string)) 8 = str "ARM64".
Proof. reflexivity. Qed.

(** An unknown architecture of position-independent code is taken for a PIC. *)
Example position_independent_is_pic :
  get_architecture (fun m => bool_decide (m = "__loongarch64"%string) || bool_decide (m = "__pic__"%string)) 8 = str "PIC64".
Proof. reflexivity. Qed.

(** ** [com_initializer.hpp]

    Outside Windows the constructor and the destructor do nothing; the member is
    not initialized ([None]), and reading it is undefined. *)
Record com_initializer : Type := ComInitializer { _deinitialize_on_destruction : option bool }.
Definition com_initializer_new (multi_threaded do_throw : bool) : com_initializer := ComInitializer None.
Definition com_initializer_delete (c : com_initializer) : unit := tt.
Definition should_deinitialize_on_destruction (c : com_initializer) : outcome bool :=
  match _deinitialize_on_destruction c with Some b => Ok b | None => UB end.

Example com_flag_undefined multi_threaded do_throw :
  should_deinitialize_on_destruction (com_initializer_new multi_threaded do_throw) = UB.
Proof. reflexivity. Qed.

(** ** [clock_precision.hpp]

    A [double] is a binary64 number of the Standard Library's [SpecFloat]. *)
Definition double_of_Z (z : Z) : spec_float := binary_normalize 53 1024 z 0 false.
Definition double_add := SFadd 53 1024.
Definition double_mul := SFmul 53 1024.
Definition double_div := SFdiv 53 1024.

(** The literals [-1.0], [0.0] and [1e-9]. *)
Definition minus_one : spec_float := S754_finite true 4503599627370496 (-52).
Definition zero : spec_float := S754_zero false.
Definition nano : spec_float := S754_finite false 4835703278458517 (-82).

Example literals : minus_one = double_of_Z (- 1) /\ nano = double_div (double_of_Z 1) (double_of_Z 1000000000).
Proof. vm_compute. split; reflexivity. Qed.

(** [std::min(a, b)], and [duration<double>(ticks).count()] of nanoseconds. *)
Definition std_min (a b : spec_float) : spec_float := if SFltb b a then b else a.
Definition seconds (ticks : Z) : spec_float := double_div (double_of_Z ticks) (double_of_Z 1000000000).

Section clock.
Context {W : Type} `{Platform W}.

(** The loop [do { result = ... } while (result == 0.0)]; [None]: the clock has not
    moved in [fuel] rounds. *)
Fixpoint wait_for_tick (fuel : nat) (startTime : Z) : M W (option spec_float) :=
  match fuel with
  | O => mret None
  | S fuel =>
      now ← high_resolution_now;
      let result := seconds (now - startTime) in
      if SFeqb result zero then wait_for_tick fuel startTime else mret (Some result)
  end.

(** The fallback: [iterations] measurements. *)
Fixpoint measure (fuel iterations : nat) (precision : spec_float) : M W (option spec_float) :=
  match iterations with
  | O => mret (Some precision)
  | S iterations =>
      startTime ← high_resolution_now;
      r ← wait_for_tick fuel startTime;
      match r with
      | Some result => measure fuel iterations (std_min precision result)
      | None => mret None
      end
  end.

Definition set_precision (p : spec_float) (s : statics) : statics :=
  Statics (home_folder s) (app_data_folder s) (cache_dir s) (cached_full_path s) p.

(** [get_clock_precision()], given what to do for [CBEAM_LOG]. *)
Definition get_clock_precision (fuel : nat) (log : bytes -> M W unit) : M (statics * W) (option spec_float) :=
  s ← get;
  if SFeqb (clock_precision s.1) minus_one then
    ts ← outside clock_getres;
    _ ← match ts with
        | Some (tv_sec, tv_nsec) => assign (set_precision (double_add (double_of_Z tv_sec) (double_mul (double_of_Z tv_nsec) nano)))
        | None => mret tt
        end;
    s ← get;
    if SFeqb (clock_precision s.1) minus_one then
      _ ← outside (log (str "Unable to determine resolution of high resolution clock, using fallback algorithm"));
      r ← outside (measure fuel 100 (clock_precision s.1));
      match r with
      | Some p => _ ← assign (set_precision p); mret (Some p)
      | None => mret None
      end
    else mret (Some (clock_precision s.1))
  else mret (Some (clock_precision s.1)).
End clock.

(** One nanosecond, as [clock_getres] reports it on Linux. *)
Example precision_of_linux : double_add (double_of_Z 0) (double_mul (double_of_Z 1) nano) = nano.
Proof. vm_compute. reflexivity. Qed.

(** Numbers that are not below zero. *)
Definition not_negative (x : spec_float) : bool :=
  match x with S754_finite s _ _ | S754_infinity s => negb s | _ => true end.

Lemma round_not_negative m e l : not_negative (binary_round_aux 53 1024 false m e l) = true.
Proof. unfold binary_round_aux. repeat case_match; done. Qed.

Lemma double_not_negative z : 0 <= z -> not_negative (double_of_Z z) = true.
Proof.
  unfold double_of_Z, binary_normalize. intros Hz. destruct z as [|q|q]; [done| |lia].
  unfold binary_round. repeat case_match. apply round_not_negative.
Qed.

Lemma seconds_not_negative t : 0 <= t -> not_negative (seconds t) = true.
Proof.
  intros Ht. apply double_not_negative in Ht. unfold seconds, double_div.
  replace (double_of_Z 1000000000) with (S754_finite false 8388608000000000 (-23)) by (vm_compute; reflexivity).
  destruct (double_of_Z t) as [s|s| |s m e]; simpl in *; try done; [by destruct s|]. destruct s; [done|].
  unfold SFdiv. destruct (SFdiv_core_binary 53 1024 _ _ _ _) as [[mz ez] lz]. apply round_not_negative.
Qed.

(** The minimum of -1 and a measured time is -1: the fallback finds nothing. *)
Lemma fallback_keeps_minus_one t : 0 <= t -> std_min minus_one (seconds t) = minus_one.
Proof.
  intros Ht. apply seconds_not_negative in Ht. unfold std_min, SFltb.
  destruct (seconds t) as [[]|[]| |[] m e]; try done.
Qed.

(** ** A machine

    The directories that exist, the target of the link, whether it can be read, and a
    clock that ticks. *)
Record machine : Type := Machine { paths : list bytes; exe : bytes; readable : bool; ticks : Z }.

#[export] Instance machine_fs : FileSystem machine := {|
  fs_exists p := fun w => (Ok (bool_decide (p ∈ paths w)), w);
  fs_is_directory p := mret false;
  fs_list p := mret [];
  fs_create_directories p := mret tt;
  fs_remove_all p := mret tt;
  fs_copy p q := mret tt;
  fs_rename_ec p q w := (Some "Operation not permitted"%string, w);
  fs_remove_all_ec p w := (Some "Operation not permitted"%string, w);
|}.

#[export] Instance machine_platform : Platform machine := {|
  getpwuid_dir := mret (Some (str "/home/me"));
  readlink p size := fun w => (Ok (if readable w then Some (take (Z.to_nat size) (c_string (exe w))) else None), w);
  dladdr a := mret None;
  realpath p := mret None;
  clock_getres := mret None;
  high_resolution_now := fun w => (Ok (ticks w), Machine (paths w) (exe w) (readable w) (ticks w + 40));
|}.

#[export, refine] Instance machine_folders : FolderLaws machine := {|
  present w p := bool_decide (p ∈ paths w);
  home_of w := Some (str "/home/me");
|}.
Proof. all: done. Defined.

#[export, refine] Instance machine_laws : PlatformLaws machine := {| executable w := c_string (exe w) |}.
Proof.
  - intros w. induction (exe w) as [|c s IH]; simpl; [constructor|]. case_bool_decide; [constructor|]. by constructor.
  - intros size w Hs. eexists _, _. split; [done|]. split; [done|]. destruct (readable w); auto.
Defined.

Definition no_statics : statics := Statics [] [] [] [] minus_one.
Definition deep_path : bytes := str "/" ++ replicate 3000 (byte_of 97) ++ str "/bin".
Definition deep_machine : machine := Machine [deep_path; str "/home/me/.cache"] deep_path true 0.

(** A path of 3005 bytes: the buffer is doubled twice. *)
Lemma binary_path_witness : (get_current_binary_path true (no_statics, deep_machine)).1 = Ok deep_path.
Proof.
  destruct (binary_path true no_statics deep_machine) as [Hw _]; [by left|]. unfold wp in Hw.
  destruct (get_current_binary_path true (no_statics, deep_machine)) as [r st] eqn:E.
  assert (exists p, r = Ok p) as [p ->] by (vm_compute in E; injection E as <- _; by eexists).
  destruct Hw as [_ (-> & _ & _)]. vm_compute. reflexivity.
Defined.

Example cache_found : (get_user_cache_dir (no_statics, deep_machine)).1 = Ok (str "/home/me/.cache").
Proof. vm_compute. reflexivity. Qed.
Example data_missing : exists msg, (get_user_data_dir (no_statics, deep_machine)).1 = throw runtime_error msg.
Proof. eexists. vm_compute. reflexivity. Qed.

(** Without [clock_getres] the precision is reported to be -1 second. *)
Example fallback_precision :
  (get_clock_precision 10 (fun _ => mret tt) (no_statics, deep_machine)).1 = Ok (Some minus_one).
Proof. vm_compute. reflexivity. Qed.
