(* ===== verification/MacPlatform.v ===== *)
(** * MacPlatform: the macOS branches of [platform/system_folders.hpp] and
    [concurrency/thread.hpp]

    The folders below the home directory and the path of the binary, over the
    interface of Platform and the calls that only macOS has.  The static
    variables are those of Platform. *)

From S2P Require Import Prelude Errors Bytes Convert Path Thread Platform.

(** [_NSGetExecutablePath(buf, &size)] for a buffer of the given size: its answer,
    [size] afterwards and the C string in the buffer; [pthread_setname_np] names
    the calling thread. *)
Class MacOS (W : Type) := {
  NSGetExecutablePath : Z -> M W (Z * Z * bytes);
  mac_pthread_setname_np : bytes -> M W Z;
}.

Section mac.
Context {W : Type} `{FileSystem W, Platform W, MacOS W}.
Abbreviation SM := (M (statics * W)).

Definition mac_data_path (home : bytes) : bytes := path_append (path_append home (str "Library")) (str "Application Support").
Definition mac_cache_path (home : bytes) : bytes := path_append (path_append home (str "Library")) (str "Caches").

Definition mac_user_data_dir : SM bytes :=
  home ← get_home_dir;
  let p := mac_data_path home in
  _ ← assign (set_app_data p);
  e ← outside (fs_exists p);
  if e : bool then mret p else raise runtime_error (expected_to_exist p).

Definition mac_user_cache_dir : SM bytes :=
  home ← get_home_dir;
  let p := mac_cache_path home in
  _ ← assign (set_cache_dir p);
  e ← outside (fs_exists p);
  if e : bool then mret p else raise runtime_error (expected_to_exist p).

(** The first call asks for the size, the second for the path; symbolic links are
    resolved if that is possible. *)
Definition mac_executable_path : M W bytes :=
  r ← NSGetExecutablePath 0;
  let '(answer, size, _) := r in
  if bool_decide (answer <> -1) then
    raise runtime_error "Failed to determine required buffer size for _NSGetExecutablePath"
  else
    r ← NSGetExecutablePath size;
    let '(answer, _, buffer) := r in
    if bool_decide (answer <> 0) then
      raise runtime_error "Failed to determine path to current binary via _NSGetExecutablePath"
    else
      resolved ← realpath (c_string buffer);
      mret (match resolved with Some p => c_string p | None => c_string buffer end).

Definition mac_find_current_binary : SM unit :=
  s ← get;
  if bool_decide (cached_full_path s.1 = []) then
    p ← outside mac_executable_path; assign (set_full_path p)
  else mret tt.

Definition mac_current_binary_path (include_filename : bool) : SM bytes :=
  _ ← mac_find_current_binary;
  s ← get;
  let result := if include_filename then cached_full_path s.1 else parent_path (cached_full_path s.1) in
  e ← outside (fs_exists result);
  if e : bool then mret result else raise runtime_error (expected_to_exist result).

(** Another thread cannot be named. *)
Definition mac_set_thread_name_of (thread : Z) (thread_name : bytes) : M W unit := mret tt.
Definition mac_set_thread_name (thread_name : bytes) : M W unit := _ ← mac_pthread_setname_np thread_name; mret tt.
End mac.

(** ** Laws *)

(** [mac_executable w]: the path of the binary; a buffer without room for it and
    its NUL is refused and [size] set to what is needed. [resolved w p]: [p]
    without symbolic links, if they can be resolved. *)
Class MacLaws (W : Type) `{FolderLaws W, MacOS W} := {
  mac_executable : W -> bytes;
  resolved : W -> bytes -> option bytes;
  mac_executable_path_law (w : W) : Forall (fun c => byte_val c <> 0) (mac_executable w);
  NSGetExecutablePath_law size (w : W) : 0 <= size -> NSGetExecutablePath size w =
    (Ok (if bool_decide (Z.of_nat (length (mac_executable w)) < size) then (0, size, mac_executable w)
         else (-1, Z.of_nat (length (mac_executable w)) + 1, [])), w);
  realpath_law p (w : W) : realpath p w = (Ok (resolved w p), w);
  resolved_path (w : W) p q : resolved w p = Some q -> Forall (fun c => byte_val c <> 0) q;
}.

Section mac_laws.
Context {W : Type} `{MacLaws W}.
Implicit Types (w : W) (s : statics).

Definition mac_binary w : bytes := default (mac_executable w) (resolved w (mac_executable w)).

Lemma mac_executable_path_spec w : mac_executable_path w = (Ok (mac_binary w), w).
Proof.
  unfold mac_executable_path. pose proof (mac_executable_path_law w) as Hn. rewrite (M_bind_step _ _ _ _ _ (NSGetExecutablePath_law 0 w ltac:(lia))).
  rewrite bool_decide_eq_false_2 by lia. rewrite bool_decide_eq_false_2 by (intros Hc; by apply Hc).
  rewrite (M_bind_step _ _ _ _ _ (NSGetExecutablePath_law (Z.of_nat (length (mac_executable w)) + 1) w ltac:(lia))).
  rewrite bool_decide_eq_true_2 by lia. rewrite bool_decide_eq_false_2 by (intros Hc; by apply Hc).
  rewrite (c_string_id _ Hn). rewrite (M_bind_step _ _ _ _ _ (realpath_law _ w)). unfold mac_binary.
  destruct (resolved w (mac_executable w)) as [q|] eqn:E; [|done]. by rewrite (c_string_id q (resolved_path w _ q E)).
Qed.

(** The path of the binary on macOS: as long as it may be, it is read whole, with
    its symbolic links resolved where possible, and once; the function returns
    it, or its directory, if that exists, and throws a [runtime_error] otherwise. *)
Theorem mac_binary_path include_filename s w :
  cached_full_path s = [] \/ cached_full_path s = mac_binary w ->
  wp (mac_current_binary_path include_filename) (fun r st => st = (set_full_path (mac_binary w) s, w) /\
    let p := if include_filename then mac_binary w else parent_path (mac_binary w) in
    match r with
    | Ok result => result = p /\ present w p = true
    | Throw e => exn_class e = runtime_error /\ present w p = false \/ exn_class e = std_system_error
    | UB => False
    end) (s, w).
Proof.
  intros Hc. unfold mac_current_binary_path.
  assert (mac_find_current_binary (s, w) = (Ok tt, (set_full_path (mac_binary w) s, w))) as E.
  { unfold mac_find_current_binary, get, mbind, M_bind. simpl. case_bool_decide as He.
    - unfold outside. simpl. by rewrite mac_executable_path_spec.
    - destruct Hc as [|Hc]; [done|]. rewrite <- Hc. by destruct s. }
  eapply wp_call; [exact (returns_known _ _ _ _ E)|]. intros ? ? [_ ->].
  eapply wp_bind, wp_ret. apply wp_checked; simpl; auto.
Qed.

(** The user's directories are those below the home directory, if they exist. *)
Theorem mac_user_directories s w :
  wp mac_user_data_dir (user_dir_post mac_data_path s w) (s, w) /\
  wp mac_user_cache_dir (user_dir_post mac_cache_path s w) (s, w).
Proof. split; [by apply (user_dir_spec _ set_app_data)|by apply (user_dir_spec _ set_cache_dir)]. Qed.
End mac_laws.

(** ** A machine *)

Record mac : Type := Mac { mac_paths : list bytes; mac_exe : bytes }.

#[export] Instance mac_fs : FileSystem mac := {|
  fs_exists p w := (Ok (bool_decide (p ∈ mac_paths w)), w);
  fs_is_directory _ w := (Ok false, w);
  fs_list _ w := (Ok [], w);
  fs_create_directories _ w := (Ok tt, w);
  fs_remove_all _ w := (Ok tt, w);
  fs_copy _ _ w := (Ok tt, w);
  fs_rename_ec _ _ w := (None, w);
  fs_remove_all_ec _ w := (None, w);
|}.
#[export] Instance mac_platform : Platform mac := {|
  getpwuid_dir w := (Ok (Some (str "/Users/me")), w);
  readlink _ _ w := (Ok None, w);
  dladdr _ w := (Ok None, w);
  realpath p w := (Ok (if bool_decide (p = str "/tmp/link") then Some (str "/Applications/demo") else None), w);
  clock_getres w := (Ok None, w);
  high_resolution_now w := (Ok 0, w);
|}.
#[export] Instance mac_os : MacOS mac := {|
  NSGetExecutablePath size w :=
    (Ok (if bool_decide (Z.of_nat (length (c_string (mac_exe w))) < size) then (0, size, c_string (mac_exe w))
         else (-1, Z.of_nat (length (c_string (mac_exe w))) + 1, [])), w);
  mac_pthread_setname_np _ w := (Ok 0, w);
|}.
#[export, refine] Instance mac_folders : FolderLaws mac := {|
  present w p := bool_decide (p ∈ mac_paths w);
  home_of _ := Some (str "/Users/me");
|}.
Proof. all: done. Defined.

Lemma c_string_nonzero s : Forall (fun c => byte_val c <> 0) (c_string s).
Proof. induction s as [|c s IH]; simpl; [constructor|]. case_bool_decide; [constructor|]. by constructor. Qed.

#[export, refine] Instance mac_laws : MacLaws mac := {|
  mac_executable w := c_string (mac_exe w);
  resolved _ p := if bool_decide (p = str "/tmp/link") then Some (str "/Applications/demo") else None;
|}.
Proof.
  - intros w. apply c_string_nonzero.
  - done.
  - done.
  - intros w p q. case_bool_decide; [|done]. intros [= <-]. apply (c_string_nonzero (str "/Applications/demo")).
Defined.

Definition linked : mac := Mac [str "/Applications"; str "/Users/me/Library/Caches"] (str "/tmp/link").

Lemma mac_binary_path_witness : (mac_current_binary_path false (no_statics, linked)).1 = Ok (str "/Applications").
Proof.
  pose proof (mac_binary_path false no_statics linked (or_introl eq_refl)) as Hw. unfold wp in Hw.
  destruct (mac_current_binary_path false (no_statics, linked)) as [r st] eqn:E.
  assert (exists p, r = Ok p) as [p ->] by (vm_compute in E; injection E as <- _; by eexists).
  destruct Hw as [_ [-> _]]. vm_compute. reflexivity.
Defined.

Example mac_cache_found : (mac_user_cache_dir (no_statics, linked)).1 = Ok (str "/Users/me/Library/Caches").
Proof. vm_compute. reflexivity. Qed.
