(* ===== verification/WindowsPlatform.v ===== *)
(** * WindowsPlatform: the Windows branches of [platform/system_folders.hpp],
    [runtime.hpp], [com_initializer.hpp] and [concurrency/thread.hpp]

    Paths of Windows are texts of 16-bit units.  The calls of the Windows API are
    an interface over that of Windows (its errors); the laws say what the calls
    find, how many buffers of [SHGetKnownFolderPath] are not freed yet and how
    often COM is initialized on the thread. *)

From S2P Require Import Prelude Errors Bytes Heap SharedMemory Windows.

Abbreviation wide := (list Z).

Inductive known_folder := FOLDERID_Profile | FOLDERID_RoamingAppData | FOLDERID_LocalAppData.

(** An [HRESULT] is a signed 32-bit number. *)
Definition S_OK : Z := 0.
Definition S_FALSE : Z := 1.
Definition FAILED (hr : Z) : bool := hr <? 0.

(** [SHGetKnownFolderPath]: its answer and the text it has allocated;
    [GetModuleFileName]: the length it answers and the units written before the
    NUL; [MultiByteToWideChar] of a C string: the units with their NUL, none if
    it fails; [GetThreadDescription]: its answer and the text it has allocated;
    [path_string] and [fs_absolute] are those of [std::filesystem]. *)
Class WindowsShell (W : Type) := {
  SHGetKnownFolderPath : known_folder -> M W (Z * option wide);
  exists_wide : wide -> M W bool;
  path_string : wide -> bytes;
  fs_absolute : bytes -> M W bytes;
  GetModuleHandleEx : Z -> M W (option Z);
  GetModuleFileNameW : option Z -> Z -> M W (Z * wide);
  GetModuleFileNameA : Z -> Z -> M W (Z * bytes);
  MultiByteToWideChar : bytes -> wide;
  SetThreadDescription : Z -> wide -> M W unit;
  GetThreadDescription : Z -> M W (Z * (addr * wide));
  GetCurrentThread : W -> Z;
  Initialize : bool -> M W Z;
  Uninitialize : M W unit;
}.

(** ** Paths *)

Definition is_separator (u : Z) : bool := (u =? 47) || (u =? 92).

Fixpoint take_while (p : Z -> bool) (s : wide) : wide :=
  match s with u :: s => if p u then u :: take_while p s else [] | [] => [] end.
Fixpoint drop_while (p : Z -> bool) (s : wide) : wide :=
  match s with u :: s' => if p u then drop_while p s' else s | [] => [] end.

(** The root name: a drive, or two separators and a server. *)
Definition root_name (p : wide) : wide :=
  match p with
  | a :: 58 :: _ => [a; 58]
  | a :: b :: c :: _ =>
      if is_separator a && is_separator b && negb (is_separator c)
      then a :: b :: take_while (fun u => negb (is_separator u)) (drop 2 p) else []
  | _ => []
  end.
Definition root_path (p : wide) : wide :=
  let name := root_name p in name ++ take_while is_separator (drop (length name) p).

(** [parent_path]: without the last element and the separators before it. *)
Definition parent_wide (p : wide) : wide :=
  let root := root_path p in
  root ++ reverse (drop_while is_separator (drop_while (fun u => negb (is_separator u)) (reverse (drop (length root) p)))).

Definition wtext (s : string) : wide := map byte_val (str s).

Example parent_of_file : parent_wide (wtext "C:\dir\\file.exe") = wtext "C:\dir".
Proof. reflexivity. Qed.
Example parent_at_root : parent_wide (wtext "C:\file.exe") = wtext "C:\" /\ parent_wide (wtext "C:\") = wtext "C:\".
Proof. split; reflexivity. Qed.
Example parent_on_server : parent_wide (wtext "\\srv\share\x") = wtext "\\srv\share".
Proof. reflexivity. Qed.

(** A path from a NUL-terminated text. *)
Definition c_wide (s : wide) : wide := take_while (fun u => negb (u =? 0)) s.

(** ** Folders *)

Record win_statics : Type := WinStatics { w_home : wide; w_app_data : wide; w_cache : wide; w_full_path : wide }.

Section folders.
Context {W : Type} `{Win32 W, WindowsShell W}.
Abbreviation SM := (M (win_statics * W)).

Definition win_outside {A} (m : M W A) : SM A := fun s => let '(r, w) := m s.2 in (r, (s.1, w)).
Definition win_assign (f : win_statics -> win_statics) : SM unit := modify (fun s => (f s.1, s.2)).

Definition set_w_home p s := WinStatics p (w_app_data s) (w_cache s) (w_full_path s).
Definition set_w_app_data p s := WinStatics (w_home s) p (w_cache s) (w_full_path s).
Definition set_w_cache p s := WinStatics (w_home s) (w_app_data s) p (w_full_path s).
Definition set_w_full_path p s := WinStatics (w_home s) (w_app_data s) (w_cache s) p.

(** The text is copied into the path and not freed. *)
Definition known_folder_path (f : known_folder) (error : string) (set : wide -> win_statics -> win_statics) : SM unit :=
  r ← win_outside (SHGetKnownFolderPath f);
  let '(hr, pszPath) := r in
  match pszPath with
  | Some p => if bool_decide (hr = S_OK) then win_assign (set (c_wide p)) else raise runtime_error error
  | None => raise runtime_error error
  end.

Definition win_home_dir : SM wide :=
  s ← get;
  _ ← (if bool_decide (w_home s.1 = []) then
         known_folder_path FOLDERID_Profile "Failed to determine path to user's home directory (FOLDERID_Profile)" set_w_home
       else mret tt);
  s ← get;
  mret (w_home s.1).

Definition win_checked (p : wide) : SM wide :=
  e ← win_outside (exists_wide p);
  if e : bool then mret p
  else raise runtime_error (string_of_list_ascii (str "Path '" ++ path_string p ++ str "' is expected to exist on this system.")).

Definition win_user_data_dir : SM wide :=
  _ ← known_folder_path FOLDERID_RoamingAppData "Failed to determine Cbeam %APPDATA% path" set_w_app_data;
  s ← get; win_checked (w_app_data s.1).

Definition win_user_cache_dir : SM wide :=
  _ ← known_folder_path FOLDERID_LocalAppData "Failed to determine %LOCALAPPDATA% path" set_w_cache;
  s ← get; win_checked (w_cache s.1).

(** ** Binaries *)

(** The loop around [GetModuleFileNameW], which doubles the buffer of [size]
    units. *)
Fixpoint module_loop (fuel : nat) (mod_ : option Z) (size : Z) : M W wide :=
  match fuel with
  | O => undefined
  | Datatypes.S fuel =>
      r ← GetModuleFileNameW mod_ (dword size);
      let '(len, buffer) := r in
      if bool_decide (len = 0) then
        message ← get_last_windows_error_message;
        raise runtime_error (named "Failed to determine path to current binary: " message)
      else if bool_decide (len < size - 1) then mret (take (Z.to_nat len) buffer)
      else module_loop fuel mod_ (size * 2)
  end.

(** [own_address]: the address of the function. *)
Definition win_find_current_binary (own_address : Z) : SM unit :=
  s ← get;
  if bool_decide (w_full_path s.1 = []) then
    mod_ ← win_outside (GetModuleHandleEx own_address);
    p ← win_outside (module_loop 23 mod_ 1024);
    win_assign (set_w_full_path p)
  else mret tt.

Definition win_current_binary_path (own_address : Z) (include_filename : bool) : SM wide :=
  _ ← win_find_current_binary own_address;
  s ← get;
  win_checked (if include_filename then w_full_path s.1 else parent_wide (w_full_path s.1)).

(** [get_path_to_runtime_binary]: the buffer has [MAX_PATH] characters. *)
Definition win_path_to_runtime_binary (own_symbol symbol_inside_runtime_binary : Z) : M W bytes :=
  let symbol := if bool_decide (symbol_inside_runtime_binary = 0) then own_symbol else symbol_inside_runtime_binary in
  hm ← GetModuleHandleEx symbol;
  name ← (match hm with Some h => r ← GetModuleFileNameA h MAX_PATH; mret (if bool_decide (r.1 <= 0) then None else Some r.2)
          | None => mret None end);
  match name with
  | Some path => fs_absolute path
  | None =>
      message ← get_last_windows_error_message;
      raise std_runtime_error (named "cbeam::platform::get_path_to_runtime_binary: Could not get path to current runtime binary: " message)
  end.

(** ** Threads *)

Definition set_thread_name_by_handle (thread_handle : Z) (thread_name : bytes) : M W unit :=
  let wide_name := MultiByteToWideChar thread_name in
  if bool_decide (wide_name = []) then mret tt else SetThreadDescription thread_handle (c_wide wide_name).
Definition win_set_thread_name_of (thread : Z) (thread_name : bytes) : M W unit := set_thread_name_by_handle thread thread_name.
Definition win_set_thread_name (thread_name : bytes) : M W unit :=
  w ← get; set_thread_name_by_handle (GetCurrentThread w) thread_name.

(** [GetCurrentThread] is a handle that means the calling thread in any thread. *)
Definition win_current_thread_id : M W Z := w ← get; mret (GetCurrentThread w).
Definition win_get_thread_name (id : Z) : M W wide :=
  r ← GetThreadDescription id;
  let '(hr, (data, text)) := r in
  if FAILED hr then mret [] else _ ← LocalFree data; mret (c_wide text).

(** ** [com_initializer]

    The constructor yields [_deinitialize_on_destruction]; [log] is [CBEAM_LOG]. *)
Definition com_error : string := "acrion::acrion::platform::com_initializer: Could not initialize COM".
Definition win_com_new (log : string -> M W unit) (multi_threaded do_throw : bool) : M W bool :=
  hr ← Initialize multi_threaded;
  _ ← (if FAILED hr then _ ← log com_error; if do_throw then raise runtime_error com_error else mret tt else mret tt);
  mret (bool_decide (hr = S_OK)).
Definition win_com_delete (_deinitialize_on_destruction : bool) : M W unit :=
  if _deinitialize_on_destruction then Uninitialize else mret tt.
End folders.

(** ** Laws *)

(** What the calls find, [task_buffers]: the buffers of [SHGetKnownFolderPath] not
    freed, and [com_count]: successful initializations of COM on this thread
    that were not undone. *)
Record shell_view := ShellView {
  known_path : known_folder -> option wide;
  present_wide : wide -> bool;
  module_of : option Z -> wide;
  task_buffers : Z;
  com_count : Z;
}.
Definition add_buffer (v : shell_view) : shell_view :=
  ShellView (known_path v) (present_wide v) (module_of v) (task_buffers v + 1) (com_count v).
Definition add_com (n : Z) (v : shell_view) : shell_view :=
  ShellView (known_path v) (present_wide v) (module_of v) (task_buffers v) (com_count v + n).

(** The longest path of Windows. *)
Definition max_wide_path : Z := 32767.

(** [GetModuleFileNameW] cuts a path that does not fit together with its NUL and
    answers the size of the buffer; a second initialization of COM succeeds with
    [S_FALSE] and has to be undone, too. *)
Class ShellLaws (W : Type) `{Win32Laws W, WindowsShell W} := {
  shell_of : W -> shell_view;
  module_path mod_ (w : W) : module_of (shell_of w) mod_ <> [] /\ Z.of_nat (length (module_of (shell_of w) mod_)) <= max_wide_path;
  known_folder_law f (w : W) : returns (SHGetKnownFolderPath f) (fun r w' =>
    match known_path (shell_of w) f with
    | Some p => r = (S_OK, Some p) /\ shell_of w' = add_buffer (shell_of w)
    | None => r.2 = None /\ shell_of w' = shell_of w
    end) w;
  exists_wide_law p (w : W) : wp (exists_wide p) (fun r w' => shell_of w' = shell_of w /\
    match r with Ok e => e = present_wide (shell_of w) p | Throw e => exn_class e = std_system_error | UB => False end) w;
  module_handle_law a (w : W) : returns (GetModuleHandleEx a) (fun _ w' => shell_of w' = shell_of w) w;
  module_name_law mod_ n (w : W) : 0 < n -> returns (GetModuleFileNameW mod_ n) (fun r w' => shell_of w' = shell_of w /\
    let p := module_of (shell_of w) mod_ in
    (r.1 = 0 \/ r = if bool_decide (Z.of_nat (length p) < n) then (Z.of_nat (length p), p) else (n, take (Z.to_nat n - 1) p))) w;
  thread_description_law id (w : W) : returns (GetThreadDescription id) (fun r w' =>
    if FAILED r.1 then wview_of w' = wview_of w
    else (r.2.1 ∉ allocations (wview_of w)) /\ wview_of w' = set_allocations (fun s => {[r.2.1]} ∪ s) (wview_of w)) w;
  initialize_law multi (w : W) : returns (Initialize multi) (fun hr w' =>
    shell_of w' = (if FAILED hr then shell_of w else add_com 1 (shell_of w)) /\ (hr = S_OK -> com_count (shell_of w) = 0)) w;
  uninitialize_law (w : W) : 0 < com_count (shell_of w) ->
    returns Uninitialize (fun _ w' => shell_of w' = add_com (-1) (shell_of w)) w;
}.

Section folders_laws.
Context {W : Type} `{ShellLaws W}.
Implicit Types (w : W) (s : win_statics).

Lemma wp_win_outside {A} (m : M W A) s w (Q : outcome A -> win_statics * W -> Prop) :
  wp m (fun r w' => Q r (s, w')) w -> wp (win_outside m) Q (s, w).
Proof. unfold wp, win_outside. simpl. by destruct (m w). Qed.

(** A call of [SHGetKnownFolderPath] that succeeds leaves a buffer behind. *)
Lemma known_folder_path_spec f error set s w :
  wp (known_folder_path f error set) (fun r st =>
    match known_path (shell_of w) f with
    | Some p => r = Ok tt /\ st.1 = set (c_wide p) s /\ shell_of st.2 = add_buffer (shell_of w)
    | None => (exists e, r = Throw e /\ exn_class e = runtime_error) /\ st.1 = s /\ shell_of st.2 = shell_of w
    end) (s, w).
Proof.
  eapply wp_bind, wp_win_outside, returns_wp; [apply known_folder_law|]. intros [hr path] w' Hr.
  destruct (known_path (shell_of w) f) as [p|].
  - destruct Hr as [[= -> ->] Hv]. by apply wp_ret.
  - destruct Hr as (Hp & Hv). simpl in Hp. subst path. apply wp_raise. split; [|done]. by eexists.
Qed.

Lemma wp_win_checked p s w (Q : outcome wide -> win_statics * W -> Prop) :
  (forall w', shell_of w' = shell_of w -> present_wide (shell_of w) p = true -> Q (Ok p) (s, w')) ->
  (forall w' e, shell_of w' = shell_of w -> exn_class e = runtime_error /\ present_wide (shell_of w) p = false \/ exn_class e = std_system_error ->
     Q (Throw e) (s, w')) ->
  wp (win_checked p) Q (s, w).
Proof.
  intros Hyes Hno. eapply wp_bind, wp_win_outside, wp_mono; [apply exists_wide_law|].
  intros [[]|e|] w' [Hv Hr]; [by apply wp_ret, Hyes|by apply wp_raise, Hno; auto|by apply Hno; auto|done].
Qed.

(** What a function leaves that looks up a folder: the folder, if it is known and
    exists, or an exception; and one more buffer each time the folder is known. *)
Definition folder_post (f : known_folder) w (r : outcome wide) (st : win_statics * W) : Prop :=
  shell_of st.2 = (if known_path (shell_of w) f is Some _ then add_buffer (shell_of w) else shell_of w) /\
  match r with
  | Ok p => exists q, known_path (shell_of w) f = Some q /\ p = c_wide q /\ present_wide (shell_of w) p = true
  | Throw e =>
      exn_class e = runtime_error /\
        match known_path (shell_of w) f with Some q => present_wide (shell_of w) (c_wide q) = false | None => True end \/
      exn_class e = std_system_error
  | UB => False
  end.

Lemma folder_spec f error set (get_path : win_statics -> wide) s w :
  (forall p s, get_path (set p s) = p) ->
  wp (_ ← known_folder_path f error set; s ← get; win_checked (get_path s.1)) (folder_post f w) (s, w).
Proof.
  intros Hset. eapply wp_bind, wp_mono; [apply known_folder_path_spec|]. unfold folder_post.
  intros r [s1 w1]; simpl. destruct (known_path (shell_of w) f) as [q|] eqn:E.
  - intros (-> & -> & Hv). eapply wp_bind, wp_ret. simpl. rewrite Hset.
    apply wp_win_checked; rewrite Hv; simpl; [intros w' Hv' Hp|intros w' e Hv' [[He Hp]|He]]; (split; [done|]); eauto.
  - intros ((e & -> & He) & _ & Hv). auto.
Qed.

(** The user's directories on Windows.  The directories for data and cache are
    looked up at every call, and every call that finds one leaves a buffer of
    the system behind; they must exist.  The profile directory is looked up
    until it was found. *)
Theorem win_user_directories s w :
  wp win_user_data_dir (folder_post FOLDERID_RoamingAppData w) (s, w) /\
  wp win_user_cache_dir (folder_post FOLDERID_LocalAppData w) (s, w) /\
  wp win_home_dir (fun r st =>
    if bool_decide (w_home s = []) then
      match known_path (shell_of w) FOLDERID_Profile with
      | Some p => r = Ok (c_wide p) /\ st.1 = set_w_home (c_wide p) s /\ shell_of st.2 = add_buffer (shell_of w)
      | None => (exists e, r = Throw e /\ exn_class e = runtime_error) /\ st.1 = s /\ shell_of st.2 = shell_of w
      end
    else r = Ok (w_home s) /\ st = (s, w)) (s, w).
Proof.
  split; [by apply (folder_spec _ _ set_w_app_data w_app_data)|]. split; [by apply (folder_spec _ _ set_w_cache w_cache)|].
  unfold win_home_dir. eapply wp_bind, wp_ret. cbn [fst]. case_bool_decide; [|by eapply wp_bind, wp_ret].
  eapply wp_bind, wp_mono; [apply known_folder_path_spec|]. intros r [s1 w1].
  destruct (known_path _ _) as [p|]; simpl; [by intros (-> & -> & ?)|by intros ((e & -> & ?) & ?); eauto].
Qed.

Lemma dword_small z : 0 <= z < 2 ^ 32 -> dword z = z.
Proof. intros Hz. unfold dword. rewrite Z.land_comm. change 0xFFFFFFFF with (Z.ones 32). rewrite Z.land_ones by lia. by apply Z.mod_small. Qed.

Lemma message_error_spec {A} (w : W) (error : bytes -> string) (Q : outcome A -> W -> Prop) :
  (forall e w', exn_class e = runtime_error -> Q (Throw e) w') ->
  wp (message ← get_last_windows_error_message; raise runtime_error (error message)) Q w.
Proof. intros HQ. eapply wp_call; [apply get_last_windows_error_message_spec|]. intros ? w' _. by apply wp_raise, HQ. Qed.

(** Enough doublings: the buffer has [2^j] units. *)
Lemma module_loop_spec j fuel mod_ w :
  (j + fuel = 33)%nat -> (10 <= j <= 16)%nat ->
  wp (module_loop fuel mod_ (2 ^ Z.of_nat j)) (fun r w' =>
    match r with
    | Ok p => p = module_of (shell_of w) mod_ /\ shell_of w' = shell_of w
    | Throw e => exn_class e = runtime_error
    | UB => False
    end) w.
Proof.
  intros Hj. assert (exists v, v = shell_of w) as [v Hv] by eauto. rewrite <- Hv. revert w j Hj Hv.
  induction fuel as [|fuel IH]; intros w j Hj Hv Hr; [lia|]. cbn [module_loop].
  assert (2 ^ 10 <= 2 ^ Z.of_nat j <= 2 ^ 16) as Hsize by (split; apply Z.pow_le_mono_r; lia).
  destruct (module_path mod_ w) as [Hne Hmax]. rewrite <- Hv in Hne, Hmax. unfold max_wide_path in Hmax.
  rewrite dword_small by lia. eapply wp_call; [apply (module_name_law mod_); lia|]. rewrite <- Hv. intros [len buffer] w' [Hv' Hans].
  cbn [fst] in Hans. destruct (decide (len = 0)) as [->|Hz]; [by apply message_error_spec|].
  rewrite bool_decide_eq_false_2 by done. destruct Hans as [|Hans]; [done|].
  case_bool_decide as Hfit; injection Hans as -> ->.
  - case_bool_decide as Hlt; [apply wp_ret; by rewrite Nat2Z.id, firstn_all|].
    replace (2 ^ Z.of_nat j * 2) with (2 ^ Z.of_nat (Datatypes.S j)) by (rewrite Nat2Z.inj_succ, Z.pow_succ_r; lia).
    apply IH; [lia|done|]. destruct (decide (j = 16%nat)) as [->|]; [|lia]. change (2 ^ Z.of_nat 16) with 65536 in *. lia.
  - rewrite bool_decide_eq_false_2 by lia.
    replace (2 ^ Z.of_nat j * 2) with (2 ^ Z.of_nat (Datatypes.S j)) by (rewrite Nat2Z.inj_succ, Z.pow_succ_r; lia).
    apply IH; [lia|done|]. destruct (decide (j = 16%nat)) as [->|]; [|lia]. change (2 ^ Z.of_nat 16) with 65536 in *. lia.
Qed.

(** The path of the binary on Windows: the buffer is doubled until the path of the
    module is read whole, which takes six doublings at most; it is read once.
    The function returns the path or its directory if that exists. *)
Theorem win_binary_path own include_filename w s :
  w_full_path s = [] ->
  wp (win_current_binary_path own include_filename) (fun r st =>
    let result p := if include_filename then p else parent_wide p in
    (exists mod_, let p := module_of (shell_of w) mod_ in st.1 = set_w_full_path p s /\ shell_of st.2 = shell_of w /\
      match r with
      | Ok q => q = result p /\ present_wide (shell_of w) (result p) = true
      | Throw e => exn_class e = runtime_error /\ present_wide (shell_of w) (result p) = false \/ exn_class e = std_system_error
      | UB => False
      end) \/
    (exists e, r = Throw e /\ exn_class e = runtime_error /\ st.1 = s)) (s, w).
Proof.
  intros He. unfold win_current_binary_path, win_find_current_binary. eapply wp_bind.
  eapply wp_bind, wp_ret. cbn [fst]. rewrite bool_decide_eq_true_2 by done.
  eapply wp_bind, wp_win_outside, returns_wp; [apply module_handle_law|]. intros mod_ w1 Hv1.
  eapply wp_bind, wp_win_outside, wp_mono; [by apply (module_loop_spec 10 23); lia|].
  intros [p|e|] w2 Hp; [|by right; eauto|done]. destruct Hp as [-> Hv2]. rewrite Hv1 in *.
  eapply wp_ret, wp_bind, wp_ret. cbn [fst snd]. unfold win_assign.
  apply wp_win_checked; rewrite Hv2; [intros w' Hv' Hp|intros w' e Hv' Hp]; left; exists mod_; by cbn [fst snd]; auto.
Qed.

(** COM is undone only if [S_OK] was answered: an initialization that answers
    [S_FALSE], because COM was initialized before, stays. *)
Theorem win_com_balance log multi do_throw w :
  (forall text w, returns (log text) (fun _ w' => shell_of w' = shell_of w) w) ->
  exists hr, (Initialize multi w).1 = Ok hr /\
    wp (c ← win_com_new log multi do_throw; win_com_delete c) (fun r w' => r <> UB /\
      shell_of w' = (if FAILED hr || bool_decide (hr = S_OK) then shell_of w else add_com 1 (shell_of w))) w.
Proof.
  intros Hlog. destruct (initialize_law multi w) as (hr & w1 & E & Hv1 & Hok). exists hr. split; [by rewrite E|].
  unfold win_com_new. eapply wp_bind, wp_bind, returns_wp; [exact (returns_known _ _ _ _ E)|]. intros ? ? [-> ->].
  destruct (FAILED hr) eqn:Ef; cbn [orb].
  - assert (hr <> S_OK) by (intros ->; done).
    eapply wp_bind, wp_bind, returns_wp; [apply Hlog|]. intros [] w2 Hv2. rewrite Hv1 in Hv2.
    destruct do_throw; [by apply wp_raise|]. apply wp_ret, wp_ret. rewrite bool_decide_eq_false_2 by done. by apply wp_ret.
  - eapply wp_bind, wp_ret, wp_ret. case_bool_decide as Hz; [|by apply wp_ret]. specialize (Hok Hz).
    eapply returns_wp; [apply uninitialize_law; rewrite Hv1; simpl; lia|]. intros [] w2 Hv2. split; [done|].
    rewrite Hv2, Hv1. unfold add_com. destruct (shell_of w). simpl. f_equal. lia.
Qed.

(** The name of a thread is read without leaving memory behind, or is empty. *)
Lemma win_get_thread_name_frees id w hr data text w1 :
  GetThreadDescription id w = (Ok (hr, (data, text)), w1) ->
  returns (win_get_thread_name id) (fun name w' =>
    name = (if FAILED hr then [] else c_wide text) /\ wview_of w' = wview_of w) w.
Proof.
  intros E. destruct (thread_description_law id w) as (r & w1' & E' & Hr). rewrite E in E'. simplify_eq.
  cbn [fst snd] in Hr. unfold win_get_thread_name, returns, mbind, M_bind. rewrite E.
  destruct (FAILED hr); [by eexists _, _|]. destruct Hr as [Hn Hv].
  destruct (LocalFree_law data w1') as ([] & w2 & E2 & Hv2); [rewrite Hv; simpl; set_solver|].
  rewrite E2. eexists _, w2. split; [done|]. split; [done|].
  rewrite Hv2, Hv. destruct (wview_of w). unfold set_allocations. simpl in *. f_equal. set_solver.
Qed.
End folders_laws.

(** ** A desktop *)

Record desktop := Desktop { d_profile : option wide; d_present : list wide; d_module : wide; d_buffers : Z; d_com : Z }.

Definition d_known (d : desktop) (f : known_folder) : option wide :=
  match d_profile d with
  | Some p => Some (p ++ match f with FOLDERID_Profile => [] | FOLDERID_RoamingAppData => wtext "\Roaming" | FOLDERID_LocalAppData => wtext "\Local" end)
  | None => None
  end.
Definition d_path (d : desktop) : wide := if bool_decide (d_module d = []) then wtext "x" else take (Z.to_nat max_wide_path) (d_module d).
Definition d_view (d : desktop) : shell_view :=
  ShellView (d_known d) (fun p => bool_decide (p ∈ d_present d)) (fun _ => d_path d) (d_buffers d) (d_com d).

(** It has no mutexes, sections or error messages. *)
#[export] Instance desktop_win32 : Win32 desktop := {|
  GetLastError _ := 2;
  system_message _ := "message"%string;
  FormatMessageA _ d := (Ok (None, str "not found"), d);
  LocalFree _ d := (Ok tt, d);
  CreateMutexA _ d := (Ok None, d);
  WaitForSingleObject _ d := (Ok WAIT_FAILED, d);
  ReleaseMutex _ d := (Ok false, d);
  CreateFileMappingA _ _ _ d := (Ok None, d);
  OpenFileMappingA _ d := (Ok None, d);
  MapViewOfFile _ _ d := (Ok None, d);
  UnmapViewOfFile _ d := (Ok false, d);
  VirtualQuery _ d := (Ok 0, d);
  CloseHandle _ d := (Ok false, d);
|}.
#[export] Instance desktop_win32_laws : Win32Laws desktop.
Proof.
  refine (Build_Win32Laws desktop _ (fun _ => no_wview) _ _ _ _ _ _ _ _ _ _ _ _ _ _); intros; try done; by eexists _, _.
Defined.

#[export] Instance desktop_shell : WindowsShell desktop := {|
  SHGetKnownFolderPath f d :=
    match d_known d f with
    | Some p => (Ok (S_OK, Some p), Desktop (d_profile d) (d_present d) (d_module d) (d_buffers d + 1) (d_com d))
    | None => (Ok (-1, None), d)
    end;
  exists_wide p d := (Ok (bool_decide (p ∈ d_present d)), d);
  path_string p := map byte_of p;
  fs_absolute p d := (Ok p, d);
  GetModuleHandleEx _ d := (Ok (Some 1), d);
  GetModuleFileNameW _ n d :=
    (Ok (if bool_decide (Z.of_nat (length (d_path d)) < n) then (Z.of_nat (length (d_path d)), d_path d)
         else (n, take (Z.to_nat n - 1) (d_path d))), d);
  GetModuleFileNameA _ n d :=
    (Ok (if bool_decide (Z.of_nat (length (d_path d)) < n) then (Z.of_nat (length (d_path d)), map byte_of (d_path d))
         else (n, map byte_of (take (Z.to_nat n - 1) (d_path d)))), d);
  MultiByteToWideChar s := map byte_val s ++ [0];
  SetThreadDescription _ _ d := (Ok tt, d);
  GetThreadDescription _ d := (Ok (-1, (0, [])), d);
  GetCurrentThread _ := -2;
  Initialize _ d :=
    (Ok (if bool_decide (d_com d = 0) then S_OK else S_FALSE), Desktop (d_profile d) (d_present d) (d_module d) (d_buffers d) (d_com d + 1));
  Uninitialize d := (Ok tt, Desktop (d_profile d) (d_present d) (d_module d) (d_buffers d) (d_com d - 1));
|}.
#[export, refine] Instance desktop_laws : ShellLaws desktop := {| shell_of := d_view |}.
Proof.
  - intros mod_ d. simpl. unfold d_path. case_bool_decide as Hd; [done|]. split.
    + destruct (d_module d); [done|]. intros E%(f_equal length). rewrite length_take in E. unfold max_wide_path in E. simpl length in E. lia.
    + rewrite length_take. unfold max_wide_path. lia.
  - intros f d. unfold returns. cbn. destruct (d_known d f) eqn:E; by eexists _, _.
  - intros p d. by split.
  - intros a d. by eexists _, _.
  - intros mod_ n d Hn. eexists _, _. split; [done|]. split; [done|]. by right.
  - intros id d. by eexists _, _.
  - intros multi d. eexists _, _. split; [done|]. case_bool_decide as Hd; by split; [|intros].
  - intros d _. by eexists _, _.
Defined.

Definition office : desktop :=
  Desktop (Some (wtext "C:\Users\me")) [wtext "C:\Users\me\Roaming"; wtext "C:\bin"] (wtext "C:\bin\" ++ replicate 1500 97) 0 0.
Definition no_win_statics : win_statics := WinStatics [] [] [] [].

Lemma win_binary_path_witness : exists d, win_current_binary_path 7 false (no_win_statics, office) = (Ok (wtext "C:\bin"), d).
Proof.
  pose proof (win_binary_path 7 false office no_win_statics eq_refl) as Hw. unfold wp in Hw.
  destruct (win_current_binary_path 7 false (no_win_statics, office)) as [r st] eqn:E.
  assert (exists p, r = Ok p) as [p ->] by (vm_compute in E; injection E as <- _; by eexists).
  destruct Hw as [(mod_ & _ & _ & -> & _)|(e & He & _)]; [|discriminate He]. exists st. f_equal.
Defined.

Lemma win_com_balance_witness :
  exists hr, (Initialize true office).1 = Ok hr /\
    wp (c ← win_com_new (fun _ => mret tt) true true; win_com_delete c) (fun r w' => r <> UB /\
      shell_of w' = (if FAILED hr || bool_decide (hr = S_OK) then shell_of office else add_com 1 (shell_of office))) office.
Proof. apply (win_com_balance (fun _ => mret tt)). intros text d. by eexists _, _. Defined.

(** Each call leaves a buffer of the system behind. *)
Example buffers_not_freed :
  match win_user_data_dir (no_win_statics, office) with
  | (Ok _, st) => d_buffers (win_user_data_dir st).2.2
  | _ => 0
  end = 2.
Proof. vm_compute. reflexivity. Qed.

(** A nested initialization is never undone. *)
Example com_not_undone :
  match (c ← win_com_new (fun _ => mret tt) true true;
         d ← win_com_new (fun _ => mret tt) true true; _ ← win_com_delete d; win_com_delete c) office with
  | (Ok _, w) => d_com w
  | _ => 0
  end = 1.
Proof. vm_compute. reflexivity. Qed.

(** A path of 260 characters or more is cut, and the cut one returned. *)
Example runtime_binary_cut :
  match (win_path_to_runtime_binary 7 0 office).1 with Ok p => length p | _ => O end = 259%nat.
Proof. vm_compute. reflexivity. Qed.
